(* ===== verification/_CoqProject ===== *)
-Q . S2P
Prelude.v
GoStrings.v
GoNet.v
GoBase64.v
GoIO.v
GoHttp.v
Wst.v
Upgrade.v
Pipe.v
PipeVariants.v
PipeRW.v
Protocol.v
Json.v
Restrictions.v
TargetFrame.v
Socks5.v
HttpProxy.v
ProxyProto.v
Cmsg.v
OrigDst.v
IdleTimer.v
UdpSession.v
Pool.v
ClientUdp.v
Keepalive.v
CertReloader.v
Manager.v
ManagerSys.v
ManagerInv.v
ManagerProps.v
ManagerThms.v
SelfSigned.v
Server.v
ServerThms.v
ServerSessions.v
TunnelArg.v
Client.v
ReverseClient.v
ClientThms.v
Tokens.v
Dialers.v
Sessions.v
Listeners.v
Process.v
Cli.v
Deploy.v
Caddyfile.v
