(* ===== verification/Prelude.v ===== *)
(** * WarpStream: a verified model

    WarpStream tunnels TCP, UDP and Unix connections through one WebSocket or
    HTTP/2 connection.  A client listens for local connections (or asks the server
    to listen for it), opens a carrier to the server, says in a signed token what
    the tunnel is for, and both ends copy data.  This library models the Go sources
    under src/ as functions and step systems, and proves what they guarantee.

    ** The parts of the program, and where they are modelled

    Foundations, the parts of the language and its standard library that the code
    uses:
    - [Prelude]: bytes, machine integers with their wrap-around, the result type
      [go] (a value, an error or a panic), the state monad [io], the tactics
      ([bool_to_prop], [go_simp], ...) and hint databases of the development, and the
      lemmas the components share.
    - [GoStrings], [GoNet], [GoBase64], [GoHttp]: packages strings and strconv,
      net (host and port, addresses, CIDR), base64, and the header maps of net/http.
    - [GoIO]: the two directions of a connection, io.ReadFull, bufio.  The receiving
      side is all the bytes the peer sends before the stream ends and the error after
      them, so every chunking is covered; the sending side is the bytes handed over
      and how many more it takes before it fails.

    The carrier, pkg/wst and pkg/tunnel:
    - [Wst]: connection.go, frames, messages and control frames.
    - [Upgrade]: upgrade.go, both sides of the WebSocket handshake.
    - [Pipe]: pipe.go, [Pipe]; [PipeVariants]: [PipeGorilla] and [PipeBiDir]; [PipeRW]:
      [PipeRW] and [PipeGorillaRW], on connections, standard streams and HTTP/2 streams.
    - [IdleTimer], [ProxyProto]: idletimer.go and proxyproto.go.

    Tunnels and who may open them, pkg/protocol and pkg/server:
    - [Protocol]: types.go; [Json]: its JSON in both directions; [Tokens]: the claims in a
      signed token, from the JSON up.  [Restrictions]: restrictions.go, the parser of rules and
      their evaluation, with the declarative policy [permitted].
    - [Server], [ServerThms]: server.go from a request to a route; [ServerSessions]: what
      the handler of each carrier then does, up to the state of both connections when it
      has returned; [Deploy]: how the server is put on the network, alone ([Start]) or inside Caddy
      (pkg/caddy/caddy.go); [Caddyfile]: the parser of the Caddy module;
      [CertReloader], [SelfSigned]: tls_reloader.go and selfsigned.go.
    - [Manager], [ManagerSys], [ManagerInv], [ManagerProps], [ManagerThms]: manager.go,
      the listeners of reverse tunnels and their pools of waiting client connections.
      [Manager] has the operations on the state, each under its lock; [ManagerSys] the
      goroutines that call them as a step system in which every interleaving of the
      critical sections is a run; the others its invariants and theorems.
    - [UdpSession]: reverse_udp.go.  [Socks5], [HttpProxy], [TargetFrame]: the proxy
      handshakes of both ends and the frame that carries the destination of a dynamic
      reverse tunnel from manager.go to client.go.

    The client, pkg/client, and the command, cmd/warpstream:
    - [TunnelArg]: config.go.  [Client], [ClientThms]: tokens, headers, URLs, transports
      and dispatch of client.go and transport.go; [Dialers]: the client record and the
      connections of its three transports.  [Listeners]: the loops that accept local
      connections; [Sessions]: what the goroutine of one connection does; [Keepalive]:
      [startPipe] with its pipe, ping handler and ping ticker, and with the calls in which
      it waits for the local peer.
    - [ClientUdp], [ReverseClient], [Pool]: the UDP listeners, the reverse tunnel loop
      and the connection pool.
    - [Cmsg], [OrigDst]: cmsg.go and tproxy_linux.go of internal/socket.  [Cli]: main.go;
      [Process]: internal/rlimit and the set-up of logging.

    A definition has the name of the Go function or type it models; a field that clashes
    with another has a prefix.  Every struct that holds state is a record, every enum or
    program counter an inductive type, every operation one function, and the goroutines
    that share a state one function from actions to the next state ([udp_exec],
    [uc_exec], [cr_exec], ...), from which the step relation is built.

    ** What the theorems show

    - Data arrives: messages and pipes deliver exactly the bytes sent, in order, a prefix
      when a connection breaks ([wst_roundtrip], [pipe_transparent], [pipe_prefix],
      [gorilla_pipe_faithful], [bidir_faithful], [rw_pipes_agree], [http2_flushes],
      [udp_session_order], [client_udp_routing]).
    - Only permitted tunnels are opened ([ServeHTTP_gate], [Validate_refines_policy],
      [parseJWTClaims_verified], [restrict_to_exact], [start_tls_enforced],
      [handleSocks5_sound], [authenticateHTTPProxy_exact]).
    - Client and server agree ([client_request_served], [forward_tunnel_reaches_target],
      [token_carries_claims], [claims_json_roundtrip],
      [default_deployment], [caddy_client_request], [reverse_dynamic_target],
      [socks5_end_to_end], and the round trips of frames, headers and arguments).
    - Shared state is handled correctly under every interleaving: the manager's pool is
      exclusive, a bounded FIFO, loses no wake-up and its connections have a fate
      ([pool_exclusive], [pool_refines_fifo], [no_lost_wakeup], [connection_fate],
      [reaper_spares_busy]); the client's pool conserves its connections
      ([pool_conserves], [pool_close_complete]); UDP sessions are unique and do not panic
      ([udp_one_session], [udp_never_panics]); timers and certificates are kept up to date
      ([idle_timeout_correct], [cert_always_valid], [cert_fresh], [client_cert_valid]).
    - Nothing is left open and loops end or back off ([carriers_serve_alike],
      [client_session_clean], [listener_serves_all], [startPipe_clean], [http2_no_leak],
      [reverse_no_leak], [reverse_backoff], [pipe_in_returns], [pipe_shuts_down]).
    - The server is set up as configured ([start_tls_enforced], [transports_tls_once],
      [selfsigned_fits], [UnmarshalCaddyfile_refines], [caddyfile_roundtrip],
      [GetOriginalDst_recovers], [RaiseFdLimit_raises]).
    - Where the code does not do what it means to, a theorem shows the behaviour on a
      concrete run or for all inputs ([restriction_bypass_by_mixed_claims],
      [restrict_to_unix_bypass], [half_tls_served_plain], [orig_dst_v6_unrecognised],
      [stalled_peer_blocks],
      [reverse_listens_on_target], [handleWaitTimeout_race], [acquire_timeout_lost],
      [client_udp_orphan], [reload_race_stale], [server_config_error_ignored],
      [gorilla_concurrent_writers], [stdio_waits_for_input], [accept_errors_spin], ...).

    ** Interfaces and assumptions

    Code that is not part of the repository is a parameter: the regular expressions
    ([RegexpEngine]), the token library ([JwtLibrary], with [JwtLaw] for a verified parse
    and [JwtSigner] for a signed one; [Tokens] derives the latter from [JwtJson], which
    is about JSON payloads), the gorilla WebSocket ([MessageWriter]), the certificates of
    crypto/x509 ([X509]), the token dispenser of Caddy ([Dispenser]), parsers of
    URLs, HTTP messages, queries, durations and YAML, sockets, files, TLS and SHA-1.  The
    laws assumed are documented behaviour, and each theorem that uses one has a witness in
    which the parameter is a concrete function.

    Integers are at the width of the code where they can wrap around ([u16], [i64], ...).
    Loops that are not structural have fuel: the number of bytes left to read, which
    every round of [read_loop] and [pipe_in_loop] decreases ([pipe_in_returns] and
    [read_loop_enough] show that it suffices), or the number of words of a Caddyfile
    ([UnmarshalCaddyfile_refines]).  Loops without an end are step systems or
    functions of the rounds they have taken.  Times are nanoseconds in [Z].

    ** Not modelled

    The bodies of system calls; what is written to the log; the text of JSON, of which
    the values are modelled; YAML, Caddyfile tokens and command-line flags, which
    third-party parsers read; the HTTP/2 and gorilla libraries and crypto, and with them
    the negotiation of HTTP/2: [as_seen] takes a request of the HTTP/2 transport as the
    handler gets it once both sides speak HTTP/2;
    warpstream.go, which has only the version. *)

From Stdlib Require Export ZArith Lia.
From Stdlib Require Import Strings.Byte.
From Stdlib Require Export Init.Byte.
From stdpp Require Export prelude list gmap strings numbers.

Declare Scope go_scope.
Delimit Scope go_scope with go.
Open Scope Z_scope.

(** ** Strings and byte slices

    A Go [string] and a Go [[]byte] are both finite sequences of bytes, so both
    are [list byte]; conversions such as [string(buf[:n])] and [[]byte(s)] are
    the identity.  [b# "text"] is the string literal. *)

Abbreviation bytes := (list byte).

Notation "'b#' s" := (String.list_byte_of_string s%string)
  (at level 1, s at level 0) : stdpp_scope.

#[global] Instance byte_eq_dec : EqDecision byte := Byte.byte_eq_dec.

#[global] Instance byte_countable : Countable byte.
Proof. refine (inj_countable Byte.to_N Byte.of_N _). apply Byte.of_to_N. Defined.

(** ** Machine integers

    An integer of Go type uintN or intN is the [Z] it denotes; a conversion to
    a width writes the wrap-around out. *)

Definition u8 (z : Z) : Z := z mod 2 ^ 8.
Definition u16 (z : Z) : Z := z mod 2 ^ 16.
Definition u32 (z : Z) : Z := z mod 2 ^ 32.
Definition u64 (z : Z) : Z := z mod 2 ^ 64.
Definition i32 (z : Z) : Z := (z + 2 ^ 31) mod 2 ^ 32 - 2 ^ 31.
Definition i64 (z : Z) : Z := (z + 2 ^ 63) mod 2 ^ 64 - 2 ^ 63.

Definition is_u16 (z : Z) : Prop := 0 ≤ z < 2 ^ 16.

(** [uint8] value of a byte, and [byte(z)]. *)
Definition b2z (b : byte) : Z := Z.of_N (Byte.to_N b).
Definition z2b (z : Z) : byte := default x00 (Byte.of_N (Z.to_N (u8 z))).

(** Length of a slice, as the [int] the code computes with. *)
Definition blen {A} (l : list A) : Z := Z.of_nat (length l).

(** Big-endian ([binary.BigEndian.PutUint16] and friends) and little-endian
    byte order; [n] is the number of bytes. *)
Fixpoint be_encode (n : nat) (z : Z) : bytes :=
  match n with
  | O => []
  | S n' => z2b (z / 256 ^ Z.of_nat n') :: be_encode n' z
  end.

Definition be_decode (l : bytes) : Z :=
  fold_left (λ acc b, acc * 256 + b2z b) l 0.

Fixpoint le_decode (l : bytes) : Z :=
  match l with
  | [] => 0
  | b :: l' => b2z b + 256 * le_decode l'
  end.

(** Slicing [s[lo:hi]]; callers establish [lo <= hi <= len(s)], otherwise Go
    panics and the calling definition says so. *)
Definition slice {A} (lo hi : nat) (l : list A) : list A := take (hi - lo) (drop lo l).

(** ** Errors and effects *)

(** An [error] value: the sentinels the code compares against, and
    [fmt.Errorf] with its format and its integer arguments. *)
Inductive error :=
  | EOF
  | ErrUnexpectedEOF
  | ErrClosed
  | ErrClosedPipe
  | ErrShortWrite
  | ErrIO
  | Errorf (format : bytes) (args : list Z).

#[global] Instance error_eq_dec : EqDecision error.
Proof. solve_decision. Defined.

(** What a Go call comes back with: a value, an error, or a run-time panic. *)
Inductive go (A : Type) :=
  | Ok (a : A)
  | Err (e : error)
  | Panic.
Arguments Ok {A} a.
Arguments Err {A} e.
Arguments Panic {A}.

#[global] Instance go_eq_dec {A} `{EqDecision A} : EqDecision (go A).
Proof. solve_decision. Defined.

#[global] Instance go_ret : MRet go := @Ok.
#[global] Instance go_bind : MBind go := λ A B f m,
  match m with Ok a => f a | Err e => Err e | Panic => Panic end.

(** A computation that threads a state of type [S], which it keeps when it
    fails: [S → go A * S]. *)
Definition io (S A : Type) : Type := S → go A * S.
#[global] Instance io_ret S : MRet (io S) := λ A a s, (Ok a, s).
#[global] Instance io_bind S : MBind (io S) := λ A B f m s,
  match m s with
  | (Ok a, s') => f a s'
  | (Err e, s') => (Err e, s')
  | (Panic, s') => (Panic, s')
  end.

Definition io_err {S A} (e : error) : io S A := λ s, (Err e, s).
Definition io_panic {S A} : io S A := λ s, (Panic, s).

(** [for _, x := range l { if p(x) { return true } } return false] where [p]
    may panic. *)
Fixpoint anyM {A} (p : A → go bool) (l : list A) : go bool :=
  match l with
  | [] => Ok false
  | x :: l' => r ← p x; if (r : bool) then Ok true else anyM p l'
  end.

(** ** The development's automation *)

Create HintDb go discriminated.
Create Rewrite HintDb go.

(** Split on the scrutinee of a [match] or [if] in the goal or a hypothesis. *)
Ltac case_match_go :=
  match goal with
  | |- context [ match ?x with _ => _ end ] =>
      lazymatch x with context [ match _ with _ => _ end ] => fail | _ => destruct x eqn:? end
  | H : context [ match ?x with _ => _ end ] |- _ =>
      lazymatch x with context [ match _ with _ => _ end ] => fail | _ => destruct x eqn:? end
  end.

(** Run every branch of a computation and close the impossible ones. *)
Ltac go_cases := repeat (case_match_go; simplify_eq/=; try done).

(** Normalise monadic binds and the registered equations. *)
Ltac go_simp := repeat (progress (cbn [mbind mret go_bind go_ret io_bind io_ret] || autorewrite with go)).

(** Turn boolean tests of the code into propositions. *)
Ltac bool_to_prop :=
  repeat match goal with
  | H : bool_decide _ = true |- _ => apply bool_decide_eq_true in H
  | H : bool_decide _ = false |- _ => apply bool_decide_eq_false in H
  | H : (_ <? _) = true |- _ => apply Z.ltb_lt in H
  | H : (_ <? _) = false |- _ => apply Z.ltb_ge in H
  | H : (_ <=? _) = true |- _ => apply Z.leb_le in H
  | H : (_ <=? _) = false |- _ => apply Z.leb_gt in H
  | H : (_ =? _) = true |- _ => apply Z.eqb_eq in H
  | H : (_ =? _) = false |- _ => apply Z.eqb_neq in H
  | H : _ && _ = true |- _ => apply andb_true_iff in H as [? ?]
  | H : _ || _ = false |- _ => apply orb_false_iff in H as [? ?]
  | H : negb _ = true |- _ => apply negb_true_iff in H
  | H : negb _ = false |- _ => apply negb_false_iff in H
  end.

(** ** Bytes *)

Lemma b2z_range b : 0 ≤ b2z b < 256.
Proof. unfold b2z. pose proof (Byte.to_N_bounded b). lia. Qed.

Lemma b2z_inj b1 b2 : b2z b1 = b2z b2 → b1 = b2.
Proof.
  unfold b2z. intros H%N2Z.inj.
  pose proof (Byte.of_to_N b1) as H1. rewrite H, Byte.of_to_N in H1. congruence.
Qed.

Lemma b2z_z2b z : b2z (z2b z) = z mod 256.
Proof.
  unfold b2z, z2b, u8. change (2 ^ 8) with 256.
  pose proof (Z.mod_pos_bound z 256 ltac:(lia)) as Hz.
  destruct (Byte.of_N _) as [b|] eqn:E; simpl.
  - apply Byte.to_of_N in E. rewrite E. lia.
  - apply Byte.of_N_None_iff in E. lia.
Qed.

Lemma z2b_b2z b : z2b (b2z b) = b.
Proof. apply b2z_inj. rewrite b2z_z2b. apply Z.mod_small, b2z_range. Qed.

Lemma z2b_mod z : z2b (z mod 256) = z2b z.
Proof. unfold z2b, u8. change (2 ^ 8) with 256. by rewrite Z.mod_mod by lia. Qed.

#[export] Hint Resolve b2z_range : go.
#[export] Hint Rewrite b2z_z2b z2b_b2z : go.

(** A decidable statement about the integers below a small bound, checked on
    each of them. *)
Lemma all_below n (P : Z → Prop) `{∀ z, Decision (P z)} :
  forallb (λ i, bool_decide (P (Z.of_nat i))) (seq 0 n) = true →
  ∀ z, 0 ≤ z < Z.of_nat n → P z.
Proof.
  intros H' z Hz. rewrite forallb_forall in H'. rewrite <-(Z2Nat.id z) by lia.
  eapply bool_decide_eq_true, H', in_seq. lia.
Qed.

Lemma u16_id z : is_u16 z → u16 z = z.
Proof. intros. by apply Z.mod_small. Qed.

Lemma i64_id z : - 2 ^ 63 ≤ z < 2 ^ 63 → i64 z = z.
Proof. intros. unfold i64. rewrite Z.mod_small by lia. lia. Qed.

Lemma u16_range z : is_u16 (u16 z).
Proof. apply Z.mod_pos_bound. lia. Qed.
#[export] Hint Resolve u16_range : go.

(** ** Byte order *)

Lemma length_be_encode n z : length (be_encode n z) = n.
Proof. induction n; simpl; congruence. Qed.
#[export] Hint Rewrite length_be_encode : go.

Lemma be_decode_acc l a :
  fold_left (λ acc b, acc * 256 + b2z b) l a = a * 256 ^ blen l + be_decode l.
Proof.
  unfold be_decode, blen. revert a. induction l as [|b l IH]; intros a; simpl.
  - lia.
  - rewrite IH, (IH (0 * 256 + b2z b)). replace (Z.of_nat (S (length l))) with (1 + Z.of_nat (length l)) by lia.
    rewrite Z.pow_add_r by lia. lia.
Qed.

Lemma be_decode_cons b l : be_decode (b :: l) = b2z b * 256 ^ blen l + be_decode l.
Proof. unfold be_decode at 1. cbn [fold_left]. rewrite be_decode_acc. lia. Qed.

Lemma be_decode_bound l : 0 ≤ be_decode l < 256 ^ blen l.
Proof.
  induction l as [|b l IH].
  - unfold blen. simpl. unfold be_decode. simpl. lia.
  - rewrite be_decode_cons. unfold blen in *. simpl length.
    replace (Z.of_nat (S (length l))) with (1 + Z.of_nat (length l)) by lia.
    rewrite Z.pow_add_r by lia. pose proof (b2z_range b). nia.
Qed.

Lemma be_decode_encode n z : be_decode (be_encode n z) = z mod 256 ^ Z.of_nat n.
Proof.
  revert z. induction n as [|n IH]; intros z; cbn [be_encode].
  - by rewrite Z.mod_1_r.
  - rewrite be_decode_cons, IH, b2z_z2b. unfold blen. rewrite length_be_encode.
    replace (Z.of_nat (S n)) with (Z.of_nat n + 1) by lia.
    rewrite Z.pow_add_r, Z.pow_1_r, (Z.rem_mul_r z) by (try apply Z.pow_nonzero; lia). lia.
Qed.

Lemma be_encode_mod n z : be_encode n (z mod 256 ^ Z.of_nat n) = be_encode n z.
Proof.
  assert (∀ k, (n ≤ k)%nat → be_encode n (z mod 256 ^ Z.of_nat k) = be_encode n z) as H; [|by apply H].
  induction n as [|n IH]; intros k Hk; [done|]. cbn [be_encode]. f_equal; [|apply IH; lia].
  rewrite <-(z2b_mod (z / _)), <-(z2b_mod (_ mod _ / _)). f_equal.
  replace (Z.of_nat k) with (Z.of_nat n + (1 + (Z.of_nat k - Z.of_nat n - 1))) by lia.
  rewrite (Z.pow_add_r 256 (Z.of_nat n)) by lia.
  rewrite Z.rem_mul_r by (try apply Z.pow_nonzero; try apply Z.pow_pos_nonneg; lia).
  rewrite (Z.mul_comm (256 ^ Z.of_nat n)), Z.div_add by (apply Z.pow_nonzero; lia).
  rewrite (Z.div_small (z mod _)) by (apply Z.mod_pos_bound, Z.pow_pos_nonneg; lia).
  rewrite Z.add_0_l, Z.pow_add_r, Z.pow_1_r by lia.
  rewrite Z.rem_mul_r by (try apply Z.pow_pos_nonneg; lia).
  rewrite Z.mul_comm, Z.mod_add by lia. by rewrite Z.mod_mod by lia.
Qed.

Lemma be_encode_decode l : be_encode (length l) (be_decode l) = l.
Proof.
  induction l as [|b l IH]; [done|]. cbn [be_encode length]. rewrite be_decode_cons.
  pose proof (be_decode_bound l) as Hb. unfold blen in *. f_equal.
  - rewrite Z.div_add_l, (Z.div_small (be_decode l)) by lia. rewrite Z.add_0_r. apply z2b_b2z.
  - rewrite <-be_encode_mod, Z.add_comm, Z.mod_add, be_encode_mod by lia. done.
Qed.

(** ** Slices *)

Lemma slice_all {A} (l : list A) n : n = length l → slice 0 n l = l.
Proof. intros ->. unfold slice. rewrite Nat.sub_0_r. by apply take_ge. Qed.

Lemma blen_nonneg {A} (l : list A) : 0 ≤ blen l.
Proof. unfold blen. lia. Qed.

Lemma blen_app {A} (l k : list A) : blen (l ++ k) = blen l + blen k.
Proof. unfold blen. rewrite length_app. lia. Qed.

Lemma blen_cons {A} (x : A) l : blen (x :: l) = 1 + blen l.
Proof. unfold blen. simpl. lia. Qed.

#[export] Hint Rewrite @blen_app @blen_cons : go.
#[export] Hint Resolve blen_nonneg : go.

(** ** Effects *)

Lemma go_bind_ok {A B} (m : go A) (f : A → go B) b :
  m ≫= f = Ok b ↔ ∃ a, m = Ok a ∧ f a = Ok b.
Proof. destruct m; simpl; naive_solver. Qed.

Lemma io_bind_ok {S A B} (m : io S A) (f : A → io S B) s b s'' :
  (m ≫= f) s = (Ok b, s'') ↔ ∃ a s', m s = (Ok a, s') ∧ f a s' = (Ok b, s'').
Proof.
  change ((m ≫= f) s) with (match m s with
    | (Ok a, s') => f a s' | (Err e, s') => (Err e, s') | (Panic, s') => (Panic, s') end).
  destruct (m s) as [[] ?]; naive_solver.
Qed.

Lemma anyM_existsb {A} (p : A → bool) l :
  anyM (λ x, Ok (p x)) l = Ok (existsb p l).
Proof. induction l as [|x l IH]; [done|]. simpl. destruct (p x); [done|apply IH]. Qed.

Lemma anyM_ext {A} (p q : A → go bool) l :
  (∀ x, x ∈ l → p x = q x) → anyM p l = anyM q l.
Proof.
  induction l as [|x l IH]; intros H; [done|]. simpl. rewrite (H x) by set_solver.
  destruct (q x); simpl; [|done..]. destruct a; [done|]. apply IH. set_solver.
Qed.

Lemma anyM_true {A} (p : A → go bool) l :
  anyM p l = Ok true → ∃ x, x ∈ l ∧ p x = Ok true.
Proof.
  induction l as [|x l IH]; [done|]. cbn [anyM].
  destruct (p x) as [[]| |] eqn:E; simpl; intros H; try done.
  - exists x. set_solver.
  - apply IH in H as (y & ? & ?). exists y. set_solver.
Qed.
