(* ===== verification/GoStrings.v ===== *)
(** The functions of Go's [strings], [strconv] and [fmt] packages that the
    program calls, on byte strings.  Case folding and white space follow the
    Unicode tables of the Go library as far as the program's uses can reach
    them: one side of every fold is an ASCII constant, so only the two
    non-ASCII code points that fold to ASCII letters matter. *)

From S2P Require Import Prelude.

(** ** [strings] *)

Fixpoint HasPrefix (s prefix : bytes) : bool :=
  match prefix, s with
  | [], _ => true
  | p :: prefix', c :: s' => bool_decide (c = p) && HasPrefix s' prefix'
  | _ :: _, [] => false
  end.

Definition TrimPrefix (s prefix : bytes) : bytes :=
  if HasPrefix s prefix then drop (length prefix) s else s.

(** [strings.Cut] around the first occurrence of [sep]. *)
Fixpoint Cut (s sep : bytes) : option (bytes * bytes) :=
  if HasPrefix s sep then Some ([], drop (length sep) s)
  else match s with
       | [] => None
       | c :: s' => '(a, b) ← Cut s' sep; Some (c :: a, b)
       end.

Definition Contains (s sub : bytes) : bool :=
  match Cut s sub with Some _ => true | None => false end.

(** [genSplit] for a non-empty separator: at most [n] cuts. *)
Fixpoint split_cuts (n : nat) (s sep : bytes) : list bytes :=
  match n with
  | O => [s]
  | S n' =>
      match Cut s sep with
      | None => [s]
      | Some (a, b) => a :: split_cuts n' b sep
      end
  end.

(** A string has at most as many occurrences of a non-empty separator as it has bytes. *)
Definition Split (s sep : bytes) : list bytes := split_cuts (length s) s sep.
Definition SplitN (s sep : bytes) (n : nat) : list bytes := split_cuts (n - 1) s sep.

(** First and last position of a byte ([bytealg.IndexByteString]). *)
Fixpoint IndexByte (s : bytes) (c : byte) : option nat :=
  match s with
  | [] => None
  | d :: s' => if bool_decide (d = c) then Some O else S <$> IndexByte s' c
  end.

Fixpoint LastIndexByte (s : bytes) (c : byte) : option nat :=
  match s with
  | [] => None
  | d :: s' =>
      match LastIndexByte s' c with
      | Some i => Some (S i)
      | None => if bool_decide (d = c) then Some O else None
      end
  end.

(** UTF-8 encodings of the code points for which [unicode.IsSpace] holds. *)
Definition ws_encodings : list bytes :=
  [[x09]; [x0a]; [x0b]; [x0c]; [x0d]; [x20]; [xc2; x85]; [xc2; xa0]; [xe1; x9a; x80];
   [xe2; x80; x80]; [xe2; x80; x81]; [xe2; x80; x82]; [xe2; x80; x83]; [xe2; x80; x84];
   [xe2; x80; x85]; [xe2; x80; x86]; [xe2; x80; x87]; [xe2; x80; x88]; [xe2; x80; x89];
   [xe2; x80; x8a]; [xe2; x80; xa8]; [xe2; x80; xa9]; [xe2; x80; xaf]; [xe2; x81; x9f];
   [xe3; x80; x80]].

(** Drop leading members of [encs]; each drop removes at least one byte. *)
Fixpoint strip_fuel (n : nat) (encs : list bytes) (s : bytes) : bytes :=
  match n with
  | O => s
  | S n' =>
      match List.find (HasPrefix s) encs with
      | Some w => strip_fuel n' encs (drop (length w) s)
      | None => s
      end
  end.

Definition TrimLeftSpace (s : bytes) : bytes := strip_fuel (length s) ws_encodings s.
Definition TrimRightSpace (s : bytes) : bytes :=
  reverse (strip_fuel (length s) (reverse <$> ws_encodings) (reverse s)).
Definition TrimSpace (s : bytes) : bytes := TrimRightSpace (TrimLeftSpace s).

(** [strings.Trim] with an ASCII cutset. *)
Fixpoint trim_left_set (set s : bytes) : bytes :=
  match s with
  | [] => []
  | c :: s' => if bool_decide (c ∈ set) then trim_left_set set s' else s
  end.
Definition Trim (s set : bytes) : bytes :=
  reverse (trim_left_set set (reverse (trim_left_set set s))).

Definition is_ascii (b : byte) : bool := b2z b <? 128.

(** ASCII lower case; other bytes unchanged. *)
Definition lower_byte (b : byte) : byte :=
  if (65 <=? b2z b) && (b2z b <=? 90) then z2b (b2z b + 32) else b.

(** [strings.EqualFold s t] for an ASCII [t]: besides the two ASCII cases, [k]
    also folds with U+212A and [s] with U+017F. *)
Fixpoint EqualFold (s t : bytes) : bool :=
  match t with
  | [] => bool_decide (s = [])
  | c :: t' =>
      match s with
      | [] => false
      | d :: s' =>
          if bool_decide (lower_byte d = lower_byte c) then EqualFold s' t'
          else if bool_decide (lower_byte c = x6b) && HasPrefix s [xe2; x84; xaa] then
            EqualFold (drop 3 s) t'
          else if bool_decide (lower_byte c = x73) && HasPrefix s [xc5; xbf] then
            EqualFold (drop 2 s) t'
          else false
      end
  end.

(** [strings.ToLower s == t] for an ASCII lower-case [t] without the letter i:
    the only non-ASCII code point whose lower case is such a letter is U+212A. *)
Fixpoint ToLowerIs (s t : bytes) : bool :=
  match t with
  | [] => bool_decide (s = [])
  | c :: t' =>
      match s with
      | [] => false
      | d :: s' =>
          if bool_decide (lower_byte d = c) then ToLowerIs s' t'
          else if bool_decide (c = x6b) && HasPrefix s [xe2; x84; xaa] then
            ToLowerIs (drop 3 s) t'
          else false
      end
  end.

(** ** [strconv] and [fmt] *)

Definition is_digit (c : byte) : bool := (48 <=? b2z c) && (b2z c <=? 57).

Inductive num_error := ErrSyntax | ErrRange.

(** [strconv.ParseUint(s, 10, bits)]: the value and the error, both of which
    callers may look at; [n] is the value of the digits read so far. *)
Fixpoint parse_uint_digits (bits : Z) (s : bytes) (n : Z) : Z * option num_error :=
  match s with
  | [] => (n, None)
  | c :: s' =>
      if is_digit c then
        let cutoff := (2 ^ 64 - 1) / 10 + 1 in
        if cutoff <=? n then (2 ^ bits - 1, Some ErrRange)
        else
          let n1 := n * 10 + (b2z c - 48) in
          if (2 ^ 64 <=? n1) || (2 ^ bits - 1 <? n1) then (2 ^ bits - 1, Some ErrRange)
          else parse_uint_digits bits s' n1
      else (0, Some ErrSyntax)
  end.

Definition ParseUint (s : bytes) (bits : Z) : Z * option num_error :=
  match s with
  | [] => (0, Some ErrSyntax)
  | _ => parse_uint_digits bits s 0
  end.

(** [fmt.Sprintf("%d", z)] for [0 <= z]: [n] bounds the number of digits. *)
Fixpoint dec_digits (n : nat) (z : Z) : bytes :=
  match n with
  | O => []
  | S n' => if z <? 10 then [z2b (48 + z)] else dec_digits n' (z / 10) ++ [z2b (48 + z mod 10)]
  end.

Definition fmt_d (z : Z) : bytes := dec_digits (S (Z.to_nat (Z.log2 z))) z.

(** Lower-case hexadecimal without leading zeros ([appendHex] of [net/netip]),
    for a 16-bit value. *)
Definition hex_digit (z : Z) : byte := if z <? 10 then z2b (48 + z) else z2b (87 + z).
Definition fmt_x16 (z : Z) : bytes :=
  (if 0x1000 <=? z then [hex_digit (z / 0x1000)] else []) ++
  (if 0x100 <=? z then [hex_digit (z / 0x100 mod 16)] else []) ++
  (if 0x10 <=? z then [hex_digit (z / 0x10 mod 16)] else []) ++
  [hex_digit (z mod 16)].

(** ** Laws *)

Lemma HasPrefix_spec s p : HasPrefix s p = true ↔ ∃ k, s = p ++ k.
Proof.
  revert s. induction p as [|c p IH]; intros [|d s]; simpl.
  - naive_solver.
  - naive_solver.
  - split; [done|]. by intros [k ?].
  - rewrite andb_true_iff, bool_decide_eq_true, IH. naive_solver.
Qed.

Lemma HasPrefix_app p k : HasPrefix (p ++ k) p = true.
Proof. apply HasPrefix_spec. eauto. Qed.

Lemma TrimPrefix_app p k : TrimPrefix (p ++ k) p = k.
Proof. unfold TrimPrefix. by rewrite HasPrefix_app, drop_app_length. Qed.

Lemma HasPrefix_nil_r s : HasPrefix s [] = true.
Proof. by destruct s. Qed.

(** Cutting really finds the separator, and finds it first. *)
Lemma Cut_some s sep a b : Cut s sep = Some (a, b) → s = a ++ sep ++ b.
Proof.
  revert a b. induction s as [|c s IH]; intros a b; cbn [Cut].
  - destruct (HasPrefix [] sep) eqn:E; [|done]. intros [= <- <-].
    apply HasPrefix_spec in E as [k E]. destruct sep; [|done]. by rewrite drop_nil.
  - destruct (HasPrefix (c :: s) sep) eqn:E.
    + intros [= <- <-]. apply HasPrefix_spec in E as [k ->]. by rewrite drop_app_length.
    + destruct (Cut s sep) as [[a' b']|]; simpl; [|done]. intros [= <- <-].
      by rewrite (IH a' b').
Qed.

(** A text without the separator's first byte is what the first cut returns. *)
Lemma Cut_app a c sep b : c ∉ a → Cut (a ++ (c :: sep) ++ b) (c :: sep) = Some (a, b).
Proof.
  intros Ha. induction a as [|d a IH].
  - change ([] ++ (c :: sep) ++ b) with ((c :: sep) ++ b).
    destruct ((c :: sep) ++ b) eqn:E; [done|]. rewrite <-E.
    assert (HasPrefix ((c :: sep) ++ b) (c :: sep) = true) as Hp by apply HasPrefix_app.
    rewrite E in Hp |- *. cbn [Cut]. rewrite Hp, <-E. by rewrite drop_app_length.
  - cbn [app] in IH |- *. cbn [Cut HasPrefix]. rewrite bool_decide_false by set_solver.
    cbn [andb]. rewrite IH by set_solver. done.
Qed.

(** A cut around one byte is around its first occurrence. *)
Lemma Cut_byte s c a b : Cut s [c] = Some (a, b) ↔ s = a ++ [c] ++ b ∧ c ∉ a.
Proof.
  split; [|intros [-> H]; by apply (Cut_app a c [] b)].
  revert a. induction s as [|d s IH]; intros a; cbn [Cut HasPrefix]; [done|].
  destruct (bool_decide_reflect (d = c)) as [->|Hd]; cbn [andb].
  - rewrite HasPrefix_nil_r. cbn [length drop]. intros [= <- <-]. split; [done|set_solver].
  - destruct (Cut s [c]) as [[a' b']|] eqn:E; cbn; [|done]. intros [= <- <-].
    destruct (IH a' eq_refl) as [-> Hn]. split; [done|]. set_solver.
Qed.

Lemma Cut_none s c : c ∉ s → Cut s [c] = None.
Proof.
  induction s as [|d s IH]; intros H; [done|]. cbn [Cut HasPrefix].
  rewrite bool_decide_false by set_solver. cbn [andb]. rewrite IH by set_solver. done.
Qed.

(** Two parts around one separator. *)
Lemma Split_two a b c : c ∉ a → c ∉ b → Split (a ++ [c] ++ b) [c] = [a; b].
Proof.
  intros Ha Hb. unfold Split. rewrite !length_app. cbn [length]. rewrite Nat.add_succ_r. cbn [split_cuts].
  rewrite Cut_app by done. destruct (length a + length b)%nat; cbn [split_cuts]; [done|]. by rewrite Cut_none.
Qed.

Lemma Contains_split s sep : Contains s sep = true → (2 ≤ length (Split s sep))%nat ∨ s = [].
Proof.
  unfold Contains, Split. destruct s as [|c s]; [by right|]. left.
  cbn [length split_cuts]. destruct (Cut (c :: s) sep) as [[a b]|]; [|done].
  destruct (length s); simpl; [lia|]. destruct (Cut b sep) as [[]|]; simpl; lia.
Qed.

Lemma IndexByte_none s c : IndexByte s c = None ↔ c ∉ s.
Proof.
  induction s as [|d s IH]; simpl; [set_solver|].
  destruct (bool_decide_reflect (d = c)); simpl; [set_solver|].
  rewrite fmap_None, IH. set_solver.
Qed.

Lemma IndexByte_some s c i :
  IndexByte s c = Some i → s = take i s ++ (c :: drop (S i) s) ∧ (c ∉ take i s) ∧ (i < length s)%nat.
Proof.
  revert i. induction s as [|d s IH]; intros i; simpl; [done|].
  destruct (bool_decide_reflect (d = c)) as [->|Hne].
  - intros [= <-]. simpl. repeat split; [set_solver|lia].
  - intros (j & (E & Hn & Hl)%IH & ->)%fmap_Some. simpl. repeat split; [|set_solver|lia].
    f_equal. exact E.
Qed.

Lemma IndexByte_app s c k : c ∉ s → IndexByte (s ++ c :: k) c = Some (length s).
Proof.
  induction s as [|d s IH]; intros Hs; simpl; [by rewrite bool_decide_true|].
  rewrite bool_decide_false by set_solver. by rewrite IH by set_solver.
Qed.

Lemma LastIndexByte_none s c : LastIndexByte s c = None ↔ c ∉ s.
Proof.
  induction s as [|d s IH]; simpl; [set_solver|].
  destruct (LastIndexByte s c) eqn:E.
  - split; [done|]. intros H. exfalso. assert (c ∉ s) as H' by set_solver. by apply IH in H'.
  - destruct (bool_decide_reflect (d = c)); [set_solver|]. split; [|done].
    intros _. assert (c ∉ s) by by apply IH. set_solver.
Qed.

Lemma LastIndexByte_app_r s c k : c ∉ k → LastIndexByte (s ++ c :: k) c = Some (length s).
Proof.
  intros Hk. induction s as [|d s IH]; simpl.
  - apply LastIndexByte_none in Hk. rewrite Hk. by rewrite bool_decide_true.
  - by rewrite IH.
Qed.

(** ** Decimal numbers *)

Lemma is_digit_48 z : 0 ≤ z < 10 → is_digit (z2b (48 + z)) = true ∧ b2z (z2b (48 + z)) - 48 = z.
Proof.
  intros H. unfold is_digit. rewrite b2z_z2b, Z.mod_small by lia. split; [|lia].
  apply andb_true_iff. split; apply Z.leb_le; lia.
Qed.

Lemma parse_uint_digits_app bits s k n m :
  parse_uint_digits bits s n = (m, None) →
  parse_uint_digits bits (s ++ k) n = parse_uint_digits bits k m.
Proof.
  revert n. induction s as [|c s IH]; intros n; simpl; [by intros [= ->]|].
  destruct (is_digit c); [|done]. cbv zeta. destruct (_ <=? n); [done|].
  destruct (_ || _); [done|]. apply IH.
Qed.

Lemma dec_digits_pos n z : n ≠ O → dec_digits n z ≠ [].
Proof. destruct n; [done|]. intros _. simpl. destruct (z <? 10); [done|]. by destruct (dec_digits n (z / 10)). Qed.

Lemma dec_digits_parse bits n z :
  0 < bits ≤ 64 → 0 ≤ z < 2 ^ bits → z < 10 ^ Z.of_nat n →
  parse_uint_digits bits (dec_digits n z) 0 = (z, None).
Proof.
  intros Hbits. revert z. induction n as [|n IH]; intros z Hz Hn; [simpl in *; f_equal; lia|].
  assert (2 ^ bits ≤ 2 ^ 64) as H64 by (apply Z.pow_le_mono_r; lia).
  cbn [dec_digits]. destruct (Z.ltb_spec z 10) as [Hlt|Hge].
  - cbn [parse_uint_digits]. destruct (is_digit_48 z ltac:(lia)) as [-> ->]. cbv zeta.
    rewrite (proj2 (Z.leb_gt _ 0)) by (change ((2 ^ 64 - 1) / 10 + 1) with 1844674407370955162; lia).
    rewrite (proj2 (Z.leb_gt (2 ^ 64) _)), (proj2 (Z.ltb_ge (2 ^ bits - 1) _)) by lia.
    simpl. f_equal.
  - replace (Z.of_nat (S n)) with (1 + Z.of_nat n) in Hn by lia.
    rewrite Z.pow_add_r, Z.pow_1_r in Hn by lia.
    pose proof (Z.div_mod z 10 ltac:(lia)) as Hdm.
    pose proof (Z.mod_pos_bound z 10 ltac:(lia)) as Hm.
    erewrite parse_uint_digits_app; [|apply IH; lia].
    cbn [parse_uint_digits]. destruct (is_digit_48 (z mod 10) Hm) as [-> ->]. cbv zeta.
    rewrite (proj2 (Z.leb_gt _ (z / 10))) by (change ((2 ^ 64 - 1) / 10 + 1) with 1844674407370955162; lia).
    rewrite (proj2 (Z.leb_gt (2 ^ 64) _)), (proj2 (Z.ltb_ge (2 ^ bits - 1) _)) by lia.
    simpl. f_equal. lia.
Qed.

(** [ParseUint] reads back what [%d] prints. *)
Lemma ParseUint_fmt_d bits z :
  0 < bits ≤ 64 → 0 ≤ z < 2 ^ bits → ParseUint (fmt_d z) bits = (z, None).
Proof.
  intros Hb Hz. unfold ParseUint.
  assert (fmt_d z ≠ []) by by apply dec_digits_pos.
  destruct (fmt_d z) eqn:E; [done|]. rewrite <-E. apply dec_digits_parse; [done..|].
  destruct (decide (z = 0)) as [->|]; [done|].
  pose proof (Z.log2_spec z ltac:(lia)) as [_ Hl]. pose proof (Z.log2_nonneg z).
  replace (Z.of_nat (S (Z.to_nat (Z.log2 z)))) with (Z.succ (Z.log2 z)) by lia.
  eapply Z.lt_le_trans; [exact Hl|]. apply Z.pow_le_mono_l. lia.
Qed.

Lemma ParseUint_range s bits n e : 0 ≤ bits → ParseUint s bits = (n, e) → 0 ≤ n < 2 ^ bits.
Proof.
  intros Hb. assert (0 < 2 ^ bits) by (apply Z.pow_pos_nonneg; lia).
  assert (∀ m, 0 ≤ m < 2 ^ bits → parse_uint_digits bits s m = (n, e) → 0 ≤ n < 2 ^ bits) as Hd.
  { induction s as [|c s IH]; intros m Hm; cbn [parse_uint_digits]; [intros [= <- <-]; lia|].
    unfold is_digit. destruct (_ && _) eqn:Ed; [|intros [= <- <-]; lia]. bool_to_prop. cbv zeta.
    destruct (_ <=? m); [intros [= <- <-]; lia|].
    destruct (_ || _) eqn:Eo; [intros [= <- <-]; lia|]. bool_to_prop. apply IH. lia. }
  unfold ParseUint. destruct s; [intros [= <- <-]; lia|]. apply Hd. lia.
Qed.

Lemma dec_digits_no n z (c : byte) : is_digit c = false → 0 ≤ z → c ∉ dec_digits n z.
Proof.
  intros Hc. revert z. induction n as [|n IH]; intros z Hz; cbn [dec_digits]; [set_solver|].
  assert (∀ m, 0 ≤ m < 10 → c ≠ z2b (48 + m)) as Hm.
  { intros m Hm ->. destruct (is_digit_48 m Hm). congruence. }
  destruct (Z.ltb_spec z 10).
  - rewrite list_elem_of_singleton. apply Hm. lia.
  - pose proof (IH (z / 10) ltac:(apply Z.div_pos; lia)).
    pose proof (Hm (z mod 10) ltac:(apply Z.mod_pos_bound; lia)). set_solver.
Qed.

(** ** Trimming *)

(** No encoding of white space starts or ends with a graphic ASCII byte. *)
Definition graphic_ascii (c : byte) : bool := (32 <? b2z c) && (b2z c <? 128).

Lemma ws_find_none encs c s :
  forallb (λ enc, match enc with e :: _ => negb (graphic_ascii e) | [] => false end) encs = true →
  graphic_ascii c = true → List.find (HasPrefix (c :: s)) encs = None.
Proof.
  intros He Hc. induction encs as [|[|e enc] encs IH]; [done|done|]. cbn [forallb] in He. bool_to_prop.
  cbn [List.find HasPrefix]. rewrite bool_decide_false by (intros ->; congruence). cbn [andb]. auto.
Qed.

Lemma strip_graphic n encs c s :
  forallb (λ enc, match enc with e :: _ => negb (graphic_ascii e) | [] => false end) encs = true →
  graphic_ascii c = true → strip_fuel n encs (c :: s) = c :: s.
Proof. intros He Hc. destruct n; cbn [strip_fuel]; [done|]. by rewrite ws_find_none. Qed.

(** Text that starts and ends with graphic bytes is not trimmed. *)
Lemma TrimSpace_graphic c s d : graphic_ascii c = true → graphic_ascii d = true →
  TrimSpace (c :: s ++ [d]) = c :: s ++ [d].
Proof.
  intros Hc Hd. unfold TrimSpace, TrimLeftSpace. rewrite strip_graphic by done. unfold TrimRightSpace.
  change (c :: s ++ [d]) with ((c :: s) ++ [d]). rewrite reverse_snoc.
  rewrite strip_graphic by done. by rewrite reverse_cons, reverse_involutive.
Qed.

Lemma TrimSpace_graphic1 c : graphic_ascii c = true → TrimSpace [c] = [c].
Proof.
  intros Hc. unfold TrimSpace, TrimLeftSpace. rewrite strip_graphic by done. unfold TrimRightSpace.
  cbn [reverse rev_append]. by rewrite strip_graphic.
Qed.

Lemma TrimSpace_all_graphic s : Forall (λ c, graphic_ascii c = true) s → TrimSpace s = s.
Proof.
  intros H. destruct s as [|c s] using list_ind; [done|]. clear IHs.
  destruct s as [|d s _] using rev_ind; [apply TrimSpace_graphic1; by inversion H|].
  inversion H as [|?? Hc Hs]; subst. apply Forall_app in Hs as [_ Hd]. inversion Hd. by apply TrimSpace_graphic.
Qed.

(** One blank in front of graphic text. *)
Lemma TrimSpace_blank s : s ≠ [] → Forall (λ c, graphic_ascii c = true) s → TrimSpace (x20 :: s) = s.
Proof.
  intros Hn Hg. destruct s as [|c s]; [done|]. inversion Hg; subst.
  assert (TrimLeftSpace (x20 :: c :: s) = TrimLeftSpace (c :: s)) as E.
  { unfold TrimLeftSpace. rewrite (strip_graphic (length (c :: s)) ws_encodings c s) by done.
    transitivity (strip_fuel (length (c :: s)) ws_encodings (c :: s)); [reflexivity|]. by rewrite strip_graphic. }
  unfold TrimSpace. rewrite E. change (TrimSpace (c :: s) = c :: s). by apply TrimSpace_all_graphic.
Qed.

(** Trimming only drops. *)
Lemma strip_fuel_length n encs s : (length (strip_fuel n encs s) ≤ length s)%nat.
Proof.
  revert s. induction n as [|n IH]; intros s; cbn [strip_fuel]; [done|].
  destruct (List.find _ _) as [w|]; [|done]. etrans; [apply IH|]. rewrite length_drop. lia.
Qed.

Lemma TrimSpace_length s : (length (TrimSpace s) ≤ length s)%nat.
Proof.
  unfold TrimSpace, TrimRightSpace, TrimLeftSpace. rewrite length_reverse. etrans; [apply strip_fuel_length|].
  rewrite length_reverse. apply strip_fuel_length.
Qed.
