(* ===== verification/GoNet.v ===== *)
(** The functions of Go's [net] and [net/netip] packages that the program
    calls: IP addresses, networks and host:port strings.  A [net.IP] is its
    byte slice; the nil IP is the empty slice or, where a function returns
    nil, [None]. *)

From S2P Require Import Prelude GoStrings.

(** ** IP addresses *)

Definition v4InV6Prefix : bytes := replicate 10 x00 ++ [xff; xff].

(** [net.IPv4(a, b, c, d)] *)
Definition IPv4 (a b c d : byte) : bytes := v4InV6Prefix ++ [a; b; c; d].

Definition To4 (ip : bytes) : option bytes :=
  if bool_decide (length ip = 4%nat) then Some ip
  else if bool_decide (length ip = 16%nat) && bool_decide (take 12 ip = v4InV6Prefix)
  then Some (drop 12 ip)
  else None.

Definition To16 (ip : bytes) : option bytes :=
  if bool_decide (length ip = 4%nat) then Some (v4InV6Prefix ++ ip)
  else if bool_decide (length ip = 16%nat) then Some ip
  else None.

(** Join with a separator byte. *)
Fixpoint join (sep : bytes) (l : list bytes) : bytes :=
  match l with
  | [] => []
  | [x] => x
  | x :: l' => x ++ sep ++ join sep l'
  end.

Definition string4 (ip : bytes) : bytes := join b#"." ((λ b, fmt_d (b2z b)) <$> ip).

(** The eight 16-bit groups of a 16-byte address. *)
Definition groups6 (ip : bytes) : list Z :=
  (λ i, be_decode (slice (2 * i) (2 * i + 2) ip)) <$> seq 0 8.

Fixpoint zero_run (l : list Z) : nat :=
  match l with
  | 0 :: l' => S (zero_run l')
  | _ => O
  end.

(** The first longest run of at least two zero groups: start and length. *)
Definition longest_zeros (gs : list Z) : option (nat * nat) :=
  fold_left (λ best i,
      let l := zero_run (drop i gs) in
      if ((2 <=? l) && (default 0 (snd <$> best) <? l))%nat then Some (i, l) else best)
    (seq 0 8) None.

Definition string6 (ip : bytes) : bytes :=
  let gs := groups6 ip in
  match longest_zeros gs with
  | None => join b#":" (fmt_x16 <$> gs)
  | Some (i, l) =>
      join b#":" (fmt_x16 <$> take i gs) ++ b#"::" ++ join b#":" (fmt_x16 <$> drop (i + l) gs)
  end.

(** Two hex digits per byte, for an IP of a length that is neither 4 nor 16. *)
Definition hexString (ip : bytes) : bytes :=
  ip ≫= λ b, [hex_digit (b2z b / 16); hex_digit (b2z b mod 16)].

(** [net.IP.String] *)
Definition IP_String (ip : bytes) : bytes :=
  if bool_decide (ip = []) then b#"<nil>"
  else if negb (bool_decide (length ip = 4%nat)) && negb (bool_decide (length ip = 16%nat))
  then b#"?" ++ hexString ip
  else match To4 ip with
       | Some p4 => string4 p4
       | None => string6 ip
       end.

(** ** Parsing addresses *)

(** [parseIPv4Fields]: [prev] is the previous byte, [val] and [digLen] describe the
    current octet, [fields] the octets before it in order. *)
Fixpoint parseIPv4Fields (s : bytes) (prev : option byte) (val digLen : Z) (fields : bytes) : option bytes :=
  match s with
  | [] => if bool_decide (length fields = 3%nat) then Some (fields ++ [z2b val]) else None
  | c :: s' =>
      if is_digit c then
        if (digLen =? 1) && (val =? 0) then None
        else
          let val' := val * 10 + (b2z c - 48) in
          if 255 <? val' then None
          else parseIPv4Fields s' (Some c) val' (digLen + 1) fields
      else if bool_decide (c = x2e) then
        if bool_decide (prev = None) || bool_decide (s' = []) || bool_decide (prev = Some x2e)
        then None
        else if bool_decide (length fields = 3%nat) then None
        else parseIPv4Fields s' (Some c) 0 0 (fields ++ [z2b val])
      else None
  end.

Definition parse4 (s : bytes) : option bytes := parseIPv4Fields s None 0 0 [].

Definition hex_val (c : byte) : option Z :=
  let z := b2z c in
  if (48 <=? z) && (z <=? 57) then Some (z - 48)
  else if (97 <=? z) && (z <=? 102) then Some (z - 87)
  else if (65 <=? z) && (z <=? 70) then Some (z - 55)
  else None.

(** The hex digits at the front of [s]: how many, their value and what follows;
    [None] when there are more than four. *)
Fixpoint hex_group (s : bytes) (off : nat) (acc : Z) : option (nat * Z * bytes) :=
  match s with
  | [] => Some (off, acc, [])
  | c :: s' =>
      match hex_val c with
      | None => Some (off, acc, s)
      | Some d => if (3 <? off)%nat then None else hex_group s' (S off) (acc * 16 + d)
      end
  end.

(** The group loop of [parseIPv6]: [ip] holds the bytes parsed so far and
    [ell] the position of the ellipsis.  A round adds two bytes, so eight rounds
    fill the address; the result is the bytes, the ellipsis and the unread rest. *)
Fixpoint parse6_groups (n : nat) (s ip : bytes) (ell : option nat) : option (bytes * option nat * bytes) :=
  match n with
  | O => Some (ip, ell, s)
  | S n' =>
      '(off, acc, rest) ← hex_group s O 0;
      if bool_decide (off = O) then None
      else
        if HasPrefix rest b#"." then
          if bool_decide (ell = None) && negb (bool_decide (length ip = 12%nat)) then None
          else if (16 <? length ip + 4)%nat then None
          else f ← parse4 s; Some (ip ++ f, ell, [])
        else
          let ip' := ip ++ [z2b (acc / 256); z2b acc] in
          if bool_decide (rest = []) then Some (ip', ell, [])
          else if negb (HasPrefix rest b#":") || bool_decide (length rest = 1%nat) then None
          else
            let rest := drop 1 rest in
            if HasPrefix rest b#":" then
              if bool_decide (is_Some ell) then None
              else if bool_decide (drop 1 rest = []) then Some (ip', Some (length ip'), [])
              else parse6_groups n' (drop 1 rest) ip' (Some (length ip'))
            else parse6_groups n' rest ip' ell
  end.

Definition parse6 (s : bytes) : option bytes :=
  let '(s', ell) :=
    if HasPrefix s b#"::" then (drop 2 s, Some O) else (s, None) in
  if bool_decide (ell = Some O) && bool_decide (s' = []) then Some (replicate 16 x00)
  else
    '(ip, ell, rest) ← parse6_groups 8 s' [] ell;
    if negb (bool_decide (rest = [])) then None
    else if (length ip <? 16)%nat then
      match ell with
      | None => None
      | Some e => Some (take e ip ++ replicate (16 - length ip) x00 ++ drop e ip)
      end
    else match ell with Some _ => None | None => Some ip end.

(** [net.ParseIP]: the 16-byte form, or [None] (nil).  An address with a zone
    ([%]) is rejected by [net] either as malformed or because it has a zone. *)
Definition ParseIP (s : bytes) : option bytes :=
  let c := List.find (λ c, bool_decide (c ∈ [x2e; x3a; x25])) s in
  if bool_decide (c = Some x2e) then (v4InV6Prefix ++.) <$> parse4 s
  else if bool_decide (c = Some x3a) then
    if bool_decide (x25 ∈ s) then None else parse6 s
  else None.

(** ** Networks *)

Record IPNet := { net_IP : bytes; net_Mask : bytes }.

#[global] Instance IPNet_eq_dec : EqDecision IPNet.
Proof. solve_decision. Defined.

Definition networkNumberAndMask (n : IPNet) : bytes * bytes :=
  let ip := match To4 (net_IP n) with Some p => p | None => net_IP n end in
  let m := net_Mask n in
  if negb (bool_decide (length ip = 4%nat)) && negb (bool_decide (length ip = 16%nat)) then ([], [])
  else if bool_decide (length m = 4%nat) then
    if bool_decide (length ip = 4%nat) then (ip, m) else ([], [])
  else if bool_decide (length m = 16%nat) then
    if bool_decide (length ip = 4%nat) then (ip, drop 12 m) else (ip, m)
  else ([], []).

Definition and_byte (a b : byte) : byte := z2b (Z.land (b2z a) (b2z b)).

Definition IPNet_Contains (n : IPNet) (ip : bytes) : bool :=
  let '(nn, m) := networkNumberAndMask n in
  let ip := match To4 ip with Some x => x | None => ip end in
  bool_decide (length ip = length nn) &&
  bool_decide (zip_with and_byte nn m = zip_with and_byte ip m).

(** [net.CIDRMask(ones, 8 * len)] *)
Definition mask_byte (ones : Z) : byte := z2b (256 - 2 ^ (8 - Z.max 0 (Z.min 8 ones))).
Definition CIDRMask (ones : Z) (len : nat) : bytes :=
  (λ i, mask_byte (ones - 8 * Z.of_nat i)) <$> seq 0 len.

(** [net.ParseCIDR], second result: the network of "addr/ones". *)
Definition ParseCIDR (s : bytes) : option IPNet :=
  '(addr, mask) ← Cut s b#"/";
  if Contains addr b#"%" then None
  else
    ip16 ← ParseIP addr;
    let is4 := bool_decide (List.find (λ c, bool_decide (c ∈ [x2e; x3a])) addr = Some x2e) in
    let ip := if is4 then drop 12 ip16 else ip16 in
    let iplen := length ip in
    (* dtoi accepts one or more decimal digits below 0xFFFFFF and no sign *)
    match ParseUint mask 24 with
    | (n, None) =>
        if 8 * Z.of_nat iplen <? n then None
        else
          let m := CIDRMask n iplen in
          Some {| net_IP := zip_with and_byte ip m; net_Mask := m |}
    | _ => None
    end.

(** ** host:port strings *)

Definition JoinHostPort (host port : bytes) : bytes :=
  match IndexByte host x3a with
  | Some _ => b#"[" ++ host ++ b#"]:" ++ port
  | None => host ++ b#":" ++ port
  end.

Definition SplitHostPort (hp : bytes) : option (bytes * bytes) :=
  i ← LastIndexByte hp x3a;
  '(host, j, k) ←
    (if bool_decide (head hp = Some x5b) then
       e ← IndexByte hp x5d;
       if bool_decide (S e = length hp) then None
       else if bool_decide (S e = i) then Some (slice 1 e hp, 1%nat, S e)
       else None
     else
       let host := take i hp in
       if bool_decide (is_Some (IndexByte host x3a)) then None else Some (host, O, O));
  if bool_decide (is_Some (IndexByte (drop j hp) x5b)) then None
  else if bool_decide (is_Some (IndexByte (drop k hp) x5d)) then None
  else Some (host, drop (S i) hp).

(** ** Laws *)

Lemma To4_length ip p : To4 ip = Some p → length p = 4%nat.
Proof.
  unfold To4. case_bool_decide; [by intros [= <-]|].
  case_bool_decide; [|done]. case_bool_decide; [|done]. simpl. intros [= <-].
  rewrite length_drop. lia.
Qed.

Lemma To16_length ip p : To16 ip = Some p → length p = 16%nat.
Proof.
  unfold To16. case_bool_decide as H.
  - intros [= <-]. simpl. by rewrite H.
  - case_bool_decide; [|done]. by intros [= <-].
Qed.

Lemma To4_IPv4 a b c d : To4 (IPv4 a b c d) = Some [a; b; c; d].
Proof. done. Qed.

(** A host without brackets and a port without colon and brackets survive the
    trip through a host:port string. *)
Lemma SplitHostPort_JoinHostPort host port :
  x5b ∉ host → x5d ∉ host → x3a ∉ port → x5b ∉ port → x5d ∉ port →
  SplitHostPort (JoinHostPort host port) = Some (host, port).
Proof.
  intros Hh1 Hh2 Hp1 Hp2 Hp3. unfold JoinHostPort.
  destruct (IndexByte host x3a) as [n|] eqn:E.
  - set (hp := b#"[" ++ host ++ b#"]:" ++ port).
    assert (hp = (x5b :: host ++ [x5d]) ++ x3a :: port) as Ehp
      by (subst hp; cbn; by rewrite <-(assoc_L (++))).
    unfold SplitHostPort. rewrite Ehp, LastIndexByte_app_r by done.
    rewrite <-Ehp. cbn [mbind option_bind].
    rewrite (bool_decide_true (head hp = Some x5b)) by done.
    assert (IndexByte hp x5d = Some (S (length host))) as ->.
    { change hp with ((x5b :: host) ++ x5d :: x3a :: port).
      rewrite IndexByte_app by set_solver. done. }
    cbn [mbind option_bind].
    rewrite bool_decide_false by (subst hp; cbn; rewrite length_app; cbn; lia).
    rewrite bool_decide_true by (cbn; rewrite length_app; cbn; lia).
    cbn [mbind option_bind].
    rewrite (bool_decide_false (is_Some (IndexByte (drop 1 hp) x5b))).
    2: { intros [y Hy]. assert (IndexByte (drop 1 hp) x5b = None) as E'; [|congruence].
         apply IndexByte_none. subst hp. cbn. set_solver. }
    rewrite (bool_decide_false (is_Some (IndexByte (drop (S (S (length host))) hp) x5d))).
    2: { intros [y Hy]. assert (IndexByte (drop (S (S (length host))) hp) x5d = None) as E'; [|congruence].
         apply IndexByte_none. subst hp. cbn. rewrite drop_app_ge by lia.
         replace (S (length host) - length host)%nat with 1%nat by lia. cbn. set_solver. }
    f_equal. f_equal.
    + unfold slice. change (drop 1 hp) with (host ++ b#"]:" ++ port).
      by rewrite take_app_length' by lia.
    + rewrite Ehp, drop_app_ge by lia. by rewrite Nat.sub_succ_l, Nat.sub_diag by lia.
  - apply IndexByte_none in E. unfold SplitHostPort.
    change (host ++ b#":" ++ port) with (host ++ x3a :: port).
    rewrite LastIndexByte_app_r by done. cbn [mbind option_bind].
    rewrite bool_decide_false by (destruct host; cbn; [done|]; intros [= ->]; set_solver).
    rewrite take_app_length.
    rewrite bool_decide_false by (rewrite (proj2 (IndexByte_none host x3a)) by done; by intros [? ?]).
    cbn [mbind option_bind]. rewrite drop_0.
    rewrite bool_decide_false
      by (rewrite (proj2 (IndexByte_none _ x5b)) by set_solver; by intros [? ?]).
    rewrite bool_decide_false
      by (rewrite (proj2 (IndexByte_none _ x5d)) by set_solver; by intros [? ?]).
    rewrite drop_app_ge by lia. by rewrite Nat.sub_succ_l, Nat.sub_diag by lia.
Qed.

(** What [JoinHostPort] prints for a numeric port determines host and port. *)
Lemma JoinHostPort_inj h1 h2 p1 p2 :
  x5b ∉ h1 → x5d ∉ h1 → x5b ∉ h2 → x5d ∉ h2 → is_u16 p1 → is_u16 p2 →
  JoinHostPort h1 (fmt_d p1) = JoinHostPort h2 (fmt_d p2) → h1 = h2 ∧ p1 = p2.
Proof.
  intros ???? Hp1 Hp2 Heq. unfold is_u16 in *.
  apply (f_equal SplitHostPort) in Heq.
  rewrite !SplitHostPort_JoinHostPort in Heq by (done || (apply dec_digits_no; [done|lia])).
  injection Heq as -> Hd. split; [done|].
  apply (f_equal (λ s, ParseUint s 16)) in Hd.
  rewrite !ParseUint_fmt_d in Hd by lia. congruence.
Qed.

Example ip_string_examples :
  IP_String (IPv4 xc0 xa8 x01 x2a) = b#"192.168.1.42" ∧
  IP_String ([x20; x01; x0d; xb8] ++ replicate 11 x00 ++ [x01]) = b#"2001:db8::1" ∧
  IP_String (replicate 15 x00 ++ [x01]) = b#"::1" ∧
  IP_String (replicate 16 x00) = b#"::" ∧
  IP_String ([x20; x01; x0d; xb8; x85; xa3] ++ replicate 4 x00 ++ [x8a; x2e; x03; x70; x73; x34])
    = b#"2001:db8:85a3::8a2e:370:7334".
Proof. by vm_compute. Qed.

Example parse_ip_examples :
  ParseIP b#"10.1.2.3" = Some (IPv4 x0a x01 x02 x03) ∧
  ParseIP b#"::1" = Some (replicate 15 x00 ++ [x01]) ∧
  ParseIP b#"2001:db8::1" = Some ([x20; x01; x0d; xb8] ++ replicate 11 x00 ++ [x01]) ∧
  ParseIP b#"::ffff:1.2.3.4" = Some (IPv4 x01 x02 x03 x04) ∧
  ParseIP b#"1:2:3:4:5:6:7:8" = Some [x00;x01;x00;x02;x00;x03;x00;x04;x00;x05;x00;x06;x00;x07;x00;x08] ∧
  ParseIP b#"01.2.3.4" = None ∧ ParseIP b#"1.2.3" = None ∧ ParseIP b#"example.com" = None ∧
  ParseIP b#"1::2::3" = None ∧ ParseIP b#"fe80::1%eth0" = None ∧ ParseIP b#"1:2:3:4:5:6:7:8:9" = None.
Proof. by vm_compute. Qed.

Example cidr_examples :
  (λ n, IPNet_Contains n (IPv4 x0a x01 x02 x03)) <$> ParseCIDR b#"10.0.0.0/8" = Some true ∧
  (λ n, IPNet_Contains n (IPv4 x0b x01 x02 x03)) <$> ParseCIDR b#"10.0.0.0/8" = Some false ∧
  ParseCIDR b#"10.0.0.0/33" = None.
Proof. by vm_compute. Qed.
