(* ===== verification/GoBase64.v ===== *)
(** [base64.StdEncoding] of Go's library: encoding, and the decoder with its
    treatment of line ends and padding. *)

From S2P Require Import Prelude.

(** The alphabet. *)
Definition b64_char (z : Z) : byte :=
  if z <? 26 then z2b (65 + z)
  else if z <? 52 then z2b (97 + (z - 26))
  else if z <? 62 then z2b (48 + (z - 52))
  else if z =? 62 then x2b else x2f.

Definition b64_val (c : byte) : option Z :=
  let z := b2z c in
  if (65 <=? z) && (z <=? 90) then Some (z - 65)
  else if (97 <=? z) && (z <=? 122) then Some (z - 97 + 26)
  else if (48 <=? z) && (z <=? 57) then Some (z - 48 + 52)
  else if z =? 43 then Some 62
  else if z =? 47 then Some 63
  else None.

Definition pad : byte := x3d.

(** [EncodeToString] *)
Fixpoint b64_encode (src : bytes) : bytes :=
  match src with
  | [] => []
  | [a] =>
      let v := b2z a * 65536 in
      [b64_char (v / 262144); b64_char (v / 4096 mod 64); pad; pad]
  | [a; b] =>
      let v := b2z a * 65536 + b2z b * 256 in
      [b64_char (v / 262144); b64_char (v / 4096 mod 64); b64_char (v / 64 mod 64); pad]
  | a :: b :: c :: src' =>
      let v := b2z a * 65536 + b2z b * 256 + b2z c in
      b64_char (v / 262144) :: b64_char (v / 4096 mod 64) :: b64_char (v / 64 mod 64) :: b64_char (v mod 64) ::
      b64_encode src'
  end.

(** [decodeQuantum], repeated: four characters at a time, padding only at the end. *)
Fixpoint b64_quanta (s : bytes) : option bytes :=
  match s with
  | [] => Some []
  | a :: b :: c :: d :: s' =>
      x ← b64_val a;
      y ← b64_val b;
      match b64_val c, b64_val d with
      | Some z, Some w =>
          let v := x * 262144 + y * 4096 + z * 64 + w in
          rest ← b64_quanta s';
          Some (z2b (v / 65536) :: z2b (v / 256) :: z2b v :: rest)
      | Some z, None =>
          if bool_decide (d = pad) && bool_decide (s' = []) then
            let v := x * 262144 + y * 4096 + z * 64 in Some [z2b (v / 65536); z2b (v / 256)]
          else None
      | None, _ =>
          if bool_decide (c = pad) && bool_decide (d = pad) && bool_decide (s' = []) then
            let v := x * 262144 + y * 4096 in Some [z2b (v / 65536)]
          else None
      end
  | _ => None
  end.

(** [DecodeString]: carriage returns and line feeds are ignored anywhere. *)
Definition b64_decode (s : bytes) : option bytes :=
  b64_quanta (filter (λ c, c ≠ x0d ∧ c ≠ x0a) s).

(** ** Laws *)

Lemma b64_val_char z : 0 ≤ z < 64 → b64_val (b64_char z) = Some z.
Proof. apply (all_below 64 (λ z, b64_val (b64_char z) = Some z)). by vm_compute. Qed.

Lemma b64_char_clean z : 0 ≤ z < 64 → b64_char z ≠ x0d ∧ b64_char z ≠ x0a ∧ b64_char z ≠ x20.
Proof. apply (all_below 64 (λ z, b64_char z ≠ x0d ∧ b64_char z ≠ x0a ∧ b64_char z ≠ x20)). by vm_compute. Qed.

Lemma b64_digits v : 0 ≤ v < 16777216 →
  0 ≤ v / 262144 < 64 ∧ 0 ≤ v / 4096 mod 64 < 64 ∧ 0 ≤ v / 64 mod 64 < 64 ∧ 0 ≤ v mod 64 < 64 ∧
  v / 262144 * 262144 + v / 4096 mod 64 * 4096 + v / 64 mod 64 * 64 + v mod 64 = v.
Proof. intros. split_and!; Z.to_euclidean_division_equations; lia. Qed.

Lemma byte_fields a b c : let v := b2z a * 65536 + b2z b * 256 + b2z c in
  0 ≤ v < 16777216 ∧ z2b (v / 65536) = a ∧ z2b (v / 256) = b ∧ z2b v = c.
Proof.
  intros v. pose proof (b2z_range a). pose proof (b2z_range b). pose proof (b2z_range c).
  split; [unfold v; lia|].
  split_and!; apply b2z_inj; rewrite b2z_z2b; unfold v; Z.to_euclidean_division_equations; lia.
Qed.

(** Induction three bytes at a time. *)
Lemma bytes_ind3 (P : bytes → Prop) :
  P [] → (∀ a, P [a]) → (∀ a b, P [a; b]) → (∀ a b c l, P l → P (a :: b :: c :: l)) → ∀ l, P l.
Proof.
  intros H0 H1 H2 H3. fix IH 1. intros [|a [|b [|c l]]]; [done|done|done|]. apply H3, IH.
Qed.

Lemma b64_quanta_encode l : b64_quanta (b64_encode l) = Some l.
Proof.
  induction l as [|a|a b|a b c l IH] using bytes_ind3; [done|..].
  - destruct (byte_fields a x00 x00) as (Hv & Ha & _). cbn [b64_encode b64_quanta]. cbv zeta in *.
    change (b2z x00) with 0 in *. rewrite Z.mul_0_l, !Z.add_0_r in *. set (v := b2z a * 65536) in *.
    destruct (b64_digits v Hv) as (H1 & H2 & H3 & H4 & Hs).
    rewrite !b64_val_char by done. cbn [mbind option_bind]. change (b64_val pad) with (@None Z).
    rewrite !bool_decide_true by done. cbn [andb]. do 2 f_equal. rewrite <-Ha. f_equal.
    unfold v in *. pose proof (b2z_range a). Z.to_euclidean_division_equations. lia.
  - destruct (byte_fields a b x00) as (Hv & Ha & Hb & _). cbn [b64_encode b64_quanta]. cbv zeta in *.
    change (b2z x00) with 0 in *. rewrite !Z.add_0_r in *. set (v := b2z a * 65536 + b2z b * 256) in *.
    destruct (b64_digits v Hv) as (H1 & H2 & H3 & H4 & Hs).
    rewrite !b64_val_char by done. cbn [mbind option_bind]. change (b64_val pad) with (@None Z).
    rewrite !bool_decide_true by done. cbn [andb].
    assert (v mod 64 = 0) as Hz by (unfold v; Z.to_euclidean_division_equations; lia).
    rewrite Hz, Z.add_0_r in Hs. by rewrite Hs, Ha, Hb.
  - destruct (byte_fields a b c) as (Hv & Ha & Hb & Hc). cbn [b64_encode b64_quanta]. cbv zeta in *.
    set (v := b2z a * 65536 + b2z b * 256 + b2z c) in *.
    destruct (b64_digits v Hv) as (H1 & H2 & H3 & H4 & Hs).
    rewrite !b64_val_char by done. cbn [mbind option_bind]. rewrite IH, Hs. cbn [mbind option_bind]. by rewrite Ha, Hb, Hc.
Qed.

Lemma b64_encode_clean l : Forall (λ c, c ≠ x0d ∧ c ≠ x0a ∧ c ≠ x20) (b64_encode l).
Proof.
  induction l as [|a|a b|a b c l IH] using bytes_ind3; cbn [b64_encode]; cbv zeta.
  - constructor.
  - destruct (byte_fields a x00 x00) as (Hv & _). cbv zeta in *. change (b2z x00) with 0 in *.
    rewrite Z.mul_0_l, !Z.add_0_r in *. destruct (b64_digits _ Hv) as (? & ? & ? & ? & _).
    repeat constructor; try done; by apply b64_char_clean.
  - destruct (byte_fields a b x00) as (Hv & _). cbv zeta in *. change (b2z x00) with 0 in *.
    rewrite !Z.add_0_r in *. destruct (b64_digits _ Hv) as (? & ? & ? & ? & _).
    repeat constructor; try done; by apply b64_char_clean.
  - destruct (byte_fields a b c) as (Hv & _). cbv zeta in *. destruct (b64_digits _ Hv) as (? & ? & ? & ? & _).
    repeat (constructor; [by apply b64_char_clean|]). done.
Qed.

Lemma b64_decode_encode l : b64_decode (b64_encode l) = Some l.
Proof.
  unfold b64_decode. enough (filter (λ c, c ≠ x0d ∧ c ≠ x0a) (b64_encode l) = b64_encode l) as ->
    by apply b64_quanta_encode.
  induction (b64_encode_clean l) as [|c q Hc _ IH]; [done|]. rewrite filter_cons_True by tauto. by rewrite IH.
Qed.

(** Decoding does not lengthen. *)
Lemma b64_quanta_length n s p : (length s ≤ n)%nat → b64_quanta s = Some p → (length p ≤ length s)%nat.
Proof.
  revert s p. induction n as [|n IH]; intros s p Hn; [by destruct s; [intros [= <-]|cbn in Hn; lia]|].
  destruct s as [|a [|b [|c [|d s]]]]; [by intros [= <-]|done..|]. cbn [b64_quanta].
  intros (x & _ & (y & _ & H)%bind_Some)%bind_Some.
  destruct (b64_val c), (b64_val d); repeat case_match; simplify_eq; cbn [length]; try lia.
  apply bind_Some in H as (rest & Hr & [= <-]). apply IH in Hr; cbn [length] in *; lia.
Qed.

Lemma b64_decode_length s p : b64_decode s = Some p → (length p ≤ length s)%nat.
Proof. intros H%(b64_quanta_length _ _ _ (le_n _)). etrans; [exact H|]. apply length_filter. Qed.
