(* ===== verification/GoIO.v ===== *)
(** The two directions of a [net.Conn] as the code sees them, and the parts of
    Go's [io] and [bufio] packages the code goes through.

    The receiving side is the sequence of bytes the peer sends before the
    stream ends and the error the read after them reports, so every way the
    bytes may be chunked by [Read] is covered.  The sending side is the
    sequence of bytes handed to the peer and the number of further bytes the
    connection takes before writes fail. *)

From S2P Require Import Prelude.

Record rxside := mkRx { rx : bytes; rx_err : error }.
Record txside := mkTx { tx : bytes; quota : option nat; tx_err : error }.

(** ** Reading *)

(** [bufio.Reader.ReadByte] *)
Definition ReadByte : io rxside byte := λ s,
  match rx s with
  | b :: r => (Ok b, mkRx r (rx_err s))
  | [] => (Err (rx_err s), s)
  end.

(** [io.ReadFull(r, buf)] with [len(buf) = n] *)
Definition ReadFull (n : nat) : io rxside bytes := λ s,
  if (n <=? length (rx s))%nat then (Ok (take n (rx s)), mkRx (drop n (rx s)) (rx_err s))
  else
    (Err (if bool_decide (rx s = []) then rx_err s
          else if bool_decide (rx_err s = EOF) then ErrUnexpectedEOF else rx_err s),
     mkRx [] (rx_err s)).

(** ** Writing *)

(** [net.Conn.Write] writes all of [p] or fails after a part of it: the number
    of bytes written and the error. *)
Definition conn_write (p : bytes) (w : txside) : nat * option error * txside :=
  match quota w with
  | None => (length p, None, mkTx (tx w ++ p) None (tx_err w))
  | Some q =>
      if (length p <=? q)%nat then
        (length p, None, mkTx (tx w ++ p) (Some (q - length p)%nat) (tx_err w))
      else (q, Some (tx_err w), mkTx (tx w ++ take q p) (Some O) (tx_err w))
  end.

(** [conn.Write(p)] where only the error is used. *)
Definition Write (p : bytes) : io txside unit := λ w,
  let '(_, err, w') := conn_write p w in
  (match err with None => Ok () | Some e => Err e end, w').

(** [bufio.Writer] with its default size. *)
Definition bufsize : nat := 4096.

Record bufw := mkBufw { wr : txside; wbuf : bytes; werr : option error }.

Definition NewWriter (w : txside) : bufw := mkBufw w [] None.

Definition bw_result (b : bufw) : go unit * bufw :=
  (match werr b with None => Ok () | Some e => Err e end, b).

Definition Flush : io bufw unit := λ b,
  match werr b with
  | Some e => (Err e, b)
  | None =>
      if bool_decide (wbuf b = []) then (Ok (), b)
      else
        let '(n, err, w') := conn_write (wbuf b) (wr b) in
        let err := match err with
                   | None => if (n <? length (wbuf b))%nat then Some ErrShortWrite else None
                   | Some e => Some e
                   end in
        match err with
        | Some e => (Err e, mkBufw w' (drop n (wbuf b)) (Some e))
        | None => (Ok (), mkBufw w' [] None)
        end
  end.

Definition bw_WriteByte (c : byte) : io bufw unit := λ b,
  match werr b with
  | Some e => (Err e, b)
  | None =>
      if (bufsize <=? length (wbuf b))%nat then
        match Flush b with
        | (Ok _, b') => (Ok (), mkBufw (wr b') (wbuf b' ++ [c]) (werr b'))
        | r => r
        end
      else (Ok (), mkBufw (wr b) (wbuf b ++ [c]) None)
  end.

(** [bufio.Writer.Write]: the loop fills and flushes the buffer at most once,
    then writes what is left directly when it does not fit, so three rounds
    always end it. *)
Fixpoint bw_loop (n : nat) (p : bytes) (b : bufw) : go unit * bufw :=
  let avail := (bufsize - length (wbuf b))%nat in
  if (avail <? length p)%nat && bool_decide (werr b = None) then
    match n with
    | O => (Panic, b)
    | S n' =>
        if bool_decide (wbuf b = []) then
          let '(k, err, w') := conn_write p (wr b) in
          bw_loop n' (drop k p) (mkBufw w' [] err)
        else
          let '(_, b') := Flush (mkBufw (wr b) (wbuf b ++ take avail p) None) in
          bw_loop n' (drop avail p) b'
    end
  else
    match werr b with
    | Some e => (Err e, b)
    | None => (Ok (), mkBufw (wr b) (wbuf b ++ p) None)
    end.

Definition bw_Write (p : bytes) : io bufw unit := bw_loop 3 p.

(** ** Laws of reading *)

Lemma ReadByte_cons b r e : ReadByte (mkRx (b :: r) e) = (Ok b, mkRx r e).
Proof. done. Qed.

Lemma ReadFull_app n p r e : n = length p → ReadFull n (mkRx (p ++ r) e) = (Ok p, mkRx r e).
Proof.
  intros ->. unfold ReadFull. cbn [rx rx_err]. rewrite length_app.
  rewrite (proj2 (Nat.leb_le _ _)) by lia. by rewrite take_app_length, drop_app_length.
Qed.

Lemma ReadFull_ok n s p s' :
  ReadFull n s = (Ok p, s') → length p = n ∧ rx s = p ++ rx s' ∧ rx_err s' = rx_err s.
Proof.
  unfold ReadFull. destruct (Nat.leb_spec n (length (rx s))); [|done].
  intros [= <- <-]. simpl. rewrite length_take, take_drop. repeat split; lia.
Qed.

Lemma ReadByte_ok s b s' : ReadByte s = (Ok b, s') → rx s = b :: rx s' ∧ rx_err s' = rx_err s.
Proof. unfold ReadByte. destruct (rx s); [done|]. by intros [= <- <-]. Qed.

Lemma ReadFull_never_panics n s s' : ReadFull n s ≠ (Panic, s').
Proof. unfold ReadFull. by destruct (_ <=? _)%nat. Qed.

(** ** Laws of writing *)

(** Everything the program has handed to the buffered writer. *)
Definition stream (b : bufw) : bytes := tx (wr b) ++ wbuf b.

(** A writer that has not failed and keeps its buffer within its size. *)
Definition bufw_ok (b : bufw) : Prop := werr b = None ∧ (length (wbuf b) ≤ bufsize)%nat.

(** [writes m p]: [m] is an operation that sends [p].  On a healthy writer it
    either appends exactly [p] to the stream and keeps the writer healthy, or
    fails, makes the failure sticky, and what reached the peer is a prefix of
    the stream extended with [p]. *)
Definition writes_at (r : go unit * bufw) (p : bytes) (b : bufw) : Prop :=
  (∃ b', r = (Ok (), b') ∧ stream b' = stream b ++ p ∧ bufw_ok b' ∧
         (quota (wr b) = None → quota (wr b') = None)) ∨
  (∃ e b', r = (Err e, b') ∧ werr b' = Some e ∧ quota (wr b) ≠ None ∧
           tx (wr b') `prefix_of` stream b ++ p).

Definition writes (m : io bufw unit) (p : bytes) : Prop :=
  ∀ b, bufw_ok b → writes_at (m b) p b.

Lemma conn_write_none p w :
  quota w = None → conn_write p w = (length p, None, mkTx (tx w ++ p) None (tx_err w)).
Proof. unfold conn_write. by intros ->. Qed.

Lemma conn_write_cases p w :
  (∃ w', conn_write p w = (length p, None, w') ∧ tx w' = tx w ++ p ∧
         (quota w = None → quota w' = None)) ∨
  (∃ q w', conn_write p w = (q, Some (tx_err w), w') ∧ (q < length p)%nat ∧
           tx w' = tx w ++ take q p ∧ quota w ≠ None).
Proof.
  unfold conn_write. destruct (quota w) as [q|] eqn:E.
  - destruct (Nat.leb_spec (length p) q).
    + left. eexists. split_and!; [reflexivity|done|done].
    + right. eexists q, _. by split_and!.
  - left. eexists. by split_and!.
Qed.

(** [Flush] empties the buffer, or fails with a prefix on the wire. *)
Lemma Flush_cases b : werr b = None →
  (∃ b', Flush b = (Ok (), b') ∧ tx (wr b') = stream b ∧ wbuf b' = [] ∧ werr b' = None ∧
         (quota (wr b) = None → quota (wr b') = None)) ∨
  (∃ e b', Flush b = (Err e, b') ∧ werr b' = Some e ∧ quota (wr b) ≠ None ∧
           tx (wr b') `prefix_of` stream b).
Proof.
  intros Hok. unfold Flush, stream. rewrite Hok. case_bool_decide as Hb.
  - left. exists b. rewrite Hb, app_nil_r. by split_and!.
  - destruct (conn_write_cases (wbuf b) (wr b)) as [(w' & -> & Htx & Hq)|(q & w' & -> & Hlt & Htx & Hq)].
    + left. rewrite Nat.ltb_irrefl. eexists. by split_and!.
    + right. eexists _, _. split_and!; [reflexivity|done..|]. simpl. rewrite Htx.
      apply prefix_app. exists (drop q (wbuf b)). by rewrite take_drop.
Qed.

Lemma writes_Flush : writes Flush [].
Proof.
  intros b [Hok Hlen]. unfold writes_at. rewrite app_nil_r.
  destruct (Flush_cases b Hok) as [(b' & -> & Htx & Hb & He & Hq)|(e & b' & -> & ? & ? & ?)].
  - left. exists b'. unfold bufw_ok, stream. rewrite Hb, app_nil_r. cbn [length].
    split_and!; done || lia.
  - right. by exists e, b'.
Qed.

Lemma writes_WriteByte c : writes (bw_WriteByte c) [c].
Proof.
  intros b [Hok Hlen]. unfold bw_WriteByte. rewrite Hok.
  destruct (Nat.leb_spec bufsize (length (wbuf b))).
  - destruct (Flush_cases b Hok) as [(b' & -> & Htx & Hb & He & Hq)|(e & b' & -> & ? & ? & ?)].
    + left. eexists. split_and!; [reflexivity| | |done]; unfold stream, bufw_ok in *; cbn [wr wbuf werr].
      * by rewrite Hb, Htx.
      * rewrite Hb. unfold bufsize. simpl. split; [done|lia].
    + right. exists e, b'. split_and!; [done..|]. by apply prefix_app_r.
  - left. eexists. unfold stream, bufw_ok. split_and!; [reflexivity|..]; cbn [wr wbuf werr].
    + by rewrite (assoc_L (++)).
    + done.
    + rewrite length_app. simpl. lia.
    + done.
Qed.

Lemma bw_loop_S n p b :
  bw_loop (S n) p b =
    if (bufsize - length (wbuf b) <? length p)%nat && bool_decide (werr b = None) then
      if bool_decide (wbuf b = []) then
        let '(k, err, w') := conn_write p (wr b) in bw_loop n (drop k p) (mkBufw w' [] err)
      else
        let '(_, b') :=
          Flush (mkBufw (wr b) (wbuf b ++ take (bufsize - length (wbuf b)) p) None) in
        bw_loop n (drop (bufsize - length (wbuf b)) p) b'
    else match werr b with
         | Some e => (Err e, b)
         | None => (Ok (), mkBufw (wr b) (wbuf b ++ p) None)
         end.
Proof. reflexivity. Qed.

Lemma bw_loop_err n p b e : werr b = Some e → bw_loop n p b = (Err e, b).
Proof. intros H. destruct n; simpl; rewrite H, andb_false_r; done. Qed.

Lemma bw_loop_fits n p b :
  werr b = None → (length p ≤ bufsize - length (wbuf b))%nat →
  bw_loop n p b = (Ok (), mkBufw (wr b) (wbuf b ++ p) None).
Proof.
  intros H Hl. destruct n; cbn [bw_loop]; rewrite (proj2 (Nat.ltb_ge _ _)) by lia; simpl; by rewrite H.
Qed.

(** One write to an empty buffer. *)
Lemma writes_loop_empty n p b : bufw_ok b → wbuf b = [] → writes_at (bw_loop (S n) p b) p b.
Proof.
  intros [Hok Hlen] Hb. unfold writes_at, stream, bufw_ok.
  destruct (decide (length p ≤ bufsize)%nat) as [Hfit|Hbig].
  - left. rewrite bw_loop_fits by (rewrite ?Hb; cbn [length]; done || lia).
    eexists. split_and!; [reflexivity|..]; cbn [wr wbuf werr]; rewrite ?Hb, ?app_nil_r; done.
  - cbn [bw_loop]. rewrite Hb. cbn [length]. rewrite (proj2 (Nat.ltb_lt _ _)) by lia.
    rewrite Hok, !bool_decide_true by done. cbn [andb].
    destruct (conn_write_cases p (wr b)) as [(w' & -> & Htx & Hq)|(q & w' & -> & Hlt & Htx & Hq)].
    + left. rewrite drop_ge, bw_loop_fits by (cbn [wbuf werr length]; done || lia).
      eexists. split_and!; [reflexivity|..]; cbn [wr wbuf werr app length]; rewrite ?Htx, ?app_nil_r; done || lia.
    + right. rewrite (bw_loop_err _ _ _ (tx_err (wr b))) by done.
      eexists _, _. split_and!; [reflexivity|done..|]. cbn [wr wbuf werr app]. rewrite Htx, app_nil_r.
      apply prefix_app. exists (drop q p). by rewrite take_drop.
Qed.

Lemma writes_Write p : writes (bw_Write p) p.
Proof.
  intros b Hbok. unfold bw_Write.
  destruct (decide (wbuf b = [])) as [Hb|Hb]; [by apply (writes_loop_empty 2)|].
  destruct Hbok as [Hok Hlen].
  destruct (decide (length p ≤ bufsize - length (wbuf b))%nat) as [Hfit|Hbig].
  { left. rewrite bw_loop_fits by done. eexists. unfold stream, bufw_ok. split_and!; [reflexivity|..];
    cbn [wr wbuf werr]; rewrite ?(assoc_L (++)), ?length_app; done || lia. }
  rewrite bw_loop_S. set (avail := (bufsize - length (wbuf b))%nat) in *.
  rewrite (proj2 (Nat.ltb_lt _ _)), bool_decide_true, (bool_decide_false (wbuf b = [])) by (done || lia).
  cbn [andb].
  destruct (Flush_cases (mkBufw (wr b) (wbuf b ++ take avail p) None) eq_refl)
    as [(b' & -> & Htx & Hb' & He & Hq)|(e & b' & -> & He & Hq & Hp)];
    unfold stream in *; cbn [wr wbuf] in *.
  - assert (bufw_ok b') as Hok' by (split; [done|rewrite Hb'; cbn [length]; lia]).
    destruct (writes_loop_empty 1 (drop avail p) b' Hok' Hb')
      as [(b'' & -> & Hs & Hok'' & Hq')|(e & b'' & -> & He'' & Hq' & Hp)]; unfold stream in *;
      rewrite Htx, Hb', app_nil_r, <-!(assoc_L (++)), take_drop in *.
    + left. exists b''. unfold stream. rewrite <-(assoc_L (++)). split_and!; auto.
    + right. exists e, b''. unfold stream. rewrite <-(assoc_L (++)). split_and!; auto.
  - right. rewrite (bw_loop_err _ _ _ e) by done. exists e, b'. split_and!; [done..|].
    etrans; [exact Hp|]. unfold stream. rewrite <-(assoc_L (++)). apply prefix_app, prefix_app.
    exists (drop avail p). by rewrite take_drop.
Qed.

(** Sequencing two sending operations sends both payloads in order. *)
Lemma writes_seq m1 p1 m2 p2 :
  writes m1 p1 → writes m2 p2 → writes (m1 ≫= λ _, m2) (p1 ++ p2).
Proof.
  intros H1 H2 b Hb. unfold mbind, io_bind, writes_at.
  destruct (H1 b Hb) as [(b1 & -> & Hs1 & Hok1 & Hq1)|(e & b1 & -> & He & Hq & Hp)].
  - destruct (H2 b1 Hok1) as [(b2 & -> & Hs2 & Hok2 & Hq2)|(e & b2 & -> & He & Hq & Hp)].
    + left. exists b2. rewrite Hs2, Hs1, (assoc_L (++)). split_and!; auto.
    + right. exists e, b2. rewrite Hs1, <-(assoc_L (++)) in Hp. split_and!; auto.
  - right. exists e, b1. split_and!; auto. rewrite (assoc_L (++)). by apply prefix_app_r.
Qed.

Lemma writes_ret : writes (mret ()) [].
Proof. intros b Hb. left. exists b. rewrite app_nil_r. split_and!; auto. Qed.

Lemma writes_if (c : bool) m1 m2 p1 p2 :
  writes m1 p1 → writes m2 p2 → writes (if c then m1 else m2) (if c then p1 else p2).
Proof. by destruct c. Qed.

#[export] Hint Resolve writes_Flush writes_WriteByte writes_Write writes_ret writes_if : go.

(** No write panics, whatever the state of the writer. *)
Lemma Flush_result b :
  (∃ e b', Flush b = (Err e, b') ∧ werr b' = Some e) ∨
  (∃ b', Flush b = (Ok (), b') ∧ wbuf b' = [] ∧ werr b' = None).
Proof.
  destruct (werr b) as [e|] eqn:E.
  - left. exists e, b. unfold Flush. by rewrite E.
  - destruct (Flush_cases b E) as [(b' & ? & ? & ? & ? & ?)|(e & b' & ? & ? & ? & ?)]; eauto.
Qed.

Lemma bw_loop_empty_total n p b :
  wbuf b = [] → werr b = None → fst (bw_loop (S n) p b) ≠ Panic.
Proof.
  intros Hb He. rewrite bw_loop_S, Hb, He, !bool_decide_true by done.
  destruct (_ && _); [|done].
  destruct (conn_write_cases p (wr b)) as [(w' & -> & _)|(q & w' & -> & _)].
  - rewrite drop_ge, bw_loop_fits by (cbn [wbuf werr length]; done || lia). done.
  - by rewrite (bw_loop_err _ _ _ (tx_err (wr b))).
Qed.

Lemma bw_Write_total p b : fst (bw_Write p b) ≠ Panic.
Proof.
  unfold bw_Write. destruct (werr b) as [e|] eqn:E; [by rewrite (bw_loop_err _ _ _ e)|].
  destruct (decide (wbuf b = [])); [by apply bw_loop_empty_total|].
  rewrite bw_loop_S, E, (bool_decide_true (None = None)), (bool_decide_false (wbuf b = [])) by done.
  destruct (_ && _); [|done].
  destruct (Flush_result (mkBufw (wr b) (wbuf b ++ take (bufsize - length (wbuf b)) p) None))
    as [(e & b' & -> & He)|(b' & -> & Hb & He)].
  - by rewrite (bw_loop_err _ _ _ e).
  - by apply bw_loop_empty_total.
Qed.

Lemma Flush_total b : fst (Flush b) ≠ Panic.
Proof. by destruct (Flush_result b) as [(e & b' & -> & _)|(b' & -> & _)]. Qed.

Lemma bw_WriteByte_total c b : fst (bw_WriteByte c b) ≠ Panic.
Proof.
  unfold bw_WriteByte. destruct (werr b); [done|]. destruct (_ <=? _)%nat; [|done].
  by destruct (Flush_result b) as [(e & b' & -> & _)|(b' & -> & _)].
Qed.

Lemma io_bind_total {S A B} (m : io S A) (f : A → io S B) s :
  fst (m s) ≠ Panic → (∀ a s', fst (f a s') ≠ Panic) → fst ((m ≫= f) s) ≠ Panic.
Proof. unfold mbind, io_bind. intros Hm Hf. destruct (m s) as [[] ?]; auto. Qed.

#[export] Hint Resolve bw_Write_total Flush_total bw_WriteByte_total io_bind_total : go.

(** ** Readers that only look at the bytes they consume *)

(** A successful run of [m] is unaffected by what follows the bytes it consumed. *)
Definition local_reader {A} (m : io rxside A) : Prop := ∀ p e a r,
  m (mkRx p e) = (Ok a, r) →
  rx_err r = e ∧ (length (rx r) ≤ length p)%nat ∧
  ∀ k, m (mkRx (p ++ k) e) = (Ok a, mkRx (rx r ++ k) e).

Lemma local_ReadByte : local_reader ReadByte.
Proof. intros [|b p] e a r; simpl; [done|]. intros [= <- <-]. simpl. repeat split; lia. Qed.

Lemma local_ReadFull n : local_reader (ReadFull n).
Proof.
  intros p e a r. unfold ReadFull. cbn [rx rx_err].
  destruct (Nat.leb_spec n (length p)); [|done]. intros [= <- <-]. cbn [rx rx_err].
  split_and!; [done|rewrite length_drop; lia|]. intros k.
  rewrite (proj2 (Nat.leb_le _ _)) by (rewrite length_app; lia).
  by rewrite take_app_le, drop_app_le by lia.
Qed.

Lemma local_ret {A} (a : A) : local_reader (mret a).
Proof. intros p e a' r [= <- <-]. simpl. repeat split; lia. Qed.

Lemma local_err {A} e' : local_reader (io_err (A:=A) e').
Proof. by intros p e a r. Qed.

Lemma local_bind {A B} (m : io rxside A) (f : A → io rxside B) :
  local_reader m → (∀ a, local_reader (f a)) → local_reader (m ≫= f).
Proof.
  intros Hm Hf p e b r. rewrite io_bind_ok. intros (a & [p1 e1] & H1 & H2).
  destruct (Hm _ _ _ _ H1) as (He & Hl & Hk). simpl in *. subst e1.
  destruct (Hf a _ _ _ _ H2) as (He' & Hl' & Hk'). split_and!; [done|lia|].
  intros k. apply io_bind_ok. exists a, (mkRx (p1 ++ k) e). split; [apply Hk|apply Hk'].
Qed.

Lemma local_if {A} (c : bool) (m1 m2 : io rxside A) :
  local_reader m1 → local_reader m2 → local_reader (if c then m1 else m2).
Proof. by destruct c. Qed.

#[export] Hint Resolve local_ReadByte local_ReadFull local_ret local_err local_bind local_if : go.

(** A local reader that consumes exactly [p] fails on every proper prefix of [p]. *)
Lemma local_reader_prefix {A} (m : io rxside A) p q k e a :
  local_reader m → m (mkRx p e) = (Ok a, mkRx [] e) → p = q ++ k → k ≠ [] →
  ∀ b r, m (mkRx q e) ≠ (Ok b, r).
Proof.
  intros Hm Hp -> Hk b r Hq. destruct (Hm _ _ _ _ Hq) as (_ & _ & Hx).
  rewrite Hx in Hp. injection Hp as _ Hr. by apply app_eq_nil in Hr as [_ ->].
Qed.

(** ** Both directions *)

Record netconn := mkNet { nrx : rxside; ntx : txside }.

Definition reading {A} (m : io rxside A) : io netconn A := λ s,
  let '(r, x) := m (nrx s) in (r, mkNet x (ntx s)).
Definition writing {A} (m : io txside A) : io netconn A := λ s,
  let '(r, x) := m (ntx s) in (r, mkNet (nrx s) x).

(** A handshake step on a connection with pending input [p] and healthy output. *)
Lemma reading_app n p r e w : n = length p →
  reading (ReadFull n) (mkNet (mkRx (p ++ r) e) w) = (Ok p, mkNet (mkRx r e) w).
Proof. intros ->. unfold reading. cbn [nrx ntx]. by rewrite ReadFull_app. Qed.

Lemma writing_ok p s : quota (ntx s) = None →
  writing (Write p) s = (Ok (), mkNet (nrx s) (mkTx (tx (ntx s) ++ p) None (tx_err (ntx s)))).
Proof. intros H. unfold writing, Write. by rewrite conn_write_none. Qed.

Lemma reading_ok {A} (m : io rxside A) s a s' :
  reading m s = (Ok a, s') → m (nrx s) = (Ok a, nrx s') ∧ ntx s' = ntx s.
Proof. unfold reading. destruct (m (nrx s)). by intros [= <- <-]. Qed.

Lemma writing_inv {A} (m : io txside A) s r s' : writing m s = (r, s') → nrx s' = nrx s.
Proof. unfold writing. destruct (m (ntx s)). by intros [= <- <-]. Qed.

Lemma Write_ok p w w' : Write p w = (Ok (), w') → tx w' = tx w ++ p.
Proof.
  unfold Write. destruct (conn_write_cases p w) as [(w1 & -> & H & _)|(q & w1 & -> & _)]; [|done].
  by intros [= <-].
Qed.

Lemma writing_Write_ok p s s' : writing (Write p) s = (Ok (), s') →
  nrx s' = nrx s ∧ tx (ntx s') = tx (ntx s) ++ p.
Proof.
  unfold writing. destruct (Write p (ntx s)) as [r w] eqn:E. intros [= -> <-].
  split; [done|]. by apply Write_ok.
Qed.

(** Run the first step of a sequence. *)
Lemma io_step {S A B} (m : io S A) (f : A → io S B) s a s' :
  m s = (Ok a, s') → (m ≫= f) s = f a s'.
Proof. unfold mbind, io_bind. by intros ->. Qed.

(** ** Datagrams *)

(** [ReadFromUDP(buf)] overwrites the front of the buffer and drops what does not
    fit. *)
Definition fill (d old : bytes) : bytes := take (length old) d ++ drop (length d) old.

Lemma take_fill d old : take (length d `min` length old) (fill d old) = take (length d `min` length old) d.
Proof.
  unfold fill. rewrite take_app_le by (rewrite length_take; lia). rewrite take_take. f_equal. lia.
Qed.
