(* ===== verification/GoHttp.v ===== *)
(** The parts of Go's [net/http] headers the code uses: one value per key, keys in
    canonical form. *)

From S2P Require Import Prelude GoStrings.

(** The bytes of a header field name (RFC 7230, token). *)
Definition valid_header_byte (c : byte) : bool :=
  let z := b2z c in
  ((48 <=? z) && (z <=? 57)) || ((65 <=? z) && (z <=? 90)) || ((97 <=? z) && (z <=? 122)) ||
  bool_decide (c ∈ b#"!#$%&'*+-.^_`|~").

Definition upper_byte (c : byte) : byte := if (97 <=? b2z c) && (b2z c <=? 122) then z2b (b2z c - 32) else c.

(** The first letter and those after a hyphen in upper case, the others in lower
    case. *)
Fixpoint canonical_from (upper : bool) (s : bytes) : bytes :=
  match s with
  | [] => []
  | c :: s' => (if upper then upper_byte c else lower_byte c) :: canonical_from (bool_decide (c = x2d)) s'
  end.

(** [http.CanonicalHeaderKey] *)
Definition CanonicalHeaderKey (s : bytes) : bytes :=
  if forallb valid_header_byte s then canonical_from true s else s.

Abbreviation Header := (gmap bytes bytes).

(** [h.Set(k, v)] and [h.Get(k)] *)
Definition header_Set (k v : bytes) (h : Header) : Header := <[CanonicalHeaderKey k := v]> h.
Definition header_Get (h : Header) (k : bytes) : bytes := default [] (h !! CanonicalHeaderKey k).

(** [for k, v := range kvs { h.Set(k, v) }] *)
Definition header_SetAll (kvs : list (bytes * bytes)) (h : Header) : Header :=
  foldl (λ h kv, header_Set kv.1 kv.2 h) h kvs.

Lemma header_Get_Set k v h j :
  header_Get (header_Set k v h) j = if decide (CanonicalHeaderKey k = CanonicalHeaderKey j) then v else header_Get h j.
Proof.
  unfold header_Get, header_Set. destruct (decide _) as [->|Hne]; [by rewrite lookup_insert_eq|by rewrite lookup_insert_ne].
Qed.

(** Headers with other names do not matter. *)
Lemma header_Get_SetAll kvs h j :
  (∀ k v, (k, v) ∈ kvs → CanonicalHeaderKey k ≠ CanonicalHeaderKey j) → header_Get (header_SetAll kvs h) j = header_Get h j.
Proof.
  revert h. induction kvs as [|[k v] kvs IH]; intros h H; [done|]. unfold header_SetAll. cbn [foldl fst snd].
  change (foldl _ ?x kvs) with (header_SetAll kvs x). rewrite IH.
  - rewrite header_Get_Set, decide_False; [done|]. apply (H k v). by left.
  - intros k' v' Hin. apply (H k' v'). by right.
Qed.

Example canonical_ws_protocol : CanonicalHeaderKey b#"sec-websocket-PROTOCOL" = b#"Sec-Websocket-Protocol".
Proof. by vm_compute. Qed.
