(* ===== verification/Wst.v ===== *)
(** pkg/wst/connection.go: the WebSocket framing of the tunnel transport.

    A [Conn] is a receiving side, a buffered writer, the masking flag and the
    two control handlers.  [WriteMessage], [WriteControl] and [ReadMessage]
    follow the code byte by byte; the frame of RFC 6455 ([ws_frame]) is the
    reference they are related to. *)

From S2P Require Import Prelude GoIO.

(** ** Data *)

Definition TextMessage : Z := 1.
Definition BinaryMessage : Z := 2.
Definition CloseMessage : Z := 8.
Definition PingMessage : Z := 9.
Definition PongMessage : Z := 10.

Definition CloseNormalClosure : Z := 1000.

(** Maximal payload [ReadMessage] accepts: [1024*1024*10]. *)
Definition maxPayload : Z := 1024 * 1024 * 10.

Definition or_byte (a b : byte) : byte := z2b (Z.lor (b2z a) (b2z b)).
Definition xor_byte (a b : byte) : byte := z2b (Z.lxor (b2z a) (b2z b)).

(** A handler runs with the writer of its connection. *)
Definition handler : Type := bytes → io bufw unit.

Record Conn := mkConn {
  bufr : rxside;
  bufw_of : bufw;
  masking : bool;
  pingHandler : handler;
  pongHandler : handler
}.

Definition mask_bit (masking : bool) : byte := if masking then x80 else x00.

(** ** Writing *)

(** The deadline argument is ignored by the code. *)
Definition WriteControl (masking : bool) (messageType : Z) (data : bytes) : io bufw unit :=
  bw_WriteByte (or_byte x80 (z2b messageType)) ≫= λ _,
  let length := blen data in
  if 125 <? length then io_err (Errorf b#"control frame length %d > 125" [length])
  else
    bw_WriteByte (or_byte (mask_bit masking) (z2b length)) ≫= λ _,
    (if masking then bw_Write [x00; x00; x00; x00] else mret ()) ≫= λ _,
    bw_Write data ≫= λ _,
    Flush.

Definition WriteMessage (masking : bool) (messageType : Z) (data : bytes) : io bufw unit :=
  bw_WriteByte (or_byte x80 (z2b messageType)) ≫= λ _,
  let length := blen data in
  (if length <=? 125 then bw_WriteByte (or_byte (mask_bit masking) (z2b length))
   else if length <=? 65535 then
     bw_WriteByte (or_byte (mask_bit masking) (z2b 126)) ≫= λ _,
     bw_Write (be_encode 2 (u16 length))
   else
     bw_WriteByte (or_byte (mask_bit masking) (z2b 127)) ≫= λ _,
     bw_Write (be_encode 8 (u64 length))) ≫= λ _,
  (if masking then bw_Write [x00; x00; x00; x00] ≫= λ _, bw_Write data
   else bw_Write data) ≫= λ _,
  Flush.

Definition FormatCloseMessage (closeCode : Z) (text : bytes) : bytes :=
  be_encode 2 (u16 closeCode) ++ text.

(** ** Construction and handlers *)

(** The default ping handler answers with a pong and swallows the errors of a
    connection that is already closed. *)
Definition defaultPingHandler (masking : bool) : handler := λ message b,
  match WriteControl masking PongMessage message b with
  | (Err e, b') =>
      if bool_decide (e = ErrClosedPipe) || bool_decide (e = ErrClosed) then (Ok (), b')
      else (Err e, b')
  | r => r
  end.

Definition defaultPongHandler : handler := λ _, mret ().

Definition SetPingHandler (h : option handler) (c : Conn) : Conn :=
  mkConn (bufr c) (bufw_of c) (masking c)
    (match h with None => defaultPingHandler (masking c) | Some h => h end) (pongHandler c).

Definition SetPongHandler (h : option handler) (c : Conn) : Conn :=
  mkConn (bufr c) (bufw_of c) (masking c) (pingHandler c)
    (match h with None => defaultPongHandler | Some h => h end).

(** [NewConnWithReader]: the reader may hold bytes the handshake has read ahead. *)
Definition NewConnWithReader (conn : txside) (masking : bool) (br : rxside) : Conn :=
  let c := mkConn br (NewWriter conn) masking defaultPongHandler defaultPongHandler in
  SetPongHandler None (SetPingHandler None c).

Definition NewConn (r : rxside) (w : txside) (masking : bool) : Conn := NewConnWithReader w masking r.

(** ** Reading *)

(** [payload[i] ^= maskKey[i%4]] for every index. *)
Definition unmask (maskKey payload : bytes) : bytes :=
  imap (λ i b, xor_byte b (nth (i mod 4) maskKey x00)) payload.

(** One frame: the body of the loop of [ReadMessage] up to the opcode switch. *)
Definition read_frame : io rxside (Z * bytes) :=
  b0 ← ReadByte;
  let opcode := Z.land (b2z b0) 0x0F in
  b1 ← ReadByte;
  let mask := Z.land (b2z b1) 0x80 in
  let length7 := Z.land (b2z b1) 0x7F in
  length ← (if length7 =? 126 then l ← ReadFull 2; mret (be_decode l)
            else if length7 =? 127 then l ← ReadFull 8; mret (i64 (be_decode l))
            else mret length7);
  maskKey ← (if mask =? 0 then mret [] else ReadFull 4);
  if (length <? 0) || (maxPayload <? length) then
    io_err (Errorf b#"payload length %d is out of bounds" [length])
  else
    payload ← ReadFull (Z.to_nat length);
    mret (opcode, if mask =? 0 then payload else unmask maskKey payload).

(** What [ReadMessage] returns: type, payload, error. *)
Definition message : Type := Z * bytes * option error.

Definition with_sides (c : Conn) (r : rxside) (w : bufw) : Conn :=
  mkConn r w (masking c) (pingHandler c) (pongHandler c).

(** The loop; [None] when [fuel] rounds were not enough. *)
Fixpoint read_loop (fuel : nat) (c : Conn) : option (message * Conn) :=
  match fuel with
  | O => None
  | S fuel' =>
      match read_frame (bufr c) with
      | (Ok (opcode, payload), r) =>
          if opcode =? PingMessage then
            match pingHandler c payload (bufw_of c) with
            | (Ok _, w) => read_loop fuel' (with_sides c r w)
            | (Err e, w) => Some (PingMessage, payload, Some e, with_sides c r w)
            | (Panic, w) => None
            end
          else if opcode =? PongMessage then
            match pongHandler c payload (bufw_of c) with
            | (Ok _, w) => read_loop fuel' (with_sides c r w)
            | (Err e, w) => Some (PongMessage, payload, Some e, with_sides c r w)
            | (Panic, w) => None
            end
          else if opcode =? CloseMessage then
            Some (CloseMessage, [], Some EOF, with_sides c r (bufw_of c))
          else Some (opcode, payload, None, with_sides c r (bufw_of c))
      | (Err e, r) => Some (0, [], Some e, with_sides c r (bufw_of c))
      | (Panic, r) => None
      end
  end.

(** Every round consumes at least two bytes, so one round per received byte and
    one to notice the end always suffice ([ReadMessage_returns]). *)
Definition ReadMessage (c : Conn) : option (message * Conn) :=
  read_loop (S (length (rx (bufr c)))) c.

(** ** The reference frame *)

(** RFC 6455, section 5.2: final flag and opcode, mask flag and length, extended
    length, mask key and masked payload. *)
Definition ws_len (len : Z) : Z * bytes :=
  if len <=? 125 then (len, [])
  else if len <=? 65535 then (126, be_encode 2 len)
  else (127, be_encode 8 len).

Definition ws_frame (opcode : Z) (key : option bytes) (data : bytes) : bytes :=
  let '(l7, ext) := ws_len (blen data) in
  match key with
  | None => z2b (128 + opcode) :: z2b l7 :: ext ++ data
  | Some k => z2b (128 + opcode) :: z2b (128 + l7) :: ext ++ k ++ unmask k data
  end.

(** The frame the code sends: masking uses the key zero. *)
Definition frame (masking : bool) (opcode : Z) (data : bytes) : bytes :=
  ws_frame opcode (if masking then Some [x00; x00; x00; x00] else None) data.

Definition is_opcode (z : Z) : Prop := 0 ≤ z < 16.

(** A message that [ReadMessage] hands to its caller. *)
Definition is_data_opcode (z : Z) : Prop :=
  is_opcode z ∧ z ≠ CloseMessage ∧ z ≠ PingMessage ∧ z ≠ PongMessage.

(** ** Bytes of the header *)

Lemma or_byte_x80 z : 0 ≤ z < 128 → or_byte x80 (z2b z) = z2b (128 + z).
Proof.
  revert z. apply (all_below 128 (λ z, or_byte x80 (z2b z) = z2b (128 + z))). by vm_compute.
Qed.

Lemma or_byte_x00 b : or_byte x00 b = b.
Proof. unfold or_byte. rewrite Z.lor_0_l. apply z2b_b2z. Qed.

(** The fields of the two header bytes. *)
Lemma header_fields z :
  0 ≤ z < 256 →
  Z.land z 0x80 = (if z <? 128 then 0 else 128) ∧ Z.land z 0x7F = z mod 128 ∧ Z.land z 0x0F = z mod 16.
Proof.
  revert z. apply (all_below 256 (λ z, Z.land z 0x80 = (if z <? 128 then 0 else 128) ∧
    Z.land z 0x7F = z mod 128 ∧ Z.land z 0x0F = z mod 16)). by vm_compute.
Qed.

Lemma header_b0 op : is_opcode op → Z.land (b2z (z2b (128 + op))) 0x0F = op.
Proof.
  intros [? ?]. rewrite b2z_z2b, Z.mod_small by lia.
  destruct (header_fields (128 + op)) as (_ & _ & ->); [lia|].
  replace (128 + op) with (op + 8 * 16) by lia. rewrite Z.mod_add by lia. apply Z.mod_small. lia.
Qed.

(** Second byte without and with the mask flag. *)
Lemma header_b1_plain l : 0 ≤ l < 128 →
  Z.land (b2z (z2b l)) 0x80 = 0 ∧ Z.land (b2z (z2b l)) 0x7F = l.
Proof.
  intros ?. rewrite b2z_z2b, Z.mod_small by lia.
  destruct (header_fields l) as (-> & -> & _); [lia|].
  rewrite (proj2 (Z.ltb_lt _ _)), Z.mod_small by lia. done.
Qed.

Lemma header_b1_masked l : 0 ≤ l < 128 →
  Z.land (b2z (z2b (128 + l))) 0x80 = 128 ∧ Z.land (b2z (z2b (128 + l))) 0x7F = l.
Proof.
  intros ?. rewrite b2z_z2b, Z.mod_small by lia.
  destruct (header_fields (128 + l)) as (-> & -> & _); [lia|].
  rewrite (proj2 (Z.ltb_ge _ _)) by lia. split; [done|].
  replace (128 + l) with (l + 1 * 128) by lia. rewrite Z.mod_add by lia. apply Z.mod_small. lia.
Qed.

(** ** Masking *)

Lemma xor_byte_twice a k : xor_byte (xor_byte a k) k = a.
Proof.
  apply b2z_inj. unfold xor_byte. pose proof (b2z_range a). pose proof (b2z_range k).
  assert (∀ x, 0 ≤ x < 256 → 0 ≤ Z.lxor x (b2z k) < 256) as Hx.
  { intros x Hx. split; [apply Z.lxor_nonneg; lia|].
    destruct (Z.eq_dec (Z.lxor x (b2z k)) 0) as [->|Hn]; [lia|].
    assert (0 < Z.lxor x (b2z k)) by (pose proof (proj2 (Z.lxor_nonneg x (b2z k)) ltac:(lia)); lia).
    change 256 with (2 ^ 8). apply Z.log2_lt_pow2; [done|].
    eapply Z.le_lt_trans; [apply Z.log2_lxor; lia|].
    apply Z.max_lub_lt.
    - destruct (Z.eq_dec x 0) as [->|]; [done|]. apply Z.log2_lt_pow2; lia.
    - destruct (Z.eq_dec (b2z k) 0) as [->|]; [done|]. apply Z.log2_lt_pow2; lia. }
  rewrite !b2z_z2b, (Z.mod_small (Z.lxor (b2z a) _)) by auto.
  rewrite Z.lxor_assoc, Z.lxor_nilpotent, Z.lxor_0_r. by apply Z.mod_small.
Qed.

Lemma unmask_unmask k p : unmask k (unmask k p) = p.
Proof.
  apply list_eq. intros i. unfold unmask. rewrite !list_lookup_imap.
  destruct (p !! i); [|done]. simpl. by rewrite xor_byte_twice.
Qed.

Lemma length_unmask k p : length (unmask k p) = length p.
Proof. apply length_imap. Qed.

(** The zero key leaves the payload as it is. *)
Lemma unmask_zero p : unmask [x00; x00; x00; x00] p = p.
Proof.
  apply list_eq. intros i. unfold unmask. rewrite list_lookup_imap.
  destruct (p !! i) as [b|]; [|done]. cbn [fmap option_fmap option_map]. f_equal.
  assert (∀ j, nth j [x00; x00; x00; x00] x00 = x00) as -> by (by intros [|[|[|[|[]]]]]).
  unfold xor_byte. rewrite Z.lxor_0_r. apply z2b_b2z.
Qed.

(** ** What the writing operations send *)

Lemma writes_WriteMessage m op data :
  is_opcode op → blen data < 2 ^ 64 → writes (WriteMessage m op data) (frame m op data).
Proof.
  intros [Hop1 Hop2] Hlen. pose proof (blen_nonneg data). unfold WriteMessage, frame, ws_frame, ws_len.
  rewrite or_byte_x80 by lia.
  set (body := (if m then [x00; x00; x00; x00] ++ data else data)).
  assert (writes ((if m then bw_Write [x00; x00; x00; x00] ≫= λ _, bw_Write data
                   else bw_Write data) ≫= λ _, Flush) body) as Hbody.
  { rewrite <-(app_nil_r body). apply writes_seq; [|apply writes_Flush].
    subst body. destruct m; [apply writes_seq; apply writes_Write|apply writes_Write]. }
  assert (∀ hdr p l7 ext, writes hdr p → p = or_byte (mask_bit m) (z2b l7) :: ext → 0 ≤ l7 < 128 →
    writes (bw_WriteByte (z2b (128 + op)) ≫= λ _, hdr ≫= λ _,
      (if m then bw_Write [x00; x00; x00; x00] ≫= λ _, bw_Write data else bw_Write data) ≫= λ _, Flush)
      (match (if m then Some [x00; x00; x00; x00] else None) with
       | None => z2b (128 + op) :: z2b l7 :: ext ++ data
       | Some k => z2b (128 + op) :: z2b (128 + l7) :: ext ++ k ++ unmask k data
       end)) as Hfr.
  { intros hdr p l7 ext Hh -> Hl7.
    replace (match _ with Some _ => _ | None => _ end) with
      ([z2b (128 + op)] ++ (or_byte (mask_bit m) (z2b l7) :: ext) ++ body).
    - apply writes_seq; [apply writes_WriteByte|]. by apply writes_seq.
    - subst body. destruct m; cbn [mask_bit app]; [rewrite or_byte_x80, unmask_zero by lia|rewrite or_byte_x00]; done. }
  destruct (Z.leb_spec (blen data) 125); [|destruct (Z.leb_spec (blen data) 65535)].
  - eapply Hfr; [apply writes_WriteByte|reflexivity|lia].
  - eapply Hfr; [apply writes_seq; [apply writes_WriteByte|apply writes_Write]| |lia].
    cbn [app]. unfold u16. by rewrite Z.mod_small by lia.
  - eapply Hfr; [apply writes_seq; [apply writes_WriteByte|apply writes_Write]| |lia].
    cbn [app]. unfold u64. by rewrite Z.mod_small by lia.
Qed.

Lemma writes_WriteControl m op data :
  is_opcode op → blen data ≤ 125 → writes (WriteControl m op data) (frame m op data).
Proof.
  intros [Hop1 Hop2] Hlen. pose proof (blen_nonneg data).
  unfold WriteControl, frame, ws_frame, ws_len.
  rewrite or_byte_x80 by lia. rewrite (proj2 (Z.ltb_ge _ _)), (proj2 (Z.leb_le _ _)) by lia.
  replace (match _ with Some _ => _ | None => _ end) with
    ([z2b (128 + op)] ++ [or_byte (mask_bit m) (z2b (blen data))] ++
     (if m then [x00; x00; x00; x00] else []) ++ data ++ []).
  - do 4 (apply writes_seq; [auto with go|]); auto with go.
  - rewrite app_nil_r. destruct m; cbn [mask_bit app];
      [rewrite or_byte_x80, unmask_zero by lia|rewrite or_byte_x00]; done.
Qed.

(** ** What reading a frame gives back *)

Lemma read_frame_ws_frame op key data r e :
  is_opcode op → blen data ≤ maxPayload → (∀ k, key = Some k → length k = 4%nat) →
  read_frame (mkRx (ws_frame op key data ++ r) e) = (Ok (op, data), mkRx r e).
Proof.
  intros Hop Hmax Hk. unfold maxPayload in Hmax. pose proof (blen_nonneg data).
  unfold ws_frame. destruct (ws_len (blen data)) as [l7 ext] eqn:El.
  assert (0 ≤ l7 < 128 ∧ ∀ tl,
    (if l7 =? 126 then l ← ReadFull 2; mret (be_decode l)
     else if l7 =? 127 then l ← ReadFull 8; mret (i64 (be_decode l))
     else mret l7) (mkRx (ext ++ tl) e) = (Ok (blen data), mkRx tl e)) as [Hl7 Hext].
  { unfold ws_len in El.
    destruct (Z.leb_spec (blen data) 125); [|destruct (Z.leb_spec (blen data) 65535)];
      apply pair_equal_spec in El as [<- <-]; (split; [lia|]); intros tl.
    - rewrite (proj2 (Z.eqb_neq _ 126)), (proj2 (Z.eqb_neq _ 127)) by lia. done.
    - change (126 =? 126) with true. unfold mbind, io_bind. rewrite ReadFull_app by done. cbv beta iota.
      rewrite be_decode_encode, Z.mod_small by lia. done.
    - change (127 =? 126) with false. change (127 =? 127) with true. unfold mbind, io_bind. rewrite ReadFull_app by done. cbv beta iota.
      by rewrite be_decode_encode, Z.mod_small, i64_id by lia. }
  unfold read_frame. destruct key as [k|]; cbn [app].
  - destruct (header_b1_masked l7 Hl7) as [Hm Hl].
    unfold mbind at 1, io_bind at 1. rewrite ReadByte_cons. cbv zeta.
    unfold mbind at 1, io_bind at 1. rewrite ReadByte_cons. cbv zeta.
    rewrite Hm, Hl, header_b0 by done. rewrite <-!(assoc_L (++)).
    unfold mbind at 1, io_bind at 1. rewrite Hext. change (128 =? 0) with false.
    unfold mbind at 1, io_bind at 1. rewrite ReadFull_app by (symmetry; by apply Hk).
    rewrite (proj2 (Z.ltb_ge _ _)), (proj2 (Z.ltb_ge _ _)) by (unfold maxPayload; lia). cbn [orb].
    unfold mbind at 1, io_bind at 1.
    rewrite ReadFull_app by (rewrite length_unmask; unfold blen; lia).
    by rewrite unmask_unmask.
  - destruct (header_b1_plain l7 Hl7) as [Hm Hl].
    unfold mbind at 1, io_bind at 1. rewrite ReadByte_cons. cbv zeta.
    unfold mbind at 1, io_bind at 1. rewrite ReadByte_cons. cbv zeta.
    rewrite Hm, Hl, header_b0 by done. rewrite <-(assoc_L (++)).
    unfold mbind at 1, io_bind at 1. rewrite Hext. change (0 =? 0) with true.
    unfold mbind at 1, io_bind at 1, mret at 1, io_ret at 1.
    rewrite (proj2 (Z.ltb_ge _ _)), (proj2 (Z.ltb_ge _ _)) by (unfold maxPayload; lia). cbn [orb].
    unfold mbind at 1, io_bind at 1.
    by rewrite ReadFull_app by (unfold blen; lia).
Qed.

(** A length above the limit is refused whatever the mask. *)
Lemma read_frame_too_long op data r e :
  is_opcode op → maxPayload < blen data < 2 ^ 63 →
  ∃ s', read_frame (mkRx (ws_frame op None data ++ r) e) =
        (Err (Errorf b#"payload length %d is out of bounds" [blen data]), s').
Proof.
  intros Hop [Hmin Hmax]. unfold maxPayload in Hmin. unfold ws_frame, ws_len.
  rewrite (proj2 (Z.leb_gt _ 125)), (proj2 (Z.leb_gt _ 65535)) by lia.
  eexists. unfold read_frame. cbn [app].
  unfold mbind at 1, io_bind at 1. rewrite ReadByte_cons. cbv zeta.
  unfold mbind at 1, io_bind at 1. rewrite ReadByte_cons. cbv zeta.
  destruct (header_b1_plain 127 ltac:(lia)) as [-> ->].
  change (127 =? 126) with false. change (127 =? 127) with true. change (0 =? 0) with true. cbv iota.
  unfold mbind at 1, io_bind at 1, mbind at 1, io_bind at 1.
  rewrite <-(assoc_L (++)), ReadFull_app by done. cbv beta iota.
  rewrite be_decode_encode, Z.mod_small, i64_id by lia.
  unfold mret at 1, io_ret at 1. unfold mbind at 1, io_bind at 1, mret at 1, io_ret at 1.
  rewrite (proj2 (Z.ltb_lt maxPayload _)), orb_true_r by (unfold maxPayload; lia).
  reflexivity.
Qed.

Lemma local_read_frame : local_reader read_frame.
Proof. unfold read_frame. repeat (apply local_bind; [|intros ?]); auto 7 with go. Qed.

(** ** Sequences of messages *)

(** The frames a sequence of messages becomes. *)
Definition frames (m : bool) (msgs : list (Z * bytes)) : bytes :=
  msgs ≫= λ '(op, data), frame m op data.

(** Send the messages in order, stopping at the first error. *)
Fixpoint write_all (m : bool) (msgs : list (Z * bytes)) : io bufw unit :=
  match msgs with
  | [] => mret ()
  | (op, data) :: msgs' => WriteMessage m op data ≫= λ _, write_all m msgs'
  end.

(** Call [ReadMessage] until it reports an error: the messages before it and
    the error.  [fuel] bounds the number of calls. *)
Fixpoint drain (fuel : nat) (c : Conn) : option (list (Z * bytes) * error) :=
  match fuel with
  | O => None
  | S fuel' =>
      match ReadMessage c with
      | Some (op, data, None, c') =>
          '(l, e) ← drain fuel' c'; Some ((op, data) :: l, e)
      | Some (_, _, Some e, _) => Some ([], e)
      | None => None
      end
  end.

Definition sendable (msg : Z * bytes) : Prop :=
  is_data_opcode msg.1 ∧ blen msg.2 ≤ maxPayload.

(** A fresh connection that has received [w] before the end of the stream. *)
Definition receiver (w : bytes) (out : txside) : Conn := NewConn (mkRx w EOF) out false.

Lemma sendable_opcode msg : sendable msg → is_opcode msg.1 ∧ blen msg.2 < 2 ^ 64.
Proof. intros [[? _] Hl]. unfold maxPayload in Hl. split; [done|lia]. Qed.

Lemma writes_write_all m msgs : Forall sendable msgs → writes (write_all m msgs) (frames m msgs).
Proof.
  induction 1 as [|[op data] msgs Hmsg _ IH]; [apply writes_ret|].
  apply sendable_opcode in Hmsg as [? ?]. cbn [write_all]. unfold frames. cbn.
  apply writes_seq; [by apply writes_WriteMessage|exact IH].
Qed.

Lemma frames_cons m op data msgs : frames m ((op, data) :: msgs) = frame m op data ++ frames m msgs.
Proof. done. Qed.

Lemma read_frame_frame m op data r e :
  is_opcode op → blen data ≤ maxPayload →
  read_frame (mkRx (frame m op data ++ r) e) = (Ok (op, data), mkRx r e).
Proof. intros. apply read_frame_ws_frame; [done..|]. destruct m; by intros k [= <-]. Qed.

(** One call of [ReadMessage] on a connection whose next frame is a data frame. *)
Lemma ReadMessage_data m op data r e w mk ph qh :
  is_data_opcode op → blen data ≤ maxPayload →
  ReadMessage (mkConn (mkRx (frame m op data ++ r) e) w mk ph qh) =
    Some (op, data, None, mkConn (mkRx r e) w mk ph qh).
Proof.
  intros (Hop & Hc & Hp & Hq) Hl. unfold ReadMessage. cbn [read_loop bufr].
  rewrite read_frame_frame by done.
  rewrite (proj2 (Z.eqb_neq _ _) Hp), (proj2 (Z.eqb_neq _ _) Hq), (proj2 (Z.eqb_neq _ _) Hc). done.
Qed.

Lemma drain_frames m msgs c r fuel :
  Forall sendable msgs → rx (bufr c) = frames m msgs ++ r →
  drain (length msgs + fuel) c =
    '(l, e) ← drain fuel (with_sides c (mkRx r (rx_err (bufr c))) (bufw_of c)); Some (msgs ++ l, e).
Proof.
  intros Hf. revert c. induction Hf as [|[op data] msgs [Hop Hl] _ IH]; intros c Hrx.
  - cbn in Hrx |- *. destruct c as [[p e] w mk ph qh]. cbn in *. subst p.
    unfold with_sides. cbn. by destruct (drain fuel _) as [[? ?]|].
  - destruct c as [[p e] w mk ph qh]. cbn [bufr rx] in Hrx. subst p.
    rewrite frames_cons, <-(assoc_L (++)). cbn [length Nat.add drain].
    rewrite ReadMessage_data by done. rewrite IH by done. unfold with_sides. cbn.
    by destruct (drain fuel _) as [[? ?]|].
Qed.

(** A read that fails on the first byte of a frame ends the drain. *)
Lemma drain_err fuel c e r :
  read_frame (bufr c) = (Err e, r) → drain (S fuel) c = Some ([], e).
Proof. intros H. cbn [drain]. unfold ReadMessage. cbn [read_loop]. by rewrite H. Qed.

Lemma read_frame_total s : fst (read_frame s) ≠ Panic.
Proof.
  assert (∀ s, fst (ReadByte s) ≠ Panic) by (intros s0; unfold ReadByte; by destruct (rx s0)).
  assert (∀ n s, fst (ReadFull n s) ≠ Panic) by (intros n s0; unfold ReadFull; by destruct (_ <=? _)%nat).
  unfold read_frame. repeat (apply io_bind_total; [|intros ??]); repeat case_match; auto;
    apply io_bind_total; auto; intros ??; done.
Qed.

Lemma read_frame_consumes s op data s' :
  read_frame s = (Ok (op, data), s') → (length (rx s') < length (rx s))%nat.
Proof.
  unfold read_frame. rewrite io_bind_ok. intros (b0 & s1 & [E _]%ReadByte_ok & H). rewrite E. cbn [length].
  match type of H with ?m s1 = _ => assert (local_reader m) as Hl
    by (cbv zeta; repeat (apply local_bind; [|intros ?]); auto 7 with go) end.
  destruct s1 as [p1 e1]. apply Hl in H as (_ & Hle & _). cbn in *. lia.
Qed.

(** A proper prefix of the frames is cut at a message boundary by the reader:
    the messages whose frames arrived completely, then an error. *)
Lemma drain_prefix m msgs q out mk ph qh :
  Forall sendable msgs → q `prefix_of` frames m msgs →
  ∃ k e, drain (S (length msgs)) (mkConn (mkRx q EOF) out mk ph qh) = Some (take k msgs, e).
Proof.
  intros Hf. revert q. induction Hf as [|[op data] msgs [Hop Hl] Hf IH]; intros q Hq.
  - apply prefix_nil_inv in Hq as ->. exists O, EOF. done.
  - rewrite frames_cons in Hq. destruct (decide (frame m op data `prefix_of` q)) as [[q' ->]|Hnp].
    + apply prefix_app_inv in Hq. destruct (IH q' Hq) as (k & e & Hd).
      exists (S k), e. cbn [length]. cbn [drain]. rewrite ReadMessage_data by done.
      cbn [drain] in Hd. rewrite Hd. done.
    + assert (∃ k, frame m op data = q ++ k ∧ k ≠ []) as (k & Hk & Hk0).
      { destruct (prefix_weak_total q (frame m op data) _ Hq) as [[k Hk]|?]; [by eexists|idtac|done].
        exists k. split; [done|]. intros ->. apply Hnp. by rewrite Hk, app_nil_r. }
      exists O. pose proof (read_frame_total (mkRx q EOF)) as Ht.
      pose proof (read_frame_frame m op data [] EOF (proj1 Hop) Hl) as Hok. rewrite app_nil_r in Hok.
      pose proof (local_reader_prefix _ _ _ _ _ _ local_read_frame Hok Hk Hk0) as Hno.
      destruct (read_frame (mkRx q EOF)) as [[a|e|] r] eqn:Er; [by destruct (Hno a r)| |done].
      exists e. by eapply drain_err.
Qed.

(** Every successful message has left the buffer. *)
Lemma Flush_after_ok (m : io bufw unit) b b' : (m ≫= λ _, Flush) b = (Ok (), b') → wbuf b' = [].
Proof.
  rewrite io_bind_ok. intros (_ & b1 & _ & H2).
  destruct (Flush_result b1) as [(e & b2 & E & _)|(b2 & E & Hb & _)]; rewrite E in H2; congruence.
Qed.

Lemma WriteMessage_flushed m op data b b' : WriteMessage m op data b = (Ok (), b') → wbuf b' = [].
Proof.
  unfold WriteMessage. rewrite io_bind_ok. intros (_ & b1 & _ & H). cbv zeta in H.
  rewrite io_bind_ok in H. destruct H as (_ & b2 & _ & H). by apply Flush_after_ok in H.
Qed.

Lemma write_all_flushed m msgs b b' :
  wbuf b = [] → write_all m msgs b = (Ok (), b') → wbuf b' = [].
Proof.
  revert b. induction msgs as [|[op data] msgs IH]; intros b Hb; cbn [write_all].
  - by intros [= <-].
  - rewrite io_bind_ok. intros ([] & b1 & H1%WriteMessage_flushed & H2). by eapply IH.
Qed.

(** ** Properties *)

(** C4: whatever sequence of data messages (each within the 10 MB limit) one end
    sends over a healthy connection, masked or not, the other end's
    [ReadMessage] calls return exactly these messages in this order and then
    the end of the stream. *)
Theorem wst_roundtrip m msgs w out :
  Forall sendable msgs → tx w = [] → quota w = None →
  ∃ b, write_all m msgs (NewWriter w) = (Ok (), b) ∧
       drain (S (length msgs)) (receiver (tx (wr b)) out) = Some (msgs, EOF).
Proof.
  intros Hf Htx Hq.
  assert (bufw_ok (NewWriter w)) as Hok by (split; [done|apply Nat.le_0_l]).
  destruct (writes_write_all m msgs Hf _ Hok) as [(b & Hw & Hs & _)|(e & b & _ & _ & Hn & _)]; [|done].
  exists b. split; [done|]. pose proof (write_all_flushed m msgs (NewWriter w) b eq_refl Hw) as Hfl.
  unfold stream, NewWriter in Hs. rewrite Hfl, app_nil_r in Hs. cbn in Hs. rewrite Htx in Hs. cbn in Hs.
  rewrite <-Nat.add_1_r. rewrite (drain_frames m msgs _ [] 1); [|done|].
  - rewrite (drain_err 0 _ EOF (mkRx [] EOF)) by done. cbn [mbind option_bind]. by rewrite app_nil_r.
  - cbn. by rewrite Hs, app_nil_r.
Qed.

(** A connection that breaks while messages are being sent never makes the
    peer see a message that was not sent: what reaches the peer is a prefix of
    the frames, and decoding it yields a prefix of the messages followed by an
    error. *)
Theorem wst_broken_connection_prefix m msgs w out r b :
  Forall sendable msgs → tx w = [] → write_all m msgs (NewWriter w) = (r, b) →
  ∃ k e, drain (S (length msgs)) (receiver (tx (wr b)) out) = Some (take k msgs, e).
Proof.
  intros Hf Htx Hw.
  assert (bufw_ok (NewWriter w)) as Hok by (split; [done|apply Nat.le_0_l]).
  apply (drain_prefix m); [done|].
  destruct (writes_write_all m msgs Hf _ Hok) as [(b' & Hw' & Hs & _)|(e & b' & Hw' & _ & _ & Hp)];
    rewrite Hw in Hw'; injection Hw' as -> ->; unfold stream in *; cbn in *; rewrite Htx in *; cbn in *.
  - rewrite <-Hs. apply prefix_app_r. done.
  - done.
Qed.

Lemma wst_roundtrip_witness :
  ∃ b, write_all true [(BinaryMessage, b#"hello"); (TextMessage, [])] (NewWriter (mkTx [] None ErrIO)) = (Ok (), b) ∧
       drain 3 (receiver (tx (wr b)) (mkTx [] None ErrIO)) =
         Some ([(BinaryMessage, b#"hello"); (TextMessage, [])], EOF).
Proof.
  apply (wst_roundtrip true [(BinaryMessage, b#"hello"); (TextMessage, [])]); [|done..].
  repeat constructor; done.
Defined.

Lemma wst_broken_connection_prefix_witness :
  ∃ k e, drain 3 (receiver (tx (wr (snd (write_all false [(2, b#"one"); (2, b#"two")]
                                   (NewWriter (mkTx [] (Some 7%nat) ErrIO)))))) (mkTx [] None ErrIO))
         = Some (take k [(2, b#"one"); (2, b#"two")], e).
Proof.
  eapply (wst_broken_connection_prefix false [(2, b#"one"); (2, b#"two")] (mkTx [] (Some 7%nat) ErrIO));
    [repeat constructor; done|done|apply surjective_pairing].
Defined.

Lemma read_returns c :
  (∀ p b, fst (pingHandler c p b) ≠ Panic) → (∀ p b, fst (pongHandler c p b) ≠ Panic) →
  is_Some (ReadMessage c).
Proof.
  intros Hp Hq. unfold ReadMessage.
  assert (∀ fuel c', pingHandler c' = pingHandler c → pongHandler c' = pongHandler c →
    (length (rx (bufr c')) < fuel)%nat → is_Some (read_loop fuel c')) as H; [|by apply H; try lia].
  induction fuel as [|fuel IH]; intros c' Hcp Hcq Hf; [lia|]. cbn [read_loop].
  pose proof (read_frame_total (bufr c')) as Ht.
  destruct (read_frame (bufr c')) as [[[op data]|e|] r] eqn:Er; [|by eexists|done].
  assert (length (rx r) < length (rx (bufr c')))%nat as Hlt by by eapply read_frame_consumes.
  rewrite Hcp, Hcq. repeat case_match; try (by eexists); try (apply IH; cbn; [done..|lia]); exfalso.
  - eapply Hp. by erewrite H0.
  - eapply Hq. by erewrite H1.
Qed.

(** [ReadMessage] returns on every input: with handlers that do not panic,
    the frame loop ends within the rounds the model allows (it consumes at
    least two bytes per round). *)
Theorem ReadMessage_returns c :
  (∀ p b, fst (pingHandler c p b) ≠ Panic) → (∀ p b, fst (pongHandler c p b) ≠ Panic) →
  is_Some (ReadMessage c).
Proof. apply read_returns. Qed.

Lemma WriteControl_total m op data b : fst (WriteControl m op data b) ≠ Panic.
Proof.
  unfold WriteControl. apply io_bind_total; [auto with go|]. intros _ b1. cbv zeta.
  destruct (125 <? blen data); [done|].
  repeat (apply io_bind_total; [|intros ??]); auto with go. destruct m; auto with go.
Qed.

Lemma defaultPingHandler_total m p b : fst (defaultPingHandler m p b) ≠ Panic.
Proof.
  unfold defaultPingHandler. pose proof (WriteControl_total m PongMessage p b).
  destruct (WriteControl m PongMessage p b) as [[] ?]; try done. by destruct (_ || _).
Qed.

Lemma ReadMessage_returns_witness :
  is_Some (ReadMessage (NewConn (mkRx (frame true PingMessage b#"x") EOF) (mkTx [] None ErrIO) true)).
Proof.
  apply ReadMessage_returns; [intros p b; apply defaultPingHandler_total|done].
Defined.

Lemma length_frame m op data : (2 ≤ length (frame m op data))%nat.
Proof. unfold frame, ws_frame. destruct (ws_len _). destruct m; cbn; lia. Qed.

(** A ping of at most 125 bytes is answered with a pong that carries the
    same payload, is not shown to the caller, and the message behind it is
    returned. *)
Theorem ping_answered m m' mk p op data r e w :
  blen p ≤ 125 → sendable (op, data) → quota w = None →
  ∃ c', ReadMessage (NewConn (mkRx (frame m PingMessage p ++ frame m' op data ++ r) e) w mk)
          = Some (op, data, None, c') ∧
        rx (bufr c') = r ∧ tx (wr (bufw_of c')) = tx w ++ frame mk PongMessage p.
Proof.
  intros Hp [(Hop & Hc & Hpi & Hpo) Hl] Hq. cbn in *. unfold ReadMessage.
  cbn [bufr rx NewConn NewConnWithReader SetPongHandler SetPingHandler].
  assert (∃ n, length (frame m PingMessage p ++ frame m' op data ++ r) = S n) as [n ->].
  { rewrite length_app. pose proof (length_frame m PingMessage p).
    destruct (length (frame m PingMessage p)); [lia|]. by eexists. }
  cbn [read_loop NewConn NewConnWithReader SetPongHandler SetPingHandler bufr].
  rewrite read_frame_frame by (done || (unfold maxPayload; lia)). rewrite Z.eqb_refl.
  cbn [pingHandler masking bufw_of NewWriter].
  assert (bufw_ok (NewWriter w)) as Hok by (split; [done|apply Nat.le_0_l]).
  destruct (writes_WriteControl mk PongMessage p ltac:(done) Hp _ Hok)
    as [(b' & Hw & Hs & _)|(e' & b' & _ & _ & Hn & _)]; [|done].
  unfold defaultPingHandler. rewrite Hw. cbn [with_sides read_loop bufr].
  rewrite read_frame_frame by done.
  rewrite (proj2 (Z.eqb_neq _ _) Hpi), (proj2 (Z.eqb_neq _ _) Hpo), (proj2 (Z.eqb_neq _ _) Hc).
  eexists. split_and!; [reflexivity|done|]. cbn.
  unfold WriteControl in Hw. rewrite io_bind_ok in Hw. destruct Hw as (_ & b1 & _ & Hw). cbv zeta in Hw.
  rewrite (proj2 (Z.ltb_ge _ _)) in Hw by lia. rewrite io_bind_ok in Hw. destruct Hw as (_ & b2 & _ & Hw).
  rewrite io_bind_ok in Hw. destruct Hw as (_ & b3 & _ & Hw). apply Flush_after_ok in Hw.
  unfold stream in Hs. rewrite Hw, app_nil_r in Hs. by rewrite Hs, app_nil_r.
Qed.

Lemma ping_answered_witness :
  ∃ c', ReadMessage (NewConn (mkRx (frame true PingMessage b#"hi" ++ frame false 2 b#"data" ++ []) EOF)
                       (mkTx [] None ErrIO) false) = Some (2, b#"data", None, c') ∧
        rx (bufr c') = [] ∧ tx (wr (bufw_of c')) = [] ++ frame false PongMessage b#"hi".
Proof. apply ping_answered; [by vm_compute|repeat split; done|done]. Defined.

(** Whatever bytes arrive, a frame that [read_frame] accepts has a four-bit
    opcode and a payload of at most 10 MB; a longer message that a peer did send
    is refused with the out-of-bounds error. *)
Theorem read_frame_bounds op data :
  (∀ s s', read_frame s = (Ok (op, data), s') → is_opcode op ∧ blen data ≤ maxPayload) ∧
  (is_opcode op → maxPayload < blen data < 2 ^ 63 → ∀ r e, ∃ s',
     read_frame (mkRx (ws_frame op None data ++ r) e) =
       (Err (Errorf b#"payload length %d is out of bounds" [blen data]), s')).
Proof.
  split; [|intros; by apply read_frame_too_long].
  intros s s'. unfold read_frame. rewrite io_bind_ok. intros (b0 & s0 & _ & H). cbv zeta in H.
  rewrite io_bind_ok in H. destruct H as (b1 & s1 & _ & H).
  rewrite io_bind_ok in H. destruct H as (len & s2 & _ & H).
  rewrite io_bind_ok in H. destruct H as (key & s3 & _ & H).
  destruct ((len <? 0) || (maxPayload <? len)) eqn:El; [done|]. bool_to_prop.
  rewrite io_bind_ok in H. destruct H as (pl & s4 & (Hlen & _)%ReadFull_ok & H).
  injection H as <- <- _. pose proof (b2z_range b0) as Hb.
  destruct (header_fields (b2z b0) Hb) as (_ & _ & ->). split; [apply Z.mod_pos_bound; lia|].
  unfold blen. destruct (_ =? 0); rewrite ?length_unmask, Hlen; lia.
Qed.

(** [WriteControl] puts the first header byte into the buffer before it
    looks at the length, so a control payload above 125 bytes is reported as an
    error but leaves a stray byte in a writer that still works: the next
    message is sent behind it. *)
Theorem WriteControl_oversize_stray_byte m op data b :
  bufw_ok b → is_opcode op → 125 < blen data → quota (wr b) = None →
  ∃ b', WriteControl m op data b = (Err (Errorf b#"control frame length %d > 125" [blen data]), b') ∧
        bufw_ok b' ∧ stream b' = stream b ++ [z2b (128 + op)].
Proof.
  intros Hb [? ?] Hl Hq. unfold WriteControl.
  destruct (writes_WriteByte (or_byte x80 (z2b op)) b Hb)
    as [(b' & Hw & Hs & Hok & _)|(e & b' & _ & _ & Hn & _)]; [|done].
  exists b'. unfold mbind, io_bind. rewrite Hw. cbv zeta. rewrite (proj2 (Z.ltb_lt _ _)) by lia.
  rewrite or_byte_x80 in Hs by lia. done.
Qed.

Lemma WriteControl_oversize_stray_byte_witness :
  ∃ b', WriteControl false PongMessage (replicate 126 x00) (NewWriter (mkTx [] None ErrIO)) =
          (Err (Errorf b#"control frame length %d > 125" [blen (replicate 126 x00)]), b') ∧
        bufw_ok b' ∧ stream b' = [] ++ [z2b (128 + PongMessage)].
Proof.
  apply (WriteControl_oversize_stray_byte false PongMessage (replicate 126 x00) (NewWriter (mkTx [] None ErrIO)));
    [split; [done|apply Nat.le_0_l]|done|by vm_compute|done].
Defined.

(** The message sent after the stray byte is not the one the peer reads. *)
Example oversize_pong_then_message :
  let '(_, b) := WriteControl false PongMessage (replicate 126 x00) (NewWriter (mkTx [] None ErrIO)) in
  let '(r, b) := WriteMessage false BinaryMessage b#"hello, peer" b in
  r = Ok () ∧ drain 2 (receiver (tx (wr b)) (mkTx [] None ErrIO)) = Some ([], ErrUnexpectedEOF).
Proof. by vm_compute. Qed.
