(* ===== verification/Upgrade.v ===== *)
(** pkg/wst/upgrade.go: the opening handshake of the WebSocket transport, server
    side ([Upgrade]) and client side ([Dial]).

    SHA-1, the random nonce, the URL and response parsers, the dialler, the TLS
    handshake and the connection that [Hijack] returns are parameters.  Deadlines
    appear as errors of the connection.  Both functions return with their result
    whether a connection that they opened or took over is left open. *)

From S2P Require Import Prelude GoStrings GoNet GoIO GoBase64 Wst.

Definition websocketGUID : bytes := b#"258EAFA5-E914-47DA-95CA-C5AB0DC85B11".

(** [generateNonce] on the 16 random bytes. *)
Definition generateNonce (random : bytes) : bytes := b64_encode random.

Definition tokenContains (header token : bytes) : bool :=
  existsb (λ part, EqualFold (TrimSpace part) token) (Split header b#",").

Definition eol : bytes := [x0d; x0a].

Definition is_ok {A} (r : go A) : bool := match r with Ok _ => true | _ => false end.

(** An early return with an error. *)
Ltac refuse := intros [= <- <-]; split; [|split]; [done|done|discriminate].

Section handshake.
Context (sha1 : bytes → bytes).

Definition generateAcceptKey (clientKey : bytes) : bytes := b64_encode (sha1 (clientKey ++ websocketGUID)).

(** ** Server *)

Definition upgrade_response (clientKey : bytes) (Subprotocols : list bytes) : bytes :=
  b#"HTTP/1.1 101 Switching Protocols" ++ eol ++
  b#"Upgrade: websocket" ++ eol ++
  b#"Connection: Upgrade" ++ eol ++
  b#"Sec-WebSocket-Accept: " ++ generateAcceptKey clientKey ++ eol ++
  match Subprotocols with
  | [] => []
  | p :: _ => b#"Sec-WebSocket-Protocol: " ++ p ++ eol
  end ++ eol.

(** [hijack] is [None] when the response writer cannot be hijacked; otherwise the
    connection's unread input and its buffered writer, or the error. *)
Definition Upgrade (Subprotocols : list bytes) (method : bytes) (get : bytes → bytes)
    (hijack : option (go (rxside * bufw))) : go Conn * bool :=
  if negb (bool_decide (method = b#"GET")) then (Err (Errorf b#"websocket: method is not GET" []), false)
  else if negb (tokenContains (get b#"Connection") b#"upgrade") then
    (Err (Errorf b#"websocket: connection header is not 'upgrade'" []), false)
  else if negb (EqualFold (get b#"Upgrade") b#"websocket") then
    (Err (Errorf b#"websocket: upgrade header is not 'websocket'" []), false)
  else if negb (bool_decide (get b#"Sec-WebSocket-Version" = b#"13")) then
    (Err (Errorf b#"websocket: unsupported websocket version" []), false)
  else
    let clientKey := get b#"Sec-WebSocket-Key" in
    if bool_decide (clientKey = []) then (Err (Errorf b#"websocket: client key header is missing or empty" []), false)
    else
      match hijack with
      | None => (Err (Errorf b#"response writer does not support hijacking" []), false)
      | Some (Err e) => (Err e, false)
      | Some Panic => (Panic, false)
      | Some (Ok (conn, bufrw)) =>
          match (bw_Write (upgrade_response clientKey Subprotocols) ≫= λ _, Flush) bufrw with
          | (Ok _, bufrw) => (Ok (NewConn conn (wr bufrw) false), true)
          | (Err e, _) => (Err e, false)
          | (Panic, _) => (Panic, true)
          end
      end.

(** ** Client *)

Definition header_lines (header : list (bytes * list bytes)) : bytes :=
  header ≫= λ '(k, vs), vs ≫= λ val, k ++ b#": " ++ val ++ eol.

Definition dial_request (uri host nonce : bytes) (header : list (bytes * list bytes)) : bytes :=
  b#"GET " ++ uri ++ b#" HTTP/1.1" ++ eol ++ b#"Host: " ++ host ++ eol ++
  b#"Upgrade: websocket" ++ eol ++ b#"Connection: Upgrade" ++ eol ++
  b#"Sec-WebSocket-Key: " ++ nonce ++ eol ++ b#"Sec-WebSocket-Version: 13" ++ eol ++
  header_lines header ++ eol.

(** A parsed response head: status, headers and its length on the wire. *)
Record http_response := mkResponse { StatusCode : Z; Resp_Get : bytes → bytes; resp_len : nat }.

(** The parts of a [url.URL] that are used. *)
Record URL := mkURL { Scheme : bytes; u_Hostname : bytes; u_Port : bytes; RequestURI : bytes }.

Definition is_secure (u : URL) : bool := bool_decide (Scheme u = b#"wss") || bool_decide (Scheme u = b#"https").

Definition dial_addr (u : URL) : bytes :=
  let port := if bool_decide (u_Port u = []) then (if is_secure u then b#"443" else b#"80") else u_Port u in
  JoinHostPort (u_Hostname u) port.

(** The handshake on the established connection. *)
Definition dial_handshake (ReadResponse : bytes → go http_response) (u : URL) (random : bytes)
    (header : list (bytes * list bytes)) (conn : netconn) : go Conn * bool :=
  let nonce := generateNonce random in
  match writing (Write (dial_request (RequestURI u) (u_Hostname u) nonce header)) conn with
  | (Ok _, conn) =>
      match ReadResponse (rx (nrx conn)) with
      | Ok resp =>
          if negb (StatusCode resp =? 101) then (Err (Errorf b#"bad status: %s" []), false)
          else if negb (bool_decide (Resp_Get resp b#"Sec-WebSocket-Accept" = generateAcceptKey nonce)) then
            (Err (Errorf b#"invalid Sec-WebSocket-Accept" []), false)
          else
            let br := mkRx (drop (resp_len resp) (rx (nrx conn))) (rx_err (nrx conn)) in
            (Ok (NewConnWithReader (ntx conn) true br), true)
      | Err e => (Err e, false)
      | Panic => (Panic, true)
      end
  | (Err e, _) => (Err e, false)
  | (Panic, _) => (Panic, true)
  end.

(** [dial] is the configured dialler or the standard one; [tls] the TLS client
    handshake over the connection for a server name. *)
Definition Dial (ReadResponse : bytes → go http_response) (parsed : go URL) (dial : bytes → go netconn)
    (tls : bytes → netconn → go netconn) (random : bytes) (header : list (bytes * list bytes)) : go Conn * bool :=
  match parsed with
  | Err e => (Err e, false)
  | Panic => (Panic, false)
  | Ok u =>
      match dial (dial_addr u) with
      | Err e => (Err e, false)
      | Panic => (Panic, false)
      | Ok conn =>
          match (if is_secure u then tls (u_Hostname u) conn else Ok conn) with
          | Ok conn => dial_handshake ReadResponse u random header conn
          | Err e => (Err e, false)
          | Panic => (Panic, true)
          end
      end
  end.

(** ** Properties *)

(** C24: the server completes the WebSocket handshake only for a proper upgrade
    request (GET, a Connection header that lists upgrade, Upgrade: websocket,
    version 13, a key), and what it has then sent is exactly the 101 response
    with the accept key of that request; the connection it returns sends
    unmasked frames and reads what follows on the connection.  After an error no
    connection is left open. *)
Theorem Upgrade_sound subs method get conn w c open :
  bufw_ok w → Upgrade subs method get (Some (Ok (conn, w))) = (c, open) →
  c ≠ Panic ∧ open = is_ok c ∧ ∀ c', c = Ok c' →
  method = b#"GET" ∧ EqualFold (get b#"Upgrade") b#"websocket" = true ∧ get b#"Sec-WebSocket-Version" = b#"13" ∧
  get b#"Sec-WebSocket-Key" ≠ [] ∧
  (∃ part, part ∈ Split (get b#"Connection") b#"," ∧ EqualFold (TrimSpace part) b#"upgrade" = true) ∧
  tx (wr (bufw_of c')) = stream w ++ upgrade_response (get b#"Sec-WebSocket-Key") subs ∧
  bufr c' = conn ∧ masking c' = false.
Proof.
  intros Hw. unfold Upgrade. case_bool_decide as Em; cbn [negb]; [|by refuse].
  destruct (tokenContains _ _) eqn:Et; cbn [negb]; [|by refuse].
  destruct (EqualFold (get b#"Upgrade") _) eqn:Eu; cbn [negb]; [|by refuse].
  case_bool_decide as Ev; cbn [negb]; [|by refuse]. cbv zeta. case_bool_decide as Ek; [by refuse|].
  destruct (writes_Write (upgrade_response (get b#"Sec-WebSocket-Key") subs) w Hw)
    as [(w1 & H1 & Hs1 & Hok1 & _)|(e & w1 & H1 & _)]; unfold mbind, io_bind; rewrite H1; [|by refuse].
  destruct (Flush_cases w1 (proj1 Hok1)) as [(w2 & -> & Htx & _)|(e & w2 & -> & _)]; [|by refuse].
  intros [= <- <-]. split; [done|]. split; [done|]. intros c' [= <-]. split_and!; try done.
  - unfold tokenContains in Et. apply existsb_exists in Et as (part & Hp%list_elem_of_In & He). by exists part.
  - cbn. by rewrite Htx, Hs1.
Qed.

Lemma dial_handshake_sound ReadResponse u random header conn c open :
  dial_handshake ReadResponse u random header conn = (c, open) →
  c ≠ Panic → open = is_ok c ∧ ∀ c', c = Ok c' →
    ∃ resp, ReadResponse (rx (nrx conn)) = Ok resp ∧ StatusCode resp = 101 ∧
      Resp_Get resp b#"Sec-WebSocket-Accept" = generateAcceptKey (generateNonce random) ∧
      rx (bufr c') = drop (resp_len resp) (rx (nrx conn)) ∧ masking c' = true ∧
      tx (wr (bufw_of c')) = tx (ntx conn) ++ dial_request (RequestURI u) (u_Hostname u) (generateNonce random) header.
Proof.
  unfold dial_handshake. cbv zeta. destruct (writing _ _) as [[[]|e|] conn1] eqn:Hw; [|by intros [= <- <-]..].
  apply writing_Write_ok in Hw as [Hrx Htx]. rewrite Hrx.
  destruct (ReadResponse (rx (nrx conn))) as [resp|e|] eqn:Hr; [|by intros [= <- <-]..].
  destruct (StatusCode resp =? 101) eqn:Es; cbn [negb]; [|by intros [= <- <-]].
  case_bool_decide as Ea; cbn [negb]; [|by intros [= <- <-]]. intros [= <- <-] _. split; [done|].
  intros c' [= <-]. exists resp. bool_to_prop. split_and!; try done.
Qed.

(** C25: the client accepts a connection only from a server that proves it saw the
    request: status 101 and the accept key computed from the nonce it has just
    sent; it talks to the URL's host at its port or the default port of its
    scheme, through TLS exactly for the secure schemes; every error leaves no
    connection open; and no byte the server sent after its response is lost, even
    if it was read ahead together with the response. *)
Theorem Dial_sound ReadResponse parsed dial tls random header c open :
  Dial ReadResponse parsed dial tls random header = (c, open) →
  c ≠ Panic → open = is_ok c ∧ ∀ c', c = Ok c' →
    ∃ u conn0 conn resp, parsed = Ok u ∧ dial (dial_addr u) = Ok conn0 ∧
      (if is_secure u then tls (u_Hostname u) conn0 = Ok conn else conn = conn0) ∧
      ReadResponse (rx (nrx conn)) = Ok resp ∧ StatusCode resp = 101 ∧
      Resp_Get resp b#"Sec-WebSocket-Accept" = generateAcceptKey (generateNonce random) ∧
      rx (bufr c') = drop (resp_len resp) (rx (nrx conn)) ∧ masking c' = true ∧
      tx (wr (bufw_of c')) = tx (ntx conn) ++ dial_request (RequestURI u) (u_Hostname u) (generateNonce random) header.
Proof.
  unfold Dial. destruct parsed as [u| |]; [|by intros [= <- <-]..].
  destruct (dial (dial_addr u)) as [conn0| |] eqn:Hd; [|by intros [= <- <-]..].
  destruct (if is_secure u then _ else _) as [conn| |] eqn:Ht; [|by intros [= <- <-]..].
  intros H Hc. apply dial_handshake_sound in H as [-> Hok]; [|done]. split; [done|]. intros c' E.
  destruct (Hok c' E) as (resp & Hr). exists u, conn0, conn, resp. split; [done|]. split; [done|]. split; [|done].
  destruct (is_secure u); congruence.
Qed.
End handshake.

(** A stand-in for SHA-1 and a response parser for the server's own response. *)
Definition toy_sha1 (s : bytes) : bytes := take 20 (reverse s).
Definition toy_response (key : bytes) (s : bytes) : go http_response :=
  let r := upgrade_response toy_sha1 key [b#"v1"] in
  if HasPrefix s r then
    Ok (mkResponse 101 (λ h, if bool_decide (h = b#"Sec-WebSocket-Accept") then generateAcceptKey toy_sha1 key else []) (length r))
  else Err ErrUnexpectedEOF.

Definition toy_headers (h : bytes) : bytes :=
  if bool_decide (h = b#"Connection") then b#"keep-alive, Upgrade"
  else if bool_decide (h = b#"Upgrade") then b#"WebSocket"
  else if bool_decide (h = b#"Sec-WebSocket-Version") then b#"13"
  else if bool_decide (h = b#"Sec-WebSocket-Key") then b#"AAECAwQFBgcICQoLDA0ODw=="
  else [].

Lemma Upgrade_sound_witness :
  let r := Upgrade toy_sha1 [b#"v1"] b#"GET" toy_headers (Some (Ok (mkRx b#"frames" EOF, NewWriter (mkTx [] None ErrIO)))) in
  is_ok r.1 = true ∧ r.1 ≠ Panic ∧ r.2 = is_ok r.1 ∧ ∀ c, r.1 = Ok c →
      b#"GET" = b#"GET" ∧ EqualFold (toy_headers b#"Upgrade") b#"websocket" = true ∧
      toy_headers b#"Sec-WebSocket-Version" = b#"13" ∧ toy_headers b#"Sec-WebSocket-Key" ≠ [] ∧
      (∃ part, part ∈ Split (toy_headers b#"Connection") b#"," ∧ EqualFold (TrimSpace part) b#"upgrade" = true) ∧
      tx (wr (bufw_of c)) = stream (NewWriter (mkTx [] None ErrIO)) ++
        upgrade_response toy_sha1 (toy_headers b#"Sec-WebSocket-Key") [b#"v1"] ∧
      bufr c = mkRx b#"frames" EOF ∧ masking c = false.
Proof.
  intros r. split; [by vm_compute|].
  refine (Upgrade_sound toy_sha1 [b#"v1"] b#"GET" toy_headers (mkRx b#"frames" EOF) (NewWriter (mkTx [] None ErrIO))
    r.1 r.2 _ (surjective_pairing r)).
  split; [done|]. apply Nat.le_0_l.
Defined.

(** Client against server: the response of the server to the client's nonce. *)
Definition toy_random : bytes := be_encode 16 0x000102030405060708090a0b0c0d0e0f.

Definition toy_conn : netconn :=
  mkNet (mkRx (upgrade_response toy_sha1 (generateNonce toy_random) [b#"v1"] ++ b#"frames") EOF) (mkTx [] None ErrIO).

Definition toy_url : URL := mkURL b#"ws" b#"example.com" b#"" b#"/v1/events".
Definition toy_dial (addr : bytes) : go netconn :=
  if bool_decide (addr = b#"example.com:80") then Ok toy_conn else Err ErrIO.

Lemma Dial_sound_witness :
  let r := Dial toy_sha1 (toy_response (generateNonce toy_random)) (Ok toy_url) toy_dial (λ _, Ok) toy_random [] in
  is_ok r.1 = true ∧ r.2 = is_ok r.1 ∧ ∀ c, r.1 = Ok c →
    ∃ u conn0 conn resp, Ok toy_url = Ok u ∧ toy_dial (dial_addr u) = Ok conn0 ∧
      (if is_secure u then Ok conn0 = Ok conn else conn = conn0) ∧
      toy_response (generateNonce toy_random) (rx (nrx conn)) = Ok resp ∧ StatusCode resp = 101 ∧
      Resp_Get resp b#"Sec-WebSocket-Accept" = generateAcceptKey toy_sha1 (generateNonce toy_random) ∧
      rx (bufr c) = drop (resp_len resp) (rx (nrx conn)) ∧ masking c = true ∧
      tx (wr (bufw_of c)) = tx (ntx conn) ++ dial_request (RequestURI u) (u_Hostname u) (generateNonce toy_random) [].
Proof.
  intros r. assert (is_ok r.1 = true) as Hok by by vm_compute. split; [done|].
  refine (Dial_sound toy_sha1 _ (Ok toy_url) toy_dial (λ _, Ok) toy_random [] r.1 r.2 (surjective_pairing r) _).
  destruct r.1; discriminate.
Defined.
