(* ===== verification/Pipe.v ===== *)
(** pkg/tunnel/pipe.go: [Pipe], the two goroutines that carry a tunnel's data
    between a connection and a WebSocket.  [PipeRW] is the same code on an
    [io.ReadWriteCloser], [PipeGorilla] and [PipeGorillaRW] on the WebSocket of
    the gorilla library.

    A goroutine that writes shares its WebSocket with the ping ticker and the ping
    handler of the other direction; messages are written under a lock, so what the
    others do is a sequence of whole messages between its own. *)

From S2P Require Import Prelude GoIO Wst.

(** The ping handler that [handleConnection] and [startPipe] install. *)
Definition ping_reply (masking : bool) : handler := λ appData, WriteMessage masking PongMessage appData.

(** [len(buf)] of the copy loops. *)
Definition bufLen : Z := 32 * 1024.

(** [conn.Close()]: later writes fail. *)
Definition close_tx (t : txside) : txside := mkTx (tx t) (Some O) ErrClosed.

(** ** Connection to WebSocket *)

(** What happens while the goroutine runs: its [Read] returns bytes and perhaps
    an error, or another goroutine sends a control message. *)
Inductive out_event :=
  | Got (p : bytes) (err : option error)
  | Control (op : Z) (p : bytes).

(** The deferred close message; its error is ignored. *)
Definition send_close (m : bool) (b : bufw) : bufw :=
  (WriteMessage m CloseMessage (FormatCloseMessage CloseNormalClosure []) b).2.

(** The loop: whether the goroutine has ended, and the writer.  The error of
    [WriteMessage] replaces the one of a [Read] that returned bytes. *)
Fixpoint pipe_out (m : bool) (evs : list out_event) (b : bufw) : bool * bufw :=
  match evs with
  | [] => (false, b)
  | Control op p :: evs' => pipe_out m evs' (WriteMessage m op p b).2
  | Got p err :: evs' =>
      if 0 <? blen p then
        match WriteMessage m BinaryMessage p b with
        | (Ok _, b) => pipe_out m evs' b
        | (_, b) => (true, send_close m b)
        end
      else
        match err with
        | None => pipe_out m evs' b
        | Some _ => (true, send_close m b)
        end
  end.

(** ** WebSocket to connection *)

Fixpoint pipe_in_loop (fuel : nat) (c : Conn) (t : txside) : option (Conn * txside) :=
  match fuel with
  | O => None
  | S fuel' =>
      match ReadMessage c with
      | None => None
      | Some (_, _, Some _, c) => Some (c, close_tx t)
      | Some (messageType, p, None, c) =>
          if (messageType =? BinaryMessage) || (messageType =? TextMessage) then
            match Write p t with
            | (Ok _, t) => pipe_in_loop fuel' c t
            | (_, t) => Some (c, close_tx t)
            end
          else pipe_in_loop fuel' c t
      end
  end.

(** Every message takes bytes off the connection ([pipe_in_returns]). *)
Definition pipe_in (c : Conn) (t : txside) : option (Conn * txside) :=
  pipe_in_loop (S (length (rx (bufr c)))) c t.

(** When the goroutine returns it has closed the connection. *)
Lemma pipe_in_closed c t c' t' : pipe_in c t = Some (c', t') → quota t' = Some O.
Proof.
  unfold pipe_in. generalize (S (length (rx (bufr c)))). intros fuel. revert c t.
  induction fuel as [|fuel IH]; intros c t; cbn [pipe_in_loop]; [done|].
  destruct (ReadMessage c) as [[[[op p] [e|]] c1]|]; [by intros [= _ <-]| |done].
  destruct (_ || _); [|apply IH]. destruct (Write p t) as [[[]| |] t1]; [apply IH|by intros [= _ <-]..].
Qed.

(** ** Reading past control messages *)

Lemma read_loop_enough n k c :
  (length (rx (bufr c)) < n)%nat → (n ≤ k)%nat → read_loop k c = read_loop n c.
Proof.
  revert k c. induction n as [|n IH]; intros k c Hn Hk; [lia|]. destruct k as [|k]; [lia|]. cbn [read_loop].
  destruct (read_frame (bufr c)) as [[[op data]|e|] r] eqn:Er; [|done..].
  apply read_frame_consumes in Er. repeat case_match; try done; apply IH; cbn; lia.
Qed.

Lemma ReadMessage_control m c op p r :
  op = PingMessage ∨ op = PongMessage → blen p ≤ maxPayload → rx (bufr c) = frame m op p ++ r →
  match (if op =? PingMessage then pingHandler c else pongHandler c) p (bufw_of c) with
  | (Ok _, w) => ReadMessage c = ReadMessage (with_sides c (mkRx r (rx_err (bufr c))) w)
  | (Err e, _) => ∃ c', ReadMessage c = Some (op, p, Some e, c')
  | (Panic, _) => ReadMessage c = None
  end.
Proof.
  intros Hop Hl Hrx. assert (is_opcode op) as Ho by (destruct Hop; subst; done).
  destruct c as [[q e] bw mk ph qh]. cbn [bufr rx rx_err bufw_of pingHandler pongHandler] in *. subst q.
  assert (∀ c', rx (bufr c') = r → read_loop (length (frame m op p ++ r)) c' = ReadMessage c') as Hfuel.
  { intros c' <-. apply read_loop_enough; [lia|]. rewrite length_app. pose proof (length_frame m op p). lia. }
  destruct (_ p bw) as [res w] eqn:Hh.
  assert (ReadMessage (mkConn (mkRx (frame m op p ++ r) e) bw mk ph qh) =
    match res with
    | Ok _ => read_loop (length (frame m op p ++ r)) (mkConn (mkRx r e) w mk ph qh)
    | Err e' => Some (op, p, Some e', mkConn (mkRx r e) w mk ph qh)
    | Panic => None
    end) as ->.
  { unfold ReadMessage. cbn [read_loop bufr]. rewrite read_frame_frame by done.
    destruct Hop as [->| ->]; cbn in Hh |- *; rewrite Hh; by destruct res. }
  destruct res; [by apply Hfuel|by eexists|done].
Qed.

Lemma ReadMessage_close m c p r :
  blen p ≤ maxPayload → rx (bufr c) = frame m CloseMessage p ++ r →
  ∃ c', ReadMessage c = Some (CloseMessage, [], Some EOF, c').
Proof.
  intros Hl Hrx. unfold ReadMessage. destruct c as [[q e] bw mk ph qh]. cbn [bufr rx] in *. subst q.
  cbn [read_loop bufr]. rewrite read_frame_frame by done. by eexists.
Qed.

(** ** What is sent *)

(** The messages that reach the WebSocket while it works, and the bytes that were
    read from the connection. *)
Fixpoint sent (evs : list out_event) : list (Z * bytes) :=
  match evs with
  | [] => []
  | Control op p :: evs' => (op, p) :: sent evs'
  | Got p err :: evs' =>
      if 0 <? blen p then (BinaryMessage, p) :: sent evs'
      else match err with None => sent evs' | Some _ => [(CloseMessage, FormatCloseMessage CloseNormalClosure [])] end
  end.

Fixpoint source (evs : list out_event) : bytes :=
  match evs with
  | [] => []
  | Control _ _ :: evs' => source evs'
  | Got p err :: evs' =>
      if 0 <? blen p then p ++ source evs' else match err with None => source evs' | Some _ => [] end
  end.

(** [Read] fills at most the buffer; control messages are pings and pongs. *)
Definition event_ok (ev : out_event) : Prop :=
  match ev with
  | Got p _ => blen p ≤ bufLen
  | Control op p => (op = PingMessage ∨ op = PongMessage) ∧ blen p ≤ maxPayload
  end.

Definition wire_ok (msg : Z * bytes) : Prop := is_opcode msg.1 ∧ blen msg.2 ≤ maxPayload.

Lemma sent_wire_ok evs : Forall event_ok evs → Forall wire_ok (sent evs).
Proof.
  induction 1 as [|[p err|op p] evs Hev _ IH]; [constructor|..]; cbn [sent].
  - unfold event_ok, bufLen in Hev. destruct (0 <? blen p); [|destruct err; [|done]]; repeat constructor; try done.
    cbn. unfold maxPayload. lia.
  - destruct Hev as [Hop Hl]. constructor; [|done]. split; [|done]. destruct Hop; subst; done.
Qed.

Lemma WriteMessage_failed m op p b e : werr b = Some e → WriteMessage m op p b = (Err e, b).
Proof. intros H. unfold WriteMessage, mbind, io_bind, bw_WriteByte. by rewrite H. Qed.

Lemma writes_wire m msg : wire_ok msg → writes (WriteMessage m msg.1 msg.2) (frame m msg.1 msg.2).
Proof. intros [Ho Hl]. apply writes_WriteMessage; [done|]. unfold maxPayload in Hl. lia. Qed.

(** One message: it is appended to the stream, or the writer has failed and a
    prefix went out. *)
Lemma write_step m msg b : wire_ok msg → bufw_ok b →
  (∃ b', WriteMessage m msg.1 msg.2 b = (Ok (), b') ∧ bufw_ok b' ∧ wbuf b' = [] ∧
     stream b' = stream b ++ frame m msg.1 msg.2 ∧ (quota (wr b) = None → quota (wr b') = None)) ∨
  (∃ e b', WriteMessage m msg.1 msg.2 b = (Err e, b') ∧ werr b' = Some e ∧ quota (wr b) ≠ None ∧
     tx (wr b') `prefix_of` stream b ++ frame m msg.1 msg.2).
Proof.
  intros Hm Hb. destruct (writes_wire m msg Hm b Hb) as [(b' & E & Hs & Hok & Hq)|(e & b' & ?)]; [left|by right; exists e, b'].
  exists b'. split; [done|]. split; [done|]. split; [by eapply WriteMessage_flushed|done].
Qed.

(** The messages one after the other, whatever the errors. *)
Definition send_all (m : bool) (msgs : list (Z * bytes)) (b : bufw) : bufw :=
  foldl (λ b msg, (WriteMessage m msg.1 msg.2 b).2) b msgs.

Lemma send_all_failed m msgs b e : werr b = Some e → send_all m msgs b = b.
Proof.
  intros H. induction msgs as [|msg msgs IH]; [done|]. unfold send_all in *. cbn [foldl].
  by rewrite WriteMessage_failed with (e := e) by done.
Qed.

(** The first error of a message is the end for all later ones: a goroutine that
    stops there sends what it would have sent had it gone on. *)
Lemma pipe_out_send_all m evs b :
  Forall event_ok evs → bufw_ok b ∨ is_Some (werr b) → (pipe_out m evs b).2 = send_all m (sent evs) b.
Proof.
  intros Hev. revert b. induction Hev as [|[p err|op p] evs Hev Hevs IH]; intros b Hb; [done|..]; cbn [pipe_out sent].
  - destruct (0 <? blen p) eqn:Hp; [|destruct err; [done|by apply IH]]. unfold send_all. cbn [foldl].
    change (foldl _ ?x (sent evs)) with (send_all m (sent evs) x). cbn [fst snd].
    destruct Hb as [Hb|[e He]].
    + destruct (write_step m (BinaryMessage, p) b) as [(b' & E & Hb' & _)|(e & b' & E & He & _)]; [|done|..].
      { unfold event_ok, bufLen in Hev. split; [done|]. cbn. unfold maxPayload. lia. }
      * cbn [fst snd] in E. rewrite E. apply IH. by left.
      * cbn [fst snd] in E. rewrite E. cbn [snd]. unfold send_close.
        rewrite WriteMessage_failed with (e := e) by done. by rewrite send_all_failed with (e := e).
    + rewrite WriteMessage_failed with (e := e) by done. cbn [snd]. unfold send_close.
      rewrite WriteMessage_failed with (e := e) by done. by rewrite send_all_failed with (e := e).
  - unfold send_all. cbn [foldl]. apply IH. destruct Hb as [Hb|[e He]].
    + destruct (write_step m (op, p) b) as [(b' & E & Hb' & _)|(e & b' & E & He & _)]; [|done|..].
      { destruct Hev as [[->| ->] Hl]; by split. }
      * left. cbn [fst snd] in E |- *. by rewrite E.
      * right. cbn [fst snd] in E |- *. rewrite E. by exists e.
    + right. cbn [fst snd]. rewrite WriteMessage_failed with (e := e) by done. by exists e.
Qed.

Lemma send_all_prefix m msgs b :
  Forall wire_ok msgs → bufw_ok b → tx (wr (send_all m msgs b)) `prefix_of` stream b ++ frames m msgs.
Proof.
  intros Hm. revert b. induction Hm as [|[op p] msgs Hmsg Hms IH]; intros b Hb; unfold send_all; cbn [foldl].
  - unfold stream. cbn. rewrite app_nil_r. by apply prefix_app_r.
  - change (foldl _ ?x msgs) with (send_all m msgs x). rewrite frames_cons, (assoc_L (++)). cbn [fst snd].
    destruct (write_step m (op, p) b Hmsg Hb) as [(b' & E & Hb' & _ & Hs & _)|(e & b' & E & He & _ & Hp)];
      cbn [fst snd] in *; rewrite E; cbn [snd].
    + rewrite <-Hs. by apply IH.
    + rewrite send_all_failed with (e := e) by done. by apply prefix_app_r.
Qed.

Lemma send_all_healthy m msgs b :
  Forall wire_ok msgs → bufw_ok b → wbuf b = [] → quota (wr b) = None →
  tx (wr (send_all m msgs b)) = tx (wr b) ++ frames m msgs.
Proof.
  intros Hm. revert b. induction Hm as [|[op p] msgs Hmsg Hms IH]; intros b Hb Hbuf Hq; unfold send_all; cbn [foldl].
  - by rewrite app_nil_r.
  - change (foldl _ ?x msgs) with (send_all m msgs x). rewrite frames_cons, (assoc_L (++)). cbn [fst snd].
    destruct (write_step m (op, p) b Hmsg Hb) as [(b' & E & Hb' & Hbuf' & Hs & Hq')|(e & b' & _ & _ & Hn & _)]; [|done].
    cbn [fst snd] in *. rewrite E. cbn [snd]. unfold stream in Hs. rewrite Hbuf, Hbuf', !app_nil_r in Hs.
    rewrite <-Hs. apply IH; auto.
Qed.

(** ** What is received *)

(** The bytes of the data messages before the close message. *)
Fixpoint payload (msgs : list (Z * bytes)) : bytes :=
  match msgs with
  | [] => []
  | (op, p) :: msgs' =>
      if op =? CloseMessage then []
      else if (op =? BinaryMessage) || (op =? TextMessage) then p ++ payload msgs'
      else payload msgs'
  end.

Lemma payload_sent evs : Forall event_ok evs → payload (sent evs) = source evs.
Proof.
  induction 1 as [|[p err|op p] evs Hev _ IH]; [done|..]; cbn [sent source].
  - destruct (0 <? blen p); [|by destruct err]. cbn. by rewrite IH.
  - destruct Hev as [[->| ->] _]; cbn; exact IH.
Qed.

(** A call of [ReadMessage] that fails ends the loop. *)
Lemma pipe_in_end fuel c t op p e c1 r :
  ReadMessage c = Some (op, p, Some e, c1) → pipe_in_loop fuel c t = Some r → r.2 = close_tx t.
Proof. intros H. destruct fuel; [done|]. cbn [pipe_in_loop]. rewrite H. by intros [= <-]. Qed.

Lemma frame_cut m op p q k :
  q ++ k = frame m op p → k ≠ [] → is_opcode op → blen p ≤ maxPayload →
  ∀ c, rx (bufr c) = q → ∃ e c1, ReadMessage c = Some (0, [], Some e, c1).
Proof.
  intros Hk Hk0 Hop Hl [[q' e0] w mk ph qh] Hq. cbn in Hq. subst q'.
  pose proof (read_frame_frame m op p [] e0 Hop Hl) as Hok. rewrite app_nil_r in Hok.
  pose proof (local_reader_prefix _ _ _ _ _ _ local_read_frame Hok (eq_sym Hk) Hk0) as Hno.
  pose proof (read_frame_total (mkRx q e0)) as Ht. unfold ReadMessage. cbn [read_loop bufr].
  destruct (read_frame (mkRx q e0)) as [[a|e|] r] eqn:Er; [by destruct (Hno a r)| |done].
  by eexists _, _.
Qed.

(** Whatever part of the messages arrives, and whatever happens to the writers,
    a prefix of the data is delivered. *)
Lemma pipe_in_loop_prefix m msgs fuel c t r :
  Forall wire_ok msgs → rx (bufr c) `prefix_of` frames m msgs → pipe_in_loop fuel c t = Some r →
  tx r.2 `prefix_of` tx t ++ payload msgs.
Proof.
  intros Hm. revert fuel c t. induction Hm as [|[op p] msgs [Hop Hl] Hm IH]; intros fuel c t Hq Hr; cbn [fst snd] in *.
  - apply prefix_nil_inv in Hq.
    assert (∃ e c1, ReadMessage c = Some (0, [], Some e, c1)) as (e & c1 & E).
    { eapply (frame_cut m 2 [] [] (frame m 2 [])); [done|by destruct m|done|done|done]. }
    apply (pipe_in_end _ _ _ _ _ _ _ _ E) in Hr as ->. by apply prefix_app_r.
  - rewrite frames_cons in Hq. destruct (decide (frame m op p `prefix_of` rx (bufr c))) as [[q' Hq']|Hnp].
    + rewrite Hq' in Hq. apply prefix_app_inv in Hq. cbn [payload].
      destruct (decide (op = CloseMessage)) as [->|Hnc].
      { destruct (ReadMessage_close m c p q' Hl Hq') as [c1 E].
        apply (pipe_in_end _ _ _ _ _ _ _ _ E) in Hr as ->. by apply prefix_app_r. }
      rewrite (proj2 (Z.eqb_neq op CloseMessage)) by done.
      destruct (decide (op = PingMessage ∨ op = PongMessage)) as [Hctl|Hdat].
      * assert ((op =? BinaryMessage) || (op =? TextMessage) = false) as -> by (by destruct Hctl; subst).
        pose proof (ReadMessage_control m c op p q' Hctl Hl Hq') as H.
        destruct (_ p (bufw_of c)) as [[u|e|] w].
        -- eapply (IH fuel (with_sides c (mkRx q' (rx_err (bufr c))) w)); [done|].
           destruct fuel; [done|]. cbn [pipe_in_loop] in *. by rewrite <-H.
        -- destruct H as [c1 E]. apply (pipe_in_end _ _ _ _ _ _ _ _ E) in Hr as ->. by apply prefix_app_r.
        -- destruct fuel; [done|]. cbn [pipe_in_loop] in Hr. by rewrite H in Hr.
      * destruct c as [[q e] w mk ph qh]. cbn [bufr rx] in Hq'. subst q.
        destruct fuel as [|fuel]; [done|]. cbn [pipe_in_loop] in Hr. rewrite ReadMessage_data in Hr; [|by split_and!; tauto|done].
        destruct ((op =? BinaryMessage) || (op =? TextMessage)); [|by eapply IH in Hr].
        unfold Write in Hr. destruct (conn_write_cases p t) as [(t' & E & Htx & _)|(k & t' & E & Hk & Htx & _)]; rewrite E in Hr.
        -- apply IH in Hr; [|done]. by rewrite Htx, <-(assoc_L (++)) in Hr.
        -- injection Hr as <-. cbn. rewrite Htx. apply prefix_app. trans p; [|by apply prefix_app_r].
           exists (drop k p). by rewrite take_drop.
    + assert (∃ k, rx (bufr c) ++ k = frame m op p ∧ k ≠ []) as (k & Hk & Hk0).
      { destruct (prefix_weak_total (rx (bufr c)) (frame m op p) _ Hq) as [[k Hk]|?]; [by eexists| |done].
        exists k. split; [done|]. intros ->. apply Hnp. by rewrite Hk, app_nil_r. }
      destruct (frame_cut m op p _ k Hk Hk0 Hop Hl c eq_refl) as (e & c1 & E).
      apply (pipe_in_end _ _ _ _ _ _ _ _ E) in Hr as ->. by apply prefix_app_r.
Qed.

Definition healthy (b : bufw) : Prop := bufw_ok b ∧ wbuf b = [] ∧ quota (wr b) = None.

Lemma pipe_in_loop_healthy m mk msgs fuel c t :
  Forall wire_ok msgs → rx (bufr c) = frames m msgs → pingHandler c = ping_reply mk → pongHandler c = defaultPongHandler →
  healthy (bufw_of c) → quota t = None → (length msgs < fuel)%nat →
  ∃ r, pipe_in_loop fuel c t = Some r ∧ tx r.2 = tx t ++ payload msgs.
Proof.
  intros Hm. revert fuel c t. induction Hm as [|[op p] msgs [Hop Hl] Hm IH];
    intros fuel c t Hq Hph Hqh Hw Ht Hf; cbn [fst snd length] in *; (destruct fuel as [|fuel]; [lia|]).
  - assert (∃ e c1, ReadMessage c = Some (0, [], Some e, c1)) as (e & c1 & E).
    { eapply (frame_cut m 2 [] [] (frame m 2 [])); [done|by destruct m|done|done|done]. }
    cbn [pipe_in_loop]. rewrite E. eexists. split; [done|]. cbn. by rewrite app_nil_r.
  - rewrite frames_cons in Hq. cbn [payload]. destruct (decide (op = CloseMessage)) as [->|Hnc].
    { destruct (ReadMessage_close m c p _ Hl Hq) as [c1 E]. cbn [pipe_in_loop]. rewrite E.
      eexists. split; [done|]. cbn. by rewrite app_nil_r. }
    rewrite (proj2 (Z.eqb_neq op CloseMessage)) by done.
    destruct (decide (op = PingMessage ∨ op = PongMessage)) as [Hctl|Hdat].
    + assert ((op =? BinaryMessage) || (op =? TextMessage) = false) as -> by (by destruct Hctl; subst).
      assert (∃ w, (if op =? PingMessage then pingHandler c else pongHandler c) p (bufw_of c) = (Ok (), w) ∧ healthy w)
        as (w & Eh & Hw').
      { rewrite Hph, Hqh. destruct Hctl as [->| ->]; cbn; [|by eexists]. destruct Hw as (Hb & Hbuf & Hqu).
        destruct (write_step mk (PongMessage, p) (bufw_of c)) as [(b' & E & Hb' & Hbuf' & _ & Hq')|(e & b' & _ & _ & Hn & _)];
          [by split|done| |done]. exists b'. split; [exact E|]. split; [done|]. split; [done|auto]. }
      pose proof (ReadMessage_control m c op p _ Hctl Hl Hq) as H. rewrite Eh in H. cbn [pipe_in_loop]. rewrite H.
      apply (IH (S fuel) (with_sides c (mkRx (frames m msgs) (rx_err (bufr c))) w)); try done. lia.
    + destruct c as [[q e] w mk' ph qh]. cbn [bufr rx] in Hq. subst q. cbn [pipe_in_loop].
      rewrite ReadMessage_data; [|by split_and!; tauto|done].
      destruct ((op =? BinaryMessage) || (op =? TextMessage)).
      * unfold Write. rewrite conn_write_none by done.
        edestruct (IH fuel (mkConn (mkRx (frames m msgs) e) w mk' ph qh) (mkTx (tx t ++ p) None (tx_err t))) as (r & E & Htx);
          try done; [lia|]. exists r. split; [done|]. rewrite Htx. cbn [tx]. by rewrite <-(assoc_L (++)).
      * apply IH; try done. lia.
Qed.

Lemma pipe_in_loop_closed n c t c' t' : pipe_in_loop n c t = Some (c', t') → quota t' = Some O.
Proof.
  revert c t. induction n as [|n IH]; intros c t; cbn [pipe_in_loop]; [done|].
  destruct (ReadMessage c) as [[[[op p] [e|]] c1]|]; [by intros [= <- <-]| |done].
  destruct (_ || _); [|apply IH]. destruct (Write p t) as [[[]|e|] t1]; [apply IH|by intros [= <- <-]..].
Qed.


(** ** Properties *)

(** C5: a tunnel carries its data unchanged: when the connections are healthy, the
    bytes that one end's [Pipe] reads from its connection, in whatever pieces,
    with pings and pongs sent in between by other goroutines, are exactly the
    bytes that the other end's [Pipe] writes to its connection, which then is
    closed. *)
Theorem pipe_transparent m mk evs w out t e :
  Forall event_ok evs → tx w = [] → quota w = None → quota out = None → quota t = None →
  let wire := tx (wr (pipe_out m evs (NewWriter w)).2) in
  let peer := SetPingHandler (Some (ping_reply mk)) (NewConn (mkRx wire e) out mk) in
  ∃ c t', pipe_in peer t = Some (c, t') ∧ tx t' = tx t ++ source evs ∧ quota t' = Some O.
Proof.
  intros Hev Htx Hq Hout Ht wire peer.
  assert (bufw_ok (NewWriter w)) as Hb by (split; [done|apply Nat.le_0_l]).
  pose proof (sent_wire_ok evs Hev) as Hm.
  assert (wire = frames m (sent evs)) as Hwire.
  { unfold wire. rewrite pipe_out_send_all by (done || by left). rewrite send_all_healthy by done. cbn. by rewrite Htx. }
  destruct (pipe_in_loop_healthy m mk (sent evs) (S (length (rx (bufr peer)))) peer t) as ([c t'] & E & Htx');
    [done|exact Hwire|done|done|split; [split; [done|apply Nat.le_0_l]|done]|done|..].
  { cbn. rewrite Hwire. clear -Hm. induction (sent evs) as [|[op p] l IH]; [cbn; lia|].
    rewrite frames_cons, length_app. pose proof (length_frame m op p). cbn [length].
    assert (length l < S (length (frames m l)))%nat by (apply IH; by inversion Hm). lia. }
  exists c, t'. split; [exact E|]. cbn in Htx'. rewrite payload_sent in Htx' by done. split; [done|].
  by eapply pipe_in_loop_closed.
Qed.

(** C12: a tunnel that breaks delivers a prefix: whatever fails on the sending
    WebSocket, the receiving one or the target's connection, and wherever the
    stream is cut, the target receives a prefix of the bytes read at the source. *)
Theorem pipe_prefix m evs w q peer t c t' :
  Forall event_ok evs → tx w = [] → q `prefix_of` tx (wr (pipe_out m evs (NewWriter w)).2) → rx (bufr peer) = q →
  pipe_in peer t = Some (c, t') → tx t' `prefix_of` tx t ++ source evs.
Proof.
  intros Hev Htx Hq Hrx Hin. assert (bufw_ok (NewWriter w)) as Hb by (split; [done|apply Nat.le_0_l]).
  pose proof (sent_wire_ok evs Hev) as Hm. rewrite <-payload_sent by done.
  apply (pipe_in_loop_prefix m (sent evs) _ _ _ (c, t') Hm) in Hin; [done|].
  rewrite Hrx. etrans; [exact Hq|]. rewrite pipe_out_send_all by (done || by left).
  pose proof (send_all_prefix m (sent evs) (NewWriter w) Hm Hb) as H. unfold stream in H. cbn in H. by rewrite Htx in H.
Qed.


Definition sample_events : list out_event :=
  [Got b#"hello" None; Control PingMessage b#"beat"; Got b#", world" (Some EOF); Got [] (Some EOF)].

Lemma sample_events_ok : Forall event_ok sample_events.
Proof. repeat constructor; cbn; unfold bufLen, maxPayload, blen; cbn; lia. Qed.

Definition open_tx : txside := mkTx [] None ErrIO.

Lemma pipe_transparent_witness :
  let wire := tx (wr (pipe_out true sample_events (NewWriter open_tx)).2) in
  let peer := SetPingHandler (Some (ping_reply false)) (NewConn (mkRx wire EOF) open_tx false) in
  ∃ c t', pipe_in peer open_tx = Some (c, t') ∧ tx t' = b#"hello, world" ∧ quota t' = Some O.
Proof.
  apply (pipe_transparent true false sample_events open_tx open_tx open_tx EOF); [apply sample_events_ok|reflexivity..].
Defined.

(** The stream is cut after 20 bytes and the target takes 9. *)
Definition cut_peer : Conn :=
  SetPingHandler (Some (ping_reply false))
    (NewConn (mkRx (take 20 (tx (wr (pipe_out false sample_events (NewWriter open_tx)).2))) ErrIO) (mkTx [] (Some 4%nat) ErrIO) false).
Definition small_target : txside := mkTx [] (Some 9%nat) ErrIO.

Lemma pipe_prefix_witness :
  match pipe_in cut_peer small_target with
  | Some (_, t') => tx t' `prefix_of` b#"hello, world"
  | None => False
  end.
Proof.
  assert (match pipe_in cut_peer small_target with Some _ => true | None => false end = true) as Hrun by by vm_compute.
  destruct (pipe_in cut_peer small_target) as [[c t']|] eqn:E; [|done].
  refine (pipe_prefix false sample_events open_tx _ cut_peer small_target c t' sample_events_ok eq_refl _ eq_refl E).
  exists (drop 20 (tx (wr (pipe_out false sample_events (NewWriter open_tx)).2))). symmetry. apply take_drop.
Defined.


(** A fragmented message (first frame without the final flag, then a continuation
    frame) as other WebSocket implementations may send it: the first fragment is
    delivered as if it were the message, the continuation is dropped. *)
Example continuation_dropped :
  let wire := [x02; x02] ++ b#"ab" ++ [x80; x02] ++ b#"cd" in
  match pipe_in (NewConn (mkRx wire EOF) open_tx false) open_tx with
  | Some (_, t) => tx t = b#"ab"
  | None => False
  end.
Proof. vm_compute. reflexivity. Qed.
