(* ===== verification/PipeVariants.v ===== *)
(** pkg/tunnel/pipe.go: the pipes over the WebSocket of the gorilla library
    ([PipeGorilla]) and between two byte streams ([PipeBiDir]).

    The gorilla connection is third-party code: writing is an operation of the class
    [MessageWriter], whose law is that an accepted message is delivered, after those
    before it; reading is the list of messages the library returns before its error.
    The class has the native WebSocket of the program as an instance, so the gorilla
    pipe is the same function as the native one at another instance. *)

From S2P Require Import Prelude GoIO Wst Pipe.

(** ** Writing messages *)

Class MessageWriter (W : Type) := {
  write_message : Z → bytes → W → go unit * W;
  (** the messages that were accepted *)
  accepted : W → list (Z * bytes);
  write_accepts : ∀ op p w w', write_message op p w = (Ok (), w') → accepted w' = accepted w ++ [(op, p)];
  write_fails : ∀ op p w r w', write_message op p w = (r, w') → r ≠ Ok () → accepted w' = accepted w
}.

Section gorilla.
Context {W : Type} `{MW : MessageWriter W}.

(** Connection to WebSocket: whether the goroutine has ended, and the writer. *)
Fixpoint PipeGorilla_out (reads : list (bytes * option error)) (w : W) : bool * W :=
  match reads with
  | [] => (false, w)
  | (p, err) :: reads' =>
      if 0 <? blen p then
        match write_message BinaryMessage p w with
        | (Ok _, w) => PipeGorilla_out reads' w
        | (_, w) => (true, (write_message CloseMessage (FormatCloseMessage CloseNormalClosure []) w).2)
        end
      else
        match err with
        | None => PipeGorilla_out reads' w
        | Some _ => (true, (write_message CloseMessage (FormatCloseMessage CloseNormalClosure []) w).2)
        end
  end.

(** WebSocket to connection; the list ends where [ReadMessage] returns its error. *)
Fixpoint PipeGorilla_in (msgs : list (Z * bytes)) (t : txside) : txside :=
  match msgs with
  | [] => close_tx t
  | (messageType, p) :: msgs' =>
      if (messageType =? BinaryMessage) || (messageType =? TextMessage) then
        match Write p t with
        | (Ok _, t) => PipeGorilla_in msgs' t
        | (_, t) => close_tx t
        end
      else PipeGorilla_in msgs' t
  end.

(** ** Specification *)

Definition is_data (msg : Z * bytes) : bool := (msg.1 =? BinaryMessage) || (msg.1 =? TextMessage).
Definition data_of (msgs : list (Z * bytes)) : bytes := concat (map snd (List.filter is_data msgs)).

(** The bytes read before the goroutine ends. *)
Fixpoint read_bytes (reads : list (bytes * option error)) : bytes :=
  match reads with
  | [] => []
  | (p, err) :: reads' => if 0 <? blen p then p ++ read_bytes reads' else match err with None => read_bytes reads' | Some _ => [] end
  end.

Lemma data_of_app l l' : data_of (l ++ l') = data_of l ++ data_of l'.
Proof. unfold data_of. by rewrite List.filter_app, map_app, concat_app. Qed.

Lemma data_of_close p : data_of [(CloseMessage, p)] = [].
Proof. done. Qed.

Lemma write_data p (w : W) :
  let '(r, w') := write_message BinaryMessage p w in
  data_of (accepted w') = data_of (accepted w) ++ match r with Ok _ => p | _ => [] end.
Proof.
  destruct (write_message BinaryMessage p w) as [[[]|e|] w'] eqn:E.
  - rewrite (write_accepts _ _ _ _ E), data_of_app. unfold data_of at 2. cbn. by rewrite app_nil_r.
  - by rewrite (write_fails _ _ _ _ _ E), app_nil_r by done.
  - by rewrite (write_fails _ _ _ _ _ E), app_nil_r by done.
Qed.

Lemma write_close q (w : W) : data_of (accepted (write_message CloseMessage q w).2) = data_of (accepted w).
Proof.
  destruct (write_message CloseMessage q w) as [[[]|e|] w'] eqn:E; cbn [snd].
  - rewrite (write_accepts _ _ _ _ E), data_of_app, data_of_close. apply app_nil_r.
  - by rewrite (write_fails _ _ _ _ _ E) by done.
  - by rewrite (write_fails _ _ _ _ _ E) by done.
Qed.

(** What was accepted is a prefix of what was read. *)
Lemma PipeGorilla_out_prefix reads w fin w' :
  PipeGorilla_out reads w = (fin, w') → data_of (accepted w') `prefix_of` data_of (accepted w) ++ read_bytes reads.
Proof.
  revert w. induction reads as [|[p err] reads IH]; intros w; cbn [PipeGorilla_out read_bytes].
  { intros [= <- <-]. by rewrite app_nil_r. }
  destruct (0 <? blen p); [|destruct err; [|by apply IH]].
  - pose proof (write_data p w) as Hd. destruct (write_message BinaryMessage p w) as [[[]|e|] w1].
    + intros H%IH. by rewrite Hd, <-(assoc_L (++)) in H.
    + intros [= <- <-]. rewrite write_close, Hd, app_nil_r. by eexists.
    + intros [= <- <-]. rewrite write_close, Hd, app_nil_r. by eexists.
  - intros [= <- <-]. by rewrite write_close, app_nil_r.
Qed.

(** The writer never fails on these reads. *)
Lemma PipeGorilla_out_all reads w fin w' :
  (∀ op p w, (write_message op p w).1 = Ok ()) → PipeGorilla_out reads w = (fin, w') →
  data_of (accepted w') = data_of (accepted w) ++ read_bytes reads.
Proof.
  intros Hok. revert w. induction reads as [|[p err] reads IH]; intros w; cbn [PipeGorilla_out read_bytes].
  { intros [= <- <-]. by rewrite app_nil_r. }
  destruct (0 <? blen p); [|destruct err; [|by apply IH]].
  - pose proof (write_data p w) as Hd. specialize (Hok BinaryMessage p w). destruct (write_message BinaryMessage p w) as [[[]|e|] w1]; [|done..].
    intros H%IH. by rewrite H, Hd, <-(assoc_L (++)).
  - intros [= <- <-]. by rewrite write_close, app_nil_r.
Qed.

(** The target gets a prefix of the data of the messages, all of it if it takes it. *)
Lemma PipeGorilla_in_prefix msgs t :
  tx (PipeGorilla_in msgs t) `prefix_of` tx t ++ data_of msgs ∧ quota (PipeGorilla_in msgs t) = Some O ∧
  (quota t = None → tx (PipeGorilla_in msgs t) = tx t ++ data_of msgs).
Proof.
  revert t. induction msgs as [|[op p] msgs IH]; intros t; cbn [PipeGorilla_in].
  { cbn. rewrite app_nil_r. done. }
  unfold data_of. cbn [List.filter is_data fst]. change ((op =? BinaryMessage) || (op =? TextMessage)) with (is_data (op, p)).
  destruct (is_data (op, p)); [|apply IH]. cbn [map snd concat]. fold (data_of msgs).
  destruct (Write p t) as [r t1] eqn:E. unfold Write, conn_write in E.
  destruct (quota t) as [q|] eqn:Eq; [destruct (Nat.leb_spec (length p) q)|]; simplify_eq.
  - destruct (IH (mkTx (tx t ++ p) (Some (q - length p)%nat) (tx_err t))) as (H1 & H2 & _). cbn in H1. rewrite <-(assoc_L (++)) in H1. done.
  - split_and!; [|done..]. cbn. apply prefix_app. apply prefix_app_r. exists (drop q p). by rewrite take_drop.
  - destruct (IH (mkTx (tx t ++ p) None (tx_err t))) as (H1 & H2 & H3). cbn in H1, H3. rewrite <-(assoc_L (++)) in H1, H3. auto.
Qed.
End gorilla.

(** ** The native WebSocket as an instance *)

(** A writer with the messages it accepted; every endpoint masks or not. *)
Record native := mkNative { n_masking : bool; n_writer : bufw; n_accepted : list (Z * bytes) }.

Definition native_write (op : Z) (p : bytes) (w : native) : go unit * native :=
  let '(r, b) := WriteMessage (n_masking w) op p (n_writer w) in
  (r, mkNative (n_masking w) b (match r with Ok _ => n_accepted w ++ [(op, p)] | _ => n_accepted w end)).

#[export] Instance native_writer : MessageWriter native.
Proof.
  refine {| write_message := native_write; accepted := n_accepted |}; unfold native_write.
  - intros op p w w'. destruct (WriteMessage _ _ _ _) as [[[]|e|] b]; intros E; by simplify_eq.
  - intros op p w r w'. destruct (WriteMessage _ _ _ _) as [[[]|e|] b]; intros E Hr; by simplify_eq.
Defined.

Definition as_event (x : bytes * option error) : out_event := Got x.1 x.2.

(** [PipeGorilla] is [Pipe] with another writer. *)
Lemma PipeGorilla_out_native reads w :
  let '(fin, w') := PipeGorilla_out reads w in
  pipe_out (n_masking w) (as_event <$> reads) (n_writer w) = (fin, n_writer w').
Proof.
  revert w. induction reads as [|[p err] reads IH]; intros w; cbn [PipeGorilla_out]; [done|].
  cbn [fmap list_fmap pipe_out as_event fst snd].
  destruct (0 <? blen p).
  - cbn [write_message native_writer]. unfold native_write. destruct (WriteMessage (n_masking w) BinaryMessage p (n_writer w)) as [[[]|e|] b] eqn:E.
    + specialize (IH (mkNative (n_masking w) b (n_accepted w ++ [(BinaryMessage, p)]))).
      by destruct (PipeGorilla_out reads _) as [fin w'].
    + cbn [n_masking n_writer]. unfold send_close. by destruct (WriteMessage _ _ _ b) as [r b'].
    + cbn [n_masking n_writer]. unfold send_close. by destruct (WriteMessage _ _ _ b) as [r b'].
  - destruct err; [|apply IH]. cbn [write_message native_writer]. unfold native_write. unfold send_close. by destruct (WriteMessage _ _ _ (n_writer w)).
Qed.

(** ** Two byte streams *)

(** [PipeBiDir(rwc1, rwc2)]: what is still to be read from each, what was written to
    each, whether they are closed, and which of the two goroutines still runs. *)
Record bidir := mkBidir {
  in1 : bytes; in2 : bytes;
  out1 : bytes; out2 : bytes;
  closed : bool;
  copying12 : bool; copying21 : bool
}.

(** The steps of [io.Copy] in each direction: a chunk is read and written (all of it,
    or a part of it before the write fails), or the copy ends, by the end of its input,
    an error or the closing by the other direction; then both streams are closed. *)
Inductive bidir_action :=
  | Chunk12 (n : nat) | Short12 (n k : nat) | End12
  | Chunk21 (n : nat) | Short21 (n k : nat) | End21.

Definition bidir_exec (a : bidir_action) (s : bidir) : option bidir :=
  match a with
  | Chunk12 n =>
      if copying12 s && negb (closed s) && (n <=? length (in1 s))%nat
      then Some (mkBidir (drop n (in1 s)) (in2 s) (out1 s) (out2 s ++ take n (in1 s)) false true (copying21 s)) else None
  | Short12 n k =>
      if copying12 s && negb (closed s) && (n <=? length (in1 s))%nat
      then Some (mkBidir (drop n (in1 s)) (in2 s) (out1 s) (out2 s ++ take k (take n (in1 s))) true false (copying21 s)) else None
  | End12 => if copying12 s then Some (mkBidir (in1 s) (in2 s) (out1 s) (out2 s) true false (copying21 s)) else None
  | Chunk21 n =>
      if copying21 s && negb (closed s) && (n <=? length (in2 s))%nat
      then Some (mkBidir (in1 s) (drop n (in2 s)) (out1 s ++ take n (in2 s)) (out2 s) false (copying12 s) true) else None
  | Short21 n k =>
      if copying21 s && negb (closed s) && (n <=? length (in2 s))%nat
      then Some (mkBidir (in1 s) (drop n (in2 s)) (out1 s ++ take k (take n (in2 s))) (out2 s) true (copying12 s) false) else None
  | End21 => if copying21 s then Some (mkBidir (in1 s) (in2 s) (out1 s) (out2 s) true (copying12 s) false) else None
  end.

Definition PipeBiDir (i1 i2 : bytes) : bidir := mkBidir i1 i2 [] [] false true true.
Definition bidir_step (s s' : bidir) : Prop := ∃ a, bidir_exec a s = Some s'.

Record bidir_inv (i1 i2 : bytes) (s : bidir) : Prop := {
  bd_12 : out2 s `prefix_of` i1 ∧ (closed s = false → out2 s ++ in1 s = i1);
  bd_21 : out1 s `prefix_of` i2 ∧ (closed s = false → out1 s ++ in2 s = i2);
  bd_closed : closed s = negb (copying12 s && copying21 s)
}.

Lemma bidir_exec_inv i1 i2 a s s' : bidir_inv i1 i2 s → bidir_exec a s = Some s' → bidir_inv i1 i2 s'.
Proof.
  intros [[H1 H1'] [H2 H2'] Hc] E. destruct s as [j1 j2 o1 o2 cl c12 c21]. cbn in *.
  destruct a; cbn in E;
    repeat match type of E with (if ?b then _ else _) = _ => destruct b eqn:?; [|done] end; bool_to_prop; simplify_eq; cbn in *.
  - assert (o2 ++ j1 = i1) as <- by auto. constructor; cbn; [split|by auto|by destruct c21].
    + apply prefix_app. exists (drop n j1). by rewrite take_drop.
    + intros _. by rewrite <-(assoc_L (++)), take_drop.
  - assert (o2 ++ j1 = i1) as <- by auto. constructor; cbn; [split; [|done]|by split|done].
    apply prefix_app. etrans; apply prefix_take.
  - by constructor.
  - assert (o1 ++ j2 = i2) as <- by auto. constructor; cbn; [by auto|split|by destruct c12].
    + apply prefix_app. exists (drop n j2). by rewrite take_drop.
    + intros _. by rewrite <-(assoc_L (++)), take_drop.
  - assert (o1 ++ j2 = i2) as <- by auto. constructor; cbn; [by split|split; [|done]|by rewrite andb_false_r].
    apply prefix_app. etrans; apply prefix_take.
  - constructor; cbn; [done|done|by rewrite andb_false_r].
Qed.

Lemma bidir_reachable_inv i1 i2 s : rtc bidir_step (PipeBiDir i1 i2) s → bidir_inv i1 i2 s.
Proof.
  revert s. apply (rtc_ind_r (R:=bidir_step) (bidir_inv i1 i2) (PipeBiDir i1 i2)).
  - constructor; cbn; [split; [apply prefix_nil|done]..|done].
  - intros s s' _ [a Ha] Hi. by eapply bidir_exec_inv.
Qed.

(** ** Properties *)

(** The gorilla pipe is faithful: the data of the messages that the library
    delivers to the other end, a first part of those it accepted here, is a prefix of
    the bytes that were read, and so is what the other end writes to its target, which is
    closed afterwards; and when no write fails and all messages are delivered, the
    target gets all the bytes. *)
Theorem gorilla_pipe_faithful {W} `{MW : MessageWriter W} reads (w w' : W) fin msgs t :
  accepted w = [] → PipeGorilla_out reads w = (fin, w') → msgs `prefix_of` accepted w' →
  tx (PipeGorilla_in msgs t) `prefix_of` tx t ++ read_bytes reads ∧ quota (PipeGorilla_in msgs t) = Some O ∧
  ((∀ op p w, (write_message op p w).1 = Ok ()) → msgs = accepted w' → quota t = None →
   tx (PipeGorilla_in msgs t) = tx t ++ read_bytes reads).
Proof.
  intros Hw Hout [rest Hm]. destruct (PipeGorilla_in_prefix msgs t) as (H1 & H2 & H3). split; [|split; [done|]].
  - etrans; [exact H1|]. apply prefix_app. apply PipeGorilla_out_prefix in Hout. rewrite Hw in Hout.
    etrans; [|exact Hout]. rewrite Hm, data_of_app. by eexists.
  - intros Hok -> Hq. rewrite H3 by done. by rewrite (PipeGorilla_out_all reads w fin w' Hok Hout), Hw.
Qed.

(** The gorilla pipe is the native pipe: run with the program's own WebSocket as the
    writer, it writes the same bytes and ends in the same cases. *)
Theorem pipe_variants_agree reads w fin w' :
  PipeGorilla_out reads w = (fin, w') → pipe_out (n_masking w) (as_event <$> reads) (n_writer w) = (fin, n_writer w').
Proof. intros E. pose proof (PipeGorilla_out_native reads w) as H. by rewrite E in H. Qed.

(** The pipe between two streams is faithful in both directions and ends: at every
    moment each side has been written a prefix of what the other side sends, all that
    was read of it while nothing is closed; both streams are closed as soon as one
    direction has ended, and then each of the two goroutines can only end. *)
Theorem bidir_faithful i1 i2 s :
  rtc bidir_step (PipeBiDir i1 i2) s →
  out2 s `prefix_of` i1 ∧ out1 s `prefix_of` i2 ∧
  (closed s = false → out2 s ++ in1 s = i1 ∧ out1 s ++ in2 s = i2) ∧
  (copying12 s && copying21 s = false → closed s = true ∧
   ∀ a s', bidir_exec a s = Some s' → a = End12 ∧ copying12 s' = false ∨ a = End21 ∧ copying21 s' = false).
Proof.
  intros [[H1 H1'] [H2 H2'] Hc]%bidir_reachable_inv. split_and!; [done|done|by auto|]. intros Hf. rewrite Hf in Hc.
  split; [done|]. intros a s' E. cbn in Hc.
  destruct a; cbn in E; rewrite ?Hc in E; cbn in E; rewrite ?andb_false_r in E; cbn in E; try done.
  - left. destruct (copying12 s); simplify_eq. done.
  - right. destruct (copying21 s); simplify_eq. done.
Qed.

(** ** Examples *)

Definition small_writer : native := mkNative true (NewWriter open_tx) [].

Lemma gorilla_pipe_faithful_witness :
  let '(fin, w') := PipeGorilla_out [(b#"one", None); (b#"two", Some EOF); ([], Some EOF)] small_writer in
  tx (PipeGorilla_in (take 2 (accepted w')) open_tx) `prefix_of` tx open_tx ++ b#"onetwo" ∧
  quota (PipeGorilla_in (take 2 (accepted w')) open_tx) = Some O ∧
  ((∀ op p (w : native), (write_message op p w).1 = Ok ()) → take 2 (accepted w') = accepted w' → quota open_tx = None →
   tx (PipeGorilla_in (take 2 (accepted w')) open_tx) = tx open_tx ++ b#"onetwo").
Proof.
  destruct (PipeGorilla_out _ small_writer) as [fin w'] eqn:E.
  apply (gorilla_pipe_faithful [(b#"one", None); (b#"two", Some EOF); ([], Some EOF)] small_writer w' fin (take 2 (accepted w')) open_tx).
  - reflexivity.
  - exact E.
  - apply prefix_take.
Defined.

Lemma pipe_variants_agree_witness :
  ∃ w', pipe_out true [Got b#"one" None; Got [] (Some EOF)] (NewWriter open_tx) = (true, n_writer w').
Proof.
  destruct (PipeGorilla_out [(b#"one", None); ([], Some EOF)] small_writer) as [fin w'] eqn:E.
  assert (fin = true) as -> by (vm_compute in E; by injection E as <- _). exists w'.
  exact (pipe_variants_agree [(b#"one", None); ([], Some EOF)] small_writer true w' E).
Defined.

Lemma bidir_faithful_witness :
  let s := mkBidir b#"t" b#"pong" [] b#"reques" true false true in
  rtc bidir_step (PipeBiDir b#"request" b#"pong") s ∧
  out2 s `prefix_of` b#"request" ∧ out1 s `prefix_of` b#"pong" ∧
  (closed s = false → out2 s ++ in1 s = b#"request" ∧ out1 s ++ in2 s = b#"pong") ∧
  (copying12 s && copying21 s = false → closed s = true ∧
   ∀ a s', bidir_exec a s = Some s' → a = End12 ∧ copying12 s' = false ∨ a = End21 ∧ copying21 s' = false).
Proof.
  intros s.
  assert (rtc bidir_step (PipeBiDir b#"request" b#"pong") s) as Hr.
  { eapply rtc_l; [exists (Chunk12 6); reflexivity|]. eapply rtc_l; [exists End12; reflexivity|]. apply rtc_refl. }
  split; [exact Hr|]. exact (bidir_faithful b#"request" b#"pong" s Hr).
Defined.
