(* ===== verification/PipeRW.v ===== *)
(** pkg/tunnel/pipe.go: [PipeRW] and [PipeGorillaRW], the pipes whose local end is any
    io.ReadWriteCloser, and the two such ends the program has besides connections:
    the standard streams of client.go and the HTTP/2 stream of server.go.

    The interface is the class [ReadWriteCloser] for the writing side; reads are the
    list of results, as in the other pipes. *)

From S2P Require Import Prelude GoIO Wst Pipe PipeVariants.

Class ReadWriteCloser (T : Type) := {
  rw_Write : bytes → T → go unit * T;
  rw_Close : T → T
}.

(** A connection. *)
#[export] Instance conn_rwc : ReadWriteCloser txside := {| rw_Write := Write; rw_Close := close_tx |}.

(** [stdioReadWriteCloser]: closing does nothing. *)
Record stdioReadWriteCloser := mkStdioRWC { stdout : txside }.
Definition stdio_Write (p : bytes) (s : stdioReadWriteCloser) : go unit * stdioReadWriteCloser :=
  let '(r, t) := Write p (stdout s) in (r, mkStdioRWC t).
Definition stdio_Close (s : stdioReadWriteCloser) : stdioReadWriteCloser := s.
#[export] Instance stdio_rwc : ReadWriteCloser stdioReadWriteCloser := {| rw_Write := stdio_Write; rw_Close := stdio_Close |}.

(** ** The pipes *)

Section rw.
Context {T : Type} `{RWC : ReadWriteCloser T}.

(** RW to WebSocket: the program's own WebSocket, and gorilla's. *)
Definition PipeRW_out (reads : list (bytes * option error)) (w : native) : bool * native := PipeGorilla_out reads w.
Definition PipeGorillaRW_out `{MW : MessageWriter W} (reads : list (bytes * option error)) (w : W) : bool * W := PipeGorilla_out reads w.

(** WebSocket to RW. *)
Fixpoint PipeRW_in_loop (fuel : nat) (c : Conn) (t : T) : option (Conn * T) :=
  match fuel with
  | O => None
  | S fuel' =>
      match ReadMessage c with
      | None => None
      | Some (_, _, Some _, c) => Some (c, rw_Close t)
      | Some (messageType, p, None, c) =>
          if (messageType =? BinaryMessage) || (messageType =? TextMessage) then
            match rw_Write p t with
            | (Ok _, t) => PipeRW_in_loop fuel' c t
            | (_, t) => Some (c, rw_Close t)
            end
          else PipeRW_in_loop fuel' c t
      end
  end.

Definition PipeRW_in (c : Conn) (t : T) : option (Conn * T) := PipeRW_in_loop (S (length (rx (bufr c)))) c t.

Fixpoint PipeGorillaRW_in (msgs : list (Z * bytes)) (t : T) : T :=
  match msgs with
  | [] => rw_Close t
  | (messageType, p) :: msgs' =>
      if (messageType =? BinaryMessage) || (messageType =? TextMessage) then
        match rw_Write p t with
        | (Ok _, t) => PipeGorillaRW_in msgs' t
        | (_, t) => rw_Close t
        end
      else PipeGorillaRW_in msgs' t
  end.
End rw.

(** ** Two local ends in step

    [view] maps one local end to another so that writing and closing agree: then the
    pipes do the same to both. *)

Section simulation.
Context {T U : Type} `{RT : ReadWriteCloser T} `{RU : ReadWriteCloser U} (step_view last_view : T → U).
Context (Hwrite : ∀ p t, rw_Write p (step_view t) = let '(r, t') := rw_Write p t in (r, step_view t'))
        (Hclose : ∀ t, rw_Close (step_view t) = last_view (rw_Close t)).

Lemma PipeRW_in_loop_view fuel c t :
  PipeRW_in_loop fuel c (step_view t) = (λ '(c', t'), (c', last_view t')) <$> PipeRW_in_loop fuel c t.
Proof.
  revert c t. induction fuel as [|fuel IH]; intros c t; [done|]. cbn [PipeRW_in_loop].
  destruct (ReadMessage c) as [[[[op p] [e|]] c']|]; [by cbn; rewrite Hclose| |done].
  destruct (_ || _); [|apply IH]. rewrite Hwrite. destruct (rw_Write p t) as [[[]|e|] t']; [apply IH|by cbn; rewrite Hclose..].
Qed.

Lemma PipeGorillaRW_in_view msgs t : PipeGorillaRW_in msgs (step_view t) = last_view (PipeGorillaRW_in msgs t).
Proof.
  revert t. induction msgs as [|[op p] msgs IH]; intros t; cbn [PipeGorillaRW_in]; [apply Hclose|].
  destruct (_ || _); [|apply IH]. rewrite Hwrite. destruct (rw_Write p t) as [[[]|e|] t']; [apply IH|apply Hclose..].
Qed.
End simulation.

Lemma PipeRW_in_conn fuel c (t : txside) : PipeRW_in_loop fuel c t = pipe_in_loop fuel c t.
Proof.
  revert c t. induction fuel as [|fuel IH]; intros c t; [done|]. cbn [PipeRW_in_loop pipe_in_loop].
  destruct (ReadMessage c) as [[[[op p] [e|]] c']|]; [done| |done].
  destruct (_ || _); [|apply IH]. cbn [rw_Write conn_rwc]. destruct (Write p t) as [[[]|e|] t']; [apply IH|done..].
Qed.

Lemma PipeGorillaRW_in_conn msgs (t : txside) : PipeGorillaRW_in msgs t = PipeGorilla_in msgs t.
Proof.
  revert t. induction msgs as [|[op p] msgs IH]; intros t; cbn [PipeGorillaRW_in PipeGorilla_in]; [done|].
  destruct (_ || _); [|apply IH]. cbn [rw_Write conn_rwc]. destruct (Write p t) as [[[]|e|] t']; [apply IH|done..].
Qed.

(** The pipes on another interface are the same pipes: on a connection [PipeRW] and
    [PipeGorillaRW] do exactly what [Pipe] and [PipeGorilla] do in both directions, and
    on the standard streams they write exactly the same bytes and end in the same
    cases, and leave standard output open where the connection would be closed. *)
Theorem rw_pipes_agree :
  (∀ c t, PipeRW_in c t = pipe_in c t) ∧
  (∀ reads w, let '(fin, w') := PipeRW_out reads w in
     pipe_out (n_masking w) (as_event <$> reads) (n_writer w) = (fin, n_writer w')) ∧
  (∀ msgs t, PipeGorillaRW_in msgs t = PipeGorilla_in msgs t) ∧
  (∀ c s, pipe_in c (stdout s) = (λ '(c', s'), (c', close_tx (stdout s'))) <$> PipeRW_in c s) ∧
  (∀ msgs s, PipeGorilla_in msgs (stdout s) = close_tx (stdout (PipeGorillaRW_in msgs s))).
Proof.
  assert (∀ p s, rw_Write p (stdout s) = let '(r, s') := rw_Write p s in (r, stdout s')) as Hw.
  { intros p s. cbn. unfold stdio_Write. by destruct (Write p (stdout s)). }
  split_and!.
  - intros c t. apply PipeRW_in_conn.
  - intros reads w. apply PipeGorilla_out_native.
  - intros. apply PipeGorillaRW_in_conn.
  - intros c s. unfold pipe_in. rewrite <-PipeRW_in_conn.
    by rewrite (PipeRW_in_loop_view stdout (λ s, close_tx (stdout s)) Hw (λ t, eq_refl)).
  - intros msgs s. rewrite <-PipeGorillaRW_in_conn. by rewrite (PipeGorillaRW_in_view stdout (λ s, close_tx (stdout s)) Hw (λ t, eq_refl)).
Qed.

(** Standard output takes bytes after the tunnel has ended. *)
Example stdio_stays_open :
  stdout (PipeGorillaRW_in [(BinaryMessage, b#"bye")] (mkStdioRWC open_tx)) = mkTx b#"bye" None (tx_err open_tx).
Proof. vm_compute. reflexivity. Qed.

(** ** The HTTP/2 stream of the server *)

(** The response writer keeps what was written until it is flushed; [hasFlusher] is
    [flusher != nil]. *)
Record http2ReadWriteCloser := mkHttp2RWC { h_pending : bytes; h_sent : txside; hasFlusher : bool; body_closed : bool }.

Definition Flush (h : http2ReadWriteCloser) : http2ReadWriteCloser :=
  mkHttp2RWC [] (Write (h_pending h) (h_sent h)).2 (hasFlusher h) (body_closed h).

(** [writer] is the write of the response writer: it may fail. *)
Definition http2_Write (writer : bytes → http2ReadWriteCloser → go unit * http2ReadWriteCloser) (p : bytes) (h : http2ReadWriteCloser) :
    go unit * http2ReadWriteCloser :=
  let '(err, h') := writer p h in
  match err with
  | Ok n => if hasFlusher h' then (Ok n, Flush h') else (Ok n, h')
  | _ => (err, h')
  end.

Definition http2_Close (h : http2ReadWriteCloser) : http2ReadWriteCloser :=
  mkHttp2RWC (h_pending h) (h_sent h) (hasFlusher h) true.

(** A response writer that buffers. *)
Definition buffering_writer (p : bytes) (h : http2ReadWriteCloser) : go unit * http2ReadWriteCloser :=
  (Ok (), mkHttp2RWC (h_pending h ++ p) (h_sent h) (hasFlusher h) (body_closed h)).

#[export] Instance http2_rwc : ReadWriteCloser http2ReadWriteCloser := {| rw_Write := http2_Write buffering_writer; rw_Close := http2_Close |}.

(** Interactive data is not held back: with a flusher nothing stays in the buffer after
    a write, and a client that takes bytes has got all of them, in order. *)
Theorem http2_flushes msgs h :
  hasFlusher h = true → h_pending h = [] → quota (h_sent h) = None →
  let h' := PipeGorillaRW_in msgs h in
  h_pending h' = [] ∧ tx (h_sent h') = tx (h_sent h) ++ data_of msgs ∧ body_closed h' = true.
Proof.
  revert h. induction msgs as [|[op p] msgs IH]; intros h Hf Hp Hq; cbn [PipeGorillaRW_in].
  { cbn. by rewrite app_nil_r. }
  unfold data_of. cbn [List.filter]. unfold is_data at 1. cbn [fst]. destruct (_ || _); [|by apply IH].
  destruct h as [pending [sent q e] flusher bc]. cbn in Hf, Hp, Hq. subst.
  destruct (IH (mkHttp2RWC [] (mkTx (sent ++ p) None e) true bc)) as (H1 & H2 & H3); [done..|].
  split_and!; [exact H1| |exact H3]. etrans; [exact H2|]. cbn [map concat snd h_sent tx]. by rewrite <-(assoc_L (++)).
Qed.
