(* ===== verification/Protocol.v ===== *)
(** pkg/protocol/types.go: the tunnel description a client puts into its token.

    A Go pointer field is an [option]; the embedded [jwt.MapClaims], which the
    code never reads, is left out. *)

From S2P Require Import Prelude.

Record Duration := mkDuration { Secs : Z; Nanos : Z }.
Record Credentials := mkCredentials { Username : bytes; Password : bytes }.

Record TcpProtocol := mkTcp { Tcp_ProxyProtocol : bool }.
Record UdpProtocol := mkUdp { Udp_Timeout : option Duration }.
Record StdioProtocol := mkStdio { Stdio_ProxyProtocol : bool }.
Record Socks5Protocol := mkSocks5 { Socks5_Timeout : option Duration; Socks5_Credentials : option Credentials }.
Record TProxyUdpProtocol := mkTProxyUdp { TProxyUdp_Timeout : option Duration }.
Record HttpProxyProtocol := mkHttpProxy {
  HttpProxy_Timeout : option Duration;
  HttpProxy_Credentials : option Credentials;
  HttpProxy_ProxyProtocol : bool
}.
Record ReverseUdpProtocol := mkReverseUdp { ReverseUdp_Timeout : option Duration }.
Record ReverseSocks5Protocol := mkReverseSocks5 {
  ReverseSocks5_Timeout : option Duration; ReverseSocks5_Credentials : option Credentials
}.
Record ReverseHttpProxyProtocol := mkReverseHttpProxy {
  ReverseHttpProxy_Timeout : option Duration; ReverseHttpProxy_Credentials : option Credentials
}.
Record ReverseUnixProtocol := mkReverseUnix { ReverseUnix_Path : bytes }.
Record UnixProtocol := mkUnix { Unix_Path : bytes; Unix_ProxyProtocol : bool }.

Record LocalProtocol := mkLocalProtocol {
  Tcp : option TcpProtocol;
  Udp : option UdpProtocol;
  Stdio : option StdioProtocol;
  Socks5 : option Socks5Protocol;
  TProxyTcp : option unit;
  TProxyUdp : option TProxyUdpProtocol;
  HttpProxy : option HttpProxyProtocol;
  ReverseTcp : option unit;
  ReverseUdp : option ReverseUdpProtocol;
  ReverseSocks5 : option ReverseSocks5Protocol;
  ReverseHttpProxy : option ReverseHttpProxyProtocol;
  ReverseUnix : option ReverseUnixProtocol;
  Unix : option UnixProtocol
}.

(** [protocol.LocalProtocol{}] and the composite literals that set one field. *)
Definition noProtocol : LocalProtocol :=
  mkLocalProtocol None None None None None None None None None None None None None.
Definition setTcp (x : TcpProtocol) (p : LocalProtocol) : LocalProtocol :=
  mkLocalProtocol (Some x) (Udp p) (Stdio p) (Socks5 p) (TProxyTcp p) (TProxyUdp p) (HttpProxy p)
    (ReverseTcp p) (ReverseUdp p) (ReverseSocks5 p) (ReverseHttpProxy p) (ReverseUnix p) (Unix p).
Definition setUdp (x : UdpProtocol) (p : LocalProtocol) : LocalProtocol :=
  mkLocalProtocol (Tcp p) (Some x) (Stdio p) (Socks5 p) (TProxyTcp p) (TProxyUdp p) (HttpProxy p)
    (ReverseTcp p) (ReverseUdp p) (ReverseSocks5 p) (ReverseHttpProxy p) (ReverseUnix p) (Unix p).
Definition setUnix (x : UnixProtocol) (p : LocalProtocol) : LocalProtocol :=
  mkLocalProtocol (Tcp p) (Udp p) (Stdio p) (Socks5 p) (TProxyTcp p) (TProxyUdp p) (HttpProxy p)
    (ReverseTcp p) (ReverseUdp p) (ReverseSocks5 p) (ReverseHttpProxy p) (ReverseUnix p) (Some x).
Definition setReverseTcp (p : LocalProtocol) : LocalProtocol :=
  mkLocalProtocol (Tcp p) (Udp p) (Stdio p) (Socks5 p) (TProxyTcp p) (TProxyUdp p) (HttpProxy p)
    (Some ()) (ReverseUdp p) (ReverseSocks5 p) (ReverseHttpProxy p) (ReverseUnix p) (Unix p).
Definition setReverseUdp (x : ReverseUdpProtocol) (p : LocalProtocol) : LocalProtocol :=
  mkLocalProtocol (Tcp p) (Udp p) (Stdio p) (Socks5 p) (TProxyTcp p) (TProxyUdp p) (HttpProxy p)
    (ReverseTcp p) (Some x) (ReverseSocks5 p) (ReverseHttpProxy p) (ReverseUnix p) (Unix p).
Definition setReverseUnix (x : ReverseUnixProtocol) (p : LocalProtocol) : LocalProtocol :=
  mkLocalProtocol (Tcp p) (Udp p) (Stdio p) (Socks5 p) (TProxyTcp p) (TProxyUdp p) (HttpProxy p)
    (ReverseTcp p) (ReverseUdp p) (ReverseSocks5 p) (ReverseHttpProxy p) (Some x) (Unix p).
Definition setReverseSocks5 (x : ReverseSocks5Protocol) (p : LocalProtocol) : LocalProtocol :=
  mkLocalProtocol (Tcp p) (Udp p) (Stdio p) (Socks5 p) (TProxyTcp p) (TProxyUdp p) (HttpProxy p)
    (ReverseTcp p) (ReverseUdp p) (Some x) (ReverseHttpProxy p) (ReverseUnix p) (Unix p).

Record JwtTunnelConfig := mkClaims { ID : bytes; Protocol : LocalProtocol; Remote : bytes; Port : Z }.

Definition JwtHeaderPrefix : bytes := b#"authorization.bearer.".

(** [x != nil] *)
Definition nonnil {A} (o : option A) : bool := match o with Some _ => true | None => false end.

(** Nanoseconds of [time.Second]. *)
Definition Second : Z := 10 ^ 9.

(** [Duration.ToTimeDuration]; [time.Duration] is an int64 and wraps. *)
Definition ToTimeDuration (d : Duration) : Z := i64 (i64 (i64 (Secs d) * Second) + Nanos d).

(** [Credentials.String], for the [%q] of [fmt]. *)
Definition Credentials_String (quote : bytes → bytes) (c : Credentials) : bytes :=
  if negb (bool_decide (Password c = [])) then
    b#"Credentials{Username: " ++ quote (Username c) ++ b#", Password: <redacted>}"
  else b#"Credentials{Username: " ++ quote (Username c) ++ b#"}".

(** ** Laws *)

Lemma nonnil_true {A} (o : option A) : nonnil o = true ↔ is_Some o.
Proof. destruct o; simpl; split; done. Qed.

(** A duration of at most 9223372035 seconds and a proper nanosecond part is
    converted without wrap-around. *)
Theorem ToTimeDuration_exact d :
  0 ≤ Secs d ≤ 9223372035 → 0 ≤ Nanos d < Second →
  ToTimeDuration d = Secs d * Second + Nanos d.
Proof.
  unfold ToTimeDuration, Second. intros. rewrite (i64_id (Secs d)) by lia.
  rewrite (i64_id (Secs d * _)) by lia. by rewrite i64_id by lia.
Qed.

Lemma ToTimeDuration_exact_witness : ToTimeDuration (mkDuration 30 5) = 30 * Second + 5.
Proof. apply (ToTimeDuration_exact (mkDuration 30 5)); cbn; unfold Second; lia. Defined.

(** The printed form of credentials reveals nothing about a non-empty
    password: it is the same for any other one. *)
Theorem Credentials_String_redacts quote u p1 p2 :
  p1 ≠ [] → p2 ≠ [] →
  Credentials_String quote (mkCredentials u p1) = Credentials_String quote (mkCredentials u p2).
Proof. intros H1 H2. unfold Credentials_String. cbn. by rewrite !bool_decide_false by done. Qed.

Lemma Credentials_String_redacts_witness :
  Credentials_String id (mkCredentials b#"bob" b#"hunter2") = Credentials_String id (mkCredentials b#"bob" b#"x").
Proof. by apply Credentials_String_redacts. Defined.
