(* ===== verification/Json.v ===== *)
(** pkg/protocol/types.go: the claims as the JSON text of a token.

    A value of encoding/json is the tree its text stands for: strings are decoded,
    numbers are kept as their literals, objects are the list of their members in the
    order of the text, duplicates included.  [json.Marshal] is a function to such a
    tree, [json.Unmarshal] a function from it that updates the value it is given, as
    the tags of the structs say.

    The decoder of Go goes on after a value of the wrong type and returns that error
    at the end; the value is of no use then, so the functions return the error at
    once.  As every such error is [type_error], the fields of a struct can be decoded
    one after the other, each from all the members that belong to it. *)

From S2P Require Import Prelude GoStrings Protocol.

(** ** Strings

    encoding/json writes every byte that is not part of a well-formed UTF-8 sequence
    as U+FFFD. *)

Definition between (lo hi : Z) (b : byte) : bool := (lo <=? b2z b) && (b2z b <=? hi).

(** The rest of a rune of [n] bytes: the second one from [lo] to [hi], then
    continuation bytes. *)
Definition rune_tail (n : nat) (lo hi : Z) (r : bytes) : option nat :=
  if (n <=? S (length r))%nat && forallb (between lo hi) (take 1 r) && forallb (between 0x80 0xBF) (take (n - 2) (drop 1 r))
  then Some n else None.

(** The number of bytes of the first rune, nothing when it is not well-formed. *)
Definition rune_len (s : bytes) : option nat :=
  match s with
  | [] => None
  | b0 :: r =>
      if b2z b0 <? 0x80 then Some 1%nat
      else if between 0xC2 0xDF b0 then rune_tail 2 0x80 0xBF r
      else if b2z b0 =? 0xE0 then rune_tail 3 0xA0 0xBF r
      else if b2z b0 =? 0xED then rune_tail 3 0x80 0x9F r
      else if between 0xE1 0xEF b0 then rune_tail 3 0x80 0xBF r
      else if b2z b0 =? 0xF0 then rune_tail 4 0x90 0xBF r
      else if between 0xF1 0xF3 b0 then rune_tail 4 0x80 0xBF r
      else if b2z b0 =? 0xF4 then rune_tail 4 0x80 0x8F r
      else None
  end.

Definition RuneError : bytes := [xef; xbf; xbd].

(** Each round takes at least one byte, so the length is enough fuel. *)
Fixpoint coerce_utf8 (fuel : nat) (s : bytes) : bytes :=
  match fuel, s with
  | S fuel', _ :: r =>
      match rune_len s with
      | Some n => take n s ++ coerce_utf8 fuel' (drop n s)
      | None => RuneError ++ coerce_utf8 fuel' r
      end
  | _, _ => []
  end.

Definition json_string (s : bytes) : bytes := coerce_utf8 (length s) s.

(** [utf8.ValidString] *)
Fixpoint valid_utf8 (fuel : nat) (s : bytes) : bool :=
  match fuel, s with
  | _, [] => true
  | O, _ :: _ => false
  | S fuel', _ :: _ =>
      match rune_len s with
      | Some n => valid_utf8 fuel' (drop n s)
      | None => false
      end
  end.

Definition ValidString (s : bytes) : bool := valid_utf8 (length s) s.

(** ** Values *)

Inductive json :=
  | JNull
  | JBool (b : bool)
  | JNum (literal : bytes)
  | JStr (s : bytes)
  | JArr (l : list json)
  | JObj (members : list (bytes * json)).

Abbreviation members := (list (bytes * json)).

Definition type_error : error := Errorf b#"json: cannot unmarshal value into Go value" [].

(** ** Writing *)

(** A field with [omitempty] that is a pointer, and one that is a string. *)
Definition opt_member {A} (name : bytes) (enc : A → json) (o : option A) : members :=
  match o with Some x => [(name, enc x)] | None => [] end.
Definition enc_string (s : bytes) : json := JStr (json_string s).
Definition string_member (name s : bytes) : members :=
  if bool_decide (s = []) then [] else [(name, enc_string s)].

Definition enc_uint (z : Z) : json := JNum (fmt_d z).
Definition enc_empty (x : unit) : json := JObj [].

(** [Credentials.MarshalJSON] *)
Definition Credentials_MarshalJSON (c : Credentials) : json :=
  JArr [enc_string (Username c); enc_string (Password c)].

Definition enc_Duration (d : Duration) : json :=
  JObj ([(b#"secs", enc_uint (Secs d))] ++ [(b#"nanos", enc_uint (Nanos d))]).

Definition enc_TcpProtocol (x : TcpProtocol) : json := JObj [(b#"proxy_protocol", JBool (Tcp_ProxyProtocol x))].
Definition enc_UdpProtocol (x : UdpProtocol) : json := JObj (opt_member b#"timeout" enc_Duration (Udp_Timeout x)).
Definition enc_StdioProtocol (x : StdioProtocol) : json := JObj [(b#"proxy_protocol", JBool (Stdio_ProxyProtocol x))].
Definition enc_Socks5Protocol (x : Socks5Protocol) : json :=
  JObj (opt_member b#"timeout" enc_Duration (Socks5_Timeout x) ++
        opt_member b#"credentials" Credentials_MarshalJSON (Socks5_Credentials x)).
Definition enc_TProxyUdpProtocol (x : TProxyUdpProtocol) : json := JObj (opt_member b#"timeout" enc_Duration (TProxyUdp_Timeout x)).
Definition enc_HttpProxyProtocol (x : HttpProxyProtocol) : json :=
  JObj (opt_member b#"timeout" enc_Duration (HttpProxy_Timeout x) ++
        opt_member b#"credentials" Credentials_MarshalJSON (HttpProxy_Credentials x) ++
        [(b#"proxy_protocol", JBool (HttpProxy_ProxyProtocol x))]).
Definition enc_ReverseUdpProtocol (x : ReverseUdpProtocol) : json := JObj (opt_member b#"timeout" enc_Duration (ReverseUdp_Timeout x)).
Definition enc_ReverseSocks5Protocol (x : ReverseSocks5Protocol) : json :=
  JObj (opt_member b#"timeout" enc_Duration (ReverseSocks5_Timeout x) ++
        opt_member b#"credentials" Credentials_MarshalJSON (ReverseSocks5_Credentials x)).
Definition enc_ReverseHttpProxyProtocol (x : ReverseHttpProxyProtocol) : json :=
  JObj (opt_member b#"timeout" enc_Duration (ReverseHttpProxy_Timeout x) ++
        opt_member b#"credentials" Credentials_MarshalJSON (ReverseHttpProxy_Credentials x)).
Definition enc_ReverseUnixProtocol (x : ReverseUnixProtocol) : json := JObj [(b#"path", enc_string (ReverseUnix_Path x))].
Definition enc_UnixProtocol (x : UnixProtocol) : json :=
  JObj ([(b#"path", enc_string (Unix_Path x))] ++
        [(b#"proxy_protocol", JBool (Unix_ProxyProtocol x))]).

Definition enc_LocalProtocol (p : LocalProtocol) : json :=
  JObj (opt_member b#"Tcp" enc_TcpProtocol (Tcp p) ++
        opt_member b#"Udp" enc_UdpProtocol (Udp p) ++
        opt_member b#"Stdio" enc_StdioProtocol (Stdio p) ++
        opt_member b#"Socks5" enc_Socks5Protocol (Socks5 p) ++
        opt_member b#"TProxyTcp" enc_empty (TProxyTcp p) ++
        opt_member b#"TProxyUdp" enc_TProxyUdpProtocol (TProxyUdp p) ++
        opt_member b#"HttpProxy" enc_HttpProxyProtocol (HttpProxy p) ++
        opt_member b#"ReverseTcp" enc_empty (ReverseTcp p) ++
        opt_member b#"ReverseUdp" enc_ReverseUdpProtocol (ReverseUdp p) ++
        opt_member b#"ReverseSocks5" enc_ReverseSocks5Protocol (ReverseSocks5 p) ++
        opt_member b#"ReverseHttpProxy" enc_ReverseHttpProxyProtocol (ReverseHttpProxy p) ++
        opt_member b#"ReverseUnix" enc_ReverseUnixProtocol (ReverseUnix p) ++
        opt_member b#"Unix" enc_UnixProtocol (Unix p)).

(** [json.Marshal] of the claims. *)
Definition claims_members (c : JwtTunnelConfig) : members :=
  string_member b#"id" (ID c) ++
  [(b#"p", enc_LocalProtocol (Protocol c))] ++
  [(b#"r", enc_string (Remote c))] ++
  [(b#"rp", enc_uint (Port c))].
Definition enc_claims (c : JwtTunnelConfig) : json := JObj (claims_members c).

(** ** Reading *)

(** Decoding updates a value of the type; [null] leaves it as it is, and sets a
    pointer to nil.  A pointer that is nil is first made to point to a zero value. *)
Definition decoder (A : Type) : Type := json → A → go A.

Definition dec_bool : decoder bool := λ j old,
  match j with JBool b => Ok b | JNull => Ok old | _ => Err type_error end.
Definition dec_string : decoder bytes := λ j old,
  match j with JStr s => Ok s | JNull => Ok old | _ => Err type_error end.

(** An unsigned integer: the literal must be one of that width. *)
Definition dec_uint (bits : Z) : decoder Z := λ j old,
  match j with
  | JNum lit => match ParseUint lit bits with (n, None) => Ok n | _ => Err type_error end
  | JNull => Ok old
  | _ => Err type_error
  end.

Definition dec_ptr {A} (zero : A) (dec : decoder A) : decoder (option A) := λ j old,
  match j with
  | JNull => Ok None
  | _ => x ← dec j (default zero old); Ok (Some x)
  end.

(** The field a member belongs to: the one with its name, else the first one whose
    name is equal under case folding; other members are ignored. *)
Definition resolve (names : list bytes) (key : bytes) : option bytes :=
  if bool_decide (key ∈ names) then Some key else List.find (EqualFold key) names.

(** The members of field [name], in order. *)
Fixpoint dec_field {B} (names : list bytes) (name : bytes) (dec : decoder B) (kvs : members) (b : B) : go B :=
  match kvs with
  | [] => Ok b
  | (k, j) :: r =>
      if bool_decide (resolve names k = Some name) then b' ← dec j b; dec_field names name dec r b'
      else dec_field names name dec r b
  end.

Definition dec_struct {A} (body : members → A → go A) : decoder A := λ j old,
  match j with
  | JObj kvs => body kvs old
  | JNull => Ok old
  | _ => Err type_error
  end.

(** [[]string]; a null in a fresh slice is the empty string. *)
Fixpoint dec_strings (l : list json) : go (list bytes) :=
  match l with
  | [] => Ok []
  | j :: l' => s ← dec_string j []; r ← dec_strings l'; Ok (s :: r)
  end.

(** [Credentials.UnmarshalJSON] *)
Definition Credentials_UnmarshalJSON : decoder Credentials := λ j c,
  arr ← match j with JArr l => dec_strings l | JNull => Ok [] | _ => Err type_error end;
  match arr with
  | [u; p] => Ok (mkCredentials u p)
  | _ => Ok c
  end.

Definition dec_empty : decoder unit := dec_struct (λ _ _, Ok ()).

Definition dec_Duration : decoder Duration :=
  dec_struct (λ kvs d,
    let names := [b#"secs"; b#"nanos"] in
    secs ← dec_field names b#"secs" (dec_uint 64) kvs (Secs d);
    nanos ← dec_field names b#"nanos" (dec_uint 32) kvs (Nanos d);
    Ok (mkDuration secs nanos)).

Definition dec_timeout : decoder (option Duration) := dec_ptr (mkDuration 0 0) dec_Duration.
Definition dec_credentials : decoder (option Credentials) := dec_ptr (mkCredentials [] []) Credentials_UnmarshalJSON.

Definition dec_TcpProtocol : decoder TcpProtocol :=
  dec_struct (λ kvs x,
    let names := [b#"proxy_protocol"] in
    proxy ← dec_field names b#"proxy_protocol" dec_bool kvs (Tcp_ProxyProtocol x);
    Ok (mkTcp proxy)).
Definition dec_UdpProtocol : decoder UdpProtocol :=
  dec_struct (λ kvs x,
    let names := [b#"timeout"] in
    timeout ← dec_field names b#"timeout" dec_timeout kvs (Udp_Timeout x);
    Ok (mkUdp timeout)).
Definition dec_StdioProtocol : decoder StdioProtocol :=
  dec_struct (λ kvs x,
    let names := [b#"proxy_protocol"] in
    proxy ← dec_field names b#"proxy_protocol" dec_bool kvs (Stdio_ProxyProtocol x);
    Ok (mkStdio proxy)).
Definition dec_Socks5Protocol : decoder Socks5Protocol :=
  dec_struct (λ kvs x,
    let names := [b#"timeout"; b#"credentials"] in
    timeout ← dec_field names b#"timeout" dec_timeout kvs (Socks5_Timeout x);
    credentials ← dec_field names b#"credentials" dec_credentials kvs (Socks5_Credentials x);
    Ok (mkSocks5 timeout credentials)).
Definition dec_TProxyUdpProtocol : decoder TProxyUdpProtocol :=
  dec_struct (λ kvs x,
    let names := [b#"timeout"] in
    timeout ← dec_field names b#"timeout" dec_timeout kvs (TProxyUdp_Timeout x);
    Ok (mkTProxyUdp timeout)).
Definition dec_HttpProxyProtocol : decoder HttpProxyProtocol :=
  dec_struct (λ kvs x,
    let names := [b#"timeout"; b#"credentials"; b#"proxy_protocol"] in
    timeout ← dec_field names b#"timeout" dec_timeout kvs (HttpProxy_Timeout x);
    credentials ← dec_field names b#"credentials" dec_credentials kvs (HttpProxy_Credentials x);
    proxy ← dec_field names b#"proxy_protocol" dec_bool kvs (HttpProxy_ProxyProtocol x);
    Ok (mkHttpProxy timeout credentials proxy)).
Definition dec_ReverseUdpProtocol : decoder ReverseUdpProtocol :=
  dec_struct (λ kvs x,
    let names := [b#"timeout"] in
    timeout ← dec_field names b#"timeout" dec_timeout kvs (ReverseUdp_Timeout x);
    Ok (mkReverseUdp timeout)).
Definition dec_ReverseSocks5Protocol : decoder ReverseSocks5Protocol :=
  dec_struct (λ kvs x,
    let names := [b#"timeout"; b#"credentials"] in
    timeout ← dec_field names b#"timeout" dec_timeout kvs (ReverseSocks5_Timeout x);
    credentials ← dec_field names b#"credentials" dec_credentials kvs (ReverseSocks5_Credentials x);
    Ok (mkReverseSocks5 timeout credentials)).
Definition dec_ReverseHttpProxyProtocol : decoder ReverseHttpProxyProtocol :=
  dec_struct (λ kvs x,
    let names := [b#"timeout"; b#"credentials"] in
    timeout ← dec_field names b#"timeout" dec_timeout kvs (ReverseHttpProxy_Timeout x);
    credentials ← dec_field names b#"credentials" dec_credentials kvs (ReverseHttpProxy_Credentials x);
    Ok (mkReverseHttpProxy timeout credentials)).
Definition dec_ReverseUnixProtocol : decoder ReverseUnixProtocol :=
  dec_struct (λ kvs x,
    let names := [b#"path"] in
    path ← dec_field names b#"path" dec_string kvs (ReverseUnix_Path x);
    Ok (mkReverseUnix path)).
Definition dec_UnixProtocol : decoder UnixProtocol :=
  dec_struct (λ kvs x,
    let names := [b#"path"; b#"proxy_protocol"] in
    path ← dec_field names b#"path" dec_string kvs (Unix_Path x);
    proxy ← dec_field names b#"proxy_protocol" dec_bool kvs (Unix_ProxyProtocol x);
    Ok (mkUnix path proxy)).

Definition LocalProtocol_names : list bytes :=
  [b#"Tcp"; b#"Udp"; b#"Stdio"; b#"Socks5"; b#"TProxyTcp"; b#"TProxyUdp"; b#"HttpProxy"; b#"ReverseTcp"; b#"ReverseUdp"; b#"ReverseSocks5"; b#"ReverseHttpProxy"; b#"ReverseUnix"; b#"Unix"].

Definition dec_LocalProtocol : decoder LocalProtocol :=
  dec_struct (λ kvs p,
    let names := LocalProtocol_names in
    xTcp ← dec_field names b#"Tcp" (dec_ptr (mkTcp false) dec_TcpProtocol) kvs (Tcp p);
    xUdp ← dec_field names b#"Udp" (dec_ptr (mkUdp None) dec_UdpProtocol) kvs (Udp p);
    xStdio ← dec_field names b#"Stdio" (dec_ptr (mkStdio false) dec_StdioProtocol) kvs (Stdio p);
    xSocks5 ← dec_field names b#"Socks5" (dec_ptr (mkSocks5 None None) dec_Socks5Protocol) kvs (Socks5 p);
    xTProxyTcp ← dec_field names b#"TProxyTcp" (dec_ptr () dec_empty) kvs (TProxyTcp p);
    xTProxyUdp ← dec_field names b#"TProxyUdp" (dec_ptr (mkTProxyUdp None) dec_TProxyUdpProtocol) kvs (TProxyUdp p);
    xHttpProxy ← dec_field names b#"HttpProxy" (dec_ptr (mkHttpProxy None None false) dec_HttpProxyProtocol) kvs (HttpProxy p);
    xReverseTcp ← dec_field names b#"ReverseTcp" (dec_ptr () dec_empty) kvs (ReverseTcp p);
    xReverseUdp ← dec_field names b#"ReverseUdp" (dec_ptr (mkReverseUdp None) dec_ReverseUdpProtocol) kvs (ReverseUdp p);
    xReverseSocks5 ← dec_field names b#"ReverseSocks5" (dec_ptr (mkReverseSocks5 None None) dec_ReverseSocks5Protocol) kvs (ReverseSocks5 p);
    xReverseHttpProxy ← dec_field names b#"ReverseHttpProxy" (dec_ptr (mkReverseHttpProxy None None) dec_ReverseHttpProxyProtocol) kvs (ReverseHttpProxy p);
    xReverseUnix ← dec_field names b#"ReverseUnix" (dec_ptr (mkReverseUnix []) dec_ReverseUnixProtocol) kvs (ReverseUnix p);
    xUnix ← dec_field names b#"Unix" (dec_ptr (mkUnix [] false) dec_UnixProtocol) kvs (Unix p);
    Ok (mkLocalProtocol xTcp xUdp xStdio xSocks5 xTProxyTcp xTProxyUdp xHttpProxy xReverseTcp xReverseUdp xReverseSocks5 xReverseHttpProxy xReverseUnix xUnix)).

Definition claims_names : list bytes := [b#"id"; b#"p"; b#"r"; b#"rp"].

(** [json.Unmarshal] into claims; [decode_claims] into fresh ones. *)
Definition dec_claims : decoder JwtTunnelConfig :=
  dec_struct (λ kvs c,
    let names := claims_names in
    id ← dec_field names b#"id" dec_string kvs (ID c);
    p ← dec_field names b#"p" dec_LocalProtocol kvs (Protocol c);
    r ← dec_field names b#"r" dec_string kvs (Remote c);
    rp ← dec_field names b#"rp" (dec_uint 16) kvs (Port c);
    Ok (mkClaims id p r rp)).

Definition decode_claims (j : json) : go JwtTunnelConfig := dec_claims j (mkClaims [] noProtocol [] 0).

(** ** Well-formed claims

    [claims_ok V c]: the numbers of [c] fit their Go types, and its strings satisfy
    [V]. *)

Definition opt_ok {A} (P : A → Prop) (o : option A) : Prop := ∀ x, o = Some x → P x.

Definition Duration_ok (d : Duration) : Prop := 0 ≤ Secs d < 2 ^ 64 ∧ 0 ≤ Nanos d < 2 ^ 32.

Section Ok.
Context (V : bytes → Prop).

Definition Credentials_ok (c : Credentials) : Prop := V (Username c) ∧ V (Password c).
Definition TcpProtocol_ok (x : TcpProtocol) : Prop := True.
Definition UdpProtocol_ok (x : UdpProtocol) : Prop := opt_ok Duration_ok (Udp_Timeout x).
Definition StdioProtocol_ok (x : StdioProtocol) : Prop := True.
Definition Socks5Protocol_ok (x : Socks5Protocol) : Prop := opt_ok Duration_ok (Socks5_Timeout x) ∧ opt_ok Credentials_ok (Socks5_Credentials x).
Definition TProxyUdpProtocol_ok (x : TProxyUdpProtocol) : Prop := opt_ok Duration_ok (TProxyUdp_Timeout x).
Definition HttpProxyProtocol_ok (x : HttpProxyProtocol) : Prop := opt_ok Duration_ok (HttpProxy_Timeout x) ∧ opt_ok Credentials_ok (HttpProxy_Credentials x).
Definition ReverseUdpProtocol_ok (x : ReverseUdpProtocol) : Prop := opt_ok Duration_ok (ReverseUdp_Timeout x).
Definition ReverseSocks5Protocol_ok (x : ReverseSocks5Protocol) : Prop := opt_ok Duration_ok (ReverseSocks5_Timeout x) ∧ opt_ok Credentials_ok (ReverseSocks5_Credentials x).
Definition ReverseHttpProxyProtocol_ok (x : ReverseHttpProxyProtocol) : Prop := opt_ok Duration_ok (ReverseHttpProxy_Timeout x) ∧ opt_ok Credentials_ok (ReverseHttpProxy_Credentials x).
Definition ReverseUnixProtocol_ok (x : ReverseUnixProtocol) : Prop := V (ReverseUnix_Path x).
Definition UnixProtocol_ok (x : UnixProtocol) : Prop := V (Unix_Path x).

Definition LocalProtocol_ok (p : LocalProtocol) : Prop :=
  opt_ok TcpProtocol_ok (Tcp p) ∧
  opt_ok UdpProtocol_ok (Udp p) ∧
  opt_ok StdioProtocol_ok (Stdio p) ∧
  opt_ok Socks5Protocol_ok (Socks5 p) ∧
  opt_ok (λ _, True) (TProxyTcp p) ∧
  opt_ok TProxyUdpProtocol_ok (TProxyUdp p) ∧
  opt_ok HttpProxyProtocol_ok (HttpProxy p) ∧
  opt_ok (λ _, True) (ReverseTcp p) ∧
  opt_ok ReverseUdpProtocol_ok (ReverseUdp p) ∧
  opt_ok ReverseSocks5Protocol_ok (ReverseSocks5 p) ∧
  opt_ok ReverseHttpProxyProtocol_ok (ReverseHttpProxy p) ∧
  opt_ok ReverseUnixProtocol_ok (ReverseUnix p) ∧
  opt_ok UnixProtocol_ok (Unix p).

Definition claims_ok (c : JwtTunnelConfig) : Prop :=
  V (ID c) ∧ LocalProtocol_ok (Protocol c) ∧ V (Remote c) ∧ 0 ≤ Port c < 2 ^ 16.
End Ok.

(** Claims that JSON can carry. *)
Definition claims_encodable : JwtTunnelConfig → Prop := claims_ok (λ s, ValidString s = true).

(** ** Laws of the strings *)

Lemma valid_coerce fuel s : valid_utf8 fuel s = true → coerce_utf8 fuel s = s.
Proof.
  revert s. induction fuel as [|fuel IH]; intros [|b s]; [done..|]. cbn [valid_utf8 coerce_utf8].
  destruct (rune_len (b :: s)) as [n|]; [|done]. intros H. by rewrite (IH _ H), take_drop.
Qed.

Lemma json_string_valid s : ValidString s = true → json_string s = s.
Proof. apply valid_coerce. Qed.

(** ASCII text is valid. *)
Lemma ascii_valid s : Forall (λ b, is_ascii b = true) s → ValidString s = true.
Proof.
  unfold ValidString. induction 1 as [|b s Hb _ IH]; [done|]. cbn. unfold is_ascii in Hb. by rewrite Hb.
Qed.

(** ** Laws of the decoder *)

Lemma dec_field_app {B} names name (dec : decoder B) k1 k2 b :
  dec_field names name dec (k1 ++ k2) b = b' ← dec_field names name dec k1 b; dec_field names name dec k2 b'.
Proof.
  revert b. induction k1 as [|[k j] k1 IH]; intros b; [done|]. cbn [app dec_field].
  destruct (bool_decide _); [|done]. by destruct (dec j b); cbn.
Qed.

(** A member of another field is skipped, one of this field decoded. *)
Lemma dec_field_skip {B} names name (dec : decoder B) k j b :
  resolve names k ≠ Some name → dec_field names name dec [(k, j)] b = Ok b.
Proof. intros H. cbn [dec_field]. by rewrite bool_decide_false. Qed.

Lemma dec_field_hit {B} names name (dec : decoder B) j b b' :
  resolve names name = Some name → dec j b = Ok b' → dec_field names name dec [(name, j)] b = Ok b'.
Proof. intros H E. cbn [dec_field]. rewrite bool_decide_true by done. by rewrite E. Qed.

Lemma dec_field_opt_skip {A B} names name (dec : decoder B) k (enc : A → json) o b :
  resolve names k ≠ Some name → dec_field names name dec (opt_member k enc o) b = Ok b.
Proof. intros H. destruct o; [by apply dec_field_skip|done]. Qed.

(** An encoder and a decoder of one type fit together on the values of [P]. *)
Definition faithful {A} (P : A → Prop) (zero : A) (enc : A → json) (dec : decoder A) : Prop :=
  ∀ x, P x → enc x ≠ JNull ∧ dec (enc x) zero = Ok x.

Lemma dec_field_opt_hit {A} names name (P : A → Prop) zero enc (dec : decoder A) o old :
  faithful P zero enc dec → opt_ok P o → resolve names name = Some name → old = None →
  dec_field names name (dec_ptr zero dec) (opt_member name enc o) old = Ok o.
Proof.
  intros Hf Ho Hr ->. destruct o as [x|]; [|done]. apply dec_field_hit; [done|].
  destruct (Hf x (Ho x eq_refl)) as [Hn E]. unfold dec_ptr. cbn [default]. rewrite E. by destruct (enc x).
Qed.

Create HintDb json.

(** Decode a struct from what was written for it: member by member. *)
Ltac member :=
  first [ rewrite dec_field_opt_skip by (by vm_compute)
        | rewrite dec_field_skip by (by vm_compute)
        | erewrite dec_field_opt_hit; [|solve [eauto with json nocore]|eassumption|by vm_compute|reflexivity]
        | erewrite dec_field_hit; [|by vm_compute|solve [eauto with json nocore]] ].
Ltac members := repeat first [rewrite dec_field_app | member | progress (cbn [mbind go_bind])].

Lemma enc_uint_faithful bits x : 0 < bits ≤ 64 → 0 ≤ x < 2 ^ bits → dec_uint bits (enc_uint x) 0 = Ok x.
Proof. intros. unfold dec_uint, enc_uint. by rewrite ParseUint_fmt_d. Qed.

#[export] Hint Resolve enc_uint_faithful : json.
#[export] Hint Extern 1 (0 < _ ≤ 64) => lia : json.

Lemma enc_string_faithful s old : ValidString s = true → dec_string (enc_string s) old = Ok s.
Proof. intros. unfold dec_string, enc_string. by rewrite json_string_valid. Qed.

#[export] Hint Extern 1 (dec_string (enc_string _) _ = _) => apply enc_string_faithful; assumption : json.

Lemma Credentials_faithful :
  faithful (Credentials_ok (λ s, ValidString s = true)) (mkCredentials [] []) Credentials_MarshalJSON Credentials_UnmarshalJSON.
Proof.
  intros [u p] [Hu Hp]. split; [done|]. cbn in Hu, Hp. unfold Credentials_UnmarshalJSON, Credentials_MarshalJSON.
  cbn [dec_strings]. by rewrite !enc_string_faithful by done.
Qed.
#[export] Hint Resolve Credentials_faithful : json.

Lemma Duration_faithful : faithful Duration_ok (mkDuration 0 0) enc_Duration dec_Duration.
Proof.
  intros [s n] [Hs Hn]. split; [done|]. cbn [Secs Nanos] in Hs, Hn.
  unfold enc_Duration, dec_Duration, dec_struct. cbn [Secs Nanos].
  by members.
Qed.
#[export] Hint Resolve Duration_faithful : json.

(** The struct of each protocol, by its members. *)
Ltac conjuncts :=
  repeat match goal with
  | H : ?P |- _ => lazymatch eval hnf in P with _ ∧ _ => destruct H end
  end.
Ltac struct_faithful :=
  intros x Hx; destruct x; conjuncts; split; [done|];
  match goal with |- ?dec (?enc _) _ = _ => unfold dec, enc end; unfold dec_struct; cbv zeta;
  unfold dec_timeout, dec_credentials; by members.

Abbreviation valid := (λ s, ValidString s = true).

Lemma bool_faithful b old : dec_bool (JBool b) old = Ok b.
Proof. done. Qed.
#[export] Hint Resolve bool_faithful : json.

Lemma empty_faithful : faithful (λ _, True) () enc_empty dec_empty.
Proof. by intros [] _. Qed.
#[export] Hint Resolve empty_faithful : json.

Lemma TcpProtocol_faithful : faithful TcpProtocol_ok (mkTcp false) enc_TcpProtocol dec_TcpProtocol.
Proof. struct_faithful. Qed.
Lemma UdpProtocol_faithful : faithful UdpProtocol_ok (mkUdp None) enc_UdpProtocol dec_UdpProtocol.
Proof. struct_faithful. Qed.
Lemma StdioProtocol_faithful : faithful StdioProtocol_ok (mkStdio false) enc_StdioProtocol dec_StdioProtocol.
Proof. struct_faithful. Qed.
Lemma Socks5Protocol_faithful : faithful (Socks5Protocol_ok valid) (mkSocks5 None None) enc_Socks5Protocol dec_Socks5Protocol.
Proof. struct_faithful. Qed.
Lemma TProxyUdpProtocol_faithful : faithful TProxyUdpProtocol_ok (mkTProxyUdp None) enc_TProxyUdpProtocol dec_TProxyUdpProtocol.
Proof. struct_faithful. Qed.
Lemma HttpProxyProtocol_faithful : faithful (HttpProxyProtocol_ok valid) (mkHttpProxy None None false) enc_HttpProxyProtocol dec_HttpProxyProtocol.
Proof. struct_faithful. Qed.
Lemma ReverseUdpProtocol_faithful : faithful ReverseUdpProtocol_ok (mkReverseUdp None) enc_ReverseUdpProtocol dec_ReverseUdpProtocol.
Proof. struct_faithful. Qed.
Lemma ReverseSocks5Protocol_faithful : faithful (ReverseSocks5Protocol_ok valid) (mkReverseSocks5 None None) enc_ReverseSocks5Protocol dec_ReverseSocks5Protocol.
Proof. struct_faithful. Qed.
Lemma ReverseHttpProxyProtocol_faithful : faithful (ReverseHttpProxyProtocol_ok valid) (mkReverseHttpProxy None None) enc_ReverseHttpProxyProtocol dec_ReverseHttpProxyProtocol.
Proof. struct_faithful. Qed.
Lemma ReverseUnixProtocol_faithful : faithful (ReverseUnixProtocol_ok valid) (mkReverseUnix []) enc_ReverseUnixProtocol dec_ReverseUnixProtocol.
Proof. struct_faithful. Qed.
Lemma UnixProtocol_faithful : faithful (UnixProtocol_ok valid) (mkUnix [] false) enc_UnixProtocol dec_UnixProtocol.
Proof. struct_faithful. Qed.
#[export] Hint Resolve TcpProtocol_faithful UdpProtocol_faithful StdioProtocol_faithful Socks5Protocol_faithful TProxyUdpProtocol_faithful HttpProxyProtocol_faithful ReverseUdpProtocol_faithful ReverseSocks5Protocol_faithful ReverseHttpProxyProtocol_faithful ReverseUnixProtocol_faithful UnixProtocol_faithful : json.

Lemma LocalProtocol_faithful : faithful (LocalProtocol_ok valid) noProtocol enc_LocalProtocol dec_LocalProtocol.
Proof.
  intros p Hp. split; [done|]. destruct p. conjuncts.
  unfold dec_LocalProtocol, enc_LocalProtocol, dec_struct. cbv zeta.
  by members.
Qed.

(** Members of no field change nothing. *)
Lemma dec_field_unknown {B} names name (dec : decoder B) kvs b :
  Forall (λ kv, resolve names kv.1 = None) kvs → dec_field names name dec kvs b = Ok b.
Proof. induction 1 as [|[k j] kvs H _ IH]; [done|]. cbn [dec_field]. cbn [fst] in H. by rewrite H, bool_decide_false. Qed.

Lemma decode_enc_claims c extra :
  claims_encodable c → Forall (λ kv, resolve claims_names kv.1 = None) extra →
  decode_claims (JObj (claims_members c ++ extra)) = Ok c.
Proof.
  destruct c as [id p r port]. intros (Hid & Hp & Hr & Hport) Hx. cbn [ID Protocol Remote Port] in *.
  unfold decode_claims, dec_claims, claims_members, dec_struct. cbv zeta. cbn [ID Protocol Remote Port].
  pose proof (proj2 (LocalProtocol_faithful p Hp)). unfold string_member. rewrite <-!app_assoc.
  destruct (bool_decide_reflect (id = [])) as [->|_]; rewrite ?app_nil_l;
    repeat first [progress members | rewrite dec_field_unknown by done]; done.
Qed.

Lemma decode_enc_claims_plain c : claims_encodable c → decode_claims (enc_claims c) = Ok c.
Proof. intros H. unfold enc_claims. rewrite <-(app_nil_r (claims_members c)). by apply decode_enc_claims. Qed.

(** C15: what the client signs is what the server reads: decoding the JSON of the
    claims gives back every protocol, timeout, credential, path, host and port, for
    claims whose numbers fit their types and whose strings are valid UTF-8.  Members
    a newer peer adds behind them change nothing. *)
Theorem claims_json_roundtrip c extra :
  claims_encodable c → Forall (λ kv, resolve claims_names kv.1 = None) extra →
  decode_claims (enc_claims c) = Ok c ∧ decode_claims (JObj (claims_members c ++ extra)) = Ok c.
Proof. intros Hc Hx. split; [by apply decode_enc_claims_plain|by apply decode_enc_claims]. Qed.

(** "bücher.example" *)
Definition sample_host : bytes := [x62; xc3; xbc] ++ b#"cher.example".
Definition sample_claims : JwtTunnelConfig :=
  mkClaims b#"6f9619ff" (mkLocalProtocol None None None None None None None None None
    (Some (mkReverseSocks5 (Some (mkDuration 30 5)) (Some (mkCredentials b#"bob" b#"hunter2")))) None None None)
    sample_host 65535.

Lemma sample_claims_encodable : claims_encodable sample_claims.
Proof.
  unfold claims_encodable, claims_ok, LocalProtocol_ok, sample_claims.
  cbn [ID Protocol Remote Port Tcp Udp Stdio Socks5 TProxyTcp TProxyUdp HttpProxy ReverseTcp ReverseUdp ReverseSocks5
    ReverseHttpProxy ReverseUnix Unix].
  split; [by vm_compute|]. split; [|split; [by vm_compute|lia]].
  repeat match goal with |- _ ∧ _ => split end; intros ? [= <-].
  split; intros ? [= <-]; by vm_compute.
Qed.

Lemma claims_json_roundtrip_witness :
  decode_claims (enc_claims sample_claims) = Ok sample_claims ∧
  decode_claims (JObj (claims_members sample_claims ++ [(b#"exp", JNum b#"1700000000"); (b#"aud", JNull)])) = Ok sample_claims.
Proof. apply (claims_json_roundtrip sample_claims); [apply sample_claims_encodable|repeat constructor; by vm_compute]. Defined.

(** The text of these claims: {"id":"6f9619ff","p":{"ReverseSocks5":{"timeout":
    {"secs":30,"nanos":5},"credentials":["bob","hunter2"]}},"r":"bücher.example","rp":65535}. *)
Example sample_claims_json :
  enc_claims sample_claims =
  JObj [(b#"id", JStr b#"6f9619ff");
        (b#"p", JObj [(b#"ReverseSocks5", JObj
           [(b#"timeout", JObj [(b#"secs", JNum b#"30"); (b#"nanos", JNum b#"5")]);
            (b#"credentials", JArr [JStr b#"bob"; JStr b#"hunter2"])])]);
        (b#"r", JStr sample_host); (b#"rp", JNum b#"65535")].
Proof. vm_compute. reflexivity. Qed.

(** ** Odd inputs *)

(** An object that repeats, misspells and nulls members: a later member is decoded on top
    of an earlier one. *)
Definition odd_claims : json :=
  JObj [(b#"RP", JNum b#"80"); (b#"p", JObj [(b#"tcp", JNull); (b#"UDP", JObj [(b#"timeout", JObj [(b#"secs", JNum b#"7")])])]);
        (b#"iat", JNum b#"1e9"); (b#"p", JObj [(b#"Udp", JObj [(b#"Timeout", JObj [(b#"Nanos", JNum b#"9")])])]);
        (b#"rp", JNum b#"443"); (b#"r", JNull)].

Example odd_claims_decoded :
  decode_claims odd_claims = Ok (mkClaims [] (setUdp (mkUdp (Some (mkDuration 7 9))) noProtocol) [] 443).
Proof. vm_compute. reflexivity. Qed.

(** A port out of range, a negative or a fractional one is an error. *)
Example decode_port_errors :
  (λ lit, decode_claims (JObj [(b#"rp", JNum lit)])) <$> [b#"65536"; b#"-1"; b#"80.0"; b#"8e1"]
  = [Err type_error; Err type_error; Err type_error; Err type_error].
Proof. vm_compute. reflexivity. Qed.

(** [Credentials.UnmarshalJSON] takes an array of any length without an error, and
    keeps what was there, which is the empty login in a fresh value. *)
Lemma credentials_arity_ignored l c :
  length l ≠ 2%nat → Credentials_UnmarshalJSON (JArr (JStr <$> l)) c = Ok c.
Proof.
  intros Hl. unfold Credentials_UnmarshalJSON.
  assert (dec_strings (JStr <$> l) = Ok l) as E by (clear; induction l as [|s l IH]; [done|]; cbn in *; by rewrite IH).
  rewrite E. cbn. by destruct l as [|? [|? [|]]].
Qed.
