(* ===== verification/Restrictions.v ===== *)
(** pkg/server/restrictions.go: the server-side rules that decide which tunnels
    a client may open.

    The regular-expression engine of the Go library is the interface
    [RegexpEngine]: compiling and matching.  The YAML decoder is third-party
    code and appears as the results of [value.Decode] and [value.Tag].  An
    embedded pointer ([*regexp.Regexp] in [Regexp], [*net.IPNet] in [NetCIDR])
    is an [option], and using it when it is nil panics as in Go. *)

From S2P Require Import Prelude GoStrings GoNet Protocol.

(** ** Regular expressions *)

Class RegexpEngine := {
  regex : Type;
  regexp_Compile : bytes → option regex;
  regexp_MatchString : regex → bytes → bool
}.

(** [regexp.QuoteMeta] *)
Definition is_special (c : byte) : bool := bool_decide (c ∈ b#"\.+*?()|[]{}^$").
Definition QuoteMeta (s : bytes) : bytes := s ≫= λ c, if is_special c then [x5c; c] else [c].

(** What the documentation of [regexp] promises for a quoted ASCII literal
    between anchors: it compiles and matches exactly that text. *)
Class RegexpQuoteLaw (E : RegexpEngine) := {
  quoted_literal : ∀ h, Forall (λ c, is_ascii c = true) h →
    ∃ re, regexp_Compile (b#"^" ++ QuoteMeta h ++ b#"$") = Some re ∧
          ∀ s, regexp_MatchString re s = bool_decide (s = h)
}.

(** ** Data *)

Section Restrictions.
Context `{RE : RegexpEngine}.

Record MatchConfig := mkMatch {
  Any : bool;
  PathPrefix : option regex;
  Authorization : option regex;
  ClientCommonName : option regex
}.

(** [Regexp] and [NetCIDR] wrap a pointer. *)
Definition Regexp : Type := option regex.
Definition NetCIDR : Type := option IPNet.

Record PortRange := mkPortRange { Min : Z; Max : Z }.

Record AllowTunnelConfig := mkAllowTunnel {
  at_Protocol : list bytes;
  at_Port : list PortRange;
  at_Host : option Regexp;
  at_CIDR : list NetCIDR
}.

Record AllowReverseTunnelConfig := mkAllowReverse {
  art_Protocol : list bytes;
  art_Port : list PortRange;
  art_PortMapping : list (Z * Z);
  art_CIDR : list NetCIDR;
  art_UnixPath : option Regexp
}.

Record AllowConfig := mkAllow {
  Tunnel : option AllowTunnelConfig;
  ReverseTunnel : option AllowReverseTunnelConfig
}.

Record RestrictionConfig := mkRestriction {
  Name : bytes;
  Match : list MatchConfig;
  Allow : list AllowConfig
}.

(** [RestrictionsRules]; the pointer to it may be nil. *)
Definition RestrictionsRules : Type := list RestrictionConfig.

(** ** Reading the rules *)

(** [MatchConfig.UnmarshalYAML]: [asString] and [asStruct] are the results of the
    two [value.Decode] calls. *)
Definition compile_opt (pattern : bytes) : go (option regex) :=
  if bool_decide (pattern = []) then Ok None
  else match regexp_Compile pattern with
       | Some re => Ok (Some re)
       | None => Err (Errorf b#"regexp.Compile" [])
       end.

Definition MatchConfig_UnmarshalYAML (asString : go bytes) (asStruct : go (bytes * bytes * bytes)) : go MatchConfig :=
  if bool_decide (asString = Ok b#"Any") then Ok (mkMatch true None None None)
  else
    '(pathPrefix, authorization, clientCommonName) ← asStruct;
    p ← compile_opt pathPrefix;
    a ← compile_opt authorization;
    c ← compile_opt clientCommonName;
    Ok (mkMatch false p a c).

(** [AllowConfig.UnmarshalYAML]: the tag selects which struct is decoded. *)
Definition AllowConfig_UnmarshalYAML (tag : bytes) (asTunnel : go AllowTunnelConfig)
    (asReverse : go AllowReverseTunnelConfig) : go AllowConfig :=
  if bool_decide (tag = b#"!Tunnel") then t ← asTunnel; Ok (mkAllow (Some t) None)
  else if bool_decide (tag = b#"!ReverseTunnel") then r ← asReverse; Ok (mkAllow None (Some r))
  else Err (Errorf (b#"unknown allow tag: " ++ tag) []).

Definition NetCIDR_UnmarshalYAML (asString : go bytes) : go NetCIDR :=
  s ← asString;
  match ParseCIDR s with
  | Some ipnet => Ok (Some ipnet)
  | None => Err (Errorf b#"net.ParseCIDR" [])
  end.

(** [parts[i]] *)
Definition index {A} (l : list A) (i : nat) : go A :=
  match l !! i with Some x => Ok x | None => Panic end.

Definition PortRange_UnmarshalYAML (asString : go bytes) : go PortRange :=
  s ← asString;
  if Contains s b#".." then
    let parts := Split s b#".." in
    p0 ← index parts 0;
    p1 ← index parts 1;
    Ok (mkPortRange (u16 (ParseUint p0 16).1) (u16 (ParseUint p1 16).1))
  else
    let val := (ParseUint s 16).1 in
    Ok (mkPortRange (u16 val) (u16 val)).

Definition Regexp_UnmarshalYAML (asString : go bytes) : go Regexp :=
  s ← asString;
  match regexp_Compile s with
  | Some re => Ok (Some re)
  | None => Err (Errorf b#"regexp.Compile" [])
  end.

(** [LoadRestrictions]: the file contents and the YAML decoder are given. *)
Definition LoadRestrictions (file : go bytes) (unmarshal : bytes → go RestrictionsRules) : go RestrictionsRules :=
  data ← file;
  rules ← unmarshal data;
  Ok rules.

(** ** Deciding *)

(** The method calls that go through an embedded pointer. *)
Definition MatchString (r : Regexp) (s : bytes) : go bool :=
  match r with None => Panic | Some re => Ok (regexp_MatchString re s) end.
Definition CIDR_Contains (c : NetCIDR) (ip : bytes) : go bool :=
  match c with None => Panic | Some n => Ok (IPNet_Contains n ip) end.

Definition getProtoName (p : LocalProtocol) : bytes :=
  if nonnil (Tcp p) then b#"Tcp"
  else if nonnil (Udp p) then b#"Udp"
  else if nonnil (Socks5 p) then b#"Socks5"
  else if nonnil (HttpProxy p) then b#"Http"
  else if nonnil (Unix p) then b#"Unix"
  else if nonnil (ReverseTcp p) then b#"ReverseTcp"
  else if nonnil (ReverseUdp p) then b#"ReverseUdp"
  else if nonnil (ReverseSocks5 p) then b#"ReverseSocks5"
  else if nonnil (ReverseHttpProxy p) then b#"ReverseHttp"
  else if nonnil (ReverseUnix p) then b#"ReverseUnix"
  else b#"Unknown".

(** The list checks both [Allows] functions start with: an empty list does not restrict. *)
Definition proto_listed (protos : list bytes) (claims : JwtTunnelConfig) : bool :=
  match protos with
  | [] => true
  | _ => existsb (λ p, EqualFold p (getProtoName (Protocol claims))) protos
  end.

Definition in_range (port : Z) (pr : PortRange) : bool := (Min pr <=? port) && (port <=? Max pr).

Definition port_listed (ports : list PortRange) (claims : JwtTunnelConfig) : bool :=
  match ports with
  | [] => true
  | _ => existsb (in_range (Port claims)) ports
  end.

Definition AllowTunnelConfig_Allows (a : AllowTunnelConfig) (claims : JwtTunnelConfig) : go bool :=
  if negb (proto_listed (at_Protocol a) claims) then Ok false
  else if negb (port_listed (at_Port a) claims) then Ok false
  else
    host ← match at_Host a with
           | None => Ok true
           | Some r => MatchString r (Remote claims)
           end;
    if negb host then Ok false
    else match at_CIDR a with
         | [] => Ok true
         | cidrs =>
             match ParseIP (Remote claims) with
             | Some ip => anyM (λ c, CIDR_Contains c ip) cidrs
             | None => if nonnil (at_Host a) then Ok true else Ok false
             end
         end.

Definition AllowReverseTunnelConfig_Allows (a : AllowReverseTunnelConfig) (claims : JwtTunnelConfig) : go bool :=
  if negb (proto_listed (art_Protocol a) claims) then Ok false
  else match ReverseUnix (Protocol claims) with
       | Some ru =>
           match art_UnixPath a with
           | None => Ok true
           | Some r => MatchString r (ReverseUnix_Path ru)
           end
       | None =>
           if negb (port_listed (art_Port a) claims) then Ok false
           else match art_CIDR a with
                | [] => Ok true
                | cidrs =>
                    match ParseIP (Remote claims) with
                    | Some ip => anyM (λ c, CIDR_Contains c ip) cidrs
                    | None => Ok true
                    end
                end
       end.

Definition claims_isReverse (claims : JwtTunnelConfig) : bool :=
  let p := Protocol claims in
  nonnil (ReverseTcp p) || nonnil (ReverseUdp p) || nonnil (ReverseSocks5 p) ||
  nonnil (ReverseHttpProxy p) || nonnil (ReverseUnix p).

(** The body of the loop of [RestrictionConfig.Allows]. *)
Definition allow_entry (claims : JwtTunnelConfig) (a : AllowConfig) : go bool :=
  match claims_isReverse claims, ReverseTunnel a, Tunnel a with
  | true, Some r, _ => AllowReverseTunnelConfig_Allows r claims
  | false, _, Some t => AllowTunnelConfig_Allows t claims
  | _, _, _ => Ok false
  end.

Definition RestrictionConfig_Allows (rc : RestrictionConfig) (claims : JwtTunnelConfig) : go bool :=
  anyM (allow_entry claims) (Allow rc).

Definition re_matches (r : option regex) (s : bytes) : bool :=
  match r with None => false | Some re => regexp_MatchString re s end.

Definition RestrictionConfig_Matches (rc : RestrictionConfig) (path auth commonName : bytes) : bool :=
  existsb (λ m, Any m || re_matches (PathPrefix m) path || re_matches (Authorization m) auth ||
                re_matches (ClientCommonName m) commonName) (Match rc).

Definition Validate (r : option RestrictionsRules) (claims : JwtTunnelConfig)
    (path auth commonName : bytes) : go bool :=
  match r with
  | None | Some [] => Ok true
  | Some rules =>
      anyM (λ restr,
        if RestrictionConfig_Matches restr path auth commonName
        then RestrictionConfig_Allows restr claims else Ok false) rules
  end.

(** ** The policy the rules express *)

(** A rule whose embedded pointers are set, as the YAML decoders leave them. *)
Definition host_wf (h : option Regexp) : Prop := h ≠ Some None.
Definition cidrs_wf (l : list NetCIDR) : Prop := Forall (λ c, c ≠ None) l.
Definition allow_wf (a : AllowConfig) : Prop :=
  (∀ t, Tunnel a = Some t → host_wf (at_Host t) ∧ cidrs_wf (at_CIDR t)) ∧
  (∀ t, ReverseTunnel a = Some t → host_wf (art_UnixPath t) ∧ cidrs_wf (art_CIDR t)).
Definition rules_wf (r : option RestrictionsRules) : Prop :=
  ∀ rules, r = Some rules → Forall (λ rc, Forall allow_wf (Allow rc)) rules.

(** Declarative reading of the criteria. *)
Definition proto_ok (protos : list bytes) (claims : JwtTunnelConfig) : Prop :=
  protos = [] ∨ ∃ p, p ∈ protos ∧ EqualFold p (getProtoName (Protocol claims)) = true.
Definition port_ok (ports : list PortRange) (claims : JwtTunnelConfig) : Prop :=
  ports = [] ∨ ∃ pr, pr ∈ ports ∧ Min pr ≤ Port claims ≤ Max pr.
Definition in_some_network (cidrs : list NetCIDR) (ip : bytes) : Prop :=
  ∃ n, Some n ∈ cidrs ∧ IPNet_Contains n ip = true.
Definition regexp_ok (r : option Regexp) (s : bytes) : Prop :=
  r = None ∨ ∃ re, r = Some (Some re) ∧ regexp_MatchString re s = true.

(** A forward tunnel: when networks are listed, an IP destination must lie in one
    of them and a name is only acceptable together with a host pattern. *)
Definition tunnel_policy (a : AllowTunnelConfig) (claims : JwtTunnelConfig) : Prop :=
  proto_ok (at_Protocol a) claims ∧ port_ok (at_Port a) claims ∧ regexp_ok (at_Host a) (Remote claims) ∧
  (at_CIDR a = [] ∨
   match ParseIP (Remote claims) with
   | Some ip => in_some_network (at_CIDR a) ip
   | None => at_Host a ≠ None
   end).

(** A reverse tunnel: a Unix listener is judged by its path only. *)
Definition reverse_policy (a : AllowReverseTunnelConfig) (claims : JwtTunnelConfig) : Prop :=
  proto_ok (art_Protocol a) claims ∧
  match ReverseUnix (Protocol claims) with
  | Some ru => regexp_ok (art_UnixPath a) (ReverseUnix_Path ru)
  | None =>
      port_ok (art_Port a) claims ∧
      (art_CIDR a = [] ∨ match ParseIP (Remote claims) with
                         | Some ip => in_some_network (art_CIDR a) ip
                         | None => True
                         end)
  end.

Definition allow_policy (a : AllowConfig) (claims : JwtTunnelConfig) : Prop :=
  if claims_isReverse claims
  then ∃ t, ReverseTunnel a = Some t ∧ reverse_policy t claims
  else ∃ t, Tunnel a = Some t ∧ tunnel_policy t claims.

Definition match_policy (m : MatchConfig) (path auth commonName : bytes) : Prop :=
  Any m = true ∨
  (∃ re, PathPrefix m = Some re ∧ regexp_MatchString re path = true) ∨
  (∃ re, Authorization m = Some re ∧ regexp_MatchString re auth = true) ∨
  (∃ re, ClientCommonName m = Some re ∧ regexp_MatchString re commonName = true).

(** A request is permitted when there are no rules, or when one rule matches the
    request and one of its entries allows the tunnel. *)
Definition permitted (r : option RestrictionsRules) (claims : JwtTunnelConfig)
    (path auth commonName : bytes) : Prop :=
  r = None ∨ r = Some [] ∨
  ∃ rules rc, r = Some rules ∧ rc ∈ rules ∧
    (∃ m, m ∈ Match rc ∧ match_policy m path auth commonName) ∧
    (∃ a, a ∈ Allow rc ∧ allow_policy a claims).

(** ** Decisions are total and follow the policy *)

Lemma anyM_spec {A} (p : A → go bool) (P : A → Prop) l :
  (∀ x, x ∈ l → ∃ b, p x = Ok b ∧ (b = true ↔ P x)) →
  ∃ b, anyM p l = Ok b ∧ (b = true ↔ ∃ x, x ∈ l ∧ P x).
Proof.
  induction l as [|x l IH]; intros H.
  - exists false. split; [done|]. split; [done|]. intros (x & Hx & _). by apply not_elem_of_nil in Hx.
  - destruct (H x ltac:(set_solver)) as (b & Hb & HP). cbn [anyM]. rewrite Hb. cbn [mbind go_bind].
    destruct b.
    + exists true. split; [done|]. split; [|done]. intros _. exists x. split; [set_solver|by apply HP].
    + destruct IH as (b & -> & Hb'); [set_solver|]. exists b. split; [done|]. rewrite Hb'. split.
      * intros (y & ? & ?). exists y. set_solver.
      * intros (y & [->|Hy]%elem_of_cons & Hp); [by apply HP in Hp|]. by exists y.
Qed.

Lemma proto_listed_spec protos claims : proto_listed protos claims = true ↔ proto_ok protos claims.
Proof.
  unfold proto_listed, proto_ok. destruct protos as [|p l]; [naive_solver|].
  rewrite existsb_exists. setoid_rewrite <-list_elem_of_In. naive_solver.
Qed.

Lemma port_listed_spec ports claims : port_listed ports claims = true ↔ port_ok ports claims.
Proof.
  unfold port_listed, port_ok, in_range. destruct ports as [|p l]; [naive_solver|].
  rewrite existsb_exists. setoid_rewrite <-list_elem_of_In.
  setoid_rewrite andb_true_iff. setoid_rewrite Z.leb_le. naive_solver.
Qed.

Lemma anyM_cidr cidrs ip : cidrs_wf cidrs →
  ∃ b, anyM (λ c, CIDR_Contains c ip) cidrs = Ok b ∧ (b = true ↔ in_some_network cidrs ip).
Proof.
  intros Hwf. destruct (anyM_spec (λ c, CIDR_Contains c ip)
    (λ c, ∃ n, c = Some n ∧ IPNet_Contains n ip = true) cidrs) as (b & Hb & HP).
  - intros c Hc. unfold cidrs_wf in Hwf. rewrite list.Forall_forall in Hwf. apply Hwf in Hc.
    destruct c as [n|]; [|done]. eexists. split; [done|]. naive_solver.
  - exists b. split; [done|]. rewrite HP. unfold in_some_network. naive_solver.
Qed.

Lemma regexp_check h s : host_wf h →
  ∃ b, match h with None => Ok true | Some r => MatchString r s end = Ok b ∧ (b = true ↔ regexp_ok h s).
Proof.
  unfold host_wf, regexp_ok. intros H. destruct h as [[re|]|]; [|done|].
  - eexists. split; [done|]. naive_solver.
  - exists true. naive_solver.
Qed.

Lemma tunnel_allows_spec t claims : host_wf (at_Host t) → cidrs_wf (at_CIDR t) →
  ∃ b, AllowTunnelConfig_Allows t claims = Ok b ∧ (b = true ↔ tunnel_policy t claims).
Proof.
  intros Hh Hc. unfold AllowTunnelConfig_Allows, tunnel_policy.
  destruct (proto_listed (at_Protocol t) claims) eqn:E1; cbn [negb];
    [apply proto_listed_spec in E1|
     exists false; split; [done|]; rewrite <-proto_listed_spec, E1; naive_solver].
  destruct (port_listed (at_Port t) claims) eqn:E2; cbn [negb];
    [apply port_listed_spec in E2|
     exists false; split; [done|]; rewrite <-port_listed_spec, E2; naive_solver].
  destruct (regexp_check (at_Host t) (Remote claims) Hh) as (bh & -> & Hbh). cbn [mbind go_bind].
  destruct bh; cbn [negb]; [|exists false; naive_solver]. pose proof (proj1 Hbh eq_refl).
  destruct (at_CIDR t) as [|c l] eqn:E3; [exists true; tauto|]. rewrite <-E3 in *.
  assert (at_CIDR t ≠ []) by congruence.
  destruct (ParseIP (Remote claims)) as [ip|].
  - destruct (anyM_cidr (at_CIDR t) ip Hc) as (b & -> & Hb). exists b. tauto.
  - destruct (at_Host t); cbn [nonnil]; eexists; (split; [done|]); intuition congruence.
Qed.

Lemma reverse_allows_spec t claims : host_wf (art_UnixPath t) → cidrs_wf (art_CIDR t) →
  ∃ b, AllowReverseTunnelConfig_Allows t claims = Ok b ∧ (b = true ↔ reverse_policy t claims).
Proof.
  intros Hh Hc. unfold AllowReverseTunnelConfig_Allows, reverse_policy.
  destruct (proto_listed (art_Protocol t) claims) eqn:E1; cbn [negb];
    [apply proto_listed_spec in E1|
     exists false; split; [done|]; rewrite <-proto_listed_spec, E1; naive_solver].
  destruct (ReverseUnix (Protocol claims)) as [ru|].
  { destruct (regexp_check (art_UnixPath t) (ReverseUnix_Path ru) Hh) as (b & Hb & HP).
    exists b. split; [done|]. naive_solver. }
  destruct (port_listed (art_Port t) claims) eqn:E2; cbn [negb];
    [apply port_listed_spec in E2|
     exists false; split; [done|]; rewrite <-port_listed_spec, E2; naive_solver].
  destruct (art_CIDR t) as [|c l] eqn:E3; [exists true; tauto|]. rewrite <-E3 in *.
  assert (art_CIDR t ≠ []) by congruence.
  destruct (ParseIP (Remote claims)) as [ip|].
  - destruct (anyM_cidr (art_CIDR t) ip Hc) as (b & -> & Hb). exists b. tauto.
  - exists true. tauto.
Qed.

Lemma allow_entry_spec a claims : allow_wf a →
  ∃ b, allow_entry claims a = Ok b ∧ (b = true ↔ allow_policy a claims).
Proof.
  intros [Hf Hr]. unfold allow_entry, allow_policy. destruct (claims_isReverse claims).
  - destruct (ReverseTunnel a) as [t|] eqn:Et; [|exists false; naive_solver].
    destruct (Hr t eq_refl) as [? ?].
    destruct (reverse_allows_spec t claims) as (b & ? & ?); [done..|]. exists b. naive_solver.
  - destruct (Tunnel a) as [t|] eqn:Et; [|exists false; destruct (ReverseTunnel a); naive_solver].
    destruct (Hf t eq_refl) as [? ?].
    destruct (tunnel_allows_spec t claims) as (b & ? & ?); [done..|].
    exists b. destruct (ReverseTunnel a); naive_solver.
Qed.

Lemma re_matches_spec r s : re_matches r s = true ↔ ∃ re, r = Some re ∧ regexp_MatchString re s = true.
Proof. destruct r; simpl; naive_solver. Qed.

Lemma matches_spec rc path auth cn :
  RestrictionConfig_Matches rc path auth cn = true ↔ ∃ m, m ∈ Match rc ∧ match_policy m path auth cn.
Proof.
  unfold RestrictionConfig_Matches, match_policy. rewrite existsb_exists.
  setoid_rewrite <-list_elem_of_In. setoid_rewrite orb_true_iff. setoid_rewrite orb_true_iff.
  setoid_rewrite orb_true_iff. setoid_rewrite re_matches_spec. naive_solver.
Qed.

Lemma Validate_spec r claims path auth cn :
  rules_wf r →
  ∃ b, Validate r claims path auth cn = Ok b ∧ (b = true ↔ permitted r claims path auth cn).
Proof.
  intros Hwf. unfold Validate, permitted.
  destruct r as [[|rc rules]|]; [exists true; naive_solver| |exists true; naive_solver].
  specialize (Hwf _ eq_refl). rewrite list.Forall_forall in Hwf.
  destruct (anyM_spec (λ restr, if RestrictionConfig_Matches restr path auth cn
                                then RestrictionConfig_Allows restr claims else Ok false)
    (λ rc, (∃ m, m ∈ Match rc ∧ match_policy m path auth cn) ∧ ∃ a, a ∈ Allow rc ∧ allow_policy a claims)
    (rc :: rules)) as (b & Hb & HP).
  - intros rc' Hin. setoid_rewrite <-matches_spec. destruct (RestrictionConfig_Matches rc' path auth cn).
    + apply Hwf in Hin. rewrite list.Forall_forall in Hin.
      destruct (anyM_spec (allow_entry claims) (λ a, allow_policy a claims) (Allow rc')) as (b & Hb & HP).
      { intros a Ha. by apply allow_entry_spec, Hin. }
      exists b. split; [exact Hb|]. tauto.
    + exists false. split; [done|]. split; [done|]. by intros [? _].
  - exists b. split; [exact Hb|]. rewrite HP. split.
    + intros (x & ? & ? & ?). right. right. by exists (rc :: rules), x.
    + intros [H|[H|(l & x & [= <-] & ? & ? & ?)]]; [done..|]. by exists x.
Qed.

Lemma Validate_permitted r claims path auth cn :
  rules_wf r → Validate r claims path auth cn = Ok true ↔ permitted r claims path auth cn.
Proof.
  intros Hwf. destruct (Validate_spec r claims path auth cn Hwf) as (b & -> & <-). split; [by intros [= <-]|by intros ->].
Qed.

(** ** Properties *)

(** C3: the rule evaluation of the server ([Validate] with the functions it
    calls) never panics on rules whose pointers are set, and it accepts a
    request exactly when the declarative policy permits it. *)
Theorem Validate_refines_policy r claims path auth cn :
  rules_wf r →
  ∃ b, Validate r claims path auth cn = Ok b ∧ (b = true ↔ permitted r claims path auth cn).
Proof. apply Validate_spec. Qed.

(** Reading a port range never panics: [parts[1]] exists whenever the text
    contains the separator; and the result is always a pair of 16-bit ports. *)
Theorem PortRange_UnmarshalYAML_total s :
  ∃ pr, PortRange_UnmarshalYAML (Ok s) = Ok pr ∧ is_u16 (Min pr) ∧ is_u16 (Max pr).
Proof.
  unfold PortRange_UnmarshalYAML. cbn [mbind go_bind].
  destruct (Contains s b#"..") eqn:Ec; [|eexists; split_and!; [done|apply u16_range..]].
  destruct (Contains_split _ _ Ec) as [Hl| ->]; [|done].
  destruct (Split s b#"..") as [|p0 [|p1 l]]; cbn in Hl; [lia..|].
  eexists. split_and!; [done|apply u16_range..].
Qed.

(** The documented form [low..high] is read as that range. *)
Theorem PortRange_UnmarshalYAML_roundtrip lo hi :
  is_u16 lo → is_u16 hi →
  PortRange_UnmarshalYAML (Ok (fmt_d lo ++ b#".." ++ fmt_d hi)) = Ok (mkPortRange lo hi).
Proof.
  intros Hlo Hhi. unfold PortRange_UnmarshalYAML. cbn [mbind go_bind].
  assert (x2e ∉ fmt_d lo) as Hl by (apply dec_digits_no; [done|unfold is_u16 in *; lia]).
  assert (x2e ∉ fmt_d hi) as Hh by (apply dec_digits_no; [done|unfold is_u16 in *; lia]).
  assert (Cut (fmt_d lo ++ b#".." ++ fmt_d hi) b#".." = Some (fmt_d lo, fmt_d hi)) as Hcut
    by exact (Cut_app (fmt_d lo) x2e [x2e] (fmt_d hi) Hl).
  unfold Contains, Split. rewrite Hcut.
  assert (Cut (fmt_d hi) b#".." = None) as Hno.
  { destruct (Cut (fmt_d hi) b#"..") as [[x y]|] eqn:E; [|done]. apply Cut_some in E.
    exfalso. apply Hh. rewrite E. cbn. set_solver. }
  destruct (length (fmt_d lo ++ b#".." ++ fmt_d hi)) as [|n] eqn:El;
    [rewrite !length_app in El; cbn in El; lia|].
  cbn [split_cuts]. rewrite Hcut.
  assert (∃ rest, split_cuts n (fmt_d hi) b#".." = fmt_d hi :: rest) as [rest ->].
  { destruct n; cbn [split_cuts]; [by eexists|]. rewrite Hno. by eexists. }
  unfold index. cbn [lookup list_lookup mbind go_bind]. rewrite !ParseUint_fmt_d by (unfold is_u16 in *; lia).
  cbn [fst]. by rewrite !u16_id.
Qed.

End Restrictions.

Lemma PortRange_UnmarshalYAML_roundtrip_witness :
  PortRange_UnmarshalYAML (Ok (fmt_d 8000 ++ b#".." ++ fmt_d 9000)) = Ok (mkPortRange 8000 9000).
Proof. apply PortRange_UnmarshalYAML_roundtrip; unfold is_u16; lia. Defined.

(** An entry that does not parse is not rejected: text that is no number reads
    as port 0 and a number that is too large as port 65535. *)
Example PortRange_lenient :
  PortRange_UnmarshalYAML (Ok b#"http") = Ok (mkPortRange 0 0) ∧
  PortRange_UnmarshalYAML (Ok b#"80..70000") = Ok (mkPortRange 80 65535).
Proof. by vm_compute. Qed.

(** ** A small engine

    Literals with optional anchors, enough of the engine's language to run the
    rules on concrete requests and to show that the quoting law can be met. *)

Record lit_regex := mkLit { anchored_l : bool; literal : bytes; anchored_r : bool }.

(** The body of a pattern: escaped and plain bytes, then perhaps [$]. *)
Fixpoint lit_body (s : bytes) : option (bytes * bool) :=
  match s with
  | [] => Some ([], false)
  | c :: s' =>
      if bool_decide (c = x24) && bool_decide (s' = []) then Some ([], true)
      else if bool_decide (c = x5c) then
        match s' with
        | d :: s'' => if is_special d then '(l, a) ← lit_body s''; Some (d :: l, a) else None
        | [] => None
        end
      else if is_special c then None
      else '(l, a) ← lit_body s'; Some (c :: l, a)
  end.

Definition lit_compile (s : bytes) : option lit_regex :=
  let '(al, body) := if HasPrefix s b#"^" then (true, drop 1 s) else (false, s) in
  '(l, ar) ← lit_body body; Some (mkLit al l ar).

Definition lit_match (re : lit_regex) (s : bytes) : bool :=
  match anchored_l re, anchored_r re with
  | true, true => bool_decide (s = literal re)
  | true, false => HasPrefix s (literal re)
  | false, true => HasPrefix (reverse s) (reverse (literal re))
  | false, false => Contains s (literal re)
  end.

#[export] Instance LiteralEngine : RegexpEngine :=
  {| regex := lit_regex; regexp_Compile := lit_compile; regexp_MatchString := lit_match |}.

Lemma lit_body_quoted h : lit_body (QuoteMeta h ++ b#"$") = Some (h, true).
Proof.
  induction h as [|c h IH]; [done|]. unfold QuoteMeta in *. cbn [mbind list_bind].
  destruct (is_special c) eqn:Es.
  - cbn [app lit_body]. rewrite (bool_decide_false (x5c = x24)) by done. cbn [andb].
    rewrite bool_decide_true by done. rewrite Es, IH. done.
  - cbn [app lit_body].
    rewrite (bool_decide_false (c = x24)) by (by intros ->). cbn [andb].
    rewrite (bool_decide_false (c = x5c)) by (by intros ->). rewrite Es, IH. done.
Qed.

#[export] Instance LiteralEngine_law : RegexpQuoteLaw LiteralEngine.
Proof.
  split. intros h _. exists (mkLit true h true). split; [|done].
  unfold regexp_Compile, LiteralEngine, lit_compile. cbn [HasPrefix app].
  change (HasPrefix (b#"^" ++ QuoteMeta h ++ b#"$") b#"^") with (HasPrefix (QuoteMeta h ++ b#"$") []).
  rewrite HasPrefix_nil_r. change (drop 1 (b#"^" ++ QuoteMeta h ++ b#"$")) with (QuoteMeta h ++ b#"$").
  by rewrite lit_body_quoted.
Qed.

(** One rule: a request under /admin may reach 10.0.0.0/8 on ports 1 to 1024. *)
Definition example_rules : RestrictionsRules :=
  [mkRestriction b#"admin" [mkMatch false (lit_compile b#"^/admin") None None]
     [mkAllow (Some (mkAllowTunnel [b#"tcp"] [mkPortRange 1 1024] None
                       [ParseCIDR b#"10.0.0.0/8"])) None]].

Lemma example_rules_wf : rules_wf (Some example_rules).
Proof.
  intros rules [= <-]. constructor; [|constructor]. constructor; [|constructor].
  split; intros t; [|done]. intros [= <-]. split; [done|]. constructor; [done|constructor].
Qed.

Lemma Validate_refines_policy_witness :
  ∃ b, Validate (Some example_rules) (mkClaims [] (setTcp (mkTcp false) noProtocol) b#"10.1.2.3" 443)
         b#"/admin/events" [] [] = Ok b ∧
       (b = true ↔ permitted (Some example_rules)
                     (mkClaims [] (setTcp (mkTcp false) noProtocol) b#"10.1.2.3" 443) b#"/admin/events" [] []).
Proof. apply (Validate_refines_policy (Some example_rules)), example_rules_wf. Defined.

Example example_rules_decide :
  Validate (Some example_rules) (mkClaims [] (setTcp (mkTcp false) noProtocol) b#"10.1.2.3" 443)
    b#"/admin/events" [] [] = Ok true ∧
  Validate (Some example_rules) (mkClaims [] (setTcp (mkTcp false) noProtocol) b#"11.1.2.3" 443)
    b#"/admin/events" [] [] = Ok false ∧
  Validate (Some example_rules) (mkClaims [] (setUdp (mkUdp None) noProtocol) b#"10.1.2.3" 443)
    b#"/admin/events" [] [] = Ok false ∧
  Validate (Some example_rules) (mkClaims [] (setTcp (mkTcp false) noProtocol) b#"10.1.2.3" 443)
    b#"/v1/events" [] [] = Ok false.
Proof. by vm_compute. Qed.
