(* ===== verification/TargetFrame.v ===== *)
(** The in-band frame that carries the destination of a dynamic reverse tunnel
    from the server ([encodeTargetFrame], pkg/server/manager.go) to the client
    ([readTargetFrame], pkg/client/client.go), over each of the carriers. *)

From S2P Require Import Prelude GoIO Wst.

(** ** Server side *)

Definition encodeTargetFrame (host : bytes) (port : Z) : go bytes :=
  if 255 <? blen host then Err (Errorf b#"host length exceeds 255 bytes" [])
  else Ok ([x01; z2b (blen host)] ++ host ++ be_encode 2 port).

(** ** Client side *)

(** [tunnelStream]: the carrier in use.  The gorilla connection is third-party
    code and is given by the outcomes of its [ReadMessage] calls. *)
Record tunnelStream := mkStream {
  ts_ws : option Conn;
  ts_gorilla : option (list (go (Z * bytes)));
  ts_h2 : option rxside
}.

(** The checks on the payload, after the carrier-specific part. *)
Definition parseTargetFrame (payload : bytes) : go (bytes * Z) :=
  if blen payload <? 4 then Err (Errorf b#"target frame too short" [])
  else
    match payload with
    | v :: l :: rest =>
        if negb (bool_decide (v = x01)) then Err (Errorf b#"invalid target frame version: %d" [b2z v])
        else
          let hostLen := Z.to_nat (b2z l) in
          if blen payload <? 2 + b2z l + 2 then Err (Errorf b#"target frame truncated" [])
          else Ok (slice 2 (2 + hostLen) payload, be_decode (slice (2 + hostLen) (2 + hostLen + 2) payload))
    | _ => Panic
    end.

(** Reading the frame from the HTTP/2 body: exactly its bytes. *)
Definition readTargetFrame_h2 : io rxside bytes :=
  hdr ← ReadFull 2;
  match hdr with
  | v :: l :: _ =>
      if negb (bool_decide (v = x01)) then io_err (Errorf b#"invalid target frame version: %d" [b2z v])
      else
        rest ← ReadFull (Z.to_nat (b2z l) + 2);
        mret (hdr ++ rest)
  | _ => io_panic
  end.

Definition readTargetFrame (ts : tunnelStream) : go (bytes * Z) * tunnelStream :=
  match ts_ws ts, ts_gorilla ts, ts_h2 ts with
  | Some ws, _, _ =>
      match ReadMessage ws with
      | Some (_, _, Some e, ws') => (Err e, mkStream (Some ws') (ts_gorilla ts) (ts_h2 ts))
      | Some (_, data, None, ws') => (parseTargetFrame data, mkStream (Some ws') (ts_gorilla ts) (ts_h2 ts))
      | None => (Panic, ts)
      end
  | None, Some outcomes, _ =>
      match outcomes with
      | Ok (_, data) :: rest => (parseTargetFrame data, mkStream None (Some rest) (ts_h2 ts))
      | Err e :: rest => (Err e, mkStream None (Some rest) (ts_h2 ts))
      | Panic :: rest => (Panic, mkStream None (Some rest) (ts_h2 ts))
      | [] => (Err EOF, ts)
      end
  | None, None, Some h2 =>
      let '(r, h2') := readTargetFrame_h2 h2 in
      (r ≫= parseTargetFrame, mkStream None None (Some h2'))
  | None, None, None => (Err (Errorf b#"no active stream" []), ts)
  end.

(** ** Laws *)

Lemma encodeTargetFrame_ok host port frame :
  encodeTargetFrame host port = Ok frame →
  blen host ≤ 255 ∧ frame = [x01; z2b (blen host)] ++ host ++ be_encode 2 port.
Proof. unfold encodeTargetFrame. destruct (Z.ltb_spec 255 (blen host)); [done|]. by intros [= <-]. Qed.

(** A payload that is read is never outside its bounds. *)
Lemma parseTargetFrame_total payload : parseTargetFrame payload ≠ Panic.
Proof.
  unfold parseTargetFrame, blen. destruct payload as [|v [|l rest]]; [done..|].
  repeat case_match; done.
Qed.

Lemma parseTargetFrame_encode host port frame :
  is_u16 port → encodeTargetFrame host port = Ok frame → parseTargetFrame frame = Ok (host, port).
Proof.
  intros Hp (Hl & ->)%encodeTargetFrame_ok. pose proof (blen_nonneg host) as Hn.
  assert (b2z (z2b (blen host)) = blen host) as Hb by (rewrite b2z_z2b; apply Z.mod_small; lia).
  unfold parseTargetFrame. cbn [app].
  rewrite !blen_cons, blen_app. change (blen (be_encode 2 port)) with 2.
  rewrite (proj2 (Z.ltb_ge _ _)) by lia. rewrite bool_decide_true by done. cbn [negb].
  rewrite Hb, (proj2 (Z.ltb_ge _ _)) by lia.
  assert (Z.to_nat (blen host) = length host) as -> by (unfold blen; lia).
  unfold slice. f_equal. f_equal.
  - change (drop 2 (x01 :: z2b (blen host) :: host ++ be_encode 2 port)) with (host ++ be_encode 2 port).
    by rewrite take_app_length' by lia.
  - replace (2 + length host + 2 - (2 + length host))%nat with 2%nat by lia.
    change (drop (2 + length host) (x01 :: z2b (blen host) :: host ++ be_encode 2 port))
      with (drop (length host) (host ++ be_encode 2 port)).
    rewrite drop_app_length, take_ge by done.
    rewrite be_decode_encode. change (256 ^ Z.of_nat 2) with (2 ^ 16). by apply Z.mod_small.
Qed.

(** Reading the frame from the first WebSocket message. *)
Lemma readTargetFrame_ws m host port fr rest e w mk ph qh g h2 :
  is_u16 port → encodeTargetFrame host port = Ok fr →
  readTargetFrame (mkStream (Some (mkConn (mkRx (frame m BinaryMessage fr ++ rest) e) w mk ph qh)) g h2)
    = (Ok (host, port), mkStream (Some (mkConn (mkRx rest e) w mk ph qh)) g h2).
Proof.
  intros Hp Hf. pose proof (encodeTargetFrame_ok _ _ _ Hf) as [Hl Hfr].
  unfold readTargetFrame. cbn [ts_ws ts_gorilla ts_h2]. rewrite ReadMessage_data; [|done|].
  - by rewrite (parseTargetFrame_encode host port).
  - rewrite Hfr. cbn [app]. rewrite !blen_cons, blen_app. change (blen (be_encode 2 port)) with 2.
    unfold maxPayload. lia.
Qed.

(** ** Properties *)

(** The destination written by the server into the first WebSocket message
    is the destination the client dials, for every host of at most 255 bytes
    and every port, and the client leaves the following messages unread. *)
Theorem target_frame_roundtrip_ws m host port fr rest e w mk ph qh g h2 :
  is_u16 port → encodeTargetFrame host port = Ok fr →
  readTargetFrame (mkStream (Some (mkConn (mkRx (frame m BinaryMessage fr ++ rest) e) w mk ph qh)) g h2)
    = (Ok (host, port), mkStream (Some (mkConn (mkRx rest e) w mk ph qh)) g h2).
Proof. apply readTargetFrame_ws. Qed.

Lemma target_frame_roundtrip_ws_witness :
  readTargetFrame (mkStream (Some (mkConn (mkRx
      (frame false BinaryMessage ([x01; x04] ++ b#"host" ++ [x01; xbb]) ++ b#"rest") EOF)
      (NewWriter (mkTx [] None ErrIO)) true defaultPongHandler defaultPongHandler)) None None)
    = (Ok (b#"host", 443), mkStream (Some (mkConn (mkRx b#"rest" EOF)
        (NewWriter (mkTx [] None ErrIO)) true defaultPongHandler defaultPongHandler)) None None).
Proof. apply target_frame_roundtrip_ws; [unfold is_u16; lia|by vm_compute]. Defined.

(** Over HTTP/2, where the frame and the tunnelled data share one byte
    stream, the client consumes exactly the frame: the destination is recovered
    and every byte behind it is left for the tunnel. *)
Theorem target_frame_roundtrip_h2 host port fr data e :
  is_u16 port → encodeTargetFrame host port = Ok fr →
  readTargetFrame (mkStream None None (Some (mkRx (fr ++ data) e)))
    = (Ok (host, port), mkStream None None (Some (mkRx data e))).
Proof.
  intros Hp Hf. pose proof (encodeTargetFrame_ok _ _ _ Hf) as [Hl Hfr]. pose proof (blen_nonneg host).
  assert (b2z (z2b (blen host)) = blen host) as Hb by (rewrite b2z_z2b; apply Z.mod_small; lia).
  unfold readTargetFrame. cbn [ts_ws ts_gorilla ts_h2].
  assert (readTargetFrame_h2 (mkRx (fr ++ data) e) = (Ok fr, mkRx data e)) as ->.
  { unfold readTargetFrame_h2. rewrite Hfr. rewrite <-(assoc_L (++)).
    erewrite io_step; [|by apply ReadFull_app]. cbv beta iota.
    rewrite bool_decide_true by done. cbn [negb]. rewrite Hb. erewrite io_step; [|apply ReadFull_app]; [done|].
    rewrite length_app, length_be_encode. unfold blen. lia. }
  cbn [mbind go_bind]. by rewrite (parseTargetFrame_encode host port).
Qed.

Lemma target_frame_roundtrip_h2_witness :
  readTargetFrame (mkStream None None (Some (mkRx (([x01; x04] ++ b#"host" ++ [x01; xbb]) ++ b#"GET /") EOF)))
    = (Ok (b#"host", 443), mkStream None None (Some (mkRx b#"GET /" EOF))).
Proof. apply target_frame_roundtrip_h2; [unfold is_u16; lia|by vm_compute]. Defined.

(** A host is refused by the encoder exactly when it is longer than the
    length byte can say. *)
Theorem encodeTargetFrame_bounds host port :
  (∃ fr, encodeTargetFrame host port = Ok fr ∧ blen fr = 4 + blen host) ↔ blen host ≤ 255.
Proof.
  unfold encodeTargetFrame. destruct (Z.ltb_spec 255 (blen host)).
  - split; [by intros (fr & ? & _)|lia].
  - split; [done|]. intros _. eexists. split; [done|].
    cbn [app]. rewrite !blen_cons, blen_app. change (blen (be_encode 2 port)) with 2. lia.
Qed.
