(* ===== verification/Socks5.v ===== *)
(** The two SOCKS5 handshakes: [handleSocks5] of the client's listener
    (pkg/client/client.go), with username/password authentication, and
    [handleSocks5Handshake] of the server's reverse listener
    (pkg/server/manager.go); with the constant-time comparison and the HTTP
    proxy authentication of the client. *)

From S2P Require Import Prelude GoStrings GoNet GoIO Protocol.

(** ** Comparison and method selection *)

Definition containsSocks5Method (methods : bytes) (want : byte) : bool :=
  existsb (λ method, bool_decide (method = want)) methods.

(** The loop over [maxLen] positions; a missing byte counts as zero.  [diff] is
    an [int32]. *)
Definition constantTimeEqualBytes (actual expected : bytes) : bool :=
  let maxLen := Nat.max (length actual) (length expected) in
  let diff := i32 (Z.lxor (blen actual) (blen expected)) in
  let diff := fold_left (λ diff i,
      Z.lor diff (Z.lxor (b2z (nth i actual x00)) (b2z (nth i expected x00)))) (seq 0 maxLen) diff in
  diff =? 0.

(** ** The request, identical in both handshakes *)

Definition socks_host (atyp : byte) : io netconn bytes :=
  if bool_decide (atyp = x01) then
    ip ← reading (ReadFull 4); mret (IP_String ip)
  else if bool_decide (atyp = x03) then
    l ← reading (ReadFull 1);
    match l with
    | sz :: _ => reading (ReadFull (Z.to_nat (b2z sz)))
    | [] => io_panic
    end
  else if bool_decide (atyp = x04) then
    ip ← reading (ReadFull 16); mret (IP_String ip)
  else io_err (Errorf b#"unsupported address type: %d" [b2z atyp]).

Definition socks_success : bytes := [x05; x00; x00; x01; x00; x00; x00; x00; x00; x00].

Definition socks_request : io netconn (bytes * Z) :=
  buf ← reading (ReadFull 4);
  match buf with
  | ver :: cmd :: _ :: atyp :: _ =>
      if negb (bool_decide (ver = x05)) || negb (bool_decide (cmd = x01)) then
        io_err (Errorf b#"unsupported socks command: %d" [b2z cmd])
      else
        host ← socks_host atyp;
        p ← reading (ReadFull 2);
        let port := be_decode p in
        _ ← writing (Write socks_success);
        mret (host, port)
  | _ => io_panic
  end.

(** ** Server: reverse listener *)

Definition handleSocks5Handshake : io netconn (bytes * Z) :=
  buf ← reading (ReadFull 2);
  match buf with
  | ver :: nmethods :: _ =>
      if negb (bool_decide (ver = x05)) then io_err (Errorf b#"invalid socks version: %d" [b2z ver])
      else
        _ ← reading (ReadFull (Z.to_nat (b2z nmethods)));
        _ ← writing (Write [x05; x00]);
        socks_request
  | _ => io_panic
  end.

(** ** Client: local listener *)

(** The username/password sub-negotiation. *)
Definition socks_auth (credentials : Credentials) : io netconn unit :=
  buf ← reading (ReadFull 2);
  match buf with
  | ver :: ulen :: _ =>
      if negb (bool_decide (ver = x01)) then io_err (Errorf b#"unsupported socks auth version: %d" [b2z ver])
      else
        username ← reading (ReadFull (Z.to_nat (b2z ulen)));
        l ← reading (ReadFull 1);
        match l with
        | plen :: _ =>
            password ← reading (ReadFull (Z.to_nat (b2z plen)));
            let status := if negb (constantTimeEqualBytes username (Username credentials)) ||
                             negb (constantTimeEqualBytes password (Password credentials))
                          then x01 else x00 in
            _ ← writing (Write [x01; status]);
            if bool_decide (status = x00) then mret ()
            else io_err (Errorf b#"invalid socks5 credentials" [])
        | [] => io_panic
        end
  | _ => io_panic
  end.

Definition handleSocks5 (credentials : option Credentials) : io netconn (bytes * Z) :=
  buf ← reading (ReadFull 2);
  match buf with
  | ver :: nmethods :: _ =>
      if negb (bool_decide (ver = x05)) then io_err (Errorf b#"invalid socks version: %d" [b2z ver])
      else
        methods ← reading (ReadFull (Z.to_nat (b2z nmethods)));
        let selectedMethod := match credentials with None => x00 | Some _ => x02 end in
        if negb (containsSocks5Method methods selectedMethod) then
          _ ← writing (Write [x05; xff]);
          io_err (Errorf b#"no acceptable authentication method" [])
        else
          _ ← writing (Write [x05; selectedMethod]);
          _ ← match credentials with None => mret () | Some c => socks_auth c end;
          socks_request
  | _ => io_panic
  end.

(** ** The messages of the protocol (RFC 1928 and RFC 1929) *)

Inductive socks_dest :=
  | DestIPv4 (ip : bytes)
  | DestDomain (name : bytes)
  | DestIPv6 (ip : bytes).

Definition dest_wf (d : socks_dest) : Prop :=
  match d with
  | DestIPv4 ip => length ip = 4%nat
  | DestDomain name => blen name ≤ 255
  | DestIPv6 ip => length ip = 16%nat
  end.

Definition dest_atyp (d : socks_dest) : byte :=
  match d with DestIPv4 _ => x01 | DestDomain _ => x03 | DestIPv6 _ => x04 end.

Definition dest_bytes (d : socks_dest) : bytes :=
  match d with
  | DestIPv4 ip => ip
  | DestDomain name => z2b (blen name) :: name
  | DestIPv6 ip => ip
  end.

Definition dest_host (d : socks_dest) : bytes :=
  match d with DestDomain name => name | DestIPv4 ip | DestIPv6 ip => IP_String ip end.

Definition greeting (methods : bytes) : bytes := [x05; z2b (blen methods)] ++ methods.
Definition auth_message (c : Credentials) : bytes :=
  [x01; z2b (blen (Username c))] ++ Username c ++ [z2b (blen (Password c))] ++ Password c.
Definition connect_request (rsv : byte) (d : socks_dest) (port : Z) : bytes :=
  [x05; x01; rsv; dest_atyp d] ++ dest_bytes d ++ be_encode 2 port.

(** ** Constant-time comparison *)

Lemma fold_lor_zero f l d0 :
  fold_left (λ d (i : nat), Z.lor d (f i)) l d0 = 0 ↔ d0 = 0 ∧ ∀ i, i ∈ l → f i = 0.
Proof.
  revert d0. induction l as [|i l IH]; intros d0; cbn [fold_left].
  - split; [intros ->; split; [done|]; intros i Hi; by apply not_elem_of_nil in Hi|tauto].
  - rewrite IH, Z.lor_eq_0_iff. split.
    + intros [[-> ?] ?]. split; [done|]. intros j [->|?]%elem_of_cons; auto.
    + intros [-> H]. split; [|set_solver]. split; [done|]. apply H. set_solver.
Qed.

Lemma ct_equal_iff a b :
  blen a < 2 ^ 32 → blen b < 2 ^ 32 → (constantTimeEqualBytes a b = true ↔ a = b).
Proof.
  intros Ha Hb. pose proof (blen_nonneg a). pose proof (blen_nonneg b).
  unfold constantTimeEqualBytes. cbv zeta. rewrite Z.eqb_eq, fold_lor_zero. split.
  - intros [Hlen Hx].
    assert (Z.lxor (blen a) (blen b) = 0) as Hl0.
    { assert (0 ≤ Z.lxor (blen a) (blen b) < 2 ^ 32) as Hr.
      { split; [apply Z.lxor_nonneg; lia|].
        destruct (Z.eq_dec (Z.lxor (blen a) (blen b)) 0) as [->|Hn]; [lia|].
        apply Z.log2_lt_pow2; [pose proof (proj2 (Z.lxor_nonneg (blen a) (blen b)) ltac:(lia)); lia|].
        eapply Z.le_lt_trans; [apply Z.log2_lxor; lia|].
        apply Z.max_lub_lt; (destruct (Z.eq_dec (blen a) 0) as [E|]; [try rewrite E|]);
          (destruct (Z.eq_dec (blen b) 0) as [E'|]; [try rewrite E'|]); try done; apply Z.log2_lt_pow2; lia. }
      unfold i32 in Hlen. generalize dependent (Z.lxor (blen a) (blen b)). intros z Hlen Hr.
      destruct (Z.lt_ge_cases z (2 ^ 31)).
      - rewrite Z.mod_small in Hlen by lia. lia.
      - replace (z + 2 ^ 31) with (z - 2 ^ 31 + 1 * 2 ^ 32) in Hlen by lia.
        rewrite Z.mod_add, Z.mod_small in Hlen by lia. lia. }
    apply Z.lxor_eq in Hl0. unfold blen in Hl0. apply (nth_ext _ _ x00 x00); [lia|].
    intros i Hi. apply b2z_inj, Z.lxor_eq, Hx. apply elem_of_seq. lia.
  - intros ->. rewrite Z.lxor_nilpotent. split; [done|]. intros i _. apply Z.lxor_nilpotent.
Qed.

Lemma ct_equal_refl a : blen a < 2 ^ 32 → constantTimeEqualBytes a a = true.
Proof. intros. by apply ct_equal_iff. Qed.

(** The constant-time comparison used for every credential check decides
    equality of the two byte strings (for lengths below 4 GiB, so that the
    conversion of the length difference to int32 keeps it visible). *)
Theorem constantTimeEqualBytes_spec a b :
  blen a < 2 ^ 32 → blen b < 2 ^ 32 → (constantTimeEqualBytes a b = true ↔ a = b).
Proof. apply ct_equal_iff. Qed.

Lemma constantTimeEqualBytes_spec_witness :
  constantTimeEqualBytes b#"secret" b#"secret" = true ↔ b#"secret" = b#"secret".
Proof. apply constantTimeEqualBytes_spec; by vm_compute. Defined.

Lemma containsSocks5Method_spec methods want :
  containsSocks5Method methods want = true ↔ want ∈ methods.
Proof.
  unfold containsSocks5Method. rewrite existsb_exists. setoid_rewrite <-list_elem_of_In.
  setoid_rewrite bool_decide_eq_true. naive_solver.
Qed.

(** ** The handshake steps accept the messages of the protocol *)

Lemma len_byte (l : bytes) : blen l ≤ 255 → Z.to_nat (b2z (z2b (blen l))) = length l.
Proof.
  intros H. rewrite b2z_z2b, Z.mod_small by (pose proof (blen_nonneg l); lia). unfold blen. lia.
Qed.

(** Run one step of a handshake on the input it expects. *)
Ltac hs_read := erewrite io_step; [|apply reading_app; try done]; cbv beta iota.
Ltac hs_write := erewrite io_step; [|by apply writing_ok]; cbv beta iota; cbn [nrx ntx tx quota tx_err].

Lemma socks_host_complete d rest e w : dest_wf d →
  socks_host (dest_atyp d) (mkNet (mkRx (dest_bytes d ++ rest) e) w) = (Ok (dest_host d), mkNet (mkRx rest e) w).
Proof.
  unfold socks_host. destruct d as [ip|name|ip]; cbn [dest_wf dest_atyp dest_bytes dest_host]; intros Hd.
  - rewrite bool_decide_true by done. by hs_read.
  - rewrite bool_decide_false, bool_decide_true by done.
    change ((z2b (blen name) :: name) ++ rest) with ([z2b (blen name)] ++ name ++ rest).
    hs_read. apply reading_app. by apply len_byte.
  - rewrite !bool_decide_false, bool_decide_true by done. by hs_read.
Qed.

Lemma socks_request_complete rsv d port rest e w :
  dest_wf d → is_u16 port → quota w = None →
  socks_request (mkNet (mkRx (connect_request rsv d port ++ rest) e) w) =
    (Ok (dest_host d, port), mkNet (mkRx rest e) (mkTx (tx w ++ socks_success) None (tx_err w))).
Proof.
  intros Hd Hp Hq. unfold socks_request, connect_request. rewrite <-!(assoc_L (++)).
  hs_read. rewrite !bool_decide_true by done. cbn [negb orb].
  erewrite io_step; [|by apply socks_host_complete]. cbv beta.
  hs_read. hs_write. unfold mret, io_ret. f_equal. f_equal. f_equal.
  rewrite be_decode_encode. by apply Z.mod_small.
Qed.

Lemma socks_auth_complete c rest e w :
  blen (Username c) ≤ 255 → blen (Password c) ≤ 255 → quota w = None →
  socks_auth c (mkNet (mkRx (auth_message c ++ rest) e) w) =
    (Ok (), mkNet (mkRx rest e) (mkTx (tx w ++ [x01; x00]) None (tx_err w))).
Proof.
  intros Hu Hp Hq. unfold socks_auth, auth_message. rewrite <-!(assoc_L (++)).
  hs_read. rewrite bool_decide_true by done. cbn [negb].
  erewrite io_step; [|apply reading_app; by apply len_byte]. cbv beta.
  hs_read. erewrite io_step; [|apply reading_app; by apply len_byte]. cbv beta zeta.
  rewrite !ct_equal_refl by lia. cbn [negb orb].
  hs_write. by rewrite bool_decide_true.
Qed.

(** ** and nothing else *)

Ltac hs_inv :=
  repeat match goal with
  | H : (_ ≫= _) _ = (Ok _, _) |- _ => apply io_bind_ok in H as (? & ? & ? & ?)
  | H : reading _ _ = (Ok _, _) |- _ => apply reading_ok in H as [? ?]
  | H : ReadFull _ _ = (Ok _, _) |- _ => apply ReadFull_ok in H as (? & ? & ?)
  | H : writing (Write _) _ = (Ok ?u, _) |- _ => destruct u; apply writing_Write_ok in H as [? ?]
  | H : mret _ _ = (Ok _, _) |- _ => unfold mret, io_ret in H; injection H as ?; subst
  end.

(** Chain the equations between consecutive inputs. *)
Ltac hs_rx := repeat match goal with H : rx _ = _ |- _ => rewrite H; clear H end; cbn [app]; congruence.

Ltac hs_tx :=
  repeat match goal with H : tx _ = _ |- _ => rewrite H; clear H | H : ntx _ = _ |- _ => rewrite H; clear H end;
  by rewrite <-!(assoc_L (++)).

Lemma socks_host_sound atyp s h s' :
  socks_host atyp s = (Ok h, s') →
  ∃ d, dest_wf d ∧ atyp = dest_atyp d ∧ h = dest_host d ∧
       rx (nrx s) = dest_bytes d ++ rx (nrx s') ∧ ntx s' = ntx s.
Proof.
  unfold socks_host. case_bool_decide as E1; [|case_bool_decide as E2; [|case_bool_decide as E3; [|done]]];
    intros H; hs_inv.
  - eexists (DestIPv4 _). by split_and!.
  - destruct x as [|sz [|]]; [done| |done]. hs_inv.
    assert (b2z sz = blen h) as Hsz by (unfold blen; pose proof (b2z_range sz); lia).
    exists (DestDomain h). cbn. rewrite <-Hsz, z2b_b2z. split_and!; [|done..| |congruence].
    + pose proof (b2z_range sz). lia.
    + hs_rx.
  - eexists (DestIPv6 _). by split_and!.
Qed.

Lemma socks_request_sound s h p s' :
  socks_request s = (Ok (h, p), s') →
  ∃ rsv d, dest_wf d ∧ h = dest_host d ∧ is_u16 p ∧
    rx (nrx s) = connect_request rsv d p ++ rx (nrx s') ∧ tx (ntx s') = tx (ntx s) ++ socks_success.
Proof.
  unfold socks_request. intros H. hs_inv.
  destruct x as [|ver [|cmd [|rsv [|atyp [|]]]]]; try done.
  destruct (_ || _) eqn:Ev; [done|]. bool_to_prop. subst ver cmd. hs_inv.
  match goal with H : socks_host _ _ = _ |- _ => apply socks_host_sound in H as (d & Hd & -> & -> & Hrx & Htx) end.
  exists rsv, d. split_and!; [done|done| | |].
  - pose proof (be_decode_bound x2) as Hb. unfold blen in Hb. by replace (length x2) with 2%nat in Hb.
  - unfold connect_request. replace 2%nat with (length x2). rewrite be_encode_decode, <-!(assoc_L (++)).
    hs_rx.
  - congruence.
Qed.

Lemma socks_auth_sound c s s' :
  blen (Username c) < 2 ^ 32 → blen (Password c) < 2 ^ 32 →
  socks_auth c s = (Ok (), s') →
  rx (nrx s) = auth_message c ++ rx (nrx s') ∧ tx (ntx s') = tx (ntx s) ++ [x01; x00].
Proof.
  intros Hu Hp. unfold socks_auth. intros H. hs_inv.
  destruct x as [|ver [|ulen [|]]]; try done.
  case_bool_decide as Ev; [|done]. subst ver. cbn [negb] in *.
  apply io_bind_ok in H0 as (user & s1 & Hr1 & H0).
  apply io_bind_ok in H0 as ([|plen [|]] & s2 & Hr2 & H0); try done; [|by apply reading_ok in Hr2 as [(? & ? & ?)%ReadFull_ok ?]].
  apply io_bind_ok in H0 as (pass & s3 & Hr3 & H0).
  apply io_bind_ok in H0 as ([] & s4 & Hr4 & H0).
  destruct (_ || _) eqn:Ec; [done|]. bool_to_prop. hs_inv.
  assert (b2z ulen = blen user) as Hul by (unfold blen; pose proof (b2z_range ulen); lia).
  assert (b2z plen = blen pass) as Hpl by (unfold blen; pose proof (b2z_range plen); lia).
  pose proof (b2z_range ulen). pose proof (b2z_range plen).
  repeat match goal with H : constantTimeEqualBytes _ _ = true |- _ => apply ct_equal_iff in H; [|lia..] end.
  rewrite bool_decide_true in H0 by done. hs_inv. split; [|congruence].
  unfold auth_message. rewrite <-Hul, <-Hpl, !z2b_b2z, <-!(assoc_L (++)). hs_rx.
Qed.

(** ** The two handshakes *)

(** What a peer that offers [methods] has to send to the client's listener. *)
Definition client_dialogue (cred : option Credentials) (methods : bytes) (rsv : byte)
    (d : socks_dest) (port : Z) : bytes :=
  greeting methods ++ match cred with None => [] | Some c => auth_message c end ++
  connect_request rsv d port.

(** The authentication method the client's listener insists on, and what it
    answers on success. *)
Definition required_method (cred : option Credentials) : byte :=
  match cred with None => x00 | Some _ => x02 end.
Definition client_answers (cred : option Credentials) : bytes :=
  [x05; required_method cred] ++ match cred with None => [] | Some _ => [x01; x00] end ++ socks_success.

Definition cred_wf (cred : option Credentials) : Prop :=
  match cred with None => True | Some c => blen (Username c) ≤ 255 ∧ blen (Password c) ≤ 255 end.

(** The server's reverse SOCKS5 listener accepts every well-formed dialogue:
    it returns exactly the requested host and port, answers the method
    selection and the success reply and nothing else, and leaves the bytes that
    follow the request unread, for the tunnel. *)
Theorem handleSocks5Handshake_complete methods rsv d port rest e w :
  blen methods ≤ 255 → dest_wf d → is_u16 port → quota w = None →
  handleSocks5Handshake (mkNet (mkRx (greeting methods ++ connect_request rsv d port ++ rest) e) w) =
    (Ok (dest_host d, port),
     mkNet (mkRx rest e) (mkTx (tx w ++ [x05; x00] ++ socks_success) None (tx_err w))).
Proof.
  intros Hm Hd Hp Hq. unfold handleSocks5Handshake, greeting. rewrite <-!(assoc_L (++)).
  hs_read. rewrite bool_decide_true by done. cbn [negb].
  erewrite io_step; [|apply reading_app; by apply len_byte]. cbv beta. hs_write.
  rewrite socks_request_complete by done. cbn [tx tx_err]. by rewrite <-(assoc_L (++)).
Qed.

Lemma handleSocks5Handshake_complete_witness :
  handleSocks5Handshake (mkNet (mkRx (greeting [x00; x02] ++
      connect_request x00 (DestDomain b#"db.internal") 5432 ++ b#"hello") EOF) (mkTx [] None ErrIO)) =
    (Ok (b#"db.internal", 5432), mkNet (mkRx b#"hello" EOF) (mkTx ([] ++ [x05; x00] ++ socks_success) None ErrIO)).
Proof.
  apply (handleSocks5Handshake_complete [x00; x02] x00 (DestDomain b#"db.internal"));
    [by vm_compute..|split; by vm_compute|done].
Defined.

(** C22: the client's SOCKS5 listener accepts a peer exactly when it plays the
    dialogue for the configured credentials: a completed handshake implies that
    the peer offered the required method and sent the configured username and
    password and a well-formed request whose destination is the one returned,
    and that the answers on the wire are those of the protocol. *)
Theorem handleSocks5_sound cred s h p s' :
  cred_wf cred → handleSocks5 cred s = (Ok (h, p), s') →
  ∃ methods rsv d, required_method cred ∈ methods ∧ dest_wf d ∧ h = dest_host d ∧ is_u16 p ∧
    rx (nrx s) = client_dialogue cred methods rsv d p ++ rx (nrx s') ∧
    tx (ntx s') = tx (ntx s) ++ client_answers cred.
Proof.
  intros Hc H. unfold handleSocks5 in H.
  apply io_bind_ok in H as (buf & s1 & Hr1 & H). hs_inv.
  destruct buf as [|ver [|nm [|]]]; try done. case_bool_decide; [|done]. subst ver. cbn [negb] in H.
  apply io_bind_ok in H as (methods & s2 & Hr2 & H). cbv zeta in H. fold (required_method cred) in H.
  destruct (containsSocks5Method _ _) eqn:Em; cbn [negb] in H;
    [|by apply io_bind_ok in H as ([] & ? & ? & ?)].
  apply containsSocks5Method_spec in Em. apply io_bind_ok in H as ([] & s3 & Hw & H).
  apply io_bind_ok in H as ([] & s4 & Ha & H). hs_inv.
  apply socks_request_sound in H as (rsv & d & Hd & Hh & Hp & Hrx & Htx).
  assert (b2z nm = blen methods) as Hnm by (unfold blen; pose proof (b2z_range nm); lia).
  exists methods, rsv, d. unfold client_dialogue, client_answers, greeting.
  rewrite <-Hnm, z2b_b2z, <-!(assoc_L (++)). destruct cred as [c|].
  - apply socks_auth_sound in Ha as [Hrx' Htx']; [|destruct Hc; lia..].
    split_and!; [done..|hs_rx|hs_tx].
  - hs_inv. split_and!; [done..|hs_rx|hs_tx].
Qed.

Definition example_cred : Credentials := mkCredentials b#"alice" b#"s3cret".
Definition example_peer : netconn :=
  mkNet (mkRx (client_dialogue (Some example_cred) [x00; x02] x00 (DestIPv4 [x0a; x00; x00; x07]) 443 ++ b#"tls") EOF)
        (mkTx [] None ErrIO).

Lemma handleSocks5_sound_witness :
  ∃ methods rsv d, required_method (Some example_cred) ∈ methods ∧ dest_wf d ∧ b#"10.0.0.7" = dest_host d ∧
    is_u16 443 ∧
    rx (nrx example_peer) = client_dialogue (Some example_cred) methods rsv d 443 ++ b#"tls" ∧
    client_answers (Some example_cred) = tx (ntx example_peer) ++ client_answers (Some example_cred).
Proof.
  apply (handleSocks5_sound (Some example_cred) example_peer b#"10.0.0.7" 443
    (mkNet (mkRx b#"tls" EOF) (mkTx (client_answers (Some example_cred)) None ErrIO)));
    [split; by vm_compute|by vm_compute].
Defined.

(** Conversely, the client's listener completes the handshake with every
    peer that plays the dialogue, returning the requested destination and
    leaving the tunnelled bytes unread. *)
Theorem handleSocks5_complete cred methods rsv d port rest e w :
  cred_wf cred → blen methods ≤ 255 → required_method cred ∈ methods → dest_wf d → is_u16 port →
  quota w = None →
  handleSocks5 cred (mkNet (mkRx (client_dialogue cred methods rsv d port ++ rest) e) w) =
    (Ok (dest_host d, port), mkNet (mkRx rest e) (mkTx (tx w ++ client_answers cred) None (tx_err w))).
Proof.
  intros Hc Hm Hin Hd Hp Hq. unfold handleSocks5, client_dialogue, client_answers, greeting.
  rewrite <-!(assoc_L (++)). hs_read. rewrite bool_decide_true by done. cbn [negb].
  erewrite io_step; [|apply reading_app; by apply len_byte]. cbv beta zeta. fold (required_method cred).
  rewrite (proj2 (containsSocks5Method_spec _ _)) by done. cbn [negb]. hs_write.
  erewrite io_step with (s' := mkNet (mkRx (connect_request rsv d port ++ rest) e)
    (mkTx (tx w ++ [x05; required_method cred] ++ match cred with None => [] | Some _ => [x01; x00] end)
      None (tx_err w))).
  - rewrite socks_request_complete by done. cbn [tx tx_err]. by rewrite <-!(assoc_L (++)).
  - destruct cred as [c|]; [|by rewrite app_nil_r]. destruct Hc.
    rewrite socks_auth_complete by done. cbn [tx tx_err]. by rewrite <-(assoc_L (++)).
Qed.

Lemma handleSocks5_complete_witness :
  handleSocks5 (Some example_cred) example_peer =
    (Ok (dest_host (DestIPv4 [x0a; x00; x00; x07]), 443),
     mkNet (mkRx b#"tls" EOF) (mkTx ([] ++ client_answers (Some example_cred)) None ErrIO)).
Proof.
  apply (handleSocks5_complete (Some example_cred) [x00; x02] x00 (DestIPv4 [x0a; x00; x00; x07]) 443);
    [split; by vm_compute|by vm_compute| |done|split; by vm_compute|done].
  apply elem_of_cons; right; apply elem_of_cons; by left.
Defined.

(** Wrong credentials never get through: a peer that sends a username and
    password other than the configured ones is answered with the failure status
    and the handshake returns an error before any request is read. *)
Theorem handleSocks5_rejects c c' methods rest e w :
  cred_wf (Some c) → cred_wf (Some c') → c' ≠ c → blen methods ≤ 255 → x02 ∈ methods → quota w = None →
  handleSocks5 (Some c) (mkNet (mkRx (greeting methods ++ auth_message c' ++ rest) e) w) =
    (Err (Errorf b#"invalid socks5 credentials" []),
     mkNet (mkRx rest e) (mkTx (tx w ++ [x05; x02; x01; x01]) None (tx_err w))).
Proof.
  intros [Hu Hp] [Hu' Hp'] Hne Hm Hin Hq. unfold handleSocks5, greeting. rewrite <-!(assoc_L (++)).
  hs_read. rewrite bool_decide_true by done. cbn [negb].
  erewrite io_step; [|apply reading_app; by apply len_byte]. cbv beta zeta.
  rewrite (proj2 (containsSocks5Method_spec _ _)) by done. cbn [negb]. hs_write.
  unfold socks_auth, auth_message. rewrite <-!(assoc_L (++)).
  unfold mbind at 1, io_bind at 1. hs_read. rewrite bool_decide_true by done. cbn [negb].
  erewrite io_step; [|apply reading_app; by apply len_byte]. cbv beta.
  hs_read. erewrite io_step; [|apply reading_app; by apply len_byte]. cbv beta zeta.
  assert (negb (constantTimeEqualBytes (Username c') (Username c)) ||
          negb (constantTimeEqualBytes (Password c') (Password c)) = true) as ->.
  { apply orb_true_iff. rewrite !negb_true_iff, <-!not_true_iff_false, !ct_equal_iff by lia.
    destruct c, c'. cbn in *. destruct (decide (Username = Username0)) as [->|]; [|by left].
    right. congruence. }
  hs_write. rewrite bool_decide_false by done. cbn. by rewrite <-(assoc_L (++)).
Qed.

Lemma handleSocks5_rejects_witness :
  handleSocks5 (Some example_cred)
    (mkNet (mkRx (greeting [x02] ++ auth_message (mkCredentials b#"alice" b#"guess") ++ b#"x") EOF) (mkTx [] None ErrIO)) =
    (Err (Errorf b#"invalid socks5 credentials" []),
     mkNet (mkRx b#"x" EOF) (mkTx ([] ++ [x05; x02; x01; x01]) None ErrIO)).
Proof.
  apply handleSocks5_rejects; [split; by vm_compute|split; by vm_compute|done|by vm_compute|by left|done].
Defined.
