(* ===== verification/HttpProxy.v ===== *)
(** The two HTTP CONNECT proxies: [handleHttpProxy] of the client's listener
    with [authenticateHTTPProxy] (pkg/client/client.go), and
    [handleHttpProxyHandshake] of the server's reverse listener with its
    [prefixConn] (pkg/server/manager.go).

    [http.ReadRequest] is a parameter: it parses a request off the front of the
    input and says how many bytes the request has.  The buffered reader the code
    reads through takes the input in chunks, so [pulled] bytes, at least as many
    as the request has, have left the connection when it returns. *)

From S2P Require Import Prelude GoStrings GoNet GoIO GoBase64 Protocol Socks5.

(** ** Authentication *)

Definition authenticateHTTPProxy (header : bytes) (credentials : option Credentials) : bool :=
  match credentials with
  | None => true
  | Some c =>
      let header := TrimSpace header in
      if bool_decide (header = []) then false
      else
        match SplitN header b#" " 2 with
        | [scheme; param] =>
            if negb (EqualFold scheme b#"Basic") then false
            else
              match b64_decode (TrimSpace param) with
              | None => false
              | Some payload => constantTimeEqualBytes payload (Username c ++ b#":" ++ Password c)
              end
        | _ => false
        end
  end.

(** ** Requests *)

(** What the code reads of an [http.Request]. *)
Record http_request := mkHttpRequest {
  Method : bytes;
  Host : bytes;
  ProxyAuthorization : bytes;
  URL_Hostname : bytes;
  URL_Port : bytes
}.

Definition crlf : bytes := [x0d; x0a].
Definition resp_405 : bytes := b#"HTTP/1.1 405 Method Not Allowed" ++ crlf ++ crlf.
Definition resp_407 : bytes :=
  b#"HTTP/1.1 407 Proxy Authentication Required" ++ crlf ++
  b#"Proxy-Authenticate: Basic realm=" ++ [x22] ++ b#"warpstream" ++ [x22] ++ crlf ++ crlf.
Definition resp_200 : bytes := b#"HTTP/1.1 200 Connection Established" ++ crlf ++ crlf.

Section proxies.
Context (ReadRequest : bytes → go (http_request * nat)).

(** The connection after the buffered reader has taken [pulled] bytes. *)
Definition after_read (pulled : nat) (conn : netconn) : netconn :=
  mkNet (mkRx (drop pulled (rx (nrx conn))) (rx_err (nrx conn))) (ntx conn).

(** ** Server *)

(** The connection handed on: [prefixConn] reads the buffered bytes first. *)
Definition prefixConn (leftover : bytes) (conn : netconn) : netconn :=
  mkNet (mkRx (leftover ++ rx (nrx conn)) (rx_err (nrx conn))) (ntx conn).

Definition handleHttpProxyHandshake (pulled : nat) (conn : netconn) : go (bytes * Z) * netconn :=
  match ReadRequest (rx (nrx conn)) with
  | Ok (req, consumed) =>
      let buffered := slice consumed pulled (rx (nrx conn)) in
      let conn := after_read pulled conn in
      if negb (bool_decide (Method req = b#"CONNECT")) then
        (Err (Errorf b#"unsupported HTTP proxy method: %s" []), (writing (Write resp_405) conn).2)
      else
        let portStr := if bool_decide (URL_Port req = []) then b#"80" else URL_Port req in
        match ParseUint portStr 16 with
        | (_, Some _) => (Err (Errorf b#"invalid port in CONNECT request: %s" []), conn)
        | (portVal, None) =>
            match writing (Write resp_200) conn with
            | (Ok _, conn) =>
                (Ok (URL_Hostname req, u16 portVal),
                 if bool_decide (buffered = []) then conn else prefixConn buffered conn)
            | (Err e, conn) => (Err e, conn)
            | (Panic, conn) => (Panic, conn)
            end
        end
  | Err e => (Err (Errorf b#"failed to read HTTP proxy request: %w" []), conn)
  | Panic => (Panic, conn)
  end.

(** ** Client *)

(** The listener closes the connection, or tunnels it to a target: what the
    tunnel then reads from the connection is its remaining input. *)
Inductive proxied :=
  | Dropped (conn : netconn)
  | TunnelTo (host : bytes) (port : Z) (conn : netconn).

Definition handleHttpProxy (credentials : option Credentials) (pulled : nat) (conn : netconn) : proxied :=
  match ReadRequest (rx (nrx conn)) with
  | Ok (req, _) =>
      let conn := after_read pulled conn in
      if negb (bool_decide (Method req = b#"CONNECT")) then Dropped (writing (Write resp_405) conn).2
      else if negb (authenticateHTTPProxy (ProxyAuthorization req) credentials) then
        Dropped (writing (Write resp_407) conn).2
      else
        match SplitHostPort (Host req) with
        | None => Dropped conn
        | Some (targetHost, targetPortStr) =>
            let targetPort := (ParseUint targetPortStr 16).1 in
            match writing (Write resp_200) conn with
            | (Ok _, conn) => TunnelTo targetHost (u16 targetPort) conn
            | (_, conn) => Dropped conn
            end
        end
  | _ => Dropped conn
  end.

(** The server's CONNECT handshake loses no data: whatever part of the
    client's early data was read together with the request, the connection
    handed to the tunnel delivers exactly the bytes that follow the request, in
    order. *)
Theorem http_handshake_lossless pulled conn host port conn' req consumed :
  ReadRequest (rx (nrx conn)) = Ok (req, consumed) → (consumed ≤ pulled)%nat →
  handleHttpProxyHandshake pulled conn = (Ok (host, port), conn') →
  rx (nrx conn') = drop consumed (rx (nrx conn)) ∧ rx_err (nrx conn') = rx_err (nrx conn) ∧
  tx (ntx conn') = tx (ntx conn) ++ resp_200.
Proof.
  intros Hreq Hle. unfold handleHttpProxyHandshake. rewrite Hreq. cbv zeta.
  destruct (negb _); [done|]. destruct (ParseUint _ _) as [v []]; [done|].
  destruct (writing _ _) as [[[]|e|] c1] eqn:Hw; [|done..].
  apply writing_Write_ok in Hw as [Hrx Htx]. intros [= _ _ <-].
  assert (slice consumed pulled (rx (nrx conn)) ++ drop pulled (rx (nrx conn)) = drop consumed (rx (nrx conn))) as Hs.
  { unfold slice. rewrite <-(take_drop (pulled - consumed) (drop consumed (rx (nrx conn)))) at 2.
    rewrite drop_drop. f_equal. f_equal. lia. }
  case_bool_decide as E.
  - rewrite Hrx, Htx. cbn. rewrite <-Hs, E. done.
  - cbn. rewrite Hrx, Htx. cbn. done.
Qed.

(** The client's CONNECT handshake does lose early data: the tunnel starts
    with the connection itself, so the bytes that the buffered reader had already
    taken beyond the request are never forwarded. *)
Theorem http_proxy_drops_early_data credentials pulled conn host port conn' :
  handleHttpProxy credentials pulled conn = TunnelTo host port conn' →
  rx (nrx conn') = drop pulled (rx (nrx conn)).
Proof.
  unfold handleHttpProxy. destruct (ReadRequest _) as [[req consumed]| |]; [|done..]. cbv zeta.
  destruct (negb _); [done|]. destruct (negb _); [done|]. destruct (SplitHostPort _) as [[h p]|]; [|done].
  destruct (writing _ _) as [[[]|e|] c1] eqn:Hw; [|done..]. apply writing_Write_ok in Hw as [Hrx _].
  intros [= _ _ <-]. by rewrite Hrx.
Qed.
End proxies.

(** ** Basic authentication *)

Lemma b64_graphic l : Forall (λ c, graphic_ascii c = true) (b64_encode l).
Proof.
  assert (∀ z, 0 ≤ z < 64 → graphic_ascii (b64_char z) = true) as H
    by (apply (all_below 64 (λ z, graphic_ascii (b64_char z) = true)); by vm_compute).
  induction l as [|a|a b|a b c l IH] using bytes_ind3; cbn [b64_encode]; cbv zeta.
  - constructor.
  - destruct (byte_fields a x00 x00) as (Hv & _). cbv zeta in *. change (b2z x00) with 0 in *.
    rewrite Z.mul_0_l, !Z.add_0_r in *. destruct (b64_digits _ Hv) as (? & ? & ? & ? & _).
    repeat constructor; auto.
  - destruct (byte_fields a b x00) as (Hv & _). cbv zeta in *. change (b2z x00) with 0 in *.
    rewrite !Z.add_0_r in *. destruct (b64_digits _ Hv) as (? & ? & ? & ? & _). repeat constructor; auto.
  - destruct (byte_fields a b c) as (Hv & _). cbv zeta in *. destruct (b64_digits _ Hv) as (? & ? & ? & ? & _).
    repeat (constructor; [by apply H|]). done.
Qed.

(** What a standard client sends. *)
Lemma authenticate_canonical c payload :
  blen payload < 2 ^ 32 → blen (Username c ++ b#":" ++ Password c) < 2 ^ 32 →
  authenticateHTTPProxy (b#"Basic " ++ b64_encode payload) (Some c) = bool_decide (payload = Username c ++ b#":" ++ Password c).
Proof.
  intros Hp Hc. unfold authenticateHTTPProxy. cbv zeta.
  destruct (b64_encode payload) as [|e0 es] eqn:Ee.
  { assert (payload = []) as ->.
    { pose proof (b64_quanta_encode payload) as H. rewrite Ee in H. cbn in H. congruence. }
    transitivity false; [by vm_compute|]. symmetry. apply bool_decide_eq_false. intros H. apply (f_equal length) in H. rewrite !length_app in H. cbn in H. lia. }
  pose proof (b64_graphic payload) as Hg. rewrite Ee in Hg.
  assert (TrimSpace (b#"Basic " ++ e0 :: es) = b#"Basic " ++ e0 :: es) as ->.
  { destruct es as [|d es _] using rev_ind.
    - inversion Hg; subst. change (b#"Basic " ++ [e0]) with (x42 :: b#"asic " ++ [e0]). by apply TrimSpace_graphic.
    - inversion Hg as [|?? ? Hs]; subst. apply Forall_app in Hs as [_ Hd]. inversion Hd; subst.
      change (b#"Basic " ++ e0 :: es ++ [d]) with (x42 :: (b#"asic " ++ e0 :: es) ++ [d]). by apply TrimSpace_graphic. }
  rewrite bool_decide_false by done.
  assert (SplitN (b#"Basic " ++ e0 :: es) b#" " 2 = [b#"Basic"; e0 :: es]) as ->.
  { unfold SplitN. change (2 - 1)%nat with 1%nat. cbn [split_cuts].
    change (b#"Basic " ++ e0 :: es) with (b#"Basic" ++ [x20] ++ (e0 :: es)). change b#" " with [x20].
    rewrite Cut_app; [done|]. by apply (bool_decide_unpack (x20 ∉ b#"Basic")). }
  change (EqualFold b#"Basic" b#"Basic") with true. cbn [negb].
  rewrite TrimSpace_all_graphic, <-Ee, b64_decode_encode by done.
  destruct (constantTimeEqualBytes _ _) eqn:Ec.
  - apply ct_equal_iff in Ec; [|done..]. by rewrite bool_decide_true.
  - symmetry. apply bool_decide_eq_false. intros ->. rewrite ct_equal_refl in Ec by done. done.
Qed.

(** A header of the Basic scheme that carries [payload], as the standard describes it:
    after trimming, the name of the scheme in any case, a blank, and base64. *)
Definition basic_header (header payload : bytes) : Prop :=
  ∃ scheme param, TrimSpace header = scheme ++ [x20] ++ param ∧ (x20 ∉ scheme) ∧
    EqualFold scheme b#"Basic" = true ∧ b64_decode (TrimSpace param) = Some payload.

Lemma basic_header_length header payload : basic_header header payload → blen payload ≤ blen header.
Proof.
  intros (scheme & param & Ht & _ & _ & Hd). apply b64_decode_length in Hd.
  pose proof (TrimSpace_length header) as H1. pose proof (TrimSpace_length param) as H2.
  rewrite Ht, !length_app in H1. unfold blen. lia.
Qed.

Lemma SplitN_blank header : SplitN header b#" " 2 = match Cut header [x20] with Some (a, b) => [a; b] | None => [header] end.
Proof. unfold SplitN. change (2 - 1)%nat with 1%nat. cbn [split_cuts]. change b#" " with [x20]. by destruct (Cut _ _) as [[]|]. Qed.

(** C23: the authentication of the client's HTTP proxy, on every header: without
    configured credentials all are accepted; with them a header is accepted if and only
    if it is of the Basic scheme and its payload decodes to the configured
    [username:password].  So an empty or blank header, another scheme, text that is not
    base64 and any other payload are refused, and what a standard client sends for the
    credentials is accepted. *)
Theorem authenticateHTTPProxy_exact header c :
  blen header < 2 ^ 32 → blen (Username c ++ b#":" ++ Password c) < 2 ^ 32 →
  authenticateHTTPProxy header None = true ∧
  (authenticateHTTPProxy header (Some c) = true ↔ basic_header header (Username c ++ b#":" ++ Password c)) ∧
  (TrimSpace header = [] → authenticateHTTPProxy header (Some c) = false) ∧
  authenticateHTTPProxy (b#"Basic " ++ b64_encode (Username c ++ b#":" ++ Password c)) (Some c) = true.
Proof.
  intros Hh Hc. split; [done|]. split; [|split].
  - unfold authenticateHTTPProxy. cbv zeta. rewrite SplitN_blank. split.
    + destruct (bool_decide (TrimSpace header = [])); [done|].
      destruct (Cut (TrimSpace header) [x20]) as [[scheme param]|] eqn:E; [|done]. apply Cut_byte in E as [E Hn].
      destruct (EqualFold scheme b#"Basic") eqn:Ef; [|done]. cbn [negb].
      destruct (b64_decode (TrimSpace param)) as [payload|] eqn:Ed; [|done].
      assert (basic_header header payload) as Hb by (by exists scheme, param).
      intros Heq%ct_equal_iff; [by subst|pose proof (basic_header_length _ _ Hb); lia|done].
    + intros (scheme & param & E & Hn & Ef & Ed). rewrite bool_decide_false by (rewrite E; by destruct scheme).
      rewrite (proj2 (Cut_byte _ _ scheme param) (conj E Hn)), Ef, Ed. cbn [negb]. by apply ct_equal_iff.
  - intros E. unfold authenticateHTTPProxy. by rewrite E.
  - rewrite authenticate_canonical by done. by apply bool_decide_eq_true.
Qed.

Lemma authenticateHTTPProxy_exact_witness :
  authenticateHTTPProxy b#"  bAsIc   YWxpY2U6czNjcmV0 " (Some example_cred) = true ∧
  authenticateHTTPProxy b#"Digest YWxpY2U6czNjcmV0" (Some example_cred) ≠ true ∧
  b64_encode b#"alice:s3cret" = b#"YWxpY2U6czNjcmV0".
Proof.
  split_and!; [| |by vm_compute].
  - apply (proj1 (proj2 (authenticateHTTPProxy_exact b#"  bAsIc   YWxpY2U6czNjcmV0 " example_cred ltac:(by vm_compute) ltac:(by vm_compute)))).
    exists b#"bAsIc", b#"  YWxpY2U6czNjcmV0". split_and!; [by vm_compute| |by vm_compute..].
    by apply (bool_decide_unpack (x20 ∉ b#"bAsIc")).
  - by vm_compute.
Defined.

(** ** A request with early data *)

(** A parser for one fixed request: 5 bytes on the wire. *)
Definition toy_read (s : bytes) : go (http_request * nat) :=
  if HasPrefix s b#"CONN;" then Ok (mkHttpRequest b#"CONNECT" b#"db:5432" [] b#"db" b#"5432", 5%nat)
  else Err ErrUnexpectedEOF.

Definition early_conn : netconn := mkNet (mkRx b#"CONN;hello, world" EOF) (mkTx [] None ErrIO).

Lemma http_handshake_lossless_witness :
  ∃ conn', handleHttpProxyHandshake toy_read 12 early_conn = (Ok (b#"db", 5432), conn') ∧
    rx (nrx conn') = b#"hello, world" ∧ rx_err (nrx conn') = EOF ∧ tx (ntx conn') = [] ++ resp_200.
Proof.
  eexists. split; [reflexivity|].
  apply (http_handshake_lossless toy_read 12 early_conn b#"db" 5432 _
    (mkHttpRequest b#"CONNECT" b#"db:5432" [] b#"db" b#"5432") 5); [done|lia|reflexivity].
Defined.

Lemma http_proxy_drops_early_data_witness :
  ∃ conn', handleHttpProxy toy_read None 12 early_conn = TunnelTo b#"db" 5432 conn' ∧ rx (nrx conn') = b#"world".
Proof.
  eexists. split; [reflexivity|].
  apply (http_proxy_drops_early_data toy_read None 12 early_conn b#"db" 5432). reflexivity.
Defined.
