(* ===== verification/ProxyProto.v ===== *)
(** HAProxy PROXY protocol headers: pkg/tunnel/proxyproto.go.  The headers are
    checked against an independent decoder of the version 2 wire format and
    against the size limit of version 1. *)

From S2P Require Import Prelude GoStrings GoNet GoIO.

(** ** The code *)

Definition v2Signature : bytes := [x0d; x0a; x0d; x0a; x00; x0d; x0a; x51; x55; x49; x54; x0a].

(** A [net.Addr]: the nil interface, the two pointer types the code switches on
    (the pointer and its [IP] may be nil) and any other type through its
    [String] method. *)
Record ipaddr := mkAddr { Addr_IP : option bytes; Addr_Port : Z }.
Inductive net_addr :=
  | NilAddr
  | TCPAddr (v : option ipaddr)
  | UDPAddr (v : option ipaddr)
  | OtherAddr (s : bytes).

Definition parseIPPort (addr : net_addr) : option (bytes * Z) :=
  match addr with
  | NilAddr => None
  | TCPAddr v | UDPAddr v =>
      v ← v; ip ← Addr_IP v; Some (ip, u16 (Addr_Port v))
  | OtherAddr s =>
      '(host, portStr) ← SplitHostPort s;
      ip ← ParseIP host;
      match ParseUint portStr 16 with
      | (port, None) => Some (ip, u16 port)
      | (_, Some _) => None
      end
  end.

Definition unknown_line : bytes := b#"PROXY UNKNOWN" ++ [x0d; x0a].

(** [fmt.Sprintf("PROXY TCPn %s %s %d %d\r\n", ...)] *)
Definition v1_line (family a b : bytes) (p q : Z) : bytes :=
  b#"PROXY " ++ family ++ b#" " ++ a ++ b#" " ++ b ++ b#" " ++ fmt_d p ++ b#" " ++ fmt_d q ++ [x0d; x0a].

Definition WriteProxyHeaderV1 (src dst : net_addr) : io txside unit :=
  match parseIPPort src, parseIPPort dst with
  | Some (srcIP, srcPort), Some (dstIP, dstPort) =>
      Write (match To4 srcIP, To4 dstIP with
             | Some src4, Some dst4 => v1_line b#"TCP4" (IP_String src4) (IP_String dst4) srcPort dstPort
             | None, None => v1_line b#"TCP6" (IP_String srcIP) (IP_String dstIP) srcPort dstPort
             | _, _ => unknown_line
             end)
  | _, _ => Write unknown_line
  end.

(** [copy(buf[lo:hi], src)] *)
Definition copy_to (lo hi : nat) (src buf : bytes) : bytes :=
  take lo buf ++ take (hi - lo) src ++ drop (lo + length (take (hi - lo) src)) buf.

(** The 16-byte header for an unknown source. *)
Definition v2_local : bytes :=
  let buf := replicate 16 x00 in
  let buf := copy_to 0 12 v2Signature buf in
  let buf := <[12%nat := x20]> buf in
  let buf := <[13%nat := x00]> buf in
  copy_to 14 16 (be_encode 2 0) buf.

Definition v2_inet (src4 dst4 : bytes) (srcPort dstPort : Z) : bytes :=
  let buf := replicate 28 x00 in
  let buf := copy_to 0 12 v2Signature buf in
  let buf := <[12%nat := x21]> buf in
  let buf := <[13%nat := x11]> buf in
  let buf := copy_to 14 16 (be_encode 2 12) buf in
  let buf := copy_to 16 20 src4 buf in
  let buf := copy_to 20 24 dst4 buf in
  let buf := copy_to 24 26 (be_encode 2 srcPort) buf in
  copy_to 26 28 (be_encode 2 dstPort) buf.

Definition v2_inet6 (src6 dst6 : bytes) (srcPort dstPort : Z) : bytes :=
  let buf := replicate 52 x00 in
  let buf := copy_to 0 12 v2Signature buf in
  let buf := <[12%nat := x21]> buf in
  let buf := <[13%nat := x21]> buf in
  let buf := copy_to 14 16 (be_encode 2 36) buf in
  let buf := copy_to 16 32 src6 buf in
  let buf := copy_to 32 48 dst6 buf in
  let buf := copy_to 48 50 (be_encode 2 srcPort) buf in
  copy_to 50 52 (be_encode 2 dstPort) buf.

Definition WriteProxyHeaderV2 (src dst : net_addr) : io txside unit :=
  match parseIPPort src, parseIPPort dst with
  | Some (srcIP, srcPort), Some (dstIP, dstPort) =>
      match To4 srcIP, To4 dstIP with
      | Some src4, Some dst4 => Write (v2_inet src4 dst4 srcPort dstPort)
      | _, _ =>
          match To16 srcIP, To16 dstIP with
          | Some src6, Some dst6 => Write (v2_inet6 src6 dst6 srcPort dstPort)
          | _, _ => Write v2_local
          end
      end
  | _, _ => Write v2_local
  end.

(** ** The receiver's side (PROXY protocol specification, section 2.2) *)

Inductive proxy_info :=
  | Local
  | Stream4 (src dst : bytes) (sport dport : Z)
  | Stream6 (src dst : bytes) (sport dport : Z).

(** Signature, version and command, family, payload length, payload; the rest
    of the input belongs to the proxied stream. *)
Definition decode_v2 (s : bytes) : option (proxy_info * bytes) :=
  if negb (HasPrefix s v2Signature) || (length s <? 16)%nat then None
  else
    let vercmd := b2z (nth 12 s x00) in
    let fam := b2z (nth 13 s x00) in
    let len := Z.to_nat (be_decode (slice 14 16 s)) in
    if (length s <? 16 + len)%nat then None
    else
      let p := slice 16 (16 + len) s in
      let rest := drop (16 + len) s in
      if negb (vercmd / 16 =? 2) then None
      else if vercmd mod 16 =? 0 then Some (Local, rest)
      else if negb (vercmd mod 16 =? 1) then None
      else if (fam =? 17) && (len =? 12)%nat then
        Some (Stream4 (slice 0 4 p) (slice 4 8 p) (be_decode (slice 8 10 p)) (be_decode (slice 10 12 p)), rest)
      else if (fam =? 33) && (len =? 36)%nat then
        Some (Stream6 (slice 0 16 p) (slice 16 32 p) (be_decode (slice 32 34 p)) (be_decode (slice 34 36 p)), rest)
      else None.

(** What the two endpoints are: IPv4 when both are, otherwise IPv6 with an IPv4
    endpoint mapped, and nothing when one of them is not an IP endpoint. *)
Definition endpoints (src dst : net_addr) : proxy_info :=
  match parseIPPort src, parseIPPort dst with
  | Some (a, p), Some (b, q) =>
      match To4 a, To4 b, To16 a, To16 b with
      | Some a4, Some b4, _, _ => Stream4 a4 b4 p q
      | _, _, Some a6, Some b6 => Stream6 a6 b6 p q
      | _, _, _, _ => Local
      end
  | _, _ => Local
  end.

(** ** Proofs *)

Lemma parseIPPort_port addr ip p : parseIPPort addr = Some (ip, p) → is_u16 p.
Proof.
  unfold parseIPPort. destruct addr as [|v|v|s]; [done|..].
  - destruct v as [[ip' port]|]; simpl; [|done]. destruct ip'; simpl; [|done]. intros [= <- <-]. auto with go.
  - destruct v as [[ip' port]|]; simpl; [|done]. destruct ip'; simpl; [|done]. intros [= <- <-]. auto with go.
  - destruct (SplitHostPort s) as [[host portStr]|]; simpl; [|done].
    destruct (ParseIP host); simpl; [|done]. destruct (ParseUint portStr 16) as [port []]; [done|].
    intros [= <- <-]. auto with go.
Qed.

(** What an address parses to, without the parser: the fields of a TCP or UDP address, the
    address and port that a host:port text is made of, and nothing for a nil address, one
    without an IP, or a host that is not an IP address. *)
Lemma parseIPPort_spec ip host port : is_u16 port →
  parseIPPort (TCPAddr (Some (mkAddr (Some ip) port))) = Some (ip, port) ∧
  parseIPPort (UDPAddr (Some (mkAddr (Some ip) port))) = Some (ip, port) ∧
  (x5b ∉ host → x5d ∉ host → parseIPPort (OtherAddr (JoinHostPort host (fmt_d port))) = (λ ip, (ip, port)) <$> ParseIP host) ∧
  parseIPPort NilAddr = None ∧
  parseIPPort (TCPAddr None) = None ∧ parseIPPort (TCPAddr (Some (mkAddr None port))) = None ∧
  parseIPPort (UDPAddr None) = None ∧ parseIPPort (UDPAddr (Some (mkAddr None port))) = None.
Proof.
  intros Hp. unfold parseIPPort. cbn [mbind option_bind Addr_IP Addr_Port]. rewrite u16_id by done. split_and!; try done.
  intros H1 H2. unfold is_u16 in Hp. rewrite SplitHostPort_JoinHostPort by (done || (apply dec_digits_no; [done|lia])).
  cbn [mbind option_bind]. rewrite ParseUint_fmt_d by lia. rewrite u16_id by done. by destruct (ParseIP host).
Qed.

Example parseIPPort_text :
  parseIPPort (OtherAddr b#"198.51.100.4:5060") = Some (IPv4 xc6 x33 x64 x04, 5060) ∧
  parseIPPort (OtherAddr b#"[2001:db8::1]:443") =
    Some ([x20; x01; x0d; xb8; x00; x00; x00; x00; x00; x00; x00; x00; x00; x00; x00; x01], 443) ∧
  parseIPPort (OtherAddr b#"example.com:80") = None ∧ parseIPPort (OtherAddr b#"10.0.0.7:65536") = None ∧
  parseIPPort (OtherAddr b#"10.0.0.7") = None.
Proof. vm_compute. done. Qed.

(** The fields of the two buffers lie one after the other. *)
Lemma v2_inet_layout a b p q : length a = 4%nat → length b = 4%nat →
  v2_inet a b p q = v2Signature ++ [x21; x11; x00; x0c] ++ a ++ b ++ be_encode 2 p ++ be_encode 2 q.
Proof.
  intros Ha Hb. do 5 (destruct a as [|? a]; try done). by do 5 (destruct b as [|? b]; try done).
Qed.

Lemma v2_inet6_layout a b p q : length a = 16%nat → length b = 16%nat →
  v2_inet6 a b p q = v2Signature ++ [x21; x21; x00; x24] ++ a ++ b ++ be_encode 2 p ++ be_encode 2 q.
Proof.
  intros Ha Hb. do 17 (destruct a as [|? a]; try done). by do 17 (destruct b as [|? b]; try done).
Qed.

Lemma decode_port p : is_u16 p → be_decode (be_encode 2 p) = p.
Proof. intros. rewrite be_decode_encode. by apply Z.mod_small. Qed.

Lemma decode_v2_inet a b p q rest : length a = 4%nat → length b = 4%nat → is_u16 p → is_u16 q →
  decode_v2 (v2_inet a b p q ++ rest) = Some (Stream4 a b p q, rest).
Proof.
  intros Ha Hb Hp Hq. rewrite v2_inet_layout by done.
  rewrite <-(decode_port p Hp) at 2. rewrite <-(decode_port q Hq) at 2.
  do 5 (destruct a as [|? a]; try done). do 5 (destruct b as [|? b]; try done).
Qed.

Lemma decode_v2_inet6 a b p q rest : length a = 16%nat → length b = 16%nat → is_u16 p → is_u16 q →
  decode_v2 (v2_inet6 a b p q ++ rest) = Some (Stream6 a b p q, rest).
Proof.
  intros Ha Hb Hp Hq. rewrite v2_inet6_layout by done.
  rewrite <-(decode_port p Hp) at 2. rewrite <-(decode_port q Hq) at 2.
  do 17 (destruct a as [|? a]; try done). do 17 (destruct b as [|? b]; try done).
Qed.

Lemma decode_v2_local rest : decode_v2 (v2_local ++ rest) = Some (Local, rest).
Proof. done. Qed.

Lemma endpoints_spec src dst : ∃ hdr,
  (∀ w, WriteProxyHeaderV2 src dst w = Write hdr w) ∧
  ∀ rest, decode_v2 (hdr ++ rest) = Some (endpoints src dst, rest).
Proof.
  unfold WriteProxyHeaderV2, endpoints.
  destruct (parseIPPort src) as [[a p]|] eqn:Ea; [|by exists v2_local].
  destruct (parseIPPort dst) as [[b q]|] eqn:Eb; [|by exists v2_local].
  apply parseIPPort_port in Ea, Eb.
  destruct (To4 a) as [a4|] eqn:Ea4, (To4 b) as [b4|] eqn:Eb4.
  { eexists. split; [done|]. intros. apply decode_v2_inet; eauto using To4_length. }
  all: destruct (To16 a) as [a6|] eqn:Ea6, (To16 b) as [b6|] eqn:Eb6; try by exists v2_local.
  all: eexists; split; [done|]; intros; apply decode_v2_inet6; eauto using To16_length.
Qed.

(** C34: a PROXY v2 header round-trips: whatever the two addresses are, the bytes
    written decode, by the wire format of the specification, to exactly the two
    endpoints (IPv4 when both are IPv4, IPv4-mapped IPv6 for a mixed pair, LOCAL
    when an address has no IP), and the stream that follows is untouched. *)
Theorem proxy_v2_roundtrip src dst rest w : quota w = None →
  ∃ hdr, WriteProxyHeaderV2 src dst w = (Ok (), mkTx (tx w ++ hdr) None (tx_err w)) ∧
         decode_v2 (hdr ++ rest) = Some (endpoints src dst, rest).
Proof.
  intros Hq. destruct (endpoints_spec src dst) as (hdr & Hw & Hd). exists hdr.
  rewrite Hw, Hd. unfold Write. by rewrite conn_write_none.
Qed.

Lemma proxy_v2_roundtrip_witness :
  ∃ hdr, WriteProxyHeaderV2 (TCPAddr (Some (mkAddr (Some (IPv4 xc0 xa8 x01 x02)) 51234)))
                            (OtherAddr b#"[2001:db8::1]:443") (mkTx [] None ErrIO) = (Ok (), mkTx ([] ++ hdr) None ErrIO) ∧
         decode_v2 (hdr ++ b#"GET") =
           Some (endpoints (TCPAddr (Some (mkAddr (Some (IPv4 xc0 xa8 x01 x02)) 51234)))
                           (OtherAddr b#"[2001:db8::1]:443"), b#"GET").
Proof. by apply (proxy_v2_roundtrip _ _ b#"GET" (mkTx [] None ErrIO)). Defined.

Example endpoints_mixed :
  endpoints (TCPAddr (Some (mkAddr (Some (IPv4 xc0 xa8 x01 x02)) 51234))) (OtherAddr b#"[2001:db8::1]:443") =
    Stream6 (IPv4 xc0 xa8 x01 x02)
      ([x20; x01; x0d; xb8] ++ replicate 11 x00 ++ [x01]) 51234 443.
Proof. reflexivity. Qed.

(** ** The text header is one well-delimited line within the size limit *)

(** Neither a blank nor a line terminator. *)
Definition graphic (c : byte) : Prop := 32 < b2z c.

Lemma graphic_add k z : 33 ≤ k → 0 ≤ z < 256 - k → graphic (z2b (k + z)).
Proof. intros. unfold graphic. rewrite b2z_z2b, Z.mod_small; lia. Qed.

Lemma fmt_d_graphic z : 0 ≤ z → Forall graphic (fmt_d z).
Proof.
  unfold fmt_d. generalize (S (Z.to_nat (Z.log2 z))) as n. intros n. revert z.
  induction n as [|n IH]; intros z Hz; cbn [dec_digits]; [constructor|].
  destruct (Z.ltb_spec z 10).
  - repeat constructor. apply graphic_add; lia.
  - apply Forall_app. split; [apply IH; apply Z.div_pos; lia|].
    repeat constructor. pose proof (Z.mod_pos_bound z 10). apply graphic_add; lia.
Qed.

Lemma dec_digits_length n k z : 0 ≤ z < 10 ^ Z.of_nat (S k) → (length (dec_digits n z) ≤ S k)%nat.
Proof.
  revert k z. induction n as [|n IH]; intros k z Hz; cbn [dec_digits length]; [lia|].
  destruct (Z.ltb_spec z 10) as [|Hge]; [simpl; lia|]. rewrite length_app. cbn [length].
  destruct k as [|k]; [change (10 ^ Z.of_nat 1) with 10 in Hz; lia|].
  enough (length (dec_digits n (z / 10)) ≤ S k)%nat by lia. apply IH.
  rewrite (Nat2Z.inj_succ (S k)), Z.pow_succ_r in Hz by lia.
  split; [apply Z.div_pos; lia|]. apply Z.div_lt_upper_bound; lia.
Qed.

Lemma fmt_d_u16_length z : is_u16 z → (length (fmt_d z) ≤ 5)%nat.
Proof. intros [??]. apply dec_digits_length. change (10 ^ Z.of_nat 5) with 100000. lia. Qed.

Lemma fmt_d_byte_length b : (length (fmt_d (b2z b)) ≤ 3)%nat.
Proof. apply dec_digits_length. pose proof (b2z_range b). change (10 ^ Z.of_nat 3) with 1000. lia. Qed.

Lemma hex_digit_graphic z : 0 ≤ z < 16 → graphic (hex_digit z).
Proof. intros. unfold hex_digit. case_match; apply graphic_add; lia. Qed.

Lemma fmt_x16_graphic z : is_u16 z → Forall graphic (fmt_x16 z).
Proof.
  intros [? Hz]. unfold fmt_x16. change (2 ^ 16) with 65536 in Hz.
  assert (z / 4096 < 16) by (apply Z.div_lt_upper_bound; lia).
  pose proof (Z.div_pos z 4096).
  pose proof (Z.mod_pos_bound (z / 256) 16). pose proof (Z.mod_pos_bound (z / 16) 16).
  pose proof (Z.mod_pos_bound z 16).
  repeat (apply Forall_app; split); repeat case_match; repeat constructor; apply hex_digit_graphic; lia.
Qed.

Lemma fmt_x16_length z : (length (fmt_x16 z) ≤ 4)%nat.
Proof. unfold fmt_x16. rewrite !length_app. repeat case_match; simpl; lia. Qed.

Lemma join_graphic sep l : Forall graphic sep → Forall (Forall graphic) l → Forall graphic (join sep l).
Proof.
  intros Hs. induction l as [|x [|y l] IH]; intros Hl; inversion Hl; subst; [done|done|].
  change (join sep (x :: y :: l)) with (x ++ sep ++ join sep (y :: l)).
  apply Forall_app; split; [done|]. apply Forall_app; split; [done|]. by apply IH.
Qed.

Lemma join_length (c : byte) m l : Forall (λ x, (length x ≤ m)%nat) l →
  (length (join [c] l) ≤ S m * length l - 1)%nat.
Proof.
  induction l as [|x [|y l] IH]; intros Hl; inversion Hl as [|?? Hx Hr]; subst;
    [simpl; lia|cbn [length join]; lia|].
  change (join [c] (x :: y :: l)) with (x ++ [c] ++ join [c] (y :: l)).
  rewrite !length_app. specialize (IH Hr). cbn [length] in *. lia.
Qed.

Lemma groups6_u16 ip : length ip = 16%nat → Forall is_u16 (groups6 ip) ∧ length (groups6 ip) = 8%nat.
Proof.
  intros H. do 17 (destruct ip as [|? ip]; try done). split; [|done]. unfold groups6. cbn [seq fmap list_fmap].
  repeat constructor; match goal with |- context [be_decode ?l] => pose proof (be_decode_bound l) as Hb end;
    change (256 ^ _) with 65536 in Hb; change (2 ^ 16) with 65536; tauto.
Qed.

Lemma zero_run_length l : (zero_run l ≤ length l)%nat.
Proof. induction l as [|[] l IH]; simpl; lia. Qed.

(** The run of zeros [string6] elides has at least two groups of the address. *)
Lemma longest_zeros_range gs i l : longest_zeros gs = Some (i, l) → (2 ≤ l ∧ i + l ≤ length gs)%nat.
Proof.
  unfold longest_zeros. set (step := λ (best : option (nat * nat)) i, _).
  assert (∀ ks best, (∀ i l, best = Some (i, l) → (2 ≤ l ∧ i + l ≤ length gs)%nat) →
    fold_left step ks best = Some (i, l) → (2 ≤ l ∧ i + l ≤ length gs)%nat) as H; [|by apply H].
  induction ks as [|k ks IH]; intros best Hb; cbn [fold_left]; [apply Hb|]. apply IH. unfold step.
  destruct (_ && _) eqn:E; [|done]. apply andb_true_iff in E as [E%Nat.leb_le _]. intros ? ? [= <- <-].
  pose proof (zero_run_length (drop k gs)). rewrite length_drop in *. lia.
Qed.

Lemma string6_line ip : length ip = 16%nat → Forall graphic (string6 ip) ∧ (length (string6 ip) ≤ 39)%nat.
Proof.
  intros [Hg Hn]%groups6_u16. unfold string6. cbv zeta.
  assert (Forall (Forall graphic) (fmt_x16 <$> groups6 ip)) as Hgg.
  { apply Forall_fmap. eapply Forall_impl; [|exact Hg]. intros. by apply fmt_x16_graphic. }
  assert (∀ l, Forall (λ x, length x ≤ 4)%nat (fmt_x16 <$> l)) as H4.
  { intros. apply Forall_fmap, list.Forall_forall. intros. apply fmt_x16_length. }
  destruct (longest_zeros _) as [[i l]|] eqn:E.
  - apply longest_zeros_range in E. split.
    + rewrite fmap_take, fmap_drop.
      repeat (apply Forall_app; split); try apply join_graphic; repeat constructor; auto using Forall_take, Forall_drop.
    + rewrite !length_app. pose proof (join_length x3a 4 _ (H4 (take i (groups6 ip)))) as Ha.
      pose proof (join_length x3a 4 _ (H4 (drop (i + l) (groups6 ip)))) as Hb.
      rewrite length_fmap, length_take, Hn in Ha. rewrite length_fmap, length_drop, Hn in Hb.
      cbn [String.list_byte_of_string length] in *. change b#":" with [x3a]. change (length b#"::") with 2%nat. rewrite Hn in E. lia.
  - split; [apply join_graphic; [by repeat constructor|done]|].
    pose proof (join_length x3a 4 _ (H4 (groups6 ip))) as Ha. rewrite length_fmap, Hn in Ha. exact Ha.
Qed.

Lemma string4_line ip : length ip = 4%nat → Forall graphic (string4 ip) ∧ (length (string4 ip) ≤ 15)%nat.
Proof.
  intros H. unfold string4. split.
  - apply join_graphic; [repeat constructor|]. apply Forall_fmap, list.Forall_forall. intros b _.
    apply fmt_d_graphic, b2z_range.
  - assert (Forall (λ x, length x ≤ 3)%nat ((λ b, fmt_d (b2z b)) <$> ip)) as Hl.
    { apply Forall_fmap, list.Forall_forall. intros b _. apply fmt_d_byte_length. }
    apply (join_length x2e) in Hl. rewrite length_fmap, H in Hl. exact Hl.
Qed.

Lemma IP_String_line ip : length ip = 4%nat ∨ length ip = 16%nat →
  Forall graphic (IP_String ip) ∧ (length (IP_String ip) ≤ 39)%nat.
Proof.
  intros H. unfold IP_String. rewrite bool_decide_false by (intros ->; naive_solver).
  rewrite (proj2 (andb_false_iff _ _)) by (destruct H; [left|right]; by rewrite bool_decide_true).
  destruct (To4 ip) as [p4|] eqn:E.
  - apply To4_length, string4_line in E as [? ?]. split; [done|lia].
  - apply string6_line. unfold To4 in E. case_bool_decide; [done|]. tauto.
Qed.

(** The fields of the line a receiver splits at blanks. *)
Definition v1_fields (src dst : net_addr) : list bytes :=
  match parseIPPort src, parseIPPort dst with
  | Some (a, p), Some (b, q) =>
      match To4 a, To4 b with
      | Some a4, Some b4 => [b#"PROXY"; b#"TCP4"; IP_String a4; IP_String b4; fmt_d p; fmt_d q]
      | None, None => [b#"PROXY"; b#"TCP6"; IP_String a; IP_String b; fmt_d p; fmt_d q]
      | _, _ => [b#"PROXY"; b#"UNKNOWN"]
      end
  | _, _ => [b#"PROXY"; b#"UNKNOWN"]
  end.

(** The IP of a socket address has 4 or 16 bytes. *)
Definition addr_wf (addr : net_addr) : Prop :=
  ∀ ip p, parseIPPort addr = Some (ip, p) → length ip = 4%nat ∨ length ip = 16%nat.

Lemma v1_line_ok fam a b p q :
  fam = b#"TCP4" ∨ fam = b#"TCP6" →
  (length a = 4%nat ∨ length a = 16%nat) → (length b = 4%nat ∨ length b = 16%nat) → is_u16 p → is_u16 q →
  v1_line fam (IP_String a) (IP_String b) p q =
    join b#" " [b#"PROXY"; fam; IP_String a; IP_String b; fmt_d p; fmt_d q] ++ [x0d; x0a] ∧
  Forall (Forall graphic) [b#"PROXY"; fam; IP_String a; IP_String b; fmt_d p; fmt_d q] ∧
  (length (v1_line fam (IP_String a) (IP_String b) p q) ≤ 107)%nat.
Proof.
  intros Hf [Ga La]%IP_String_line [Gb Lb]%IP_String_line Hp Hq.
  pose proof (fmt_d_u16_length p Hp). pose proof (fmt_d_u16_length q Hq). split_and!.
  - unfold v1_line. cbn [join]. by rewrite <-!(assoc_L (++)).
  - destruct Hp, Hq. repeat match goal with |- Forall _ (_ :: _) => constructor end; auto using fmt_d_graphic.
    + by repeat constructor.
    + destruct Hf as [-> | ->]; by repeat constructor.
  - unfold v1_line. rewrite !length_app. assert (length fam = 4%nat) by (destruct Hf as [-> | ->]; done).
    change (length b#"PROXY ") with 6%nat. change (length b#" ") with 1%nat. cbn [length]. lia.
Qed.

(** A PROXY v1 header is one line: the fields of the endpoints separated by
    single blanks and ended by CR LF, with no blank, CR or LF inside a field, and
    never longer than the 107 bytes a receiver must be able to buffer. *)
Theorem proxy_v1_wellformed src dst w :
  addr_wf src → addr_wf dst → quota w = None →
  ∃ line, WriteProxyHeaderV1 src dst w = (Ok (), mkTx (tx w ++ line) None (tx_err w)) ∧
    line = join b#" " (v1_fields src dst) ++ [x0d; x0a] ∧
    Forall (Forall graphic) (v1_fields src dst) ∧ (length line ≤ 107)%nat.
Proof.
  intros Hs Hd Hq. unfold WriteProxyHeaderV1, v1_fields, Write.
  assert (∀ p, conn_write p w = (length p, None, mkTx (tx w ++ p) None (tx_err w))) as Hw
    by (intros; by apply conn_write_none).
  destruct (parseIPPort src) as [[a p]|] eqn:Ea, (parseIPPort dst) as [[b q]|] eqn:Eb; rewrite ?Hw;
    [|exists unknown_line; split_and!; [done|done|repeat constructor|simpl; lia]..].
  pose proof (Hs _ _ Ea). pose proof (Hd _ _ Eb). apply parseIPPort_port in Ea, Eb.
  destruct (To4 a) as [a4|] eqn:Ea4, (To4 b) as [b4|] eqn:Eb4;
    [|exists unknown_line; split_and!; [done|done|repeat constructor|simpl; lia]..|];
    eexists; (split; [reflexivity|]); apply v1_line_ok; eauto using To4_length.
Qed.

Lemma proxy_v1_wellformed_witness :
  ∃ line, WriteProxyHeaderV1 (TCPAddr (Some (mkAddr (Some (IPv4 xc0 xa8 x01 x02)) 51234)))
                             (TCPAddr (Some (mkAddr (Some (IPv4 x0a x00 x00 x07)) 443))) (mkTx [] None ErrIO) =
            (Ok (), mkTx ([] ++ line) None ErrIO) ∧
    line = join b#" " [b#"PROXY"; b#"TCP4"; b#"192.168.1.2"; b#"10.0.0.7"; b#"51234"; b#"443"] ++ [x0d; x0a] ∧
    Forall (Forall graphic) [b#"PROXY"; b#"TCP4"; b#"192.168.1.2"; b#"10.0.0.7"; b#"51234"; b#"443"] ∧
    (length line ≤ 107)%nat.
Proof.
  apply (proxy_v1_wellformed (TCPAddr (Some (mkAddr (Some (IPv4 xc0 xa8 x01 x02)) 51234)))
    (TCPAddr (Some (mkAddr (Some (IPv4 x0a x00 x00 x07)) 443))) (mkTx [] None ErrIO));
    [intros ? ? [= <- <-]; by right..|done].
Defined.
