(* ===== verification/Cmsg.v ===== *)
(** Ancillary data of a transparent UDP socket: internal/socket/cmsg.go.  The
    parser is checked against an encoder of the kernel's control message
    layout (linux/socket.h: a 64-bit length, two 32-bit tags, the data, padding
    to eight bytes). *)

From S2P Require Import Prelude GoNet.

Definition cmsgIpOrigDstAddr : Z := 20.
Definition cmsgIpv6OrigDstAddr : Z := 80.
Definition protoIP : Z := 0.
Definition protoIPv6 : Z := 41.

(** [l[lo:hi]] with its run-time check. *)
Definition slice_go (lo hi : Z) (l : bytes) : go bytes :=
  if (0 <=? lo) && (lo <=? hi) && (hi <=? blen l) then Ok (slice (Z.to_nat lo) (Z.to_nat hi) l) else Panic.

Definition not_found : error := Errorf b#"original destination address control message not found" [].

(** [(cmsgLen + 7) &^ 7] on uint64 *)
Definition align8 (n : Z) : Z := Z.ldiff (u64 (n + 7)) 7.

(** The loop body: a result, or the rest to go on with. *)
Definition cmsg_body (oob : bytes) : go (bytes * Z + bytes) :=
  h ← slice_go 0 8 oob;
  let cmsgLen := le_decode h in
  if (cmsgLen <? 16) || (blen oob <? cmsgLen) then Err not_found
  else
    l ← slice_go 8 12 oob;
    let level := i32 (le_decode l) in
    t ← slice_go 12 16 oob;
    let typ := i32 (le_decode t) in
    data ← slice_go 16 cmsgLen oob;
    if (level =? protoIP) && (typ =? cmsgIpOrigDstAddr) && (8 <=? blen data) then
      p ← slice_go 2 4 data;
      a ← slice_go 4 8 data;
      Ok (inl (IP_String (IPv4 (nth 0 a x00) (nth 1 a x00) (nth 2 a x00) (nth 3 a x00)), be_decode p))
    else if (level =? protoIPv6) && (typ =? cmsgIpv6OrigDstAddr) && (24 <=? blen data) then
      p ← slice_go 2 4 data;
      ip ← slice_go 8 24 data;
      Ok (inl (IP_String ip, be_decode p))
    else
      let next := align8 cmsgLen in
      if blen oob <? next then Err not_found
      else rest ← slice_go next (blen oob) oob; Ok (inr rest).

(** [for len(oob) >= 16 { ... }].  A round drops at least 16 bytes, so the length
    is enough fuel; running out of it would be a [Panic]. *)
Fixpoint cmsg_loop (n : nat) (oob : bytes) : go (bytes * Z) :=
  if blen oob <? 16 then Err not_found
  else match n with
       | O => Panic
       | S n' => r ← cmsg_body oob;
                 match r with
                 | inl res => Ok res
                 | inr oob' => cmsg_loop n' oob'
                 end
       end.

Definition ParseOrigDstAddr (oob : bytes) : go (bytes * Z) := cmsg_loop (length oob) oob.

(** ** The kernel's layout *)

Fixpoint le_encode (n : nat) (z : Z) : bytes :=
  match n with
  | O => []
  | S n' => z2b z :: le_encode n' (z / 256)
  end.

Record cmsg := mkCmsg { cmsg_level : Z; cmsg_type : Z; cmsg_data : bytes }.

Definition cmsg_pad (n : Z) : bytes := replicate (Z.to_nat ((- n) mod 8)) x00.

Definition cmsg_encode (m : cmsg) : bytes :=
  le_encode 8 (16 + blen (cmsg_data m)) ++ le_encode 4 (cmsg_level m) ++ le_encode 4 (cmsg_type m) ++
  cmsg_data m ++ cmsg_pad (blen (cmsg_data m)).

Definition cmsg_wf (m : cmsg) : Prop :=
  0 ≤ cmsg_level m < 2 ^ 31 ∧ 0 ≤ cmsg_type m < 2 ^ 31 ∧ blen (cmsg_data m) < 2 ^ 31.

(** A control message other than the two the parser looks for. *)
Definition cmsg_other (m : cmsg) : Prop :=
  (cmsg_level m, cmsg_type m) ≠ (protoIP, cmsgIpOrigDstAddr) ∧
  (cmsg_level m, cmsg_type m) ≠ (protoIPv6, cmsgIpv6OrigDstAddr).

(** [struct sockaddr_in] and [struct sockaddr_in6] *)
Definition orig_dst4 (port : Z) (a b c d : byte) : cmsg :=
  mkCmsg protoIP cmsgIpOrigDstAddr ([x02; x00] ++ be_encode 2 port ++ [a; b; c; d] ++ replicate 8 x00).

(** The tag the kernel puts on an IPv6 original destination (linux/in6.h); it is the
    number of the option by which socket_linux.go asks for it, and not
    [cmsgIpv6OrigDstAddr]. *)
Definition IPV6_ORIGDSTADDR : Z := 74.
Definition orig_dst6_as (tag port : Z) (flow ip scope : bytes) : cmsg :=
  mkCmsg protoIPv6 tag ([x0a; x00] ++ be_encode 2 port ++ flow ++ ip ++ scope).
Definition orig_dst6 : Z → bytes → bytes → bytes → cmsg := orig_dst6_as IPV6_ORIGDSTADDR.

(** ** Proofs *)

Lemma le_decode_encode n z : 0 ≤ z < 256 ^ Z.of_nat n → le_decode (le_encode n z) = z.
Proof.
  revert z. induction n as [|n IH]; intros z Hz; cbn [le_encode le_decode].
  - change (256 ^ Z.of_nat 0) with 1 in Hz. lia.
  - rewrite Nat2Z.inj_succ, Z.pow_succ_r in Hz by lia. rewrite b2z_z2b, IH.
    + pose proof (Z.div_mod z 256). lia.
    + split; [apply Z.div_pos; lia|]. apply Z.div_lt_upper_bound; lia.
Qed.

Lemma le_decode_bound l : 0 ≤ le_decode l < 256 ^ blen l.
Proof.
  induction l as [|b l IH]; cbn [le_decode]; [unfold blen; simpl; lia|].
  rewrite blen_cons, Z.pow_add_r by (auto with go; lia). pose proof (b2z_range b). lia.
Qed.

Lemma length_le_encode n z : length (le_encode n z) = n.
Proof. revert z. induction n; intros; simpl; congruence. Qed.

Lemma blen_le_encode n z : blen (le_encode n z) = Z.of_nat n.
Proof. unfold blen. by rewrite length_le_encode. Qed.

Lemma blen_cmsg_pad n : blen (cmsg_pad n) = (- n) mod 8.
Proof.
  unfold cmsg_pad, blen. rewrite length_replicate. pose proof (Z.mod_pos_bound (- n) 8). lia.
Qed.

Lemma slice_go_ok lo hi l : 0 ≤ lo → lo ≤ hi → hi ≤ blen l →
  ∃ r, slice_go lo hi l = Ok r ∧ blen r = hi - lo.
Proof.
  intros. unfold slice_go. rewrite !(proj2 (Z.leb_le _ _)) by lia. eexists. split; [done|].
  unfold slice, blen in *. rewrite length_take, length_drop. lia.
Qed.

(** The slice between a prefix and a suffix. *)
Lemma slice_go_app lo hi (a b c : bytes) : lo = blen a → hi = blen a + blen b →
  slice_go lo hi (a ++ b ++ c) = Ok b.
Proof.
  intros -> ->. pose proof (blen_nonneg a). pose proof (blen_nonneg b). pose proof (blen_nonneg c).
  unfold slice_go. rewrite !blen_app, !(proj2 (Z.leb_le _ _)) by lia. cbn [andb]. f_equal.
  unfold slice, blen. rewrite Nat2Z.id, drop_app_length.
  replace (Z.to_nat _ - _)%nat with (length b) by lia. apply take_app_length.
Qed.

Lemma slice_go_head hi (b c : bytes) : hi = blen b → slice_go 0 hi (b ++ c) = Ok b.
Proof. intros ->. by apply (slice_go_app _ _ []). Qed.

Lemma slice_go_tail lo hi (a b : bytes) : lo = blen a → hi = blen a + blen b →
  slice_go lo hi (a ++ b) = Ok b.
Proof. intros ? ?. rewrite <-(app_nil_r b) at 1. by apply slice_go_app. Qed.

Lemma align8_range n : 0 ≤ n < 2 ^ 63 → align8 n = n + (- n) mod 8.
Proof.
  intros Hn. unfold align8, u64. rewrite Z.mod_small by lia.
  change 7 with (Z.ones 3) at 2. rewrite Z.ldiff_ones_r, Z.shiftl_mul_pow2, Z.shiftr_div_pow2 by lia.
  change (2 ^ 3) with 8. pose proof (Z.div_mod (n + 7) 8). pose proof (Z.div_mod (- n) 8).
  pose proof (Z.mod_pos_bound (n + 7) 8). pose proof (Z.mod_pos_bound (- n) 8). lia.
Qed.

(** A round ends the search or drops at least 16 bytes; it never slices out of
    range.  (A slice is shorter than 2^63 bytes.) *)
Lemma cmsg_body_total oob : 16 ≤ blen oob < 2 ^ 63 →
  match cmsg_body oob with
  | Ok (inl _) | Err _ => True
  | Ok (inr oob') => blen oob' ≤ blen oob - 16
  | Panic => False
  end.
Proof.
  intros H. unfold cmsg_body.
  destruct (slice_go_ok 0 8 oob) as (h & -> & Hh); [lia..|]. cbn [mbind go_bind].
  destruct (_ || _) eqn:Eg; [done|]. bool_to_prop.
  destruct (slice_go_ok 8 12 oob) as (l & -> & _); [lia..|]. cbn [mbind go_bind].
  destruct (slice_go_ok 12 16 oob) as (t & -> & _); [lia..|]. cbn [mbind go_bind].
  destruct (slice_go_ok 16 (le_decode h) oob) as (data & -> & _); [lia..|]. cbn [mbind go_bind].
  destruct (_ && _ && (8 <=? _)) eqn:E4; [|destruct (_ && _ && (24 <=? _)) eqn:E6]; bool_to_prop.
  - destruct (slice_go_ok 2 4 data) as (p & -> & _); [lia..|]. cbn [mbind go_bind].
    by destruct (slice_go_ok 4 8 data) as (a & -> & _); [lia..|].
  - destruct (slice_go_ok 2 4 data) as (p & -> & _); [lia..|]. cbn [mbind go_bind].
    by destruct (slice_go_ok 8 24 data) as (a & -> & _); [lia..|].
  - destruct (_ <? align8 _) eqn:En; [done|]. bool_to_prop.
    rewrite align8_range in * by lia. pose proof (Z.mod_pos_bound (- le_decode h) 8).
    destruct (slice_go_ok (le_decode h + (- le_decode h) mod 8) (blen oob) oob) as (r & -> & Hr); [lia..|].
    simpl. lia.
Qed.

Lemma cmsg_loop_total n oob : (length oob ≤ n)%nat → blen oob < 2 ^ 63 → cmsg_loop n oob ≠ Panic.
Proof.
  revert oob. induction n as [|n IH]; intros oob Hn Hl; cbn [cmsg_loop];
    (destruct (Z.ltb_spec (blen oob) 16); [done|]); [unfold blen in *; lia|].
  pose proof (cmsg_body_total oob ltac:(lia)) as Hb.
  destruct (cmsg_body oob) as [[r|oob']| |]; [done| |done..].
  apply IH; unfold blen in *; lia.
Qed.

(** More fuel than the length changes nothing. *)
Lemma cmsg_loop_fuel n m oob : (length oob ≤ n)%nat → (length oob ≤ m)%nat → blen oob < 2 ^ 63 →
  cmsg_loop n oob = cmsg_loop m oob.
Proof.
  revert m oob. induction n as [|n IH]; intros m oob Hn Hm Hl; destruct m as [|m]; cbn [cmsg_loop]; try done;
    (destruct (Z.ltb_spec (blen oob) 16); [done|]); [unfold blen in *; lia..|].
  pose proof (cmsg_body_total oob ltac:(lia)) as Hb.
  destruct (cmsg_body oob) as [[r|oob']| |]; [done| |done..]. cbn [mbind go_bind].
  apply IH; unfold blen in *; lia.
Qed.

(** One round on an encoded message. *)
Lemma cmsg_body_encode m rest : cmsg_wf m → blen (cmsg_encode m ++ rest) < 2 ^ 63 →
  cmsg_body (cmsg_encode m ++ rest) =
    (let data := cmsg_data m in
     if (cmsg_level m =? protoIP) && (cmsg_type m =? cmsgIpOrigDstAddr) && (8 <=? blen data) then
       p ← slice_go 2 4 data; a ← slice_go 4 8 data;
       Ok (inl (IP_String (IPv4 (nth 0 a x00) (nth 1 a x00) (nth 2 a x00) (nth 3 a x00)), be_decode p))
     else if (cmsg_level m =? protoIPv6) && (cmsg_type m =? cmsgIpv6OrigDstAddr) && (24 <=? blen data) then
       p ← slice_go 2 4 data; ip ← slice_go 8 24 data; Ok (inl (IP_String ip, be_decode p))
     else Ok (inr rest)).
Proof.
  intros (Hl & Ht & Hd) Hb. destruct m as [lv ty data]. cbn [cmsg_level cmsg_type cmsg_data] in *.
  unfold cmsg_encode in *. cbn [cmsg_level cmsg_type cmsg_data] in *. rewrite <-!(assoc_L (++)) in *.
  pose proof (blen_nonneg data). pose proof (blen_nonneg rest). set (len := le_encode 8 (16 + blen data)) in *.
  set (l4 := le_encode 4 lv) in *. set (t4 := le_encode 4 ty) in *. set (pad := cmsg_pad (blen data)) in *.
  assert (blen len = 8) as H8 by apply blen_le_encode.
  assert (blen l4 = 4) as Hl4 by apply blen_le_encode.
  assert (blen t4 = 4) as Ht4 by apply blen_le_encode.
  pose proof (Z.mod_pos_bound (- blen data) 8 ltac:(lia)) as Hm.
  assert (blen pad = (- blen data) mod 8) as Hp by apply blen_cmsg_pad.
  assert (blen (len ++ l4 ++ t4 ++ data ++ pad ++ rest) = 16 + blen data + (- blen data) mod 8 + blen rest) as Hlen
    by (rewrite !blen_app; lia).
  unfold cmsg_body. rewrite (slice_go_head 8 len) by done. cbn [mbind go_bind].
  assert (le_decode len = 16 + blen data) as -> by (apply le_decode_encode; change (256 ^ Z.of_nat 8) with (2 ^ 64); lia).
  rewrite Hlen. rewrite (proj2 (Z.ltb_ge _ 16)), (proj2 (Z.ltb_ge _ (16 + blen data))) by lia. cbn [orb].
  rewrite (slice_go_app 8 12 len l4) by lia. cbn [mbind go_bind].
  rewrite (assoc_L (++) len), (slice_go_app 12 16 (len ++ l4) t4) by (rewrite blen_app; lia). cbn [mbind go_bind].
  rewrite (assoc_L (++) (len ++ l4)), (slice_go_app 16 (16 + blen data) ((len ++ l4) ++ t4) data)
    by (rewrite !blen_app; lia). cbn [mbind go_bind].
  assert (i32 (le_decode l4) = lv) as ->.
  { unfold l4, i32. rewrite le_decode_encode, Z.mod_small by (try change (256 ^ Z.of_nat 4) with (2 ^ 32); lia). lia. }
  assert (i32 (le_decode t4) = ty) as ->.
  { unfold t4, i32. rewrite le_decode_encode, Z.mod_small by (try change (256 ^ Z.of_nat 4) with (2 ^ 32); lia). lia. }
  do 2 (destruct (_ && _); [done|]).
  rewrite align8_range by lia. replace (- (16 + blen data)) with (- blen data + (-2) * 8) by lia.
  rewrite Z.mod_add by lia. rewrite (proj2 (Z.ltb_ge _ (_ + _))) by lia.
  rewrite (assoc_L (++) _ data), (assoc_L (++) _ pad).
  rewrite slice_go_tail by (rewrite !blen_app; lia). done.
Qed.

Lemma cmsg_loop_step m rest n : cmsg_wf m → blen (cmsg_encode m ++ rest) < 2 ^ 63 →
  (length (cmsg_encode m ++ rest) ≤ n)%nat →
  cmsg_loop n (cmsg_encode m ++ rest) =
    r ← cmsg_body (cmsg_encode m ++ rest);
    match r with inl res => Ok res | inr oob' => cmsg_loop (length oob') oob' end.
Proof.
  intros Hm Hb Hn.
  assert (16 ≤ blen (cmsg_encode m ++ rest)) as H16.
  { unfold cmsg_encode. rewrite !blen_app, !blen_le_encode.
    pose proof (blen_nonneg (cmsg_data m)). pose proof (blen_nonneg rest).
    pose proof (blen_nonneg (cmsg_pad (blen (cmsg_data m)))). lia. }
  destruct n as [|n]; [unfold blen in *; lia|]. cbn [cmsg_loop]. rewrite (proj2 (Z.ltb_ge _ _)) by lia.
  pose proof (cmsg_body_total _ (conj H16 Hb)) as Ht.
  destruct (cmsg_body _) as [[r|oob']| |]; [done| |done..]. cbn [mbind go_bind].
  apply cmsg_loop_fuel; unfold blen in *; lia.
Qed.

(** The messages before the one looked for are skipped. *)
Lemma cmsg_skip pre rest :
  Forall (λ m, cmsg_wf m ∧ cmsg_other m) pre → blen ((pre ≫= cmsg_encode) ++ rest) < 2 ^ 63 →
  ParseOrigDstAddr ((pre ≫= cmsg_encode) ++ rest) = ParseOrigDstAddr rest.
Proof.
  intros H. induction H as [|m pre [Hm [Ho1 Ho2]] _ IH]; cbn [mbind list_bind]; [done|].
  change (list_bind _ _ cmsg_encode pre) with (pre ≫= cmsg_encode). rewrite <-(assoc_L (++)). intros Hb.
  rewrite <-IH by (rewrite blen_app in Hb; pose proof (blen_nonneg (cmsg_encode m)); lia).
  unfold ParseOrigDstAddr. rewrite cmsg_loop_step, cmsg_body_encode by done. cbv zeta.
  rewrite (proj2 (andb_false_iff _ _)) by (left; apply not_true_iff_false; intros ?; bool_to_prop; congruence).
  rewrite (proj2 (andb_false_iff _ _)) by (left; apply not_true_iff_false; intros ?; bool_to_prop; congruence).
  done.
Qed.

(** Parsing the ancillary data of a datagram always terminates with an
    address or the not-found error, for every byte string, and never slices out
    of range, although every length in it is under the sender's control. *)
Theorem ParseOrigDstAddr_total oob : blen oob < 2 ^ 63 → ParseOrigDstAddr oob ≠ Panic.
Proof. intros. by apply cmsg_loop_total. Qed.

Lemma ParseOrigDstAddr_total_witness : ParseOrigDstAddr (replicate 40 xff) ≠ Panic.
Proof. apply ParseOrigDstAddr_total. by vm_compute. Defined.

(** A message that a round turns into a result is found behind any others. *)
Lemma cmsg_find pre rest m res :
  Forall (λ m, cmsg_wf m ∧ cmsg_other m) pre → cmsg_wf m → blen (cmsg_encode m) < 2 ^ 31 →
  blen ((pre ≫= cmsg_encode) ++ rest) < 2 ^ 62 →
  (∀ r, blen (cmsg_encode m ++ r) < 2 ^ 63 → cmsg_body (cmsg_encode m ++ r) = Ok (inl res)) →
  ParseOrigDstAddr ((pre ≫= cmsg_encode) ++ cmsg_encode m ++ rest) = Ok res.
Proof.
  intros Hpre Hm Hlm Hb Hbody. rewrite blen_app in Hb.
  pose proof (blen_nonneg (pre ≫= cmsg_encode)). pose proof (blen_nonneg rest).
  rewrite cmsg_skip by (try rewrite !blen_app; done || lia).
  unfold ParseOrigDstAddr. assert (blen (cmsg_encode m ++ rest) < 2 ^ 63) by (rewrite blen_app; lia).
  by rewrite cmsg_loop_step, Hbody by done.
Qed.

Lemma port_decode port : is_u16 port → be_decode (be_encode 2 port) = port.
Proof. intros. rewrite be_decode_encode. by apply Z.mod_small. Qed.

(** C36: the ancillary data of an IPv4 datagram, laid out as the kernel does, gives back
    its original destination: after any number of other control messages the address
    and its port are returned, whatever follows, and data without such a message gives
    the not-found error. *)
Theorem ParseOrigDstAddr_roundtrip pre rest port a b c d :
  Forall (λ m, cmsg_wf m ∧ cmsg_other m) pre → is_u16 port →
  blen ((pre ≫= cmsg_encode) ++ rest) < 2 ^ 62 →
  ParseOrigDstAddr ((pre ≫= cmsg_encode) ++ cmsg_encode (orig_dst4 port a b c d) ++ rest) =
    Ok (IP_String (IPv4 a b c d), port) ∧
  ParseOrigDstAddr (pre ≫= cmsg_encode) = Err not_found.
Proof.
  intros Hpre Hport Hb. split.
  - rewrite <-(port_decode port Hport) at 2. assert (cmsg_wf (orig_dst4 port a b c d)) by by vm_compute.
    apply cmsg_find; [done..|by vm_compute|done|]. intros r Hr. by rewrite cmsg_body_encode.
  - rewrite blen_app in Hb. pose proof (blen_nonneg (pre ≫= cmsg_encode)). pose proof (blen_nonneg rest).
    rewrite <-(app_nil_r (pre ≫= cmsg_encode)), cmsg_skip by (rewrite ?app_nil_r; done || lia). done.
Qed.

Lemma ParseOrigDstAddr_roundtrip_witness :
  ParseOrigDstAddr (([mkCmsg 1 29 (replicate 13 x07)] ≫= cmsg_encode) ++ cmsg_encode (orig_dst4 5353 x08 x08 x04 x04) ++ b#"tail") =
    Ok (b#"8.8.4.4", 5353) ∧
  ParseOrigDstAddr ([mkCmsg 1 29 (replicate 13 x07)] ≫= cmsg_encode) = Err not_found.
Proof.
  apply (ParseOrigDstAddr_roundtrip [mkCmsg 1 29 (replicate 13 x07)] b#"tail" 5353 x08 x08 x04 x04); [|done|by vm_compute].
  repeat constructor; by vm_compute.
Defined.

(** The branch for IPv6 reads the structure right, under the tag the code expects. *)
Lemma ParseOrigDstAddr_v6_branch pre rest port flow ip scope :
  Forall (λ m, cmsg_wf m ∧ cmsg_other m) pre → is_u16 port →
  length flow = 4%nat → length ip = 16%nat → length scope = 4%nat →
  blen ((pre ≫= cmsg_encode) ++ rest) < 2 ^ 62 →
  ParseOrigDstAddr ((pre ≫= cmsg_encode) ++ cmsg_encode (orig_dst6_as cmsgIpv6OrigDstAddr port flow ip scope) ++ rest) =
    Ok (IP_String ip, port).
Proof.
  intros Hpre Hport Hflow Hip Hscope Hb.
  do 5 (destruct flow as [|? flow]; try done). do 17 (destruct ip as [|? ip]; try done).
  do 5 (destruct scope as [|? scope]; try done).
  rewrite <-(port_decode port Hport) at 2. match goal with |- context [cmsg_encode (orig_dst6_as ?t ?p ?f ?i ?s)] =>
    assert (cmsg_wf (orig_dst6_as t p f i s)) by by vm_compute end.
  apply cmsg_find; [done..|by vm_compute|done|]. intros r Hr. by rewrite cmsg_body_encode.
Qed.

(** The original destination of an IPv6 datagram is never found: the kernel tags it
    with 74 and the parser looks for 80, so the message is skipped like any other, and
    a datagram that carries only it gives the not-found error. *)
Theorem orig_dst_v6_unrecognised pre rest port flow ip scope :
  Forall (λ m, cmsg_wf m ∧ cmsg_other m) pre →
  length flow = 4%nat → length ip = 16%nat → length scope = 4%nat →
  blen ((pre ≫= cmsg_encode) ++ rest) < 2 ^ 62 →
  ParseOrigDstAddr ((pre ≫= cmsg_encode) ++ cmsg_encode (orig_dst6 port flow ip scope) ++ rest) = ParseOrigDstAddr rest ∧
  ParseOrigDstAddr (cmsg_encode (orig_dst6 port flow ip scope)) = Err not_found.
Proof.
  intros Hpre Hflow Hip Hscope Hb. rewrite blen_app in Hb.
  pose proof (blen_nonneg (pre ≫= cmsg_encode)). pose proof (blen_nonneg rest).
  do 5 (destruct flow as [|? flow]; try done). do 17 (destruct ip as [|? ip]; try done).
  do 5 (destruct scope as [|? scope]; try done).
  match goal with |- context [cmsg_encode (orig_dst6 ?p ?f ?i ?s)] => set (m := orig_dst6 p f i s) end.
  assert (cmsg_wf m ∧ cmsg_other m) as Hm by (by vm_compute).
  assert (blen (cmsg_encode m) < 2 ^ 31) by by vm_compute.
  assert (∀ r, [m] ≫= cmsg_encode = cmsg_encode m ∧ (pre ≫= cmsg_encode) ++ cmsg_encode m ++ r = ((pre ++ [m]) ≫= cmsg_encode) ++ r) as E.
  { intros r. rewrite bind_app. cbn [mbind list_bind]. by rewrite app_nil_r, <-(assoc_L (++)). }
  split.
  - rewrite (proj2 (E rest)). apply cmsg_skip; [apply Forall_app; by split; [|constructor]|].
    rewrite <-(proj2 (E rest)), !blen_app. lia.
  - rewrite <-(proj1 (E [])), <-(app_nil_r ([m] ≫= cmsg_encode)). rewrite cmsg_skip; [done|by constructor|].
    rewrite (proj1 (E [])), app_nil_r. lia.
Qed.

Lemma orig_dst_v6_unrecognised_witness :
  ParseOrigDstAddr (cmsg_encode (orig_dst6 5353 (replicate 4 x00) (replicate 15 x00 ++ [x01]) (replicate 4 x00))) = Err not_found.
Proof.
  apply (orig_dst_v6_unrecognised [] [] 5353 (replicate 4 x00) (replicate 15 x00 ++ [x01]) (replicate 4 x00)); try reflexivity.
  constructor.
Defined.
