(* ===== verification/OrigDst.v ===== *)
(** internal/socket/tproxy_linux.go: the original destination of a redirected TCP
    connection, read from the socket as the bytes of a C structure.

    The two [getsockopt] calls are parameters: the buffer after the call and the length
    it reports, or nothing when the call fails.  The buffers are those of the code, 16
    and 28 bytes. *)

From S2P Require Import Prelude GoStrings GoNet.

Definition soOriginalDst : Z := 80.
Definition ip6tSoOriginalDst : Z := 80.

(** [addrToHostPort]; [sscanf] reads the leading number of the port text. *)
Definition addrToHostPort (sscanf : bytes → Z) (addr : option bytes) : go (bytes * Z) :=
  match addr with
  | None => Err (Errorf b#"nil address" [])
  | Some a =>
      match SplitHostPort a with
      | None => Err (Errorf b#"address error" [])
      | Some (host, portStr) => Ok (host, sscanf portStr)
      end
  end.

(** What a connection answers: whether it is a TCP connection with a usable descriptor,
    the options of the socket, and its local address. *)
Record redirected := mkRedirected {
  is_TCPConn : bool;
  SyscallConn : bool;
  Control : bool;
  getsockopt4 : option (bytes * Z);
  getsockopt6 : option (bytes * Z);
  LocalAddr : option bytes
}.

(** The function passed to [rawConn.Control]: address and port, if one is found. *)
Definition control (r : redirected) : option (bytes * Z) :=
  match getsockopt4 r with
  | Some (addr, addrLen) =>
      if 8 <=? addrLen then
        Some (IPv4 (nth 4 addr x00) (nth 5 addr x00) (nth 6 addr x00) (nth 7 addr x00), be_decode (slice 2 4 addr))
      else
        match getsockopt6 r with
        | Some (addr6, addrLen6) => if 24 <=? addrLen6 then Some (slice 8 24 addr6, be_decode (slice 2 4 addr6)) else None
        | None => None
        end
  | None =>
      match getsockopt6 r with
      | Some (addr6, addrLen6) => if 24 <=? addrLen6 then Some (slice 8 24 addr6, be_decode (slice 2 4 addr6)) else None
      | None => None
      end
  end.

Definition GetOriginalDst (sscanf : bytes → Z) (r : redirected) : go (bytes * Z) :=
  if negb (is_TCPConn r) || negb (SyscallConn r) then addrToHostPort sscanf (LocalAddr r)
  else
    match (if Control r then control r else None) with
    | Some (origIP, origPort) =>
        if negb (origPort =? 0) then Ok (IP_String origIP, origPort) else addrToHostPort sscanf (LocalAddr r)
    | None => addrToHostPort sscanf (LocalAddr r)
    end.

(** tproxy_others.go, for systems other than Linux. *)
Definition GetOriginalDst_others (sscanf : bytes → Z) (conn : option (option bytes)) : go (bytes * Z) :=
  match conn with
  | None => Err (Errorf b#"nil conn" [])
  | Some local => addrToHostPort sscanf local
  end.

(** Where the kernel does not answer, both are the same. *)
Lemma GetOriginalDst_unanswered sscanf r :
  getsockopt4 r = None → getsockopt6 r = None → GetOriginalDst sscanf r = GetOriginalDst_others sscanf (Some (LocalAddr r)).
Proof. intros H4 H6. unfold GetOriginalDst, control. rewrite H4, H6. by destruct (_ || _), (Control r). Qed.

(** ** The structures the kernel writes *)

Definition sockaddr_in (port : Z) (a b c d : byte) : bytes := [x02; x00] ++ be_encode 2 port ++ [a; b; c; d] ++ replicate 8 x00.
Definition sockaddr_in6 (port : Z) (flow ip scope : bytes) : bytes := [x0a; x00] ++ be_encode 2 port ++ flow ++ ip ++ scope.

(** ** Properties *)

(** The original destination of a redirected connection is recovered: when the
    kernel answers for IPv4, the address and port of its structure; when it answers only
    for IPv6, those; and when it does not answer, or answers with port 0, or the
    connection is not a TCP connection, the connection's local address. *)
Theorem GetOriginalDst_recovers sscanf port a b c d flow ip scope opt6 local control_ok :
  is_u16 port → port ≠ 0 → length flow = 4%nat → length ip = 16%nat → length scope = 4%nat →
  GetOriginalDst sscanf (mkRedirected true true true (Some (sockaddr_in port a b c d, 16)) opt6 local) =
    Ok (IP_String (IPv4 a b c d), port) ∧
  GetOriginalDst sscanf (mkRedirected true true true None (Some (sockaddr_in6 port flow ip scope, 28)) local) =
    Ok (IP_String ip, port) ∧
  GetOriginalDst sscanf (mkRedirected true true control_ok None None local) = addrToHostPort sscanf local ∧
  GetOriginalDst sscanf (mkRedirected true true true (Some (sockaddr_in 0 a b c d, 16)) opt6 local) = addrToHostPort sscanf local ∧
  ∀ sc ctl o4 o6, GetOriginalDst sscanf (mkRedirected false sc ctl o4 o6 local) = addrToHostPort sscanf local.
Proof.
  intros Hp H0 Hf Hi Hs.
  assert (be_decode (be_encode 2 port) = port) as Hd.
  { rewrite be_decode_encode. change (256 ^ Z.of_nat 2) with (2 ^ 16). by apply Z.mod_small. }
  assert (length (be_encode 2 port) = 2%nat) as Hl by apply length_be_encode.
  apply Z.eqb_neq in H0.
  destruct (be_encode 2 port) as [|x [|y [|]]] eqn:Ep; try done.
  unfold GetOriginalDst, control, sockaddr_in, sockaddr_in6. cbn [is_TCPConn SyscallConn Control getsockopt4 getsockopt6 LocalAddr negb orb].
  split_and!; [| |by destruct control_ok|done|done].
  - rewrite Ep. change (8 <=? 16) with true. cbv iota.
    change (slice 2 4 ([x02; x00] ++ [x; y] ++ [a; b; c; d] ++ replicate 8 x00)) with [x; y]. rewrite Hd, H0. done.
  - rewrite Ep. change (24 <=? 28) with true. cbv iota.
    destruct flow as [|f1 [|f2 [|f3 [|f4 [|]]]]]; try done.
    change (slice 2 4 ([x0a; x00] ++ [x; y] ++ [f1; f2; f3; f4] ++ ip ++ scope)) with [x; y]. rewrite Hd, H0. cbn [negb]. f_equal. f_equal. f_equal.
    unfold slice. change (drop 8 ([x0a; x00] ++ [x; y] ++ [f1; f2; f3; f4] ++ ip ++ scope)) with (ip ++ scope).
    by rewrite take_app_length' by lia.
Qed.

Lemma GetOriginalDst_recovers_witness :
  GetOriginalDst (λ _, 0) (mkRedirected true true true (Some (sockaddr_in 443 x0a x00 x00 x07, 16)) None None) =
    Ok (IP_String (IPv4 x0a x00 x00 x07), 443) ∧
  GetOriginalDst (λ _, 0) (mkRedirected true true true None (Some (sockaddr_in6 443 (replicate 4 x00) (replicate 15 x00 ++ [x01]) (replicate 4 x00), 28)) None) =
    Ok (IP_String (replicate 15 x00 ++ [x01]), 443) ∧
  GetOriginalDst (λ _, 0) (mkRedirected true true true None None None) = addrToHostPort (λ _, 0) None ∧
  GetOriginalDst (λ _, 0) (mkRedirected true true true (Some (sockaddr_in 0 x0a x00 x00 x07, 16)) None None) = addrToHostPort (λ _, 0) None ∧
  ∀ sc ctl o4 o6, GetOriginalDst (λ _, 0) (mkRedirected false sc ctl o4 o6 None) = addrToHostPort (λ _, 0) None.
Proof. apply GetOriginalDst_recovers; [unfold is_u16; lia|lia|done|done|done]. Defined.
