(* ===== verification/IdleTimer.v ===== *)
(** Connections that close after a period of inactivity: pkg/tunnel/idletimer.go.

    The timer of [time.AfterFunc] is the instant it is armed for, or [None] when
    it has fired or been stopped; a fired timer leaves a callback that closes the
    connection at some later moment ([callbacks] counts those).  [last] is the
    time of the last transfer, which the code does not store. *)

From S2P Require Import Prelude.

Definition defaultTimeout : Z := 30 * 10 ^ 9.

Record IdleTimeoutConn := mkIdle {
  timeout : Z;
  timer : option Z;
  closed : bool;
  callbacks : nat;
  inner_closes : nat;
  last : Z;
  clock : Z
}.

Definition NewIdleTimeoutConn (t now : Z) : IdleTimeoutConn :=
  let t := if t <=? 0 then defaultTimeout else t in
  mkIdle t (Some (now + t)) false 0 0 now now.

Definition touch (c : IdleTimeoutConn) : IdleTimeoutConn :=
  if closed c then c
  else mkIdle (timeout c) (Some (clock c + timeout c)) (closed c) (callbacks c) (inner_closes c) (last c) (clock c).

(** [Read] and [Write] after the inner call has transferred [n] bytes. *)
Definition transferred (n : Z) (c : IdleTimeoutConn) : IdleTimeoutConn :=
  if 0 <? n then
    let c := mkIdle (timeout c) (timer c) (closed c) (callbacks c) (inner_closes c) (clock c) (clock c) in touch c
  else c.

Definition Close (c : IdleTimeoutConn) : IdleTimeoutConn :=
  if closed c then c
  else mkIdle (timeout c) None true (callbacks c) (S (inner_closes c)) (last c) (clock c).

(** [IdleTimeoutNetConn]: a connection whose transfers and closing go through the timer. *)
Record IdleTimeoutNetConn := mkIdleNet { it : IdleTimeoutConn }.
Definition NewIdleTimeoutNetConn (t now : Z) : IdleTimeoutNetConn := mkIdleNet (NewIdleTimeoutConn t now).
Definition NetConn_transferred (n : Z) (c : IdleTimeoutNetConn) : IdleTimeoutNetConn := mkIdleNet (transferred n (it c)).
Definition NetConn_Close (c : IdleTimeoutNetConn) : IdleTimeoutNetConn := mkIdleNet (Close (it c)).

(** ** Behaviour over time *)

Inductive event :=
  | Transfer (n : Z)
  | CallClose
  | Fire
  | Callback
  | Elapse (d : Z).

Definition handle (e : event) (c : IdleTimeoutConn) : option IdleTimeoutConn :=
  match e with
  | Transfer n => Some (transferred n c)
  | CallClose => Some (Close c)
  | Fire =>
      t ← timer c;
      if t <=? clock c then
        Some (mkIdle (timeout c) None (closed c) (S (callbacks c)) (inner_closes c) (last c) (clock c))
      else None
  | Callback =>
      match callbacks c with
      | O => None
      | S n => Some (Close (mkIdle (timeout c) (timer c) (closed c) n (inner_closes c) (last c) (clock c)))
      end
  | Elapse d =>
      if 0 <=? d then
        Some (mkIdle (timeout c) (timer c) (closed c) (callbacks c) (inner_closes c) (last c) (clock c + d))
      else None
  end.

Fixpoint history (es : list event) (c : IdleTimeoutConn) : option IdleTimeoutConn :=
  match es with
  | [] => Some c
  | e :: es' => c' ← handle e c; history es' c'
  end.

Record idle_inv (c : IdleTimeoutConn) : Prop := {
  idle_pos : 0 < timeout c;
  idle_once : inner_closes c = if closed c then 1%nat else 0%nat;
  idle_stopped : closed c = true → timer c = None;
  idle_armed : closed c = false → timer c = Some (last c + timeout c) ∨ (timer c = None ∧ callbacks c ≠ 0%nat)
}.

Lemma idle_inv_new t now : idle_inv (NewIdleTimeoutConn t now).
Proof.
  unfold NewIdleTimeoutConn, defaultTimeout. constructor; simpl; try done; [|by left].
  destruct (Z.leb_spec t 0); lia.
Qed.

Lemma idle_inv_Close c : 0 < timeout c → inner_closes c = (if closed c then 1 else 0)%nat →
  (closed c = true → timer c = None) → idle_inv (Close c).
Proof.
  intros Hp Ho Hs. unfold Close. destruct (closed c) eqn:E; constructor; simpl; rewrite ?E, ?Ho; try done; congruence.
Qed.

Lemma idle_inv_handle e c c' : idle_inv c → handle e c = Some c' → idle_inv c'.
Proof.
  intros Hinv H. pose proof Hinv as [Hp Ho Hs Ha]. destruct e as [n| | | |d]; cbn [handle] in H.
  - injection H as <-. unfold transferred. destruct (0 <? n); [|done]. unfold touch. cbn [closed].
    destruct (closed c) eqn:E; constructor; cbn; rewrite ?E, ?Ho; auto; done.
  - injection H as <-. by apply idle_inv_Close.
  - apply bind_Some in H as (t & Ht & H). destruct (t <=? clock c); [|done]. injection H as <-.
    constructor; simpl; try done. by right.
  - destruct (callbacks c) eqn:E; [done|]. injection H as <-. by apply idle_inv_Close.
  - destruct (0 <=? d); [|done]. injection H as <-. by constructor.
Qed.

Lemma idle_inv_history es c c' : idle_inv c → history es c = Some c' → idle_inv c'.
Proof.
  revert c. induction es as [|e es IH]; intros c Hinv H; cbn [history] in H; [by injection H as <-|].
  apply bind_Some in H as (c1 & H1 & H2). eauto using idle_inv_handle.
Qed.

(** An idle-timeout connection, after any history of transfers, closings,
    timer firings and pauses: its period is positive whatever was requested, the
    wrapped connection is closed exactly once if at all, an open connection
    always has its timer armed for the last transfer plus the period or is about
    to be closed, and the timer never fires before a full period without
    transfers has passed. *)
Theorem idle_timeout_correct t now es c : history es (NewIdleTimeoutConn t now) = Some c →
  0 < timeout c ∧ inner_closes c = (if closed c then 1 else 0)%nat ∧
  (closed c = false → timer c = Some (last c + timeout c) ∨ callbacks c ≠ 0%nat) ∧
  (∀ c', handle Fire c = Some c' → last c + timeout c ≤ clock c).
Proof.
  intros H. apply idle_inv_history in H; [|apply idle_inv_new]. destruct H as [Hp Ho Hs Ha]. split_and!; try done.
  - intros [?|[_ ?]]%Ha; auto.
  - intros c' Hf. cbn in Hf. apply bind_Some in Hf as (x & Hx & Hf).
    destruct (Z.leb_spec x (clock c)); [|done]. destruct (closed c) eqn:E; [by rewrite Hs in Hx|].
    destruct (Ha eq_refl) as [Hx'|[Hx' _]]; rewrite Hx in Hx'; [|done]. injection Hx' as ->. lia.
Qed.

(** A requested period that has wrapped around to a negative number, with a
    transfer after 20 seconds: the timer fires 30 seconds after that. *)
Lemma idle_timeout_correct_witness :
  ∃ c, history [Elapse (20 * 10 ^ 9); Transfer 5; Elapse (30 * 10 ^ 9); Fire; Callback; CallClose]
         (NewIdleTimeoutConn (-5) 0) = Some c ∧ closed c = true ∧
    0 < timeout c ∧ inner_closes c = (if closed c then 1 else 0)%nat ∧
    (closed c = false → timer c = Some (last c + timeout c) ∨ callbacks c ≠ 0%nat) ∧
    (∀ c', handle Fire c = Some c' → last c + timeout c ≤ clock c).
Proof.
  eexists. split; [by vm_compute|]. split; [done|].
  apply (idle_timeout_correct (-5) 0 [Elapse (20 * 10 ^ 9); Transfer 5; Elapse (30 * 10 ^ 9); Fire; Callback; CallClose]).
  by vm_compute.
Defined.
