(* ===== verification/UdpSession.v ===== *)
(** pkg/server/reverse_udp.go: the sessions of a reverse UDP listener.

    One goroutine reads datagrams into one buffer and passes each to the session
    of its peer, creating it when there is none; the pipes of the sessions read
    from them and close them.  The steps are the critical sections of the code:
    looking up a session and pushing to it are two steps, and so are closing a
    session and the [onClose] that removes it from the map.

    [sessions] maps the printed peer address to the index of a session in
    [conns].  [arrived], [pushed] and [taken] record what happened: datagrams in
    the order of their arrival, those passed to a session, and those that a
    session's [Read] has taken. *)

From S2P Require Import Prelude GoIO.

Record udpSessionConn := mkUdpSession {
  peer : bytes;
  ch : list bytes;
  ch_closed : bool;
  closed : bool;
  onClose_due : bool;
  taken : list bytes
}.

(** [make(chan []byte, 128)] and [make([]byte, 64*1024)]. *)
Definition chCap : nat := 128.
Definition readBuf : nat := Z.to_nat (64 * 1024).

Record udp_listener := mkUdpListener {
  sessions : gmap bytes nat;
  conns : list udpSessionConn;
  buf : bytes;
  to_push : option (nat * nat);
  handled : list nat;
  listening : bool;
  arrived : list (bytes * bytes);
  pushed : list (nat * bytes)
}.

Definition newUdpSessionConn (p : bytes) : udpSessionConn := mkUdpSession p [] false false false [].

(** ** Operations of a session *)

(** Sending on a closed channel panics. *)
Definition push (data : bytes) (u : udpSessionConn) : go udpSessionConn :=
  if closed u then Ok u
  else if ch_closed u then Panic
  else if (length (ch u) <? chCap)%nat then
    Ok (mkUdpSession (peer u) (ch u ++ [data]) (ch_closed u) (closed u) (onClose_due u) (taken u))
  else Ok u.

(** [Read] into [n] bytes; [None] while it blocks. *)
Definition Read (n : nat) (u : udpSessionConn) : option (go bytes * udpSessionConn) :=
  match ch u with
  | data :: rest =>
      Some (Ok (take n data),
            mkUdpSession (peer u) rest (ch_closed u) (closed u) (onClose_due u) (taken u ++ [data]))
  | [] => if ch_closed u then Some (Err EOF, u) else None
  end.

(** [Close] up to the call of [onClose]; closing a closed channel panics. *)
Definition close_session (u : udpSessionConn) : go udpSessionConn :=
  if closed u then Ok u
  else if ch_closed u then Panic
  else Ok (mkUdpSession (peer u) (ch u) true true true (taken u)).

Definition called_onClose (u : udpSessionConn) : udpSessionConn :=
  mkUdpSession (peer u) (ch u) (ch_closed u) (closed u) false (taken u).

(** ** Operations of the listener *)

Definition set_conns (cs : list udpSessionConn) (σ : udp_listener) : udp_listener :=
  mkUdpListener (sessions σ) cs (buf σ) (to_push σ) (handled σ) (listening σ) (arrived σ) (pushed σ).

(** A datagram has arrived: the session of the peer, or a new one that is handed
    to [handleIncoming]. *)
Definition receive (key d : bytes) (σ : udp_listener) : udp_listener :=
  let n := (length d `min` length (buf σ))%nat in
  match sessions σ !! key with
  | Some s =>
      mkUdpListener (sessions σ) (conns σ) (fill d (buf σ)) (Some (s, n)) (handled σ) (listening σ)
        (arrived σ ++ [(key, take n d)]) (pushed σ)
  | None =>
      let s := length (conns σ) in
      mkUdpListener (<[key := s]> (sessions σ)) (conns σ ++ [newUdpSessionConn key]) (fill d (buf σ)) (Some (s, n))
        (handled σ ++ [s]) (listening σ) (arrived σ ++ [(key, take n d)]) (pushed σ)
  end.

(** [session.push(buf[:n])] *)
Definition push_session (s n : nat) (σ : udp_listener) : go udp_listener :=
  match conns σ !! s with
  | None => Panic
  | Some u =>
      u ← push (take n (buf σ)) u;
      Ok (mkUdpListener (sessions σ) (<[s := u]> (conns σ)) (buf σ) None (handled σ) (listening σ) (arrived σ)
            (pushed σ ++ [(s, take n (buf σ))]))
  end.

(** The closure passed to [newUdpSessionConn]. *)
Definition onClose (s : nat) (u : udpSessionConn) (σ : udp_listener) : udp_listener :=
  mkUdpListener (delete (peer u) (sessions σ)) (<[s := called_onClose u]> (conns σ)) (buf σ) (to_push σ) (handled σ)
    (listening σ) (arrived σ) (pushed σ).

(** ** Steps *)

Inductive udp_action :=
  | Receive (key d : bytes)
  | ReceiveFails
  | PushNext
  | ReadOne (s n : nat)
  | CloseOne (s : nat)
  | RunOnClose (s : nat).

(** [None]: the step cannot be taken now. *)
Definition udp_exec (a : udp_action) (σ : udp_listener) : option (go udp_listener) :=
  match a with
  | Receive key d =>
      match to_push σ with
      | None => if listening σ then Some (Ok (receive key d σ)) else None
      | Some _ => None
      end
  | ReceiveFails =>
      match to_push σ with
      | None => if listening σ then
                  Some (Ok (mkUdpListener (sessions σ) (conns σ) (buf σ) None (handled σ) false (arrived σ) (pushed σ)))
                else None
      | Some _ => None
      end
  | PushNext => '(s, n) ← to_push σ; Some (push_session s n σ)
  | ReadOne s n =>
      u ← conns σ !! s; '(_, u') ← Read n u; Some (Ok (set_conns (<[s := u']> (conns σ)) σ))
  | CloseOne s =>
      u ← conns σ !! s; Some (u' ← close_session u; Ok (set_conns (<[s := u']> (conns σ)) σ))
  | RunOnClose s => u ← conns σ !! s; if onClose_due u then Some (Ok (onClose s u σ)) else None
  end.

(** The start of [runUdpListener]. *)
Definition udp_start : udp_listener := mkUdpListener ∅ [] (replicate readBuf x00) None [] true [] [].

Definition udp_step (σ σ' : udp_listener) : Prop := ∃ a, udp_exec a σ = Some (Ok σ').
Definition udp_reachable : udp_listener → Prop := rtc udp_step udp_start.

Fixpoint udp_runs (acts : list udp_action) (σ : udp_listener) : option (go udp_listener) :=
  match acts with
  | [] => Some (Ok σ)
  | a :: acts' =>
      match udp_exec a σ with
      | Some (Ok σ') => udp_runs acts' σ'
      | r => r
      end
  end.

(** ** Invariant *)

(** A session that is, or is about to be removed from, the map. *)
Definition mapped (u : udpSessionConn) : Prop := closed u = false ∨ onClose_due u = true.

Definition pushed_to (s : nat) (l : list (nat * bytes)) : list bytes := snd <$> filter (λ x, x.1 = s) l.

Record session_ok (σ : udp_listener) (s : nat) (u : udpSessionConn) : Prop := {
  so_chan : ch_closed u = closed u;
  so_due : onClose_due u = true → closed u = true;
  so_cap : (length (ch u) ≤ chCap)%nat;
  so_mapped : mapped u → sessions σ !! peer u = Some s;
  so_order : taken u ++ ch u `sublist_of` pushed_to s (pushed σ)
}.

Definition peer_of (σ : udp_listener) (s : nat) : bytes := default [] (peer <$> conns σ !! s).

Record udp_inv (σ : udp_listener) : Prop := {
  ui_sessions : ∀ s u, conns σ !! s = Some u → session_ok σ s u;
  ui_map : ∀ k s, sessions σ !! k = Some s → ∃ u, conns σ !! s = Some u ∧ peer u = k ∧ mapped u;
  ui_push : ∀ s n, to_push σ = Some (s, n) → is_Some (conns σ !! s);
  ui_pushed : ∀ s d, (s, d) ∈ pushed σ → is_Some (conns σ !! s);
  ui_log : arrived σ = ((λ x, (peer_of σ x.1, x.2)) <$> pushed σ) ++
             match to_push σ with Some (s, n) => [(peer_of σ s, take n (buf σ))] | None => [] end;
  ui_handled : handled σ = seq 0 (length (conns σ))
}.

(** ** Preservation *)

Lemma pushed_to_snoc s s' d l :
  pushed_to s (l ++ [(s', d)]) = pushed_to s l ++ (if decide (s' = s) then [d] else []).
Proof.
  unfold pushed_to. rewrite list.filter_app, fmap_app. f_equal. rewrite filter_cons. cbn. by destruct (decide _).
Qed.

(** Changing one session and the map around it keeps the invariant when the
    session keeps its peer and its new state is right. *)
Lemma udp_inv_update σ s u u' m log q :
  udp_inv σ → conns σ !! s = Some u → peer u' = peer u →
  (∀ k, k ≠ peer u → m !! k = sessions σ !! k) →
  (m !! peer u = Some s ∧ mapped u' ∨ m !! peer u ≠ Some s ∧ (¬ mapped u')) →
  (m !! peer u = sessions σ !! peer u ∨ sessions σ !! peer u = Some s ∧ m !! peer u = None) →
  (∀ t, pushed_to t (pushed σ) `sublist_of` pushed_to t log) →
  ch_closed u' = closed u' → (onClose_due u' = true → closed u' = true) → (length (ch u') ≤ chCap)%nat →
  taken u' ++ ch u' `sublist_of` pushed_to s log →
  (∀ t d, (t, d) ∈ log → is_Some (conns σ !! t)) → (∀ t n, q = Some (t, n) → is_Some (conns σ !! t)) →
  ((λ x, (peer_of σ x.1, x.2)) <$> log) ++ match q with Some (t, n) => [(peer_of σ t, take n (buf σ))] | None => [] end
    = arrived σ →
  udp_inv (mkUdpListener m (<[s := u']> (conns σ)) (buf σ) q (handled σ) (listening σ) (arrived σ) log).
Proof.
  intros [Hs Hm Hp Hpd Hl Hh] Hu Hpe Hk Hsm Hold Hsub Hc Hd Hcap Hord Hlog Hq Harr.
  assert (∀ t, peer_of (mkUdpListener m (<[s := u']> (conns σ)) (buf σ) q (handled σ) (listening σ) (arrived σ) log) t
               = peer_of σ t) as Hpeer.
  { intros t. unfold peer_of. cbn. destruct (decide (t = s)) as [->|Ht]; [|by rewrite list_lookup_insert_ne].
    rewrite list_lookup_insert_eq by by eapply lookup_lt_Some. rewrite Hu. cbn. by rewrite Hpe. }
  assert (∀ t, is_Some (conns σ !! t) → is_Some (<[s := u']> (conns σ) !! t)) as Hdom.
  { intros t Ht. apply lookup_lt_is_Some. rewrite length_insert. by apply lookup_lt_is_Some. }
  constructor; cbn; [| |eauto|eauto| |by rewrite length_insert].
  - intros t v Hv. destruct (decide (t = s)) as [->|Ht].
    + rewrite list_lookup_insert_eq in Hv by by eapply lookup_lt_Some. injection Hv as <-. constructor; cbn; try done.
      rewrite Hpe. intros Hmu. destruct Hsm as [[? _]|[_ ?]]; done.
    + rewrite list_lookup_insert_ne in Hv by done. destruct (Hs t v Hv) as [? ? ? Hmap ?].
      constructor; cbn; try done; [|by etrans]. intros Hmv. specialize (Hmap Hmv).
      destruct (decide (peer v = peer u)) as [E|E]; [|by rewrite Hk].
      rewrite E in Hmap |- *. destruct Hold as [->|[Hold _]]; [done|congruence].
  - intros k t Ht. destruct (decide (k = peer u)) as [->|Hne].
    + destruct (decide (t = s)) as [->|Hts].
      * destruct Hsm as [[Hms Hmu]|[Hms _]]; [|done]. exists u'. rewrite list_lookup_insert_eq by by eapply lookup_lt_Some. done.
      * destruct Hold as [Hold|[_ Hold]]; [|congruence]. rewrite Hold in Ht. destruct (Hm _ t Ht) as (v & Hv & Hkv & Hmv).
        exists v. by rewrite list_lookup_insert_ne.
    + rewrite Hk in Ht by done. destruct (Hm k t Ht) as (v & Hv & Hkv & Hmv).
      exists v. split; [|done]. rewrite list_lookup_insert_ne; [done|]. intros <-. congruence.
  - rewrite <-Harr at 1. symmetry. erewrite list_fmap_ext by (intros i x _; by rewrite Hpeer).
    destruct q as [[t n]|]; [by rewrite Hpeer|done].
Qed.

Lemma mapped_dec u : mapped u ∨ ¬ mapped u.
Proof. unfold mapped. destruct (closed u), (onClose_due u); naive_solver. Qed.

Lemma session_map σ s u : udp_inv σ → conns σ !! s = Some u →
  sessions σ !! peer u = Some s ∧ mapped u ∨ sessions σ !! peer u ≠ Some s ∧ ¬ mapped u.
Proof.
  intros [Hs Hm _ _ _ _] Hu. destruct (mapped_dec u) as [H|H]; [left|right]; (split; [|done]).
  - by apply (so_mapped _ _ _ (Hs s u Hu)).
  - intros E. destruct (Hm _ _ E) as (v & Hv & _ & ?). congruence.
Qed.

(** The state of a session changes in place: the map stays as it is. *)
Lemma udp_inv_session σ s u u' log q :
  udp_inv σ → conns σ !! s = Some u → peer u' = peer u → (mapped u ↔ mapped u') →
  (∀ t, pushed_to t (pushed σ) `sublist_of` pushed_to t log) →
  ch_closed u' = closed u' → (onClose_due u' = true → closed u' = true) → (length (ch u') ≤ chCap)%nat →
  taken u' ++ ch u' `sublist_of` pushed_to s log →
  (∀ t d, (t, d) ∈ log → is_Some (conns σ !! t)) → (∀ t n, q = Some (t, n) → is_Some (conns σ !! t)) →
  ((λ x, (peer_of σ x.1, x.2)) <$> log) ++ match q with Some (t, n) => [(peer_of σ t, take n (buf σ))] | None => [] end
    = arrived σ →
  udp_inv (mkUdpListener (sessions σ) (<[s := u']> (conns σ)) (buf σ) q (handled σ) (listening σ) (arrived σ) log).
Proof.
  intros Hinv Hu Hpe Hmm. pose proof (session_map σ s u Hinv Hu) as Hsm.
  intros. eapply udp_inv_update; eauto. tauto.
Qed.

Lemma peer_of_eq σ s u : conns σ !! s = Some u → peer_of σ s = peer u.
Proof. intros H. unfold peer_of. by rewrite H. Qed.

Lemma udp_inv_receive key d σ : udp_inv σ → to_push σ = None → udp_inv (receive key d σ).
Proof.
  intros [Hs Hm Hp Hpd Hl Hh] Hq. rewrite Hq, app_nil_r in Hl. unfold receive.
  destruct (sessions σ !! key) as [s|] eqn:Ek.
  - destruct (Hm key s Ek) as (u & Hu & Hk & _). constructor; cbn; try done.
    + intros t v Hv. destruct (Hs t v Hv). by constructor.
    + intros t n [= <- <-]. by exists u.
    + rewrite Hl, take_fill. rewrite (peer_of_eq (mkUdpListener _ _ _ _ _ _ _ _) s u Hu), Hk. done.
  - assert (∀ t, is_Some (conns σ !! t) → (conns σ ++ [newUdpSessionConn key]) !! t = conns σ !! t) as Hold.
    { intros t Ht. apply lookup_app_l. by apply lookup_lt_is_Some. }
    constructor; cbn.
    + intros t v Hv. apply lookup_app_Some in Hv as [Hv|[Hle Hv]].
      * destruct (Hs t v Hv) as [? ? ? Hmap ?]. constructor; cbn; try done. intros Hmv. specialize (Hmap Hmv).
        rewrite lookup_insert_ne; [done|]. intros E. rewrite E in Ek. congruence.
      * apply list_lookup_singleton_Some in Hv as [Ht <-]. assert (t = length (conns σ)) as -> by lia.
        constructor; cbn; try done; [unfold chCap; lia|intros _; by rewrite lookup_insert_eq|apply sublist_nil_l].
    + intros k t Ht. apply lookup_insert_Some in Ht as [[<- <-]|[Hne Ht]].
      * exists (newUdpSessionConn key). rewrite list_lookup_middle by done. split_and!; [done..|by left].
      * destruct (Hm k t Ht) as (u & Hu & ?). exists u. by rewrite Hold.
    + intros t n [= <- <-]. rewrite list_lookup_middle by done. by eexists.
    + intros t e He. rewrite Hold by by eapply Hpd. by eapply Hpd.
    + rewrite Hl, take_fill. f_equal.
      * apply list_fmap_ext. intros i [t e] Hx. cbn. unfold peer_of. cbn. rewrite Hold; [done|].
        eapply Hpd. by eapply list_elem_of_lookup_2.
      * unfold peer_of. cbn. by rewrite list_lookup_middle.
    + rewrite Hh, length_app. cbn. by rewrite Nat.add_1_r, seq_S.
Qed.

(** The same invariant without the pushed one in flight. *)
Lemma log_none σ : udp_inv σ → to_push σ = None → ((λ x, (peer_of σ x.1, x.2)) <$> pushed σ) ++ [] = arrived σ.
Proof. intros Hinv Hq. rewrite (ui_log _ Hinv), Hq. done. Qed.

Lemma udp_inv_push s n σ : udp_inv σ → to_push σ = Some (s, n) →
  ∃ σ', push_session s n σ = Ok σ' ∧ udp_inv σ'.
Proof.
  intros Hinv Hq. destruct (ui_push _ Hinv s n Hq) as [u Hu]. unfold push_session. rewrite Hu.
  destruct (ui_sessions _ Hinv s u Hu) as [Hc Hd Hcap Hmap Hord].
  set (d := take n (buf σ)).
  assert (∃ u', push d u = Ok u' ∧ peer u' = peer u ∧ (mapped u ↔ mapped u') ∧ ch_closed u' = closed u' ∧
    (onClose_due u' = true → closed u' = true) ∧ (length (ch u') ≤ chCap)%nat ∧
    taken u' ++ ch u' `sublist_of` pushed_to s (pushed σ) ++ [d]) as (u' & -> & ? & ? & ? & ? & ? & Hord').
  { assert (taken u ++ ch u `sublist_of` pushed_to s (pushed σ) ++ [d]) as Hkeep by by apply sublist_inserts_r.
    unfold push. destruct (closed u) eqn:Ecl; [by exists u; rewrite Ecl|]. rewrite Hc.
    destruct (Nat.ltb_spec (length (ch u)) chCap); [|by exists u; rewrite Ecl]. eexists. split; [reflexivity|].
    unfold mapped. cbn. rewrite Ecl. split_and!; try done.
    - rewrite length_app. cbn. lia.
    - rewrite (assoc_L (++)). by apply sublist_app. }
  cbn [mbind go_bind]. eexists. split; [reflexivity|]. eapply udp_inv_session; try done.
  - intros t. rewrite pushed_to_snoc. by apply sublist_inserts_r.
  - rewrite pushed_to_snoc. by rewrite decide_True.
  - intros t e [He|[[= -> ->]|[]%not_elem_of_nil]%elem_of_cons]%elem_of_app; [by eapply ui_pushed|by exists u].
  - rewrite (ui_log _ Hinv), Hq, app_nil_r, fmap_app. done.
Qed.

Lemma udp_inv_in_place σ s u u' :
  udp_inv σ → conns σ !! s = Some u → peer u' = peer u → (mapped u ↔ mapped u') →
  ch_closed u' = closed u' → (onClose_due u' = true → closed u' = true) → (length (ch u') ≤ chCap)%nat →
  taken u' ++ ch u' `sublist_of` pushed_to s (pushed σ) → udp_inv (set_conns (<[s := u']> (conns σ)) σ).
Proof.
  intros Hinv Hu Hpe Hmm Hc Hd Hcap Hord. unfold set_conns.
  eapply (udp_inv_session σ s u); eauto using ui_push, ui_pushed. by rewrite <-(ui_log _ Hinv).
Qed.

Lemma udp_inv_read σ s n u r u' : udp_inv σ → conns σ !! s = Some u → Read n u = Some (r, u') →
  udp_inv (set_conns (<[s := u']> (conns σ)) σ).
Proof.
  intros Hinv Hu Hr. destruct (ui_sessions _ Hinv s u Hu) as [Hc Hd Hcap Hmap Hord].
  unfold Read in Hr. destruct (ch u) as [|d rest] eqn:Ech; [destruct (ch_closed u) eqn:Ecc; [|done]|]; injection Hr as <- <-.
  - apply (udp_inv_in_place σ s u); rewrite ?Ech, ?Ecc; done.
  - apply (udp_inv_in_place σ s u); cbn in *; try done; [lia|]. by rewrite <-(assoc_L (++)).
Qed.

Lemma udp_inv_close σ s u : udp_inv σ → conns σ !! s = Some u →
  ∃ u', close_session u = Ok u' ∧ udp_inv (set_conns (<[s := u']> (conns σ)) σ).
Proof.
  intros Hinv Hu. destruct (ui_sessions _ Hinv s u Hu) as [Hc Hd Hcap Hmap Hord].
  unfold close_session. rewrite Hc. destruct (closed u) eqn:Ecl; (eexists; split; [reflexivity|]);
    apply (udp_inv_in_place σ s u); rewrite ?Ecl, ?Hc; try done.
  unfold mapped. cbn. rewrite Ecl. naive_solver.
Qed.

Lemma udp_inv_onClose σ s u : udp_inv σ → conns σ !! s = Some u → onClose_due u = true → udp_inv (onClose s u σ).
Proof.
  intros Hinv Hu Hdue. destruct (ui_sessions _ Hinv s u Hu) as [Hc Hd Hcap Hmap Hord]. unfold onClose.
  eapply (udp_inv_update σ s u); eauto using ui_push, ui_pushed; cbn.
  - intros k Hk. by rewrite lookup_delete_ne.
  - right. rewrite lookup_delete_eq. split; [done|]. unfold mapped. cbn. rewrite Hd by done. naive_solver.
  - right. rewrite lookup_delete_eq. split; [|done]. apply Hmap. by right.
  - by rewrite <-(ui_log _ Hinv).
Qed.

Lemma udp_inv_start : udp_inv udp_start.
Proof. constructor; cbn; try done; intros; set_solver. Qed.

(** No step panics, and every step keeps the invariant. *)
Lemma udp_exec_inv a σ r : udp_inv σ → udp_exec a σ = Some r → ∃ σ', r = Ok σ' ∧ udp_inv σ'.
Proof.
  intros Hinv. destruct a as [key d| | |s n|s|s]; cbn [udp_exec].
  - destruct (to_push σ) eqn:Hq; [done|]. destruct (listening σ); [|done]. intros [= <-]. eauto using udp_inv_receive.
  - destruct (to_push σ) eqn:Hq; [done|]. destruct (listening σ); [|done]. intros [= <-]. eexists. split; [done|].
    destruct Hinv as [Hs ? ? ? Hl ?]. rewrite Hq in Hl. constructor; try done.
    intros s u Hu. by destruct (Hs s u Hu).
  - destruct (to_push σ) as [[s n]|] eqn:Hq; [|done]. cbn. intros [= <-]. destruct (udp_inv_push s n σ Hinv Hq) as (σ' & -> & ?).
    eauto.
  - intros (u & Hu & ([x u'] & Hr & [= <-])%bind_Some)%bind_Some. eauto using udp_inv_read.
  - intros (u & Hu & [= <-])%bind_Some. destruct (udp_inv_close σ s u Hinv Hu) as (u' & -> & ?). cbn. eauto.
  - intros (u & Hu & H)%bind_Some. destruct (onClose_due u) eqn:Hdue; [|done]. injection H as <-. eauto using udp_inv_onClose.
Qed.

Lemma udp_reachable_inv σ : udp_reachable σ → udp_inv σ.
Proof.
  revert σ. apply (rtc_ind_r (R:=udp_step) udp_inv udp_start); [apply udp_inv_start|].
  intros σ1 σ2 _ [a Ha] Hinv. by destruct (udp_exec_inv _ _ _ Hinv Ha) as (? & [= ->] & ?).
Qed.

(** ** Properties *)

(** A session never panics: whatever the order in which datagrams arrive and
    the pipes, the idle timer and the handler read and close the session, nothing
    is sent on a closed channel and no channel is closed twice. *)
Theorem udp_never_panics σ a : udp_reachable σ → udp_exec a σ ≠ Some Panic.
Proof. intros Hr%udp_reachable_inv H. by destruct (udp_exec_inv _ _ _ Hr H) as (? & ? & _). Qed.

(** C17: every peer has one session at a time: of two sessions of the same peer at
    most one is still open, a datagram goes to the open one, and [onClose],
    although it deletes by address, always removes the entry of the session that
    was closed and never the one of a successor. *)
Theorem udp_one_session σ s t u v :
  udp_reachable σ → conns σ !! s = Some u → conns σ !! t = Some v → peer u = peer v → closed u = false →
  (s ≠ t → closed v = true ∧ onClose_due v = false) ∧
  (∀ d, to_push (receive (peer u) d σ) = Some (s, (length d `min` length (buf σ))%nat)) ∧
  (∀ w x, conns σ !! w = Some x → onClose_due x = true → sessions σ !! peer x = Some w ∧ w ≠ s ∧
     sessions (onClose w x σ) !! peer u = Some s).
Proof.
  intros Hinv%udp_reachable_inv Hu Hv Hp Ho.
  assert (∀ w x, conns σ !! w = Some x → mapped x → sessions σ !! peer x = Some w) as Hmap
    by (intros w x Hx Hmx; by apply (so_mapped _ _ _ (ui_sessions _ Hinv w x Hx))).
  pose proof (Hmap s u Hu (or_introl Ho)) as Hs. split_and!.
  - intros Hne. destruct (mapped_dec v) as [Hmv|Hmv]; [pose proof (Hmap t v Hv Hmv); congruence|].
    unfold mapped in Hmv. destruct (closed v), (onClose_due v); naive_solver.
  - intros d. unfold receive. by rewrite Hs.
  - intros w x Hx Hd. pose proof (Hmap w x Hx (or_intror Hd)) as Hw.
    assert (closed x = true) as Hc by by apply (so_due _ _ _ (ui_sessions _ Hinv w x Hx)).
    assert (w ≠ s) as Hws by congruence. split; [done|]. split; [done|]. unfold onClose. cbn.
    rewrite lookup_delete_ne; [done|]. intros E. rewrite E in Hw. congruence.
Qed.

(** The datagrams that arrived from an address, in order. *)
Definition from_peer (k : bytes) (l : list (bytes * bytes)) : list bytes := snd <$> filter (λ x, x.1 = k) l.

Lemma pushed_to_from_peer σ s (l : list (nat * bytes)) :
  pushed_to s l `sublist_of` from_peer (peer_of σ s) ((λ x, (peer_of σ x.1, x.2)) <$> l).
Proof.
  unfold pushed_to, from_peer. induction l as [|[t d] l IH]; [done|]. cbn [fmap list_fmap].
  rewrite !filter_cons. cbn [fst snd]. destruct (decide (t = s)) as [->|].
  - rewrite decide_True by done. cbn. by apply sublist_skip.
  - destruct (decide _); [by apply sublist_cons|done].
Qed.

(** A session carries the datagrams of its own peer only, each with its
    bytes and boundaries, none twice and in the order of their arrival: what its
    [Read] has taken and what is queued is a subsequence of the datagrams that
    arrived from the peer, although all datagrams pass through one buffer.  At
    most 128 are queued. *)
Theorem udp_session_order σ s u :
  udp_reachable σ → conns σ !! s = Some u →
  taken u ++ ch u `sublist_of` from_peer (peer u) (arrived σ) ∧ (length (ch u) ≤ 128)%nat.
Proof.
  intros Hinv%udp_reachable_inv Hu. destruct (ui_sessions _ Hinv s u Hu) as [_ _ Hcap _ Hord].
  split; [|exact Hcap]. etrans; [exact Hord|]. etrans; [apply (pushed_to_from_peer σ)|].
  rewrite (peer_of_eq σ s u Hu), (ui_log _ Hinv). unfold from_peer. rewrite list.filter_app, fmap_app.
  by apply sublist_inserts_r.
Qed.

(** A datagram for an open session with room in its queue is not lost: the
    listener's push puts it at the end of the queue, and [Read] with a buffer of
    at least its size returns it whole once those before it have been read. *)
Theorem udp_push_delivers σ s n u :
  udp_reachable σ → to_push σ = Some (s, n) → conns σ !! s = Some u → closed u = false → (length (ch u) < 128)%nat →
  ∃ σ' u', udp_exec PushNext σ = Some (Ok σ') ∧ conns σ' !! s = Some u' ∧ ch u' = ch u ++ [take n (buf σ)] ∧
    (ch u = [] → ∀ k, (n ≤ k)%nat → ∃ u'', Read k u' = Some (Ok (take n (buf σ)), u'')).
Proof.
  intros Hinv%udp_reachable_inv Hq Hu Ho Hroom. destruct (ui_sessions _ Hinv s u Hu) as [Hc _ _ _ _].
  cbn [udp_exec]. rewrite Hq. cbn [mbind option_bind]. unfold push_session. rewrite Hu. unfold push. rewrite Ho, Hc, Ho.
  rewrite (proj2 (Nat.ltb_lt _ _)) by exact Hroom. cbn [mbind go_bind].
  eexists _, _. split; [reflexivity|]. cbn [conns]. split; [apply list_lookup_insert_eq; by eapply lookup_lt_Some|].
  split; [done|]. intros E k Hk. cbn. rewrite E. cbn. rewrite (take_ge (take n _) k); [by eexists|]. rewrite length_take. lia.
Qed.

(** ** Examples *)

Lemma udp_runs_reachable acts σ σ' : udp_reachable σ → udp_runs acts σ = Some (Ok σ') → udp_reachable σ'.
Proof.
  revert σ. induction acts as [|a acts IH]; intros σ Hr; cbn [udp_runs]; [by intros [= <-]|].
  destruct (udp_exec a σ) as [[σ1|e|]|] eqn:E; [|done..]. apply IH. eapply rtc_r; [done|]. by exists a.
Qed.

Definition alice : bytes := b#"192.0.2.1:5000".

(** The first session of a peer is closed and removed, the second one is open. *)
Definition udp_sample : list udp_action :=
  [Receive alice b#"one"; PushNext; CloseOne 0; ReadOne 0 100; RunOnClose 0; Receive alice b#"two"].

Definition udp_sample_ok : bool :=
  match udp_runs udp_sample udp_start with
  | Some (Ok σ) =>
      match conns σ !! 0%nat, conns σ !! 1%nat with
      | Some v, Some u => bool_decide (peer u = peer v) && negb (closed u) && bool_decide (to_push σ = Some (1%nat, 3%nat)) &&
                          bool_decide (ch u = [])
      | _, _ => false
      end
  | _ => false
  end.

Lemma udp_sample_run : ∃ σ u v, udp_reachable σ ∧ conns σ !! 1%nat = Some u ∧ conns σ !! 0%nat = Some v ∧
  peer u = peer v ∧ closed u = false ∧ to_push σ = Some (1%nat, 3%nat) ∧ ch u = [].
Proof.
  assert (udp_sample_ok = true) as H by by vm_compute. unfold udp_sample_ok in H.
  destruct (udp_runs udp_sample udp_start) as [[σ|e|]|] eqn:E; [|done..].
  destruct (conns σ !! 0%nat) as [v|] eqn:Ev; [|done]. destruct (conns σ !! 1%nat) as [u|] eqn:Eu; [|done].
  exists σ, u, v. split; [by eapply udp_runs_reachable; [apply rtc_refl|exact E]|].
  rewrite !andb_true_iff in H. destruct H as [[[H1 H2] H3] H4].
  apply bool_decide_eq_true in H1, H3, H4. apply negb_true_iff in H2. done.
Qed.

Lemma udp_never_panics_witness : udp_exec (CloseOne 0) udp_start ≠ Some Panic.
Proof. apply udp_never_panics. apply rtc_refl. Defined.

Lemma udp_one_session_witness : ∃ σ s t u v,
  conns σ !! s = Some u ∧ conns σ !! t = Some v ∧ s ≠ t ∧
  (s ≠ t → closed v = true ∧ onClose_due v = false) ∧
  (∀ d, to_push (receive (peer u) d σ) = Some (s, (length d `min` length (buf σ))%nat)) ∧
  (∀ w x, conns σ !! w = Some x → onClose_due x = true → sessions σ !! peer x = Some w ∧ w ≠ s ∧
     sessions (onClose w x σ) !! peer u = Some s).
Proof.
  destruct udp_sample_run as (σ & u & v & Hr & Hu & Hv & Hp & Ho & _).
  exists σ, 1%nat, 0%nat, u, v. split; [done|]. split; [done|]. split; [discriminate|].
  exact (udp_one_session σ 1 0 u v Hr Hu Hv Hp Ho).
Defined.

Lemma udp_session_order_witness : ∃ σ u, conns σ !! 1%nat = Some u ∧
  taken u ++ ch u `sublist_of` from_peer (peer u) (arrived σ) ∧ (length (ch u) ≤ 128)%nat.
Proof.
  destruct udp_sample_run as (σ & u & v & Hr & Hu & _). exists σ, u. split; [done|].
  exact (udp_session_order σ 1 u Hr Hu).
Defined.

Lemma udp_push_delivers_witness : ∃ σ u σ' u',
  udp_exec PushNext σ = Some (Ok σ') ∧ conns σ' !! 1%nat = Some u' ∧ ch u' = ch u ++ [take 3 (buf σ)] ∧
    (ch u = [] → ∀ k, (3 ≤ k)%nat → ∃ u'', Read k u' = Some (Ok (take 3 (buf σ)), u'')).
Proof.
  destruct udp_sample_run as (σ & u & v & Hr & Hu & Hv & Hp & Ho & Hq & He). exists σ, u.
  apply (udp_push_delivers σ 1 3 u Hr Hq Hu Ho). rewrite He. cbn. lia.
Defined.

(** The pipes read with a buffer of 32768 bytes, the listener with 65536: the end
    of a larger datagram is lost. *)
Lemma udp_read_truncates u d rest :
  ch u = d :: rest → 32768 < blen d →
  ∃ p u', Read (Z.to_nat 32768) u = Some (Ok p, u') ∧ ch u' = rest ∧ blen p = 32768.
Proof.
  intros H Hl. unfold Read. rewrite H. eexists _, _. split; [reflexivity|]. split; [done|].
  unfold blen in *. rewrite length_take. lia.
Qed.
