(* ===== verification/Pool.v ===== *)
(** pkg/client/pool.go: the pool of idle transport connections, as the program of
    its goroutines: [maintain], calls of [Get] and calls of [Close], each advancing
    by one access to shared state at a time.

    A connection is the number of its dial.  [handed] and [shut] record the
    connections returned to callers and closed by the pool. *)

From S2P Require Import Prelude.

(** ** State *)

Inductive proc :=
  | MSelect
  | MFill
  | MDial
  | MBackoff
  | MSend (c : nat)
  | MEnd
  | GStart
  | GSelect
  | GGot (c : nat)
  | GEmpty
  | GDial
  | GDialed (c : nat)
  | GReturn (r : option nat)
  | CStart
  | CCancel
  | CWait
  | CDrain
  | CEnd.

#[global] Instance proc_eq_dec : EqDecision proc.
Proof. solve_decision. Defined.

Record pool := mkPool {
  minIdle : nat;
  conns : list nat;
  closed : bool;
  cancelled : bool;
  dialled : nat;
  handed : list nat;
  shut : list nat;
  procs : list proc
}.

Definition set_procs (ps : list proc) (σ : pool) : pool :=
  mkPool (minIdle σ) (conns σ) (closed σ) (cancelled σ) (dialled σ) (handed σ) (shut σ) ps.
Definition set_queue (q : list nat) (σ : pool) : pool :=
  mkPool (minIdle σ) q (closed σ) (cancelled σ) (dialled σ) (handed σ) (shut σ) (procs σ).
Definition dialled_one (σ : pool) : pool :=
  mkPool (minIdle σ) (conns σ) (closed σ) (cancelled σ) (S (dialled σ)) (handed σ) (shut σ) (procs σ).
Definition shut_one (c : nat) (σ : pool) : pool :=
  mkPool (minIdle σ) (conns σ) (closed σ) (cancelled σ) (dialled σ) (handed σ) (shut σ ++ [c]) (procs σ).
Definition hand_out (c : nat) (σ : pool) : pool :=
  mkPool (minIdle σ) (conns σ) (closed σ) (cancelled σ) (dialled σ) (handed σ ++ [c]) (shut σ) (procs σ).
Definition set_closed (σ : pool) : pool :=
  mkPool (minIdle σ) (conns σ) true (cancelled σ) (dialled σ) (handed σ) (shut σ) (procs σ).
Definition cancel (σ : pool) : pool :=
  mkPool (minIdle σ) (conns σ) (closed σ) true (dialled σ) (handed σ) (shut σ) (procs σ).

Definition goto (i : nat) (p : proc) (σ : pool) : pool := set_procs (<[i := p]> (procs σ)) σ.

(** [NewConnectionPool] *)
Definition NewConnectionPool (minIdle : nat) : pool :=
  mkPool minIdle [] false false 0 [] [] (if (0 <? minIdle)%nat then [MSelect] else []).

(** ** Steps *)

(** Which ready case a [select] takes, how a dial ends. *)
Inductive choice := Proceed | OnDone | OnTimer | Succeeds | Fails.

Definition full (σ : pool) : bool := (minIdle σ <=? length (conns σ))%nat.

Definition maintain (i : nat) (p : proc) (c : choice) (σ : pool) : option pool :=
  match p, c with
  | MSelect, OnDone => if cancelled σ then Some (goto i MEnd σ) else None
  | MSelect, OnTimer => Some (goto i MFill σ)
  | MFill, Proceed =>
      Some (goto i (if (length (conns σ) <? minIdle σ)%nat then (if cancelled σ then MEnd else MDial) else MSelect) σ)
  | MDial, Succeeds => Some (goto i (MSend (dialled σ)) (dialled_one σ))
  | MDial, Fails => Some (goto i MBackoff σ)
  | MBackoff, OnDone => if cancelled σ then Some (goto i MEnd σ) else None
  | MBackoff, OnTimer => Some (goto i MFill σ)
  | MSend x, OnDone => if cancelled σ then Some (goto i MEnd (shut_one x σ)) else None
  | MSend x, Succeeds => if full σ then None else Some (goto i MFill (set_queue (conns σ ++ [x]) σ))
  | MSend x, Fails => if full σ && negb (cancelled σ) then Some (goto i MFill (shut_one x σ)) else None
  | _, _ => None
  end.

Definition Get (i : nat) (p : proc) (c : choice) (σ : pool) : option pool :=
  match p, c with
  | GStart, Proceed => Some (goto i (if closed σ then GReturn None else GSelect) σ)
  | GSelect, Proceed =>
      match conns σ with
      | x :: q => Some (goto i (GGot x) (set_queue q σ))
      | [] => Some (goto i GEmpty σ)
      end
  | GGot x, Proceed =>
      Some (if closed σ then goto i (GReturn None) (shut_one x σ) else goto i (GReturn (Some x)) (hand_out x σ))
  | GEmpty, Proceed => Some (goto i (if closed σ then GReturn None else GDial) σ)
  | GDial, Succeeds => Some (goto i (GDialed (dialled σ)) (dialled_one σ))
  | GDial, Fails => Some (goto i (GReturn None) σ)
  | GDialed x, Proceed =>
      Some (if closed σ then goto i (GReturn None) (shut_one x σ) else goto i (GReturn (Some x)) (hand_out x σ))
  | _, _ => None
  end.

Definition maintaining (p : proc) : bool :=
  match p with MSelect | MFill | MDial | MBackoff | MSend _ => true | _ => false end.

Definition Close (i : nat) (p : proc) (c : choice) (σ : pool) : option pool :=
  match p, c with
  | CStart, Proceed => Some (goto i CCancel (set_closed σ))
  | CCancel, Proceed => Some (goto i CWait (cancel σ))
  | CWait, Proceed => if existsb maintaining (procs σ) then None else Some (goto i CDrain σ)
  | CDrain, Proceed =>
      match conns σ with
      | x :: q => Some (goto i CDrain (shut_one x (set_queue q σ)))
      | [] => Some (goto i CEnd σ)
      end
  | _, _ => None
  end.

Inductive pool_action :=
  | CallGet
  | CallClose
  | Run (i : nat) (c : choice).

Definition pool_exec (a : pool_action) (σ : pool) : option pool :=
  match a with
  | CallGet => Some (set_procs (procs σ ++ [GStart]) σ)
  | CallClose => Some (set_procs (procs σ ++ [CStart]) σ)
  | Run i c =>
      p ← procs σ !! i;
      match maintain i p c σ, Get i p c σ, Close i p c σ with
      | Some σ', _, _ | None, Some σ', _ | None, None, Some σ' => Some σ'
      | None, None, None => None
      end
  end.

Definition pool_step (σ σ' : pool) : Prop := ∃ a, pool_exec a σ = Some σ'.
Definition pool_reachable (n : nat) : pool → Prop := rtc pool_step (NewConnectionPool n).

Fixpoint pool_runs (acts : list pool_action) (σ : pool) : option pool :=
  match acts with
  | [] => Some σ
  | a :: acts' => σ' ← pool_exec a σ; pool_runs acts' σ'
  end.

(** ** Invariant *)

(** The connection a goroutine has in its hands. *)
Definition held (p : proc) : list nat :=
  match p with MSend c | GGot c | GDialed c => [c] | _ => [] end.

Definition draining (p : proc) : bool := match p with CDrain | CEnd => true | _ => false end.
Definition past_start (p : proc) : bool := match p with CCancel | CWait | CDrain | CEnd => true | _ => false end.
Definition past_cancel (p : proc) : bool := match p with CWait | CDrain | CEnd => true | _ => false end.

Record pool_inv (σ : pool) : Prop := {
  pi_conns : conns σ ++ (procs σ ≫= held) ++ handed σ ++ shut σ ≡ₚ seq 0 (dialled σ);
  pi_cap : (length (conns σ) ≤ minIdle σ)%nat;
  pi_drain : ∀ p q, p ∈ procs σ → q ∈ procs σ → draining p = true → maintaining q = false;
  pi_end : CEnd ∈ procs σ → conns σ = [];
  pi_closed : ∀ p, p ∈ procs σ → past_start p = true → closed σ = true;
  pi_cancelled : ∀ p, p ∈ procs σ → past_cancel p = true → cancelled σ = true;
  pi_returned : ∀ c, GReturn (Some c) ∈ procs σ → c ∈ handed σ
}.

(** ** Preservation *)

Lemma perm_count (l k : list nat) : (∀ x, count_occ Nat.eq_dec l x = count_occ Nat.eq_dec k x) → l ≡ₚ k.
Proof. by rewrite (Permutation_count_occ Nat.eq_dec). Qed.

Lemma count_eq (l k : list nat) x : l ≡ₚ k → count_occ Nat.eq_dec l x = count_occ Nat.eq_dec k x.
Proof. rewrite (Permutation_count_occ Nat.eq_dec). auto. Qed.

Ltac count_perm :=
  apply perm_count; let x := fresh in intros x;
  repeat match goal with H : _ ≡ₚ _ |- _ => apply (count_eq _ _ x) in H end;
  rewrite ?count_occ_app, ?count_occ_nil in *; lia.

Lemma held_insert (l : list proc) i p p' :
  l !! i = Some p → (<[i := p']> l ≫= held) ++ held p ≡ₚ (l ≫= held) ++ held p'.
Proof.
  intros H. rewrite insert_take_drop by by eapply lookup_lt_Some.
  rewrite <-(take_drop_middle l i p H) at 3. rewrite !bind_app. cbn [mbind list_bind]. count_perm.
Qed.

Lemma in_insert (l : list proc) i p' q : q ∈ <[i := p']> l → q = p' ∨ q ∈ l.
Proof.
  intros [j Hj]%list_elem_of_lookup_1. destruct (decide (j = i)) as [->|Hne].
  - apply list_lookup_insert_Some in Hj as [(_ & <- & _)|(? & _)]; [by left|done].
  - rewrite list_lookup_insert_ne in Hj by done. right. by eapply list_elem_of_lookup_2.
Qed.

(** One goroutine moves on and changes the connections: [fresh] are newly dialled. *)
Lemma pool_inv_goto σ σ' i p p' fresh :
  pool_inv σ → procs σ !! i = Some p → procs σ' = <[i := p']> (procs σ) → minIdle σ' = minIdle σ →
  seq 0 (dialled σ') = seq 0 (dialled σ) ++ fresh →
  conns σ ++ held p ++ handed σ ++ shut σ ++ fresh ≡ₚ conns σ' ++ held p' ++ handed σ' ++ shut σ' →
  (length (conns σ') ≤ minIdle σ)%nat →
  (maintaining p' = true → maintaining p = true) →
  (draining p' = true → ∀ q, q ∈ procs σ → maintaining q = false) →
  (maintaining p = false → conns σ = [] → conns σ' = []) → (p' = CEnd → conns σ' = []) →
  (closed σ = true → closed σ' = true) → (past_start p' = true → closed σ' = true) →
  (cancelled σ = true → cancelled σ' = true) → (past_cancel p' = true → cancelled σ' = true) →
  handed σ `prefix_of` handed σ' → (∀ c, p' = GReturn (Some c) → c ∈ handed σ') →
  pool_inv σ'.
Proof.
  intros [Hc Hcap Hdr He Hcl Hcan Hret] Hp Hps Hmin Hseq Hperm Hcap' Hm Hd He1 He2 Hc1 Hc2 Hx1 Hx2 Hh1 Hh2.
  assert (p ∈ procs σ) as Hin by by eapply list_elem_of_lookup_2.
  constructor; rewrite ?Hps, ?Hmin; try done.
  - pose proof (held_insert _ _ _ p' Hp). rewrite Hseq. count_perm.
  - intros a b [->|Ha]%in_insert [->|Hb]%in_insert Hda; eauto.
    + destruct (maintaining p') eqn:E; [|done]. rewrite (Hd Hda p Hin) in Hm. by specialize (Hm eq_refl).
    + destruct (maintaining p') eqn:E; [|done]. rewrite (Hdr a p Ha Hin Hda) in Hm. by specialize (Hm eq_refl).
  - intros [E|Hce]%in_insert; [auto|]. apply He1; [by apply (Hdr CEnd p)|auto].
  - intros q [->|Hq]%in_insert Hs; eauto.
  - intros q [->|Hq]%in_insert Hs; eauto.
  - intros c [E|Hq]%in_insert; [auto|]. destruct Hh1 as [k ->]. apply elem_of_app. left. auto.
Qed.

(** The side conditions of a step: most hold by computation. *)
Ltac pool_side :=
  cbn [goto set_procs set_queue dialled_one shut_one hand_out set_closed cancel
       minIdle conns closed cancelled dialled handed shut procs held] in *;
  try done; try (by rewrite seq_S); try (by rewrite app_nil_r); try (by apply prefix_app_r); try count_perm; try lia;
  try (intros ? [= <-]; apply elem_of_app; right; by left).

(** [pool_goto l]: a step of one goroutine in which [l] is dialled. *)
Ltac pool_goto l :=
  match goal with Hinv : pool_inv ?σ, Hp : procs ?σ !! ?i = Some _ |- _ =>
    eapply (pool_inv_goto σ _ i _ _ l); [exact Hinv|exact Hp|reflexivity|..]; pool_side end.

Lemma maintain_inv i p c σ σ' : pool_inv σ → procs σ !! i = Some p → maintain i p c σ = Some σ' → pool_inv σ'.
Proof.
  intros Hinv Hp H. pose proof (pi_cap _ Hinv).
  destruct p, c; cbn [maintain] in H; try done;
    repeat match type of H with context [if ?b then _ else _] => destruct b eqn:? end; try done; injection H as <-;
    try (pool_goto (@nil nat); fail).
  - pool_goto [dialled σ].
  - pool_goto (@nil nat). unfold full in Heqb. apply Nat.leb_gt in Heqb. rewrite length_app. cbn. lia.
Qed.

Lemma Get_inv i p c σ σ' : pool_inv σ → procs σ !! i = Some p → Get i p c σ = Some σ' → pool_inv σ'.
Proof.
  intros Hinv Hp H. pose proof (pi_cap _ Hinv) as Hcap.
  destruct p, c; cbn [Get] in H; try done;
    repeat match type of H with context [if ?b then _ else _] => destruct b eqn:? end; try done;
    try (injection H as <-; pool_goto (@nil nat); fail).
  - destruct (conns σ) as [|x q] eqn:Eq; injection H as <-; [pool_goto (@nil nat); by rewrite Eq|].
    pool_goto (@nil nat); [|cbn in Hcap; lia|by rewrite Eq].
    rewrite Eq. change (x :: q) with ([x] ++ q). count_perm.
  - injection H as <-. pool_goto [dialled σ].
Qed.

Lemma existsb_none {A} (f : A → bool) l : existsb f l = false → ∀ x, x ∈ l → f x = false.
Proof.
  intros H x Hx. destruct (f x) eqn:E; [|done]. assert (existsb f l = true) as Ht; [|congruence].
  apply existsb_exists. exists x. split; [by apply list_elem_of_In|done].
Qed.

Lemma Close_inv i p c σ σ' : pool_inv σ → procs σ !! i = Some p → Close i p c σ = Some σ' → pool_inv σ'.
Proof.
  intros Hinv Hp H. pose proof (pi_cap _ Hinv) as Hcap.
  assert (p ∈ procs σ) as Hin by by eapply list_elem_of_lookup_2.
  pose proof (pi_closed _ Hinv p Hin) as Hcl. pose proof (pi_cancelled _ Hinv p Hin) as Hca.
  pose proof (λ q Hq, pi_drain _ Hinv p q Hin Hq) as Hdr.
  destruct p, c; cbn [Close] in H; try done.
  - injection H as <-. pool_goto (@nil nat).
  - injection H as <-. pool_goto (@nil nat).
  - destruct (existsb _ _) eqn:Ee; [done|]. injection H as <-. pool_goto (@nil nat).
    intros _. by apply existsb_none.
  - destruct (conns σ) as [|x q] eqn:Eq; injection H as <-.
    + pool_goto (@nil nat); [by rewrite Eq|..]; auto.
    + pool_goto (@nil nat); auto; [|cbn in Hcap; lia|by rewrite Eq].
      rewrite Eq. change (x :: q) with ([x] ++ q). count_perm.
Qed.

Lemma pool_inv_call σ p : pool_inv σ → p = GStart ∨ p = CStart → pool_inv (set_procs (procs σ ++ [p]) σ).
Proof.
  intros [Hc Hcap Hdr He Hcl Hcan Hret] Hp.
  assert (∀ q, q ∈ procs σ ++ [p] → q ∈ procs σ ∨ q = GStart ∨ q = CStart) as Hin.
  { intros q [Hq|Hq]%elem_of_app; [by left|]. apply list_elem_of_singleton in Hq. subst q. by right. }
  constructor; cbn.
  - rewrite bind_app. cbn. rewrite app_nil_r. destruct Hp; subst p; cbn; by rewrite app_nil_r.
  - done.
  - intros a b [Ha|[->| ->]]%Hin [Hb|[->| ->]]%Hin; eauto; done.
  - intros [H|[H|H]]%Hin; [auto|done..].
  - intros q [H|[H|H]]%Hin; subst; eauto; done.
  - intros q [H|[H|H]]%Hin; subst; eauto; done.
  - intros c [H|[H|H]]%Hin; [auto|done..].
Qed.

Lemma pool_exec_inv a σ σ' : pool_inv σ → pool_exec a σ = Some σ' → pool_inv σ'.
Proof.
  intros Hinv. destruct a as [| |i c]; cbn [pool_exec]; [intros [= <-]; by apply pool_inv_call; auto..|].
  intros (p & Hp & H)%bind_Some. destruct (maintain i p c σ) eqn:Em; [simplify_eq; by eapply maintain_inv|].
  destruct (Get i p c σ) eqn:Eg; [simplify_eq; by eapply Get_inv|].
  destruct (Close i p c σ) eqn:Ec; [|done]. simplify_eq. by eapply Close_inv.
Qed.

Lemma pool_inv_new n : pool_inv (NewConnectionPool n).
Proof.
  unfold NewConnectionPool. destruct (0 <? n)%nat; constructor; cbn; try done; try lia;
    intros; repeat match goal with H : _ ∈ [_] |- _ => apply list_elem_of_singleton in H; subst end;
    try done; set_solver.
Qed.

Lemma pool_reachable_inv n σ : pool_reachable n σ → pool_inv σ.
Proof.
  revert σ. apply (rtc_ind_r (R:=pool_step) pool_inv (NewConnectionPool n)); [apply pool_inv_new|].
  intros σ1 σ2 _ [a Ha] Hinv. by eapply pool_exec_inv.
Qed.

(** ** Properties *)

Definition in_hands (σ : pool) : list nat := procs σ ≫= held.

(** C16: no pooled connection is lost or used twice: in every reachable state each
    connection that was dialled is in exactly one place: idle in the pool, in the
    hands of one goroutine of the pool, returned to one caller of [Get], or closed.
    At most [minIdle] are idle. *)
Theorem pool_conserves n σ :
  pool_reachable n σ →
  conns σ ++ in_hands σ ++ handed σ ++ shut σ ≡ₚ seq 0 (dialled σ) ∧
  NoDup (conns σ ++ in_hands σ ++ handed σ ++ shut σ) ∧
  (∀ c, GReturn (Some c) ∈ procs σ → c ∈ handed σ ∧ (c ∉ shut σ) ∧ (c ∉ conns σ)) ∧
  (length (conns σ) ≤ minIdle σ)%nat.
Proof.
  intros Hinv%pool_reachable_inv. pose proof (pi_conns _ Hinv) as Hperm.
  assert (NoDup (conns σ ++ in_hands σ ++ handed σ ++ shut σ)) as Hnd.
  { unfold in_hands. rewrite Hperm. apply NoDup_seq. }
  split; [done|]. split; [done|]. split; [|apply (pi_cap _ Hinv)].
  intros c Hc%(pi_returned _ Hinv). split; [done|]. rewrite !list.NoDup_app in Hnd.
  destruct Hnd as (_ & H1 & _ & _ & _ & H2 & _). split; [by apply H2|]. intros Hx. apply (H1 c Hx).
  rewrite !elem_of_app. auto.
Qed.

(** Closing the pool leaves nothing behind: once a call of [Close] has
    returned, no connection is idle and the maintaining goroutine has ended, a
    [Get] that starts then fails without dialling, and when the calls still under
    way have ended, every connection ever dialled was closed or belongs to a
    caller. *)
Theorem pool_close_complete n σ :
  pool_reachable n σ → CEnd ∈ procs σ →
  conns σ = [] ∧ (∀ p, p ∈ procs σ → maintaining p = false) ∧
  (∀ i, procs σ !! i = Some GStart → pool_exec (Run i Proceed) σ = Some (goto i (GReturn None) σ)) ∧
  ((∀ p, p ∈ procs σ → held p = []) → handed σ ++ shut σ ≡ₚ seq 0 (dialled σ)).
Proof.
  intros Hinv%pool_reachable_inv He. pose proof (pi_end _ Hinv He) as Hq. split; [done|]. split.
  { intros p Hp. by apply (pi_drain _ Hinv CEnd p). }
  split.
  - intros i Hi. cbn [pool_exec]. rewrite Hi. cbn. by rewrite (pi_closed _ Hinv CEnd He).
  - intros Hh. rewrite <-(pi_conns _ Hinv), Hq. cbn. assert (procs σ ≫= held = []) as ->; [|done].
    clear -Hh. induction (procs σ) as [|p l IH]; [done|]. cbn. rewrite Hh by by left. apply IH.
    intros q Hql. apply Hh. by right.
Qed.

Lemma exec_drain i σ : procs σ !! i = Some CDrain →
  pool_exec (Run i Proceed) σ =
    match conns σ with
    | x :: q => Some (goto i CDrain (shut_one x (set_queue q σ)))
    | [] => Some (goto i CEnd σ)
    end.
Proof. intros H. cbn [pool_exec]. rewrite H. cbn. by destruct (conns σ). Qed.

(** The draining loop of [Close] terminates: it takes one round for each idle
    connection and one to see that the pool is empty, closes all of them in order,
    and leaves the rest of the pool as it is. *)
Theorem Close_drains i σ :
  procs σ !! i = Some CDrain →
  ∃ σ', pool_runs (replicate (S (length (conns σ))) (Run i Proceed)) σ = Some σ' ∧
    conns σ' = [] ∧ shut σ' = shut σ ++ conns σ ∧ procs σ' = <[i := CEnd]> (procs σ) ∧
    handed σ' = handed σ ∧ dialled σ' = dialled σ.
Proof.
  remember (conns σ) as q eqn:Eq. revert σ Eq. induction q as [|x q IH]; intros σ Eq Hp; cbn [length replicate pool_runs];
    rewrite exec_drain, <-Eq by done; cbn [mbind option_bind].
  - eexists. split; [reflexivity|]. cbn. rewrite app_nil_r. done.
  - destruct (IH (goto i CDrain (shut_one x (set_queue q σ)))) as (σ' & Hr & H1 & H2 & H3 & H4 & H5); [done|..].
    { cbn. apply list_lookup_insert_eq. by eapply lookup_lt_Some. }
    exists σ'. split; [exact Hr|]. cbn in *. rewrite list_insert_insert_eq in H3. rewrite H2, <-(assoc_L (++)). done.
Qed.

(** ** Examples *)

Lemma pool_runs_reachable n acts σ σ' : pool_reachable n σ → pool_runs acts σ = Some σ' → pool_reachable n σ'.
Proof.
  revert σ. induction acts as [|a acts IH]; intros σ Hr; cbn [pool_runs]; [by intros [= <-]|].
  intros (σ1 & E & H)%bind_Some. eapply IH; [|exact H]. eapply rtc_r; [done|]. by exists a.
Qed.

(** Two connections are added, a caller takes one, and the pool is closed. *)
Definition pool_sample : list pool_action :=
  [Run 0 OnTimer; Run 0 Proceed; Run 0 Succeeds; Run 0 Succeeds; Run 0 Proceed; Run 0 Succeeds; Run 0 Succeeds;
   CallGet; Run 1 Proceed; Run 1 Proceed; Run 1 Proceed; CallClose; Run 2 Proceed; Run 2 Proceed; Run 0 Proceed;
   Run 2 Proceed; Run 2 Proceed; Run 2 Proceed].

Definition pool_closed : pool := mkPool 2 [] true true 2 [0%nat] [1%nat] [MEnd; GReturn (Some 0%nat); CEnd].

Lemma pool_closed_reachable : pool_reachable 2 pool_closed.
Proof. apply (pool_runs_reachable 2 pool_sample (NewConnectionPool 2)); [apply rtc_refl|]. by vm_compute. Qed.

Lemma pool_conserves_witness :
  conns pool_closed ++ in_hands pool_closed ++ handed pool_closed ++ shut pool_closed ≡ₚ seq 0 2 ∧
  NoDup (conns pool_closed ++ in_hands pool_closed ++ handed pool_closed ++ shut pool_closed) ∧
  (∀ c, GReturn (Some c) ∈ procs pool_closed → c ∈ handed pool_closed ∧ (c ∉ shut pool_closed) ∧ (c ∉ conns pool_closed)) ∧
  (length (conns pool_closed) ≤ minIdle pool_closed)%nat.
Proof. apply (pool_conserves 2). apply pool_closed_reachable. Defined.

Lemma pool_close_complete_witness :
  conns pool_closed = [] ∧ (∀ p, p ∈ procs pool_closed → maintaining p = false) ∧
  (∀ i, procs pool_closed !! i = Some GStart → pool_exec (Run i Proceed) pool_closed = Some (goto i (GReturn None) pool_closed)) ∧
  ((∀ p, p ∈ procs pool_closed → held p = []) → handed pool_closed ++ shut pool_closed ≡ₚ seq 0 (dialled pool_closed)).
Proof. apply (pool_close_complete 2); [apply pool_closed_reachable|]. right; right; left. Defined.

Lemma Close_drains_witness : let σ := mkPool 3 [4; 7]%nat true true 8 [] [] [MEnd; CDrain] in
  ∃ σ', pool_runs (replicate 3 (Run 1 Proceed)) σ = Some σ' ∧
    conns σ' = [] ∧ shut σ' = shut σ ++ conns σ ∧ procs σ' = <[1%nat := CEnd]> (procs σ) ∧
    handed σ' = handed σ ∧ dialled σ' = dialled σ.
Proof. intros σ. apply (Close_drains 1 σ). reflexivity. Defined.
