(* ===== verification/ClientUdp.v ===== *)
(** pkg/client/client.go: the UDP listeners of the client, [runUdpTunnel] and
    [runTProxyUdpTunnel].

    The main loop reads datagrams and sends each on the stream of its source
    address, dialling one when there is none; a goroutine per stream sends the
    replies back; a timer per stream ends it when it is idle.  The steps are the
    critical sections of the code and the actions between them.  [clients] and
    [timers] map a printed source address to the index of a stream or a timer.

    [arrived] and [sent] record the datagrams received (source address, original
    destination, data) and written to a stream. *)

From S2P Require Import Prelude GoIO Protocol.

Inductive variant := UdpTunnel | TProxyTunnel.

(** The goroutine that reads a stream: in its loop, about to run the deferred
    clean-up, about to close the stream, ended. *)
Inductive reader := Reading | Cleaning | Closing | Ended.

Record tunnel_stream := mkTunnelStream {
  st_source : bytes;
  st_target : bytes * Z;
  st_open : bool;
  st_reader : reader
}.

(** A timer of [time.AfterFunc]: when it is due if it is armed, how many calls of
    its function have started and wait for the lock, and how many have released it
    and are about to close the stream. *)
Record idle_timer := mkIdleTimer {
  tm_source : bytes;
  tm_stream : nat;
  tm_due : option Z;
  tm_waiting : nat;
  tm_closing : nat
}.

(** The main loop: reading, writing a datagram of [n] bytes to a stream, handling
    a failed write. *)
Inductive main_loop :=
  | MRead
  | MWrite (s n : nat)
  | MFailed (s : nat)
  | MClose (s : nat).

Record udp_client := mkUdpClient {
  clients : gmap bytes nat;
  timers : gmap bytes nat;
  streams : list tunnel_stream;
  tms : list idle_timer;
  main : main_loop;
  ubuf : bytes;
  clock : Z;
  arrived : list (bytes * (bytes * Z) * bytes);
  sent : list (nat * bytes);
  replies : list (bytes * bytes)
}.

Definition set_maps (c t : gmap bytes nat) (σ : udp_client) : udp_client :=
  mkUdpClient c t (streams σ) (tms σ) (main σ) (ubuf σ) (clock σ) (arrived σ) (sent σ) (replies σ).
Definition set_streams (x : list tunnel_stream) (σ : udp_client) : udp_client :=
  mkUdpClient (clients σ) (timers σ) x (tms σ) (main σ) (ubuf σ) (clock σ) (arrived σ) (sent σ) (replies σ).
Definition set_tms (x : list idle_timer) (σ : udp_client) : udp_client :=
  mkUdpClient (clients σ) (timers σ) (streams σ) x (main σ) (ubuf σ) (clock σ) (arrived σ) (sent σ) (replies σ).
Definition set_main (x : main_loop) (σ : udp_client) : udp_client :=
  mkUdpClient (clients σ) (timers σ) (streams σ) (tms σ) x (ubuf σ) (clock σ) (arrived σ) (sent σ) (replies σ).
Definition set_clock (x : Z) (σ : udp_client) : udp_client :=
  mkUdpClient (clients σ) (timers σ) (streams σ) (tms σ) (main σ) (ubuf σ) x (arrived σ) (sent σ) (replies σ).
Definition add_sent (x : nat * bytes) (σ : udp_client) : udp_client :=
  mkUdpClient (clients σ) (timers σ) (streams σ) (tms σ) (main σ) (ubuf σ) (clock σ) (arrived σ) (sent σ ++ [x]) (replies σ).
Definition add_reply (x : bytes * bytes) (σ : udp_client) : udp_client :=
  mkUdpClient (clients σ) (timers σ) (streams σ) (tms σ) (main σ) (ubuf σ) (clock σ) (arrived σ) (sent σ) (replies σ ++ [x]).
Definition add_arrival (x : bytes * (bytes * Z) * bytes) (b : bytes) (σ : udp_client) : udp_client :=
  mkUdpClient (clients σ) (timers σ) (streams σ) (tms σ) (main σ) b (clock σ) (arrived σ ++ [x]) (sent σ) (replies σ).

(** ** Operations *)

Definition close_stream (s : nat) (σ : udp_client) : udp_client :=
  set_streams (alter (λ x, mkTunnelStream (st_source x) (st_target x) false (st_reader x)) s (streams σ)) σ.

Definition set_reader (r : reader) (s : nat) (σ : udp_client) : udp_client :=
  set_streams (alter (λ x, mkTunnelStream (st_source x) (st_target x) (st_open x) r) s (streams σ)) σ.

Definition upd_timer (f : idle_timer → idle_timer) (t : nat) (σ : udp_client) : udp_client :=
  set_tms (alter f t (tms σ)) σ.

(** [t.Reset(d)] and [t.Stop()] *)
Definition rearm (due : Z) (t : idle_timer) : idle_timer :=
  mkIdleTimer (tm_source t) (tm_stream t) (Some due) (tm_waiting t) (tm_closing t).
Definition disarm (t : idle_timer) : idle_timer :=
  mkIdleTimer (tm_source t) (tm_stream t) None (tm_waiting t) (tm_closing t).

Section client.
Context (v : variant) (timeoutDuration : Z).

(** [if t, found := timers[k]; found { t.Reset(timeoutDuration) }] *)
Definition touch (k : bytes) (σ : udp_client) : udp_client :=
  match timers σ !! k with
  | Some t => upd_timer (rearm (clock σ + timeoutDuration)) t σ
  | None => σ
  end.

(** [delete(clients, k); if t, found := timers[k]; found { t.Stop(); delete(timers, k) }] *)
Definition forget (k : bytes) (σ : udp_client) : udp_client :=
  let σ' := match timers σ !! k with Some t => upd_timer disarm t σ | None => σ end in
  set_maps (delete k (clients σ)) (delete k (timers σ)) σ'.

(** A new stream with its timer and its goroutine. *)
Definition register (k : bytes) (target : bytes * Z) (σ : udp_client) : udp_client :=
  let s := length (streams σ) in
  let t := length (tms σ) in
  set_maps (<[k := s]> (clients σ)) (<[k := t]> (timers σ))
    (set_streams (streams σ ++ [mkTunnelStream k target true Reading])
      (set_tms (tms σ ++ [mkIdleTimer k s (Some (clock σ + timeoutDuration)) 0 0]) σ)).

(** The main loop with a datagram of [d] bytes from [k] for [target]: under the
    lock the stream is found or dialled.  [connected] is the outcome of
    [connectToTransport]. *)
Definition datagram (k : bytes) (target : bytes * Z) (d : bytes) (connected : bool) (σ : udp_client) : udp_client :=
  let n := (length d `min` length (ubuf σ))%nat in
  let σ := add_arrival (k, target, take n d) (fill d (ubuf σ)) σ in
  match clients σ !! k with
  | Some s => set_main (MWrite s n) (touch k σ)
  | None => if connected then set_main (MWrite (length (streams σ)) n) (register k target σ) else σ
  end.

(** The function of a timer, under the lock: the transparent variant closes the
    stream that is registered at that moment. *)
Definition expire (t : nat) (x : idle_timer) (σ : udp_client) : udp_client :=
  let k := tm_source x in
  match v with
  | UdpTunnel =>
      set_maps (delete k (clients σ)) (delete k (timers σ))
        (upd_timer (λ x, mkIdleTimer (tm_source x) (tm_stream x) (tm_due x) (tm_waiting x - 1) (S (tm_closing x))) t σ)
  | TProxyTunnel =>
      let σ' := match clients σ !! k with Some s => close_stream s σ | None => σ end in
      set_maps (delete k (clients σ)) (delete k (timers σ))
        (upd_timer (λ x, mkIdleTimer (tm_source x) (tm_stream x) (tm_due x) (tm_waiting x - 1) (tm_closing x)) t σ')
  end.

(** ** Steps *)

Inductive uc_action :=
  | Datagram (k : bytes) (target : bytes * Z) (d : bytes) (connected : bool)
  | WriteDone (ok : bool)
  | FailedStep
  | ReplyArrives (s : nat) (binary : bool) (p : bytes)
  | ReadFails (s : nat)
  | ReaderStep (s : nat)
  | Fire (t : nat)
  | TimerStep (t : nat)
  | TimerClose (t : nat)
  | Elapse (d : Z).

Definition uc_exec (a : uc_action) (σ : udp_client) : option udp_client :=
  match a with
  | Datagram k target d connected =>
      match main σ with MRead => Some (datagram k target d connected σ) | _ => None end
  | WriteDone ok =>
      match main σ with
      | MWrite s n =>
          let σ' := add_sent (s, take n (ubuf σ)) σ in
          if ok then Some (set_main MRead σ')
          else match v with
               | UdpTunnel => Some (set_main (MFailed s) σ)
               | TProxyTunnel => Some (set_main MRead σ)
               end
      | _ => None
      end
  | FailedStep =>
      match main σ with
      | MFailed s => x ← streams σ !! s; Some (set_main (MClose s) (forget (st_source x) σ))
      | MClose s => Some (set_main MRead (close_stream s σ))
      | _ => None
      end
  | ReplyArrives s binary p =>
      x ← streams σ !! s;
      match st_reader x with
      | Reading =>
          if st_open x then
            let σ' := touch (st_source x) σ in
            Some (if binary then add_reply (st_source x, p) σ' else σ')
          else None
      | _ => None
      end
  | ReadFails s =>
      x ← streams σ !! s;
      match st_reader x with Reading => Some (set_reader Cleaning s σ) | _ => None end
  | ReaderStep s =>
      x ← streams σ !! s;
      match st_reader x with
      | Cleaning => Some (set_reader Closing s (forget (st_source x) σ))
      | Closing => Some (set_reader Ended s (close_stream s σ))
      | _ => None
      end
  | Fire t =>
      x ← tms σ !! t;
      match tm_due x with
      | Some due =>
          if due <=? clock σ then
            Some (upd_timer (λ x, mkIdleTimer (tm_source x) (tm_stream x) None (S (tm_waiting x)) (tm_closing x)) t σ)
          else None
      | None => None
      end
  | TimerStep t => x ← tms σ !! t; if (0 <? tm_waiting x)%nat then Some (expire t x σ) else None
  | TimerClose t =>
      x ← tms σ !! t;
      match tm_closing x with
      | O => None
      | S c => Some (close_stream (tm_stream x)
                 (upd_timer (λ x, mkIdleTimer (tm_source x) (tm_stream x) (tm_due x) (tm_waiting x) c) t σ))
      end
  | Elapse d => if 0 <=? d then Some (set_clock (clock σ + d) σ) else None
  end.

(** [make([]byte, 64*1024)] *)
Definition read_buffer : bytes := replicate (Z.to_nat (64 * 1024)) x00.

Definition uc_start : udp_client := mkUdpClient ∅ ∅ [] [] MRead read_buffer 0 [] [] [].

Definition uc_step (σ σ' : udp_client) : Prop := ∃ a, uc_exec a σ = Some σ'.
Definition uc_reachable : udp_client → Prop := rtc uc_step uc_start.

Fixpoint uc_runs (acts : list uc_action) (σ : udp_client) : option udp_client :=
  match acts with
  | [] => Some σ
  | a :: acts' => σ' ← uc_exec a σ; uc_runs acts' σ'
  end.
End client.

(** The idle period of a session: the protocol's timeout in whole seconds, 30
    seconds when there is none. *)
Definition session_timeout (t : option Duration) : Z :=
  match t with
  | Some d => if 0 <? Secs d then i64 (i64 (Secs d) * Second) else 30 * Second
  | None => 30 * Second
  end.

(** The two listeners, as the steps they take for a protocol. *)
Definition runUdpTunnel (p : LocalProtocol) : uc_action → udp_client → option udp_client :=
  uc_exec UdpTunnel (session_timeout (u ← Udp p; Udp_Timeout u)).
Definition runTProxyUdpTunnel (p : LocalProtocol) : uc_action → udp_client → option udp_client :=
  uc_exec TProxyTunnel (session_timeout (u ← TProxyUdp p; TProxyUdp_Timeout u)).

(** ** Invariant *)

(** The source address of a stream. *)
Definition source (σ : udp_client) (s : nat) : option bytes := st_source <$> streams σ !! s.

(** A timer that will still run its function. *)
Definition live (y : idle_timer) : Prop := is_Some (tm_due y) ∨ (0 < tm_waiting y)%nat.

(** The two maps have the same keys, and a registered stream is registered with
    its own timer, which is live. *)
Record maps_ok (c t : gmap bytes nat) (src : nat → option bytes) (ts : list idle_timer) : Prop := {
  mo_client : ∀ k s, c !! k = Some s → src s = Some k ∧ is_Some (t !! k);
  mo_timer : ∀ k i, t !! k = Some i →
    ∃ y, ts !! i = Some y ∧ tm_source y = k ∧ c !! k = Some (tm_stream y) ∧ live y;
  mo_timers : ∀ i y, ts !! i = Some y → src (tm_stream y) = Some (tm_source y)
}.

(** Source address and data of a datagram, received or sent. *)
Definition received (x : bytes * (bytes * Z) * bytes) : bytes * bytes := (x.1.1, x.2).
Definition sent_for (src : nat → option bytes) (x : nat * bytes) : bytes * bytes := (default [] (src x.1), x.2).

Definition pending (σ : udp_client) : list (nat * bytes) :=
  match main σ with MWrite s n => [(s, take n (ubuf σ))] | _ => [] end.

Record uc_inv (σ : udp_client) : Prop := {
  uc_maps : maps_ok (clients σ) (timers σ) (source σ) (tms σ);
  uc_known : ∀ s d, (s, d) ∈ sent σ ++ pending σ → is_Some (source σ s);
  uc_log : sent_for (source σ) <$> (sent σ ++ pending σ) `sublist_of` received <$> arrived σ;
  uc_ended : ∀ s x, streams σ !! s = Some x → st_reader x = Ended → st_open x = false
}.

(** ** Preservation *)

Definition keeps_source (f : tunnel_stream → tunnel_stream) : Prop := ∀ x, st_source (f x) = st_source x.
Definition keeps_timer (f : idle_timer → idle_timer) : Prop :=
  ∀ y, tm_source (f y) = tm_source y ∧ tm_stream (f y) = tm_stream y.

Lemma alter_inv {A} (f : A → A) (i j : nat) (l : list A) y :
  alter f i l !! j = Some y → ∃ x, l !! j = Some x ∧ (y = x ∧ i ≠ j ∨ y = f x ∧ i = j).
Proof.
  destruct (decide (i = j)) as [->|Hne].
  - rewrite list_lookup_alter_eq. intros (x & Hx & ->)%fmap_Some. eauto 6.
  - rewrite list_lookup_alter_ne by done. eauto 6.
Qed.

Lemma source_alter f s σ t : keeps_source f → source (set_streams (alter f s (streams σ)) σ) t = source σ t.
Proof.
  intros Hf. unfold source. cbn. destruct (decide (s = t)) as [->|Hne].
  - rewrite list_lookup_alter_eq. destruct (streams σ !! t); cbn; [by rewrite Hf|done].
  - by rewrite list_lookup_alter_ne.
Qed.

Lemma maps_ok_ext c t src src' ts : (∀ s, src s = src' s) → maps_ok c t src ts → maps_ok c t src' ts.
Proof. intros He [H1 H2 H3]. constructor; intros; rewrite <-?He; eauto. Qed.

Lemma maps_ok_alter c t src ts f i : keeps_timer f → (∀ y, live y → live (f y)) →
  maps_ok c t src ts → maps_ok c t src (alter f i ts).
Proof.
  intros Hf Hl [H1 H2 H3]. constructor; [done|..].
  - intros k j Hj. destruct (H2 k j Hj) as (y & Hy & Hk & Hc & Hv). destruct (Hf y) as [E1 E2].
    destruct (decide (i = j)) as [->|Hne].
    + exists (f y). rewrite list_lookup_alter_eq, Hy, E1, E2. cbn. auto.
    + exists y. by rewrite list_lookup_alter_ne.
  - intros j y (x & Hx & [[-> _]|[-> _]])%alter_inv; [eauto|]. destruct (Hf x) as [-> ->]. eauto.
Qed.

(** Removing a key, with any change of a timer of that key. *)
Lemma maps_ok_delete c t src ts f i k :
  keeps_timer f → (∀ y, ts !! i = Some y → tm_source y = k) →
  maps_ok c t src ts → maps_ok (delete k c) (delete k t) src (alter f i ts).
Proof.
  intros Hf Hi [H1 H2 H3]. constructor.
  - intros k' s [Hk Hc]%lookup_delete_Some. rewrite lookup_delete_ne by done. auto.
  - intros k' j [Hk Hj]%lookup_delete_Some. destruct (H2 k' j Hj) as (y & Hy & Hs & Hc & Hv).
    exists y. rewrite lookup_delete_ne by done. rewrite list_lookup_alter_ne; [done|]. intros ->.
    apply Hk. by rewrite <-Hs, (Hi y Hy).
  - intros j y (x & Hx & [[-> _]|[-> _]])%alter_inv; [eauto|]. destruct (Hf x) as [-> ->]. eauto.
Qed.

Lemma maps_ok_remove c t src ts k : maps_ok c t src ts → maps_ok (delete k c) (delete k t) src ts.
Proof.
  intros [H1 H2 H3]. constructor; [| |done].
  - intros k' s [Hk Hc]%lookup_delete_Some. rewrite lookup_delete_ne by done. auto.
  - intros k' j [Hk Hj]%lookup_delete_Some. destruct (H2 k' j Hj) as (y & Hy & Hs & Hc & Hv).
    exists y. by rewrite lookup_delete_ne.
Qed.

(** A step that receives no datagram and opens no stream. *)
Lemma uc_inv_step σ σ' :
  uc_inv σ → maps_ok (clients σ') (timers σ') (source σ) (tms σ') → (∀ s, source σ' s = source σ s) →
  arrived σ' = arrived σ → sent σ' ++ pending σ' `sublist_of` sent σ ++ pending σ →
  (∀ s x, streams σ' !! s = Some x → st_reader x = Ended → st_open x = false) → uc_inv σ'.
Proof.
  intros [Hm Hk Hl He] Hm' Hsrc Harr Hsub He'. constructor; [|..|done].
  - by eapply maps_ok_ext; [|exact Hm'].
  - intros s d Hin. rewrite Hsrc. eapply Hk. by eapply elem_of_sublist; [|exact Hsub].
  - rewrite Harr. etrans; [|exact Hl]. erewrite list_fmap_ext by (intros i x _; unfold sent_for; by rewrite Hsrc).
    by apply fmap_sublist.
Qed.

Lemma forget_maps k σ : maps_ok (clients σ) (timers σ) (source σ) (tms σ) →
  maps_ok (clients (forget k σ)) (timers (forget k σ)) (source σ) (tms (forget k σ)).
Proof.
  intros Hm. unfold forget. destruct (timers σ !! k) as [t|] eqn:Et; cbn; [|by apply maps_ok_remove].
  apply maps_ok_delete; [done| |done]. intros y Hy.
  destruct (mo_timer _ _ _ _ Hm k t Et) as (y' & Hy' & <- & _). congruence.
Qed.

Lemma forget_streams k σ : streams (forget k σ) = streams σ ∧ sent (forget k σ) = sent σ ∧ arrived (forget k σ) = arrived σ ∧
  main (forget k σ) = main σ ∧ ubuf (forget k σ) = ubuf σ.
Proof. unfold forget. by destruct (timers σ !! k). Qed.

Lemma touch_maps d k σ : maps_ok (clients σ) (timers σ) (source σ) (tms σ) →
  maps_ok (clients (touch d k σ)) (timers (touch d k σ)) (source σ) (tms (touch d k σ)).
Proof.
  intros Hm. unfold touch. destruct (timers σ !! k) as [t|]; cbn; [|done].
  apply maps_ok_alter; [done| |done]. intros y _. left. by eexists.
Qed.

Lemma touch_streams d k σ : streams (touch d k σ) = streams σ ∧ sent (touch d k σ) = sent σ ∧
  arrived (touch d k σ) = arrived σ ∧ main (touch d k σ) = main σ ∧ ubuf (touch d k σ) = ubuf σ ∧ clients (touch d k σ) = clients σ.
Proof. unfold touch. by destruct (timers σ !! k). Qed.

(** Streams only change their flags. *)
Lemma uc_inv_streams σ f s :
  uc_inv σ → keeps_source f → (∀ x, streams σ !! s = Some x → st_reader (f x) = Ended → st_open (f x) = false) →
  uc_inv (set_streams (alter f s (streams σ)) σ).
Proof.
  intros Hinv Hf He. apply (uc_inv_step σ); try done; [apply Hinv|intros t; by apply source_alter|].
  intros t x (x0 & Hx & [[-> _]|[-> Hst]])%alter_inv; [by eapply uc_ended|subst t; by apply He].
Qed.

Lemma uc_inv_close σ s : uc_inv σ → uc_inv (close_stream s σ).
Proof. intros Hinv. by apply uc_inv_streams. Qed.

Lemma uc_inv_forget σ k : uc_inv σ → uc_inv (forget k σ).
Proof.
  intros Hinv. destruct (forget_streams k σ) as (Es & Et & Ea & Em & Eb).
  apply (uc_inv_step σ); [done|by apply forget_maps, Hinv|intros t; unfold source; by rewrite Es|done| |].
  - unfold pending. by rewrite Et, Em, Eb.
  - rewrite Es. apply Hinv.
Qed.

Lemma uc_inv_touch σ d k : uc_inv σ → uc_inv (touch d k σ).
Proof.
  intros Hinv. destruct (touch_streams d k σ) as (Es & Et & Ea & Em & Eb & _).
  apply (uc_inv_step σ); [done|by apply touch_maps, Hinv|intros t; unfold source; by rewrite Es|done| |].
  - unfold pending. by rewrite Et, Em, Eb.
  - rewrite Es. apply Hinv.
Qed.

(** The main loop moves on without a datagram in hand. *)
Lemma uc_inv_main σ m : uc_inv σ → (∀ s n, m ≠ MWrite s n) → uc_inv (set_main m σ).
Proof.
  intros Hinv Hm. apply (uc_inv_step σ); try done; [apply Hinv| |apply Hinv].
  unfold pending. cbn. destruct m; try (by destruct (Hm s n)); rewrite app_nil_r; by apply sublist_inserts_r.
Qed.

Lemma uc_inv_timer σ f i : uc_inv σ → keeps_timer f → (∀ y, live y → live (f y)) → uc_inv (upd_timer f i σ).
Proof.
  intros Hinv Hf Hl. apply (uc_inv_step σ); try done; [|apply Hinv]. cbn. by apply maps_ok_alter, Hinv.
Qed.

Lemma uc_inv_expire σ v i y : uc_inv σ → tms σ !! i = Some y → uc_inv (expire v i y σ).
Proof.
  intros Hinv Hy. unfold expire. set (k := tm_source y).
  assert (∀ σ0 f, uc_inv σ0 → tms σ0 = tms σ → keeps_timer f →
    uc_inv (set_maps (delete k (clients σ0)) (delete k (timers σ0)) (upd_timer f i σ0))) as H.
  { intros σ0 f H0 Htm Hf. apply (uc_inv_step σ0); try done; [|apply H0]. cbn.
    apply maps_ok_delete; [done| |apply H0]. intros y' Hy'. rewrite Htm in Hy'. subst k. congruence. }
  destruct v; [by apply H|]. destruct (clients σ !! k) as [s|] eqn:Ec; [|by apply H].
  apply (H (close_stream s σ)); [by apply uc_inv_close|done|done].
Qed.

Lemma register_source d k tgt σ s :
  source (register d k tgt σ) s = if decide (s = length (streams σ)) then Some k else source σ s.
Proof.
  unfold source. cbn. destruct (decide (s = length (streams σ))) as [->|Hne]; [by rewrite list_lookup_middle|].
  destruct (decide (s < length (streams σ))%nat).
  - by rewrite lookup_app_l.
  - rewrite !lookup_ge_None_2; [done|lia|rewrite length_app; cbn; lia].
Qed.

Lemma register_maps d k tgt σ : maps_ok (clients σ) (timers σ) (source σ) (tms σ) → clients σ !! k = None →
  maps_ok (clients (register d k tgt σ)) (timers (register d k tgt σ)) (source (register d k tgt σ)) (tms (register d k tgt σ)).
Proof.
  intros [H1 H2 H3] Hk.
  assert (∀ s x, source σ s = Some x → source (register d k tgt σ) s = Some x) as Hold.
  { intros s x Hs. rewrite register_source. destruct (decide _) as [->|]; [|done].
    unfold source in Hs. by rewrite lookup_ge_None_2 in Hs. }
  constructor; cbn.
  - intros k' s [[<- <-]|[Hne Hc]]%lookup_insert_Some.
    + rewrite register_source, decide_True, lookup_insert_eq by done. split; [done|by eexists].
    + destruct (H1 k' s Hc) as [Hs Ht]. rewrite lookup_insert_ne by done. split; [by apply Hold|done].
  - intros k' i [[<- <-]|[Hne Hi]]%lookup_insert_Some.
    + eexists. rewrite list_lookup_middle by done. split; [done|]. cbn. rewrite lookup_insert_eq.
      split_and!; [done..|left; by eexists].
    + destruct (H2 k' i Hi) as (y & Hy & Hs & Hc & Hl). exists y. rewrite lookup_insert_ne by done.
      split; [|done]. by apply lookup_app_l_Some.
  - intros i y [Hy|[_ Hy]]%lookup_app_Some; [by apply Hold, (H3 i)|].
    apply list_lookup_singleton_Some in Hy as [_ <-]. cbn. by rewrite register_source, decide_True.
Qed.

(** A datagram that is about to be written to a stream of its source address. *)
Lemma uc_inv_write σ σ' k tgt d s n :
  uc_inv σ → main σ = MRead → maps_ok (clients σ') (timers σ') (source σ') (tms σ') →
  (∀ t x, source σ t = Some x → source σ' t = Some x) → source σ' s = Some k →
  sent σ' = sent σ → arrived σ' = arrived σ ++ [(k, tgt, take n (ubuf σ'))] → main σ' = MWrite s n →
  (∀ t x, streams σ' !! t = Some x → st_reader x = Ended → st_open x = false) → d = take n (ubuf σ') → uc_inv σ'.
Proof.
  intros [Hm Hk Hl He] Hr Hm' Hold Hs Hsent Harr Hmain He' ->. unfold pending in *. rewrite Hr, app_nil_r in Hk, Hl.
  constructor; [done|..|done]; unfold pending; rewrite Hmain, Hsent.
  - intros t e [Hin|Hin]%elem_of_app.
    + destruct (Hk t e Hin) as [x Hx]. exists x. by apply Hold.
    + apply list_elem_of_singleton in Hin. injection Hin as -> ->. by eexists.
  - rewrite Harr, !fmap_app. apply sublist_app.
    + erewrite list_fmap_ext; [exact Hl|]. intros i [t e] Hx. unfold sent_for. cbn.
      apply list_elem_of_lookup_2 in Hx. destruct (Hk t e Hx) as [x Hx']. by rewrite Hx', (Hold t x Hx').
    + cbn. unfold sent_for, received. cbn. by rewrite Hs.
Qed.

Lemma uc_inv_datagram timeout k tgt d ok σ : uc_inv σ → main σ = MRead → uc_inv (datagram timeout k tgt d ok σ).
Proof.
  intros Hinv Hr. unfold datagram. set (n := (length d `min` length (ubuf σ))%nat).
  set (σ1 := add_arrival (k, tgt, take n d) (fill d (ubuf σ)) σ). pose proof Hinv as [Hm _ _ He].
  change (clients σ1) with (clients σ). destruct (clients σ !! k) as [s|] eqn:Ec.
  - destruct (touch_streams timeout k σ1) as (Es & Et & Ea & _ & Eb & Ecl).
    eapply (uc_inv_write σ _ k tgt _ s n); [done|done|..]; cbn.
    + apply (touch_maps timeout k σ1) in Hm. eapply maps_ok_ext; [|exact Hm]. intros t. unfold source. cbn. by rewrite Es.
    + intros t x. unfold source. cbn. by rewrite Es.
    + unfold source. cbn. rewrite Es. by apply (mo_client _ _ _ _ Hm).
    + by rewrite Et.
    + rewrite Ea, Eb. cbn. subst n. by rewrite take_fill.
    + done.
    + by rewrite Es.
    + done.
  - destruct ok.
    + eapply (uc_inv_write σ _ k tgt _ (length (streams σ)) n); [done|done|..].
      * by apply (register_maps timeout k tgt σ1).
      * intros t x Ht. change (source (register timeout k tgt σ1) t = Some x). rewrite register_source.
        destruct (decide _) as [->|]; [|done]. unfold source in Ht. cbn in Ht. by rewrite lookup_ge_None_2 in Ht.
      * change (source (register timeout k tgt σ1) (length (streams σ1)) = Some k).
        by rewrite register_source, decide_True.
      * done.
      * cbn. subst n. by rewrite take_fill.
      * done.
      * cbn. intros t x [Hx|[_ Hx]]%lookup_app_Some; [by eapply He|].
        apply list_lookup_singleton_Some in Hx as [_ <-]. done.
      * done.
    + constructor; [exact Hm| | |exact He]; cbn; unfold pending; cbn; rewrite Hr, app_nil_r.
      * intros t e Hin. apply (uc_known _ Hinv t e). apply elem_of_app. by left.
      * pose proof (uc_log _ Hinv) as Hl. unfold pending in Hl. rewrite Hr, app_nil_r in Hl.
        rewrite fmap_app. by apply sublist_inserts_r.
Qed.

Lemma uc_exec_inv v timeout a σ σ' : uc_inv σ → uc_exec v timeout a σ = Some σ' → uc_inv σ'.
Proof.
  intros Hinv. destruct a as [k tgt d ok|ok| |s b p|s|s|t|t|t|d]; cbn [uc_exec].
  - destruct (main σ) eqn:Em; [|done..]. intros [= <-]. by apply uc_inv_datagram.
  - destruct (main σ) as [|s n| |] eqn:Em; [done| |done..]. destruct ok; [|destruct v; intros [= <-]; by apply uc_inv_main].
    intros [= <-]. apply (uc_inv_step σ); try done; try apply Hinv.
    unfold pending. cbn. by rewrite Em, app_nil_r.
  - destruct (main σ) as [|s n|s|s] eqn:Em; [done|done|..].
    + intros (x & Hx & [= <-])%bind_Some. apply uc_inv_main; [by apply uc_inv_forget|done].
    + intros [= <-]. apply uc_inv_main; [by apply uc_inv_close|done].
  - intros (x & Hx & H)%bind_Some. destruct (st_reader x); [|done..]. destruct (st_open x); [|done].
    injection H as <-. destruct b; [|by apply uc_inv_touch].
    pose proof (uc_inv_touch σ timeout (st_source x) Hinv) as [? ? ? ?]. by constructor.
  - intros (x & Hx & H)%bind_Some. destruct (st_reader x); [|done..]. injection H as <-. by apply uc_inv_streams.
  - intros (x & Hx & H)%bind_Some. destruct (st_reader x) eqn:Er; [done|..|done]; injection H as <-.
    + apply uc_inv_streams; [by apply uc_inv_forget|done|done].
    + apply uc_inv_streams; [by apply uc_inv_close|done|]. intros y (x0 & Hx0 & [[-> ?]|[-> _]])%alter_inv; done.
  - intros (x & Hx & H)%bind_Some. destruct (tm_due x); [|done]. destruct (_ <=? _); [|done]. injection H as <-.
    apply uc_inv_timer; [done|done|]. intros y _. right. cbn. lia.
  - intros (x & Hx & H)%bind_Some. destruct (0 <? _)%nat; [|done]. injection H as <-. by apply uc_inv_expire.
  - intros (x & Hx & H)%bind_Some. destruct (tm_closing x); [done|]. injection H as <-.
    apply uc_inv_close, uc_inv_timer; done.
  - destruct (0 <=? d); [|done]. intros [= <-]. destruct Hinv. by constructor.
Qed.

Lemma uc_inv_start : uc_inv uc_start.
Proof. constructor; cbn; [constructor; done|intros s d H; by apply elem_of_nil in H|done|done]. Qed.

Lemma uc_reachable_inv v timeout σ : uc_reachable v timeout σ → uc_inv σ.
Proof.
  revert σ. apply (rtc_ind_r (R:=uc_step v timeout) uc_inv uc_start); [apply uc_inv_start|].
  intros σ1 σ2 _ [a Ha] Hinv. by eapply uc_exec_inv.
Qed.

(** ** Properties *)

(** C18: the UDP listeners of the client send every datagram whole and to a stream
    of its own source address: the datagrams written to streams are, each with the
    source address its stream was opened for, a subsequence of those received, in
    the order of their arrival. *)
Theorem client_udp_routing v timeout σ :
  uc_reachable v timeout σ →
  sent_for (source σ) <$> sent σ `sublist_of` received <$> arrived σ ∧
  (∀ s d, (s, d) ∈ sent σ → is_Some (source σ s)).
Proof.
  intros [_ Hk Hl _]%uc_reachable_inv. split.
  - etrans; [|exact Hl]. rewrite fmap_app. by apply sublist_inserts_r.
  - intros s d H. apply (Hk s d). apply elem_of_app. by left.
Qed.

(** A registered session expires: a stream that is found under its source
    address has its own timer registered under the same address, and that timer is
    armed or already running its function. *)
Theorem client_udp_session_timer v timeout σ k s :
  uc_reachable v timeout σ → clients σ !! k = Some s →
  source σ s = Some k ∧
  ∃ t y, timers σ !! k = Some t ∧ tms σ !! t = Some y ∧ tm_stream y = s ∧ tm_source y = k ∧ live y.
Proof.
  intros [Hm _ _ _]%uc_reachable_inv Hc. destruct (mo_client _ _ _ _ Hm k s Hc) as [Hs [t Ht]].
  split; [done|]. destruct (mo_timer _ _ _ _ Hm k t Ht) as (y & Hy & Hk & Hcy & Hl).
  exists t, y. split_and!; try done. congruence.
Qed.

Definition bob : bytes := b#"198.51.100.9:4000".
Definition dns1 : bytes * Z := (b#"192.0.2.53", 53).
Definition dns2 : bytes * Z := (b#"203.0.113.53", 53).

(** The first stream of a peer fails; before its goroutine has cleaned up, the peer
    opens a second one. *)
Definition orphan_run : list uc_action :=
  [Datagram bob dns1 b#"one" true; WriteDone false; FailedStep; FailedStep; ReadFails 0;
   Datagram bob dns1 b#"two" true; WriteDone true; ReaderStep 0; ReaderStep 0].

(** An open stream that no map knows and whose timer will never run. *)
Definition orphan (s : nat) (σ : udp_client) : bool :=
  match streams σ !! s with
  | Some x => st_open x && match st_reader x with Reading => true | _ => false end
  | None => false
  end &&
  negb (existsb (λ y, bool_decide (tm_stream y = s) &&
                      (match tm_due y with Some _ => true | None => false end || negb (tm_waiting y =? 0)%nat ||
                       negb (tm_closing y =? 0)%nat)) (tms σ)) &&
  bool_decide (map_to_list (clients σ) = []) && bool_decide (map_to_list (timers σ) = []).

(** The clean-up of a finished stream deletes by address, not by stream: there
    is an execution in which the goroutine of a failed stream removes and disarms
    its successor: that stream is open and read from, but no map knows it and its
    timer is stopped, so the client never ends it for being idle, and the next
    datagram of the peer opens a third stream. *)
Theorem client_udp_orphan :
  match uc_runs UdpTunnel (30 * 10 ^ 9) orphan_run uc_start with
  | Some σ => orphan 1 σ = true
  | None => False
  end.
Proof. vm_compute. reflexivity. Qed.

(** The transparent UDP proxy finds a stream by the source address alone: when a
    source that has a stream sends to another destination, the datagram is written
    to the stream of the first destination. *)
Theorem tproxy_ignores_destination timeout σ k s x tgt d ok :
  main σ = MRead → clients σ !! k = Some s → streams σ !! s = Some x →
  ∃ σ', uc_exec TProxyTunnel timeout (Datagram k tgt d ok) σ = Some σ' ∧
    main σ' = MWrite s (length d `min` length (ubuf σ))%nat ∧ streams σ' !! s = Some x ∧ length (streams σ') = length (streams σ).
Proof.
  intros Hm Hc Hx. cbn [uc_exec]. rewrite Hm. eexists. split; [reflexivity|]. unfold datagram.
  cbn [clients add_arrival]. rewrite Hc.
  match goal with |- context [touch ?t ?k ?σ] => destruct (touch_streams t k σ) as (Es & _) end.
  cbn. by rewrite Es.
Qed.

(** ** Examples *)

Lemma uc_runs_reachable v timeout acts σ σ' :
  uc_reachable v timeout σ → uc_runs v timeout acts σ = Some σ' → uc_reachable v timeout σ'.
Proof.
  revert σ. induction acts as [|a acts IH]; intros σ Hr; cbn [uc_runs]; [by intros [= <-]|].
  intros (σ1 & E & H)%bind_Some. eapply IH; [|exact H]. eapply rtc_r; [done|]. by exists a.
Qed.

#[local] Opaque read_buffer.

Lemma uc_sample v : ∃ σ x, uc_reachable v 30 σ ∧ main σ = MRead ∧ clients σ !! bob = Some 0%nat ∧ streams σ !! 0%nat = Some x.
Proof.
  assert (∃ σ, uc_runs v 30 [Datagram bob dns1 b#"query" true; WriteDone true] uc_start = Some σ ∧ main σ = MRead ∧
    clients σ !! bob = Some 0%nat ∧ is_Some (streams σ !! 0%nat)) as (σ & E & H1 & H2 & [x Hx]).
  { cbn [uc_runs uc_exec main uc_start mbind option_bind]. unfold datagram.
    cbn [clients add_arrival uc_start]. rewrite lookup_empty. eexists. split; [reflexivity|]. split_and!; [done|done|by eexists]. }
  exists σ, x. split_and!; try done. by eapply uc_runs_reachable; [apply rtc_refl|exact E].
Qed.

Lemma client_udp_routing_witness : ∃ σ,
  sent_for (source σ) <$> sent σ `sublist_of` received <$> arrived σ ∧ (∀ s d, (s, d) ∈ sent σ → is_Some (source σ s)).
Proof.
  destruct (uc_sample UdpTunnel) as (σ & x & Hr & _). exists σ. exact (client_udp_routing UdpTunnel 30 σ Hr).
Defined.

Lemma client_udp_session_timer_witness : ∃ σ,
  source σ 0 = Some bob ∧
  ∃ t y, timers σ !! bob = Some t ∧ tms σ !! t = Some y ∧ tm_stream y = 0%nat ∧ tm_source y = bob ∧ live y.
Proof.
  destruct (uc_sample TProxyTunnel) as (σ & x & Hr & _ & Hc & _). exists σ.
  exact (client_udp_session_timer TProxyTunnel 30 σ bob 0 Hr Hc).
Defined.

Lemma tproxy_ignores_destination_witness : ∃ σ x σ',
  uc_exec TProxyTunnel 30 (Datagram bob dns2 b#"other" true) σ = Some σ' ∧
  main σ' = MWrite 0 (length b#"other" `min` length (ubuf σ))%nat ∧ streams σ' !! 0%nat = Some x ∧
  length (streams σ') = length (streams σ).
Proof.
  destruct (uc_sample TProxyTunnel) as (σ & x & Hr & Hm & Hc & Hx). exists σ, x.
  exact (tproxy_ignores_destination 30 σ bob 0 x dns2 b#"other" true Hm Hc Hx).
Defined.
