(* ===== verification/Keepalive.v ===== *)
(** pkg/client/client.go: [startPipe] and [startPipeRWC], and the handlers of
    pkg/server/server.go as far as they write: the goroutines around one tunnelled
    connection and the order in which they end.

    The two goroutines of the pipe, the goroutine of the ping ticker and the caller
    share a WebSocket.  Three of them write to it: the pipe its data and its close
    message, the reader the pong that its ping handler sends, the ticker its pings.
    The WebSocket of the program takes a lock for a message; the one of the gorilla
    library does not, its documentation leaves it to the caller that at most one
    goroutine writes.  Data is the subject of the files on pipes; here a step is a
    change of where a goroutine stands.

    Two calls wait for the peer of the local side: the [Read] of the one goroutine and
    the [Write] of the other, so each is a state of its own that only that peer, or the
    closing of the local side, ends.  Messages that the reader of the WebSocket has
    buffered are read also after the carrier is closed. *)

From S2P Require Import Prelude.

Inductive websocket := Native | Gorilla.

(** A goroutine and a message: none, waiting to write one, inside [WriteMessage]. *)
Inductive phase := Idle | Wants | Inside.

(** The goroutine that reads the local side: copying, writing the deferred close
    message, ended. *)
Inductive out_state := Copying (p : phase) | Closing (p : phase) | OutGone.

(** The goroutine that reads the WebSocket: in [ReadMessage], where the message it may
    be writing is a pong, inside [tcpConn.Write], ended. *)
Inductive in_state := Receiving (p : phase) | Delivering | InGone.

(** The goroutine of the ticker. *)
Inductive tick_state := Ticking (p : phase) | TickGone.

(** [closable]: whether closing the local side ends its reads; closing stdin and
    stdout does nothing.  [buffered]: the messages that have arrived in the buffer of
    the WebSocket and are not yet read. *)
Record pipe_state := mkPipeState {
  ws : websocket;
  closable : bool;
  out : out_state;
  inn : in_state;
  tick : tick_state;
  returned : bool;
  conn_open : bool;
  local_open : bool;
  buffered : nat
}.

Definition set_out (x : out_state) (s : pipe_state) : pipe_state :=
  mkPipeState (ws s) (closable s) x (inn s) (tick s) (returned s) (conn_open s) (local_open s) (buffered s).
Definition set_tick (x : tick_state) (s : pipe_state) : pipe_state :=
  mkPipeState (ws s) (closable s) (out s) (inn s) x (returned s) (conn_open s) (local_open s) (buffered s).
Definition set_in (x : in_state) (s : pipe_state) : pipe_state :=
  mkPipeState (ws s) (closable s) (out s) x (tick s) (returned s) (conn_open s) (local_open s) (buffered s).
Definition close_conn (s : pipe_state) : pipe_state :=
  mkPipeState (ws s) (closable s) (out s) (inn s) (tick s) (returned s) false (local_open s) (buffered s).

Definition with_buf (n : nat) (s : pipe_state) : pipe_state :=
  mkPipeState (ws s) (closable s) (out s) (inn s) (tick s) (returned s) (conn_open s) (local_open s) n.

(** The reader ends: its deferred [Close] of the local side. *)
Definition in_returns (s : pipe_state) : pipe_state :=
  mkPipeState (ws s) (closable s) (out s) InGone (tick s) (returned s) (conn_open s) (local_open s && negb (closable s)) (buffered s).

(** The pipe has returned: [cancel()] and [ts.Close()]. *)
Definition pipe_returns (s : pipe_state) : pipe_state :=
  mkPipeState (ws s) (closable s) (out s) (inn s) (tick s) true false (local_open s) (buffered s).

Definition inside (p : phase) : nat := match p with Inside => 1 | _ => 0 end.

(** How many goroutines are inside [WriteMessage]. *)
Definition writers (s : pipe_state) : nat :=
  match out s with Copying p | Closing p => inside p | OutGone => 0 end +
  match inn s with Receiving p => inside p | Delivering | InGone => 0 end +
  match tick s with Ticking p => inside p | TickGone => 0 end.

(** Whether a goroutine that wants to write may start: the lock [muw] is free. *)
Definition may_write (s : pipe_state) : bool :=
  match ws s with Native => (writers s =? 0)%nat | Gorilla => true end.

(** ** Steps *)

(** What the peers and the clock do is an action too.  The peer of the local side sends
    ([OutRead]), ends or breaks its side ([OutEnds]), and takes or refuses what is written
    to it ([InWritten]); the carrier brings a message ([InArrives]) or ends ([InEnds],
    also a close message or a frame that is refused); the clock ticks ([TickFires]). *)
Inductive ka_action :=
  | OutRead
  | OutEnds
  | OutReadFails
  | OutEnter
  | OutExit (ok : bool)
  | InArrives
  | InData
  | InWritten (ok : bool)
  | InPing
  | InSkip
  | InEnds
  | InReadFails
  | InEnter
  | InExit (ok : bool)
  | TickFires
  | TickCancelled
  | TickEnter
  | TickExit (ok : bool)
  | PipeReturns.

Definition local_peer (a : ka_action) : bool :=
  match a with OutRead | OutEnds | InWritten _ => true | _ => false end.

Definition environment (a : ka_action) : bool :=
  local_peer a || match a with InArrives | InEnds | TickFires => true | _ => false end.

(** A message that is written to a closed connection fails. *)
Definition write_ok (ok : bool) (s : pipe_state) : bool := implb ok (conn_open s).

(** [tcpConn.Read] and [wsConn.WriteMessage] of the first goroutine. *)
Definition out_exec (a : ka_action) (s : pipe_state) : option pipe_state :=
  match a, out s with
  | OutRead, Copying Idle => if local_open s then Some (set_out (Copying Wants) s) else None
  | OutEnds, Copying Idle => if local_open s then Some (set_out (Closing Wants) s) else None
  | OutReadFails, Copying Idle => if local_open s then None else Some (set_out (Closing Wants) s)
  | OutEnter, Copying Wants => if may_write s then Some (set_out (Copying Inside) s) else None
  | OutEnter, Closing Wants => if may_write s then Some (set_out (Closing Inside) s) else None
  | OutExit ok, Copying Inside =>
      if write_ok ok s then Some (set_out (if ok then Copying Idle else Closing Wants) s) else None
  | OutExit ok, Closing Inside => if write_ok ok s then Some (set_out OutGone s) else None
  | _, _ => None
  end.

(** [wsConn.ReadMessage] of the second goroutine, with the ping handler it calls, and
    [tcpConn.Write]: a message is data, a ping, or one that is passed over.  Reading a
    closed connection fails only when the buffer is empty. *)
Definition in_exec (a : ka_action) (s : pipe_state) : option pipe_state :=
  match a, inn s with
  | InArrives, _ => if conn_open s then Some (with_buf (S (buffered s)) s) else None
  | InData, Receiving Idle => match buffered s with S n => Some (set_in Delivering (with_buf n s)) | O => None end
  | InWritten ok, Delivering =>
      if implb ok (local_open s) then Some (if ok then set_in (Receiving Idle) s else in_returns s) else None
  | InPing, Receiving Idle => match buffered s with S n => Some (set_in (Receiving Wants) (with_buf n s)) | O => None end
  | InSkip, Receiving Idle => match buffered s with S n => Some (with_buf n s) | O => None end
  | InEnds, Receiving Idle => if conn_open s then Some (in_returns s) else None
  | InReadFails, Receiving Idle =>
      match buffered s with S _ => None | O => if conn_open s then None else Some (in_returns s) end
  | InEnter, Receiving Wants => if may_write s then Some (set_in (Receiving Inside) s) else None
  | InExit ok, Receiving Inside =>
      if write_ok ok s then Some (if ok then set_in (Receiving Idle) s else in_returns s) else None
  | _, _ => None
  end.

(** The goroutine of the ticker: a ping that fails closes the connection. *)
Definition tick_exec (a : ka_action) (s : pipe_state) : option pipe_state :=
  match a, tick s with
  | TickFires, Ticking Idle => Some (set_tick (Ticking Wants) s)
  | TickCancelled, Ticking Idle => if returned s then Some (set_tick TickGone s) else None
  | TickEnter, Ticking Wants => if may_write s then Some (set_tick (Ticking Inside) s) else None
  | TickExit ok, Ticking Inside =>
      if write_ok ok s then Some (if ok then set_tick (Ticking Idle) s else set_tick TickGone (close_conn s)) else None
  | _, _ => None
  end.

Definition ka_exec (a : ka_action) (s : pipe_state) : option pipe_state :=
  match a with
  | OutRead | OutEnds | OutReadFails | OutEnter | OutExit _ => out_exec a s
  | InArrives | InData | InWritten _ | InPing | InSkip | InEnds | InReadFails | InEnter | InExit _ => in_exec a s
  | TickFires | TickCancelled | TickEnter | TickExit _ => tick_exec a s
  | PipeReturns =>
      match out s, inn s with
      | OutGone, InGone => if returned s then None else Some (pipe_returns s)
      | _, _ => None
      end
  end.

(** The goroutines start: the ticker only with a ping frequency. *)
Definition startPipe (w : websocket) (pingFrequency : Z) : pipe_state :=
  mkPipeState w true (Copying Idle) (Receiving Idle) (if 0 <? pingFrequency then Ticking Idle else TickGone) false true true 0.

(** [startPipeRWC] on stdin and stdout, whose [Close] does nothing. *)
Definition startPipeRWC (w : websocket) (pingFrequency : Z) : pipe_state :=
  mkPipeState w false (Copying Idle) (Receiving Idle) (if 0 <? pingFrequency then Ticking Idle else TickGone) false true true 0.

Definition ka_step (s s' : pipe_state) : Prop := ∃ a, ka_exec a s = Some s'.

Fixpoint ka_runs (acts : list ka_action) (s : pipe_state) : option pipe_state :=
  match acts with
  | [] => Some s
  | a :: acts' => s' ← ka_exec a s; ka_runs acts' s'
  end.

(** ** Finite states

    Every field but the number of buffered messages has finitely many values, and a step
    depends on that number only as far as it is zero.  So a statement about one step that
    is a boolean function of the state and the action holds when it evaluates to true on
    all states with at most one buffered message. *)

#[global] Instance phase_eq_dec : EqDecision phase.
Proof. solve_decision. Defined.
#[global] Instance out_eq_dec : EqDecision out_state.
Proof. solve_decision. Defined.
#[global] Instance in_eq_dec : EqDecision in_state.
Proof. solve_decision. Defined.
#[global] Instance tick_eq_dec : EqDecision tick_state.
Proof. solve_decision. Defined.
#[global] Instance websocket_eq_dec : EqDecision websocket.
Proof. solve_decision. Defined.
#[global] Instance action_eq_dec : EqDecision ka_action.
Proof. solve_decision. Defined.

Definition bools : list bool := [true; false].
Definition phases : list phase := [Idle; Wants; Inside].
Definition outs : list out_state := (Copying <$> phases) ++ (Closing <$> phases) ++ [OutGone].
Definition inns : list in_state := (Receiving <$> phases) ++ [Delivering; InGone].
Definition ticks : list tick_state := (Ticking <$> phases) ++ [TickGone].
Definition all_actions : list ka_action :=
  [OutRead; OutEnds; OutReadFails; OutEnter; InArrives; InData; InPing; InSkip; InEnds; InReadFails; InEnter;
   TickFires; TickCancelled; TickEnter; PipeReturns] ++
  (OutExit <$> bools) ++ (InWritten <$> bools) ++ (InExit <$> bools) ++ (TickExit <$> bools).
Definition all_states : list pipe_state :=
  w ← [Native; Gorilla]; c ← bools; o ← outs; i ← inns; t ← ticks; r ← bools; co ← bools; lo ← bools; n ← [0%nat; 1%nat];
  mret (mkPipeState w c o i t r co lo n).

Ltac listed := apply (bool_decide_unpack _); reflexivity.

(** The state with at most one of its buffered messages. *)
Definition clip (s : pipe_state) : pipe_state := with_buf (Nat.min 1 (buffered s)) s.

Lemma all_states_complete s : clip s ∈ all_states.
Proof.
  destruct s as [w c o i t r co lo n]. unfold all_states.
  assert (∀ b, b ∈ bools) as Hb by (intros []; listed).
  assert (o ∈ outs) as Ho by (destruct o as [[]|[]|]; listed).
  assert (i ∈ inns) as Hi by (destruct i as [[]| |]; listed).
  assert (t ∈ ticks) as Ht by (destruct t as [[]|]; listed).
  assert (w ∈ [Native; Gorilla]) as Hw by (destruct w; listed).
  assert (Nat.min 1 n ∈ [0%nat; 1%nat]) as Hn by (destruct n as [|[]]; listed).
  repeat (apply list_elem_of_bind; eexists; split; [|by eauto]). by apply list_elem_of_singleton.
Qed.

Lemma all_actions_complete a : a ∈ all_actions.
Proof. destruct a as [| | | |[]| | |[]| | | | | |[]| | | |[]|]; listed. Qed.

Lemma checked (P : pipe_state → ka_action → bool) :
  forallb (λ s, forallb (P s) all_actions) all_states = true → ∀ s a, P (clip s) a = true.
Proof.
  intros H s a. rewrite forallb_forall in H. specialize (H (clip s) (proj1 (list_elem_of_In _ _) (all_states_complete s))).
  rewrite forallb_forall in H. apply H, list_elem_of_In, all_actions_complete.
Qed.

(** The state with at most one buffered message differs in nothing else. *)
Ltac unclip s :=
  change (out (clip s)) with (out s) in *; change (inn (clip s)) with (inn s) in *;
  change (tick (clip s)) with (tick s) in *; change (returned (clip s)) with (returned s) in *;
  change (conn_open (clip s)) with (conn_open s) in *; change (local_open (clip s)) with (local_open s) in *;
  change (buffered (clip s)) with (Nat.min 1 (buffered s)) in *; change (may_write (clip s)) with (may_write s) in *.

Ltac by_cases a s E :=
  destruct a; cbn [ka_exec out_exec in_exec tick_exec] in E |- *; unfold write_ok in *; unclip s;
  try (destruct (buffered s) as [|n] eqn:Hb; cbn [Nat.min] in E |- *);
  repeat (case_match; try discriminate E); simplify_eq.

(** A step and the same step with at most one buffered message change the buffer alike. *)
Lemma ka_exec_clip a s s' : ka_exec a s = Some s' →
  ∃ n, ka_exec a (clip s) = Some (with_buf n s') ∧ (buffered s' + Nat.min 1 (buffered s) = n + buffered s)%nat.
Proof. intros E. by_cases a s E; eexists; (split; [reflexivity|cbn; rewrite ?Hb; lia]). Qed.

(** What can be done with one of the buffered messages can be done with all of them. *)
Lemma ka_exec_unclip a s s1 : ka_exec a (clip s) = Some s1 → ∃ s', ka_exec a s = Some s'.
Proof. intros E. by_cases a s E; by eexists. Qed.

(** ** Invariant *)

(** Everything has ended. *)
Definition finished (s : pipe_state) : bool :=
  bool_decide (out s = OutGone) && bool_decide (inn s = InGone) && bool_decide (tick s = TickGone) && returned s.

(** The kind of WebSocket and of local side never changes; the local side is
    closed, where it can be, exactly when the reader is gone; when the pipe has returned its goroutines are gone and
    the connection is closed; with the lock at most one goroutine writes. *)
Definition ka_inv (w : websocket) (c : bool) (s : pipe_state) : bool :=
  bool_decide (ws s = w) && eqb (closable s) c &&
  eqb (local_open s) (negb (c && bool_decide (inn s = InGone))) &&
  implb (returned s) (bool_decide (out s = OutGone) && bool_decide (inn s = InGone) && negb (conn_open s)) &&
  match w with Native => (writers s <=? 1)%nat | Gorilla => true end &&
  bool_decide (out s ≠ Closing Idle).

Definition steps_to (P : pipe_state → bool) (a : ka_action) (s : pipe_state) : bool :=
  match ka_exec a s with Some s' => P s' | None => true end.

Lemma ka_exec_inv w c a s s' : ka_inv w c s = true → ka_exec a s = Some s' → ka_inv w c s' = true.
Proof.
  intros Hi (n & E & _)%ka_exec_clip. pose proof (checked (λ s a, implb (ka_inv w c s) (steps_to (ka_inv w c) a s))) as H.
  assert (forallb (λ s, forallb (λ a, implb (ka_inv w c s) (steps_to (ka_inv w c) a s)) all_actions) all_states = true) as Hc
    by (destruct w, c; vm_compute; reflexivity).
  specialize (H Hc s a). cbv beta in H. unfold steps_to in H. rewrite E in H.
  change (ka_inv w c (clip s)) with (ka_inv w c s) in H. by rewrite Hi in H.
Qed.

(** How far the goroutines still have to go once the connection is closed. *)
Definition weight (s : pipe_state) : nat :=
  match out s with
  | Copying Idle => 6 | Copying Wants => 5 | Copying Inside => 4
  | Closing Idle => 3 | Closing Wants => 3 | Closing Inside => 2 | OutGone => 0
  end +
  match inn s with Receiving Wants => 3 | Receiving Inside => 2 | Receiving Idle => 1 | Delivering => 2 | InGone => 0 end +
  match tick s with Ticking Idle => 3 | Ticking Wants => 2 | Ticking Inside => 1 | TickGone => 0 end +
  (if returned s then 0 else 1) +
  3 * buffered s.

(** With a closed connection every step brings the end nearer and keeps it closed. *)
Lemma ka_exec_weight a s s' : conn_open s = false → ka_exec a s = Some s' → (weight s' < weight s)%nat ∧ conn_open s' = false.
Proof.
  intros Hc (n & E & Hn)%ka_exec_clip.
  pose proof (checked (λ s a, conn_open s || steps_to (λ s', (weight s' <? weight s)%nat && negb (conn_open s')) a s)
    ltac:(vm_compute; reflexivity) s a) as H.
  cbv beta in H. unfold steps_to in H. rewrite E in H. change (conn_open (clip s)) with (conn_open s) in H.
  rewrite Hc in H. cbn [orb] in H. apply andb_prop in H as [H1%Nat.ltb_lt H2%negb_true_iff].
  split; [|exact H2]. unfold weight in *. unfold clip, with_buf in H1. cbn [out inn tick returned buffered] in H1. lia.
Qed.

Definition enabled (s : pipe_state) (a : ka_action) : bool := match ka_exec a s with Some _ => true | None => false end.

(** Whether something can be done without the peers and the clock, or the reader is inside
    the [Write] of the local side. *)
Definition goes_on (s : pipe_state) : bool :=
  existsb (λ a, negb (environment a) && enabled s a) all_actions ||
  bool_decide (inn s = Delivering) && enabled s (InWritten true) && enabled s (InWritten false).

Lemma enabled_unclip s a : enabled (clip s) a = true → ∃ s', ka_exec a s = Some s'.
Proof. unfold enabled. destruct (ka_exec a (clip s)) as [s1|] eqn:E; [|done]. by intros _; eapply ka_exec_unclip. Qed.

(** With a closed connection and a closable local side something can always be done
    without the peers and the clock, unless the reader is inside the [Write] of the local
    side, until everything has ended. *)
Lemma ka_progress w s : ka_inv w true s = true → conn_open s = false → finished s = false →
  (∃ a s', environment a = false ∧ ka_exec a s = Some s') ∨
  (inn s = Delivering ∧ ∀ ok, ∃ s', ka_exec (InWritten ok) s = Some s').
Proof.
  intros Hi Hc Hf. assert (goes_on (clip s) = true) as H.
  { pose proof (checked (λ s _, implb (ka_inv w true s && negb (conn_open s) && negb (finished s)) (goes_on s))) as H.
    assert (forallb (λ s, forallb (λ _, implb (ka_inv w true s && negb (conn_open s) && negb (finished s)) (goes_on s))
      all_actions) all_states = true) as Hk by (destruct w; vm_compute; reflexivity).
    specialize (H Hk s PipeReturns). cbv beta in H.
    change (ka_inv w true (clip s)) with (ka_inv w true s) in H. change (conn_open (clip s)) with (conn_open s) in H.
    change (finished (clip s)) with (finished s) in H. by rewrite Hi, Hc, Hf in H. }
  unfold goes_on in H. apply orb_prop in H as [H|H].
  - left. apply existsb_exists in H as (a & _ & H). apply andb_prop in H as [He%negb_true_iff (s' & H)%enabled_unclip]. eauto.
  - right. rewrite !andb_true_iff, bool_decide_eq_true in H. destruct H as [[Hd Ht] Hr]. split; [exact Hd|].
    intros []; by apply enabled_unclip.
Qed.

(** ** Reachable states *)

Lemma startPipe_inv w freq : ka_inv w true (startPipe w freq) = true.
Proof. unfold startPipe. by destruct w, (0 <? freq). Qed.

Lemma startPipeRWC_inv w freq : ka_inv w false (startPipeRWC w freq) = true.
Proof. unfold startPipeRWC. by destruct w, (0 <? freq). Qed.

Lemma ka_reachable_inv w c s s' : ka_inv w c s = true → rtc ka_step s s' → ka_inv w c s' = true.
Proof. intros Hi Hr. induction Hr as [|? ? ? [a Ha]]; eauto using ka_exec_inv. Qed.

Lemma ka_runs_steps acts s s' : ka_runs acts s = Some s' → rtc ka_step s s'.
Proof.
  revert s. induction acts as [|a acts IH]; intros s; cbn [ka_runs]; [by intros [= <-]|].
  intros (s1 & E & H)%bind_Some. eapply rtc_l; [by exists a|by apply IH].
Qed.

Lemma ka_bounded n s s' : conn_open s = false → nsteps ka_step n s s' → (n ≤ weight s)%nat.
Proof.
  intros Hc Hn. induction Hn as [s|n s s1 s2 [a Ha] _ IH]; [lia|].
  destruct (ka_exec_weight _ _ _ Hc Ha) as [Hw Hc1]. specialize (IH Hc1). lia.
Qed.

(** ** Properties *)

(** C19: a tunnelled connection shuts down unless the local peer stalls: once its carrier
    is closed at this end, by a ping that failed, then from every state that the goroutines
    of [startPipe] can be in, with and without pings and with any number of messages still
    buffered, they take at most as many further steps as [weight] says, whatever the peers
    and the clock do; and as long as one of them has not ended, one of them can go on
    without waiting for peers or clock, or the reader is inside the [Write] of the local
    connection, which goes on as soon as the local peer takes or refuses the data.  So all
    of them end and [startPipe] returns, unless the local peer stops reading while it keeps
    its connection open. *)
Theorem pipe_shuts_down w freq s :
  rtc ka_step (startPipe w freq) s → conn_open s = false →
  (∀ n s', nsteps ka_step n s s' → (n ≤ weight s)%nat) ∧
  (finished s = true ∨
   (∃ a s', environment a = false ∧ ka_exec a s = Some s') ∨
   (inn s = Delivering ∧ ∀ ok, ∃ s', ka_exec (InWritten ok) s = Some s')).
Proof.
  intros Hr Hc. apply (ka_reachable_inv w true) in Hr; [|apply startPipe_inv]. split.
  - intros n s'. by apply ka_bounded.
  - destruct (finished s) eqn:Hf; [by left|]. right. by eapply ka_progress.
Qed.

(** A local peer that stops reading keeps the tunnel alive after its carrier is gone:
    when a ping has failed and the ticker has closed the carrier while the reader is inside
    the [Write] of the local connection, nothing but the local peer makes anything go on;
    the reader does not see the closed carrier, the other goroutine waits in [Read], and
    [startPipe] does not return. *)
Theorem stalled_peer_blocks w freq : 0 < freq →
  ∃ s, rtc ka_step (startPipe w freq) s ∧ conn_open s = false ∧ inn s = Delivering ∧ out s = Copying Idle ∧
    returned s = false ∧ ∀ a s', ka_exec a s = Some s' → local_peer a = true.
Proof.
  intros Hf%Z.ltb_lt. exists (mkPipeState w true (Copying Idle) Delivering TickGone false false true 0).
  split; [apply (ka_runs_steps [InArrives; InData; TickFires; TickEnter; TickExit false]); unfold startPipe;
    rewrite Hf; by destruct w|].
  split_and!; [done..|]. intros a s'. by destruct a.
Qed.

(** When [startPipe] has returned, both goroutines of the pipe have ended and the
    carrier and the local connection are closed; and over the program's own WebSocket
    at most one goroutine is ever inside [WriteMessage]. *)
Theorem startPipe_clean w freq s :
  rtc ka_step (startPipe w freq) s →
  (returned s = true → out s = OutGone ∧ inn s = InGone ∧ conn_open s = false ∧ local_open s = false) ∧
  (w = Native → (writers s ≤ 1)%nat).
Proof.
  intros Hr. apply (ka_reachable_inv w true) in Hr; [|apply startPipe_inv].
  unfold ka_inv in Hr. rewrite !andb_true_iff in Hr. destruct Hr as [[[[[_ _] Hl] Hret] Hw] _]. split.
  - intros E. rewrite E in Hret. cbn in Hret. rewrite !andb_true_iff, !bool_decide_eq_true, negb_true_iff in Hret.
    destruct Hret as [[Ho Hi] Hc]. rewrite Hi, bool_decide_true in Hl by done. apply eqb_prop in Hl. done.
  - intros ->. by apply Nat.leb_le.
Qed.

(** C39: over the gorilla WebSocket two goroutines write at once: the pong that answers a
    ping is written by the reading goroutine while the other one writes data, and so is
    the ping of the ticker, although the library allows one concurrent writer and no lock
    is taken. *)
Theorem gorilla_concurrent_writers freq :
  (∃ s, rtc ka_step (startPipe Gorilla freq) s ∧ out s = Copying Inside ∧ inn s = Receiving Inside ∧ writers s = 2%nat) ∧
  (0 < freq → ∃ s, rtc ka_step (startPipe Gorilla freq) s ∧ out s = Copying Inside ∧ tick s = Ticking Inside ∧ writers s = 2%nat).
Proof.
  split.
  - exists (mkPipeState Gorilla true (Copying Inside) (Receiving Inside) (if 0 <? freq then Ticking Idle else TickGone) false true true 0).
    split; [apply (ka_runs_steps [OutRead; OutEnter; InArrives; InPing; InEnter])|]; unfold startPipe; destruct (0 <? freq); done.
  - intros Hf. exists (mkPipeState Gorilla true (Copying Inside) (Receiving Idle) (Ticking Inside) false true true 0).
    apply Z.ltb_lt in Hf. unfold startPipe. rewrite Hf.
    split; [by apply (ka_runs_steps [OutRead; OutEnter; TickFires; TickEnter])|done].
Qed.

(** A tunnel of stdin and stdout does not shut down by itself: after the peer has
    ended the tunnel and the reader is gone, the other goroutine still waits for input,
    and no goroutine goes on without input: only messages that nobody reads may arrive. *)
Theorem stdio_waits_for_input w :
  ∃ s, rtc ka_step (startPipeRWC w 0) s ∧ conn_open s = true ∧ inn s = InGone ∧ finished s = false ∧
    ∀ a s', ka_exec a s = Some s' → a = OutRead ∨ a = OutEnds ∨ a = InArrives.
Proof.
  exists (mkPipeState w false (Copying Idle) InGone TickGone false true true 0).
  split; [apply (ka_runs_steps [InEnds]); by destruct w|]. split_and!; [done..|].
  intros a s'. destruct a; cbn; intros E; try discriminate E; auto.
Qed.

(** ** Examples *)

Lemma pipe_shuts_down_witness :
  let s := mkPipeState Native true (Copying Wants) (Receiving Idle) TickGone false false true 2 in
  rtc ka_step (startPipe Native 30) s ∧
  (∀ n s', nsteps ka_step n s s' → (n ≤ weight s)%nat) ∧
  (finished s = true ∨
   (∃ a s', environment a = false ∧ ka_exec a s = Some s') ∨
   (inn s = Delivering ∧ ∀ ok, ∃ s', ka_exec (InWritten ok) s = Some s')).
Proof.
  intros s.
  assert (rtc ka_step (startPipe Native 30) s) as Hr
    by (apply (ka_runs_steps [OutRead; InArrives; InArrives; InArrives; InData; InWritten true; TickFires; TickEnter; TickExit false]); reflexivity).
  split; [exact Hr|]. apply (pipe_shuts_down Native 30 s Hr). reflexivity.
Defined.

(** The carrier is gone and the local peer has stalled. *)
Lemma stalled_peer_blocks_witness :
  ∃ s, rtc ka_step (startPipe Native 30) s ∧ conn_open s = false ∧ inn s = Delivering ∧ out s = Copying Idle ∧
    returned s = false ∧ ∀ a s', ka_exec a s = Some s' → local_peer a = true.
Proof. apply (stalled_peer_blocks Native 30). reflexivity. Defined.

Lemma startPipe_clean_witness :
  let s := mkPipeState Native true OutGone InGone TickGone true false false 0 in
  (returned s = true → out s = OutGone ∧ inn s = InGone ∧ conn_open s = false ∧ local_open s = false) ∧
  (Native = Native → (writers s ≤ 1)%nat).
Proof.
  intros s. apply (startPipe_clean Native 0 s).
  apply (ka_runs_steps [OutEnds; OutEnter; OutExit true; InEnds; PipeReturns]). reflexivity.
Defined.
