(* ===== verification/CertReloader.v ===== *)
(** pkg/server/tls_reloader.go: the certificate of a running server and the
    goroutines that replace it ([clientCertReloader] of pkg/client/client.go is the
    same code for the client, modelled in [Dialers]).

    The two files are on a disk that anyone may write at any moment.  The steps are
    the single calls of the goroutines: the two [os.Stat] of a tick, the two reads
    and the parse of [tls.LoadX509KeyPair], the store under the lock.  A file is its
    contents and its modification time; every modification has a later time than the
    ones before. *)

From S2P Require Import Prelude.

(** Where a call of [Reload] is: about to read the certificate, about to read the
    key, about to store what it parsed. *)
Inductive loading := ReadCert | ReadKey (c : bytes) | Store (c k : bytes).

(** The goroutine of [WatchFiles]: waiting for its ticker, or reloading after it saw
    these modification times. *)
Inductive watcher_state := WaitTick | Reloading (mods : Z * Z) (l : loading).

(** The goroutine of [WatchSignals]. *)
Inductive handler_state := WaitSignal | Handling (l : loading).

(** [lastMods]: the watcher's [lastCertMod] and [lastKeyMod], nothing while they are
    zero; [reloaded] says whether they come from a reload. *)
Record reloader := mkReloader {
  certFile : option (bytes * Z);
  keyFile : option (bytes * Z);
  written : Z;
  cert : option (bytes * bytes);
  lastMods : option (Z * Z);
  watcher : watcher_state;
  handler : handler_state;
  reloaded : bool
}.

Definition set_files (c k : option (bytes * Z)) (t : Z) (σ : reloader) : reloader :=
  mkReloader c k t (cert σ) (lastMods σ) (watcher σ) (handler σ) (reloaded σ).
Definition set_cert (x : bytes * bytes) (σ : reloader) : reloader :=
  mkReloader (certFile σ) (keyFile σ) (written σ) (Some x) (lastMods σ) (watcher σ) (handler σ) (reloaded σ).
Definition set_mods (m : Z * Z) (b : bool) (σ : reloader) : reloader :=
  mkReloader (certFile σ) (keyFile σ) (written σ) (cert σ) (Some m) (watcher σ) (handler σ) b.
Definition set_watcher (w : watcher_state) (σ : reloader) : reloader :=
  mkReloader (certFile σ) (keyFile σ) (written σ) (cert σ) (lastMods σ) w (handler σ) (reloaded σ).
Definition set_handler (h : handler_state) (σ : reloader) : reloader :=
  mkReloader (certFile σ) (keyFile σ) (written σ) (cert σ) (lastMods σ) (watcher σ) h (reloaded σ).

Section reloader.
(** Whether a certificate and a key parse and belong together. *)
Context (KeyPair : bytes → bytes → bool).

(** One call of [Reload]: it goes on, fails, or ends with the pair to store. *)
Inductive progress := Continue (l : loading) | Fails | Stores (x : bytes * bytes).

Definition Reload (σ : reloader) (l : loading) : progress :=
  match l with
  | ReadCert => match certFile σ with Some (c, _) => Continue (ReadKey c) | None => Fails end
  | ReadKey c =>
      match keyFile σ with
      | Some (k, _) => if KeyPair c k then Continue (Store c k) else Fails
      | None => Fails
      end
  | Store c k => Stores (c, k)
  end.

(** The three outcomes of [NewCertReloader] on a quiet disk. *)
Definition NewCertReloader (c k : option (bytes * Z)) (now : Z) : go reloader :=
  match c, k with
  | Some (c', _), Some (k', _) =>
      if KeyPair c' k' then Ok (mkReloader c k now (Some (c', k')) None WaitTick WaitSignal false)
      else Err (Errorf b#"failed to reload certificate %s / key %s: %w" [])
  | _, _ => Err (Errorf b#"failed to reload certificate %s / key %s: %w" [])
  end.

Definition GetCertificate (σ : reloader) : go (bytes * bytes) :=
  match cert σ with Some x => Ok x | None => Err (Errorf b#"no TLS certificate loaded" []) end.

(** One tick of [WatchFiles], up to the call of [Reload]. *)
Definition tick (σ : reloader) : reloader :=
  match certFile σ, keyFile σ with
  | Some (_, m1), Some (_, m2) =>
      match lastMods σ with
      | None => set_mods (m1, m2) false σ
      | Some (l1, l2) => if (l1 <? m1) || (l2 <? m2) then set_watcher (Reloading (m1, m2) ReadCert) σ else σ
      end
  | _, _ => σ
  end.

(** ** Steps *)

Inductive cr_action :=
  | WriteCert (c : option bytes) (d : Z)
  | WriteKey (k : option bytes) (d : Z)
  | Tick
  | WatchStep
  | Signal
  | SignalStep.

Definition cr_exec (signals : bool) (a : cr_action) (σ : reloader) : option reloader :=
  match a with
  | WriteCert c d =>
      if 0 <? d then Some (set_files ((λ x, (x, written σ + d)) <$> c) (keyFile σ) (written σ + d) σ) else None
  | WriteKey k d =>
      if 0 <? d then Some (set_files (certFile σ) ((λ x, (x, written σ + d)) <$> k) (written σ + d) σ) else None
  | Tick => match watcher σ with WaitTick => Some (tick σ) | Reloading _ _ => None end
  | WatchStep =>
      match watcher σ with
      | WaitTick => None
      | Reloading mods l =>
          Some (match Reload σ l with
                | Continue l' => set_watcher (Reloading mods l') σ
                | Fails => set_watcher WaitTick σ
                | Stores x => set_watcher WaitTick (set_mods mods true (set_cert x σ))
                end)
      end
  | Signal => match handler σ with WaitSignal => if signals then Some (set_handler (Handling ReadCert) σ) else None | _ => None end
  | SignalStep =>
      match handler σ with
      | WaitSignal => None
      | Handling l =>
          Some (match Reload σ l with
                | Continue l' => set_handler (Handling l') σ
                | Fails => set_handler WaitSignal σ
                | Stores x => set_handler WaitSignal (set_cert x σ)
                end)
      end
  end.

Definition cr_start (c k : option (bytes * Z)) (now : Z) (σ : reloader) : Prop :=
  NewCertReloader c k now = Ok σ ∧ (∀ x m, c = Some (x, m) ∨ k = Some (x, m) → m ≤ now).

Definition cr_step (signals : bool) (σ σ' : reloader) : Prop := ∃ a, cr_exec signals a σ = Some σ'.
Definition cr_reachable (signals : bool) (σ : reloader) : Prop := ∃ c k now σ0, cr_start c k now σ0 ∧ rtc (cr_step signals) σ0 σ.

Fixpoint cr_runs (signals : bool) (acts : list cr_action) (σ : reloader) : option reloader :=
  match acts with
  | [] => Some σ
  | a :: acts' => σ' ← cr_exec signals a σ; cr_runs signals acts' σ'
  end.

(** ** Invariants *)

(** What a reload in progress holds parses. *)
Definition loading_valid (l : loading) : Prop := match l with Store c k => KeyPair c k = true | _ => True end.

Record cr_valid (σ : reloader) : Prop := {
  cv_cert : ∃ c k, cert σ = Some (c, k) ∧ KeyPair c k = true;
  cv_watcher : match watcher σ with Reloading _ l => loading_valid l | WaitTick => True end;
  cv_handler : match handler σ with Handling l => loading_valid l | WaitSignal => True end
}.

(** [x] is what a file that has not been modified since [m] contains. *)
Definition current (f : option (bytes * Z)) (m : Z) (x : bytes) : Prop := ∀ y t, f = Some (y, t) → t ≤ m → y = x.

(** What a reload in progress holds is current as of the modification times that
    will be recorded for it. *)
Definition loading_current (σ : reloader) (mods : Z * Z) (l : loading) : Prop :=
  match l with
  | ReadCert => True
  | ReadKey c => current (certFile σ) mods.1 c
  | Store c k => current (certFile σ) mods.1 c ∧ current (keyFile σ) mods.2 k
  end.

Record cr_fresh (σ : reloader) : Prop := {
  cf_bounds : ∀ x t, certFile σ = Some (x, t) ∨ keyFile σ = Some (x, t) → t ≤ written σ;
  cf_cert : ∀ m c k, reloaded σ = true → lastMods σ = Some m → cert σ = Some (c, k) →
    current (certFile σ) m.1 c ∧ current (keyFile σ) m.2 k;
  cf_mods : ∀ m, lastMods σ = Some m → m.1 ≤ written σ ∧ m.2 ≤ written σ;
  cf_watcher : match watcher σ with
    | Reloading m l => m.1 ≤ written σ ∧ m.2 ≤ written σ ∧ loading_current σ m l
    | WaitTick => True
    end;
  cf_handler : handler σ = WaitSignal
}.

Lemma Reload_valid σ l : loading_valid l →
  match Reload σ l with Continue l' => loading_valid l' | Fails => True | Stores (c, k) => KeyPair c k = true end.
Proof. destruct l as [|c|c k]; cbn; [|intros _|done]; repeat case_match; naive_solver. Qed.

Lemma tick_frame σ : cert (tick σ) = cert σ ∧ handler (tick σ) = handler σ ∧
  (watcher (tick σ) = watcher σ ∨ ∃ m, watcher (tick σ) = Reloading m ReadCert).
Proof. unfold tick. repeat case_match; cbn; eauto. Qed.

Lemma cr_exec_valid signals a σ σ' : cr_valid σ → cr_exec signals a σ = Some σ' → cr_valid σ'.
Proof.
  intros [Hc Hw Hh]. destruct a; cbn [cr_exec].
  1,2: destruct (0 <? d); [|done]; intros [= <-]; by constructor.
  - destruct (watcher σ) eqn:E; [|done]. intros [= <-]. destruct (tick_frame σ) as (E1 & E2 & E3).
    constructor; [by rewrite E1| |by rewrite E2]. destruct E3 as [->|[m ->]]; [by rewrite E|done].
  - destruct (watcher σ) as [|m l] eqn:E; [done|]. intros [= <-]. pose proof (Reload_valid σ l Hw) as Hr.
    destruct (Reload σ l) as [l'| |[c k]]; constructor; cbn; eauto.
  - destruct (handler σ) eqn:E, signals; try done. intros [= <-]. by constructor.
  - destruct (handler σ) as [|l] eqn:E; [done|]. intros [= <-]. pose proof (Reload_valid σ l Hh) as Hr.
    destruct (Reload σ l) as [l'| |[c k]]; constructor; cbn; eauto.
Qed.

Lemma cr_start_valid c k now σ : cr_start c k now σ → cr_valid σ.
Proof.
  intros [E _]. unfold NewCertReloader in E. repeat case_match; simplify_eq. constructor; cbn; eauto.
Qed.

Lemma cr_reachable_valid signals σ : cr_reachable signals σ → cr_valid σ.
Proof.
  intros (c & k & now & σ0 & Hs%cr_start_valid & Hr). induction Hr as [|? ? ? [a Ha]]; [done|].
  eauto using cr_exec_valid.
Qed.

(** A modification is later than every recorded time, so it makes nothing stale. *)
Lemma current_written m x y t : m < t → current ((λ z : bytes, (z, t)) <$> y) m x.
Proof. intros Ht z s Hz Hs. destruct y; cbn in Hz; simplify_eq. lia. Qed.

Lemma cr_exec_fresh a σ σ' : cr_fresh σ → cr_exec false a σ = Some σ' → cr_fresh σ'.
Proof.
  intros [Hb Hc Hm Hw Hh]. destruct a; cbn [cr_exec].
  - destruct (Z.ltb_spec 0 d); [|done]. intros [= <-]. constructor; cbn; [|intros m x y H1 H2 H3; split| | |done].
    + intros x t [Hx|Hx]; [destruct c; cbn in Hx; simplify_eq; lia|]. specialize (Hb x t (or_intror Hx)). lia.
    + apply current_written. apply Hm in H2 as [? _]. lia.
    + by eapply Hc.
    + intros m [? ?]%Hm. lia.
    + destruct (watcher σ) as [|m l]; [done|]. destruct Hw as (? & ? & Hl). split_and!; [lia|lia|].
      destruct l; cbn in *; [done|by apply current_written; lia|]. split; [apply current_written; lia|apply Hl].
  - destruct (Z.ltb_spec 0 d); [|done]. intros [= <-]. constructor; cbn; [|intros m x y H1 H2 H3; split| | |done].
    + intros x t [Hx|Hx]; [|destruct k; cbn in Hx; simplify_eq; lia]. specialize (Hb x t (or_introl Hx)). lia.
    + by eapply Hc.
    + apply current_written. apply Hm in H2 as [_ ?]. lia.
    + intros m [? ?]%Hm. lia.
    + destruct (watcher σ) as [|m l]; [done|]. destruct Hw as (? & ? & Hl). split_and!; [lia|lia|].
      destruct l; cbn in *; [done|done|]. split; [apply Hl|apply current_written; lia].
  - destruct (watcher σ) eqn:Ew; [|done]. intros [= <-]. unfold tick.
    destruct (certFile σ) as [[c m1]|] eqn:E1; [|by constructor; rewrite ?E1, ?Ew].
    destruct (keyFile σ) as [[k m2]|] eqn:E2; [|by constructor; rewrite ?E1, ?E2, ?Ew].
    assert (m1 ≤ written σ ∧ m2 ≤ written σ) as [? ?] by (split; eapply Hb; eauto).
    destruct (lastMods σ) as [[l1 l2]|] eqn:E3.
    + destruct (_ || _); constructor; cbn; rewrite ?E1, ?E2, ?E3, ?Ew; done.
    + constructor; cbn; rewrite ?E1, ?E2, ?Ew; try done. intros m [= <-]. done.
  - destruct (watcher σ) as [|m l] eqn:Ew; [done|]. destruct Hw as (? & ? & Hl). intros [= <-].
    destruct l as [|c|c k]; cbn [Reload].
    + destruct (certFile σ) as [[c t]|] eqn:E1; constructor; cbn; rewrite ?E1; try done.
      split_and!; [done..|]. intros y s Hy _. by simplify_eq.
    + destruct (keyFile σ) as [[k t]|] eqn:E2; [destruct (KeyPair c k)|]; constructor; cbn; rewrite ?E2; try done.
      split_and!; [done..|]. intros y s Hy _. by simplify_eq.
    + constructor; cbn; try done; [|by intros m' [= <-]]. intros m' c' k' _ [= <-] [= <- <-]. done.
  - destruct (handler σ); done.
  - rewrite Hh. done.
Qed.

Lemma cr_reachable_fresh σ : cr_reachable false σ → cr_fresh σ.
Proof.
  intros (c & k & now & σ0 & [E Hb] & Hr).
  assert (cr_fresh σ0) as H0.
  { unfold NewCertReloader in E. repeat case_match; simplify_eq. by constructor. }
  clear E Hb. induction Hr as [|? ? ? [a Ha]]; [done|]. eauto using cr_exec_fresh.
Qed.
Lemma cr_runs_reachable signals acts σ σ' : cr_reachable signals σ → cr_runs signals acts σ = Some σ' → cr_reachable signals σ'.
Proof.
  revert σ. induction acts as [|a acts IH]; intros σ Hr; cbn [cr_runs]; [by intros [= <-]|].
  intros (σ1 & E & H)%bind_Some. eapply IH; [|exact H]. destruct Hr as (c & k & now & σ0 & Hs & Hr).
  exists c, k, now, σ0. split; [done|]. eapply rtc_r; [done|]. by exists a.
Qed.

(** ** Properties *)

(** C28: a running server always has a certificate, and always one whose key belongs to
    it: whatever is written to the files, at whatever moment of a reload, and however
    ticks and signals interleave, the pair that is served was read as a whole and
    passed the check of the key against the certificate. *)
Theorem cert_always_valid signals σ :
  cr_reachable signals σ → ∃ c k, GetCertificate σ = Ok (c, k) ∧ KeyPair c k = true.
Proof.
  intros [(c & k & Hc & Hk) _ _]%cr_reachable_valid. exists c, k. unfold GetCertificate. by rewrite Hc.
Qed.

(** The watcher does not forget a change: once it has reloaded, and as long as no
    reload by signal interferes, the certificate that is served is the one in the
    files whenever the files have the modification times it recorded, even if they
    were written while it was reading them. *)
Theorem cert_fresh σ c k m1 m2 :
  cr_reachable false σ → reloaded σ = true → lastMods σ = Some (m1, m2) →
  certFile σ = Some (c, m1) → keyFile σ = Some (k, m2) → GetCertificate σ = Ok (c, k).
Proof.
  intros Hr Hb Hm H1 H2. pose proof (cr_reachable_valid _ _ Hr) as [(c' & k' & Hc & _) _ _].
  apply cr_reachable_fresh in Hr as [_ Hf _ _ _]. destruct (Hf (m1, m2) c' k' Hb Hm Hc) as [E1 E2].
  unfold GetCertificate. rewrite Hc. rewrite (E1 c m1), (E2 k m2) by (done || cbn; lia). done.
Qed.

(** A change of the files is acted on: when a tick finds a later modification time
    than the recorded ones, a pair that fits is served and its times are recorded,
    and a pair that does not fit changes neither the served pair nor the recorded
    times, so the next tick tries again. *)
Theorem cert_change_handled signals σ c k m1 m2 l1 l2 :
  watcher σ = WaitTick → lastMods σ = Some (l1, l2) → certFile σ = Some (c, m1) → keyFile σ = Some (k, m2) →
  l1 < m1 ∨ l2 < m2 →
  ∃ σ', cr_runs signals ([Tick; WatchStep; WatchStep] ++ if KeyPair c k then [WatchStep] else []) σ = Some σ' ∧
    watcher σ' = WaitTick ∧
    if KeyPair c k then GetCertificate σ' = Ok (c, k) ∧ lastMods σ' = Some (m1, m2) ∧ reloaded σ' = true
    else GetCertificate σ' = GetCertificate σ ∧ lastMods σ' = lastMods σ.
Proof.
  intros Hw Hl H1 H2 Ht.
  assert (tick σ = set_watcher (Reloading (m1, m2) ReadCert) σ) as E.
  { unfold tick. rewrite H1, H2, Hl. destruct (Z.ltb_spec l1 m1), (Z.ltb_spec l2 m2); cbn; (done || lia). }
  cbn [app cr_runs cr_exec]. rewrite Hw, E. cbn -[tick]. rewrite H1. cbn -[tick]. rewrite H2.
  destruct (KeyPair c k) eqn:Ek; (eexists; split; [cbn; reflexivity|]); cbn; rewrite ?Hl; done.
Qed.
End reloader.

(** ** Two gaps, and examples *)

(** For the examples a key belongs to the certificate with the same text. *)
Definition same_text (c k : bytes) : bool := bool_decide (c = k).

Definition old_pair : go reloader := NewCertReloader same_text (Some (b#"old", 1)) (Some (b#"old", 1)) 1.

Lemma old_pair_start : ∃ σ, old_pair = Ok σ ∧ cr_reachable same_text false σ ∧ cr_reachable same_text true σ.
Proof.
  eexists. split; [reflexivity|].
  assert (cr_start same_text (Some (b#"old", 1)) (Some (b#"old", 1)) 1
    (mkReloader (Some (b#"old", 1)) (Some (b#"old", 1)) 1 (Some (b#"old", b#"old")) None WaitTick WaitSignal false)) as Hs.
  { split; [reflexivity|]. intros x m [H|H]; injection H; lia. }
  split; eexists _, _, _, _; (split; [exact Hs|apply rtc_refl]).
Qed.

(** A change between the first load and the first tick is never noticed: there is a
    reachable state in which the files hold a pair that fits and is not the served one,
    and every further tick leaves everything as it is. *)
Theorem first_change_missed :
  ∃ σ c k m1 m2, cr_reachable same_text false σ ∧ certFile σ = Some (c, m1) ∧ keyFile σ = Some (k, m2) ∧
    same_text c k = true ∧ GetCertificate σ ≠ Ok (c, k) ∧ cr_exec same_text false Tick σ = Some σ.
Proof.
  destruct old_pair_start as (σ0 & E & Hr & _). injection E as <-.
  eexists _, b#"new", b#"new", 2, 3. split.
  { eapply (cr_runs_reachable same_text false [WriteCert (Some b#"new") 1; WriteKey (Some b#"new") 1; Tick]); [exact Hr|vm_compute; reflexivity]. }
  split_and!; try reflexivity. discriminate.
Qed.

(** A reload by signal can undo a later one: it may read the old pair, be overtaken
    by the watcher, which serves and records the new pair, and then store the old one;
    nothing reloads the new pair before the files change again. *)
Theorem reload_race_stale :
  ∃ σ c k m1 m2, cr_reachable same_text true σ ∧ certFile σ = Some (c, m1) ∧ keyFile σ = Some (k, m2) ∧
    same_text c k = true ∧ reloaded σ = true ∧ lastMods σ = Some (m1, m2) ∧ handler σ = WaitSignal ∧
    GetCertificate σ ≠ Ok (c, k) ∧ cr_exec same_text true Tick σ = Some σ.
Proof.
  destruct old_pair_start as (σ0 & E & _ & Hr). injection E as <-.
  eexists _, b#"new", b#"new", 2, 3. split.
  { eapply (cr_runs_reachable same_text true [Tick; Signal; SignalStep; SignalStep; WriteCert (Some b#"new") 1; WriteKey (Some b#"new") 1;
      Tick; WatchStep; WatchStep; WatchStep; SignalStep]); [exact Hr|vm_compute; reflexivity]. }
  split_and!; try reflexivity. discriminate.
Qed.

Lemma cert_always_valid_witness : ∃ c k, GetCertificate
  (mkReloader (Some (b#"old", 1)) (Some (b#"old", 1)) 1 (Some (b#"old", b#"old")) None WaitTick WaitSignal false) = Ok (c, k) ∧
  same_text c k = true.
Proof.
  destruct old_pair_start as (σ & E & Hr & _). injection E as <-. exact (cert_always_valid same_text false _ Hr).
Defined.

Lemma cert_fresh_witness : ∃ σ, GetCertificate σ = Ok (b#"new", b#"new").
Proof.
  destruct old_pair_start as (σ0 & E & Hr & _). injection E as <-. eexists.
  eapply (cert_fresh same_text _ b#"new" b#"new" 2 3).
  - eapply (cr_runs_reachable same_text false [Tick; WriteCert (Some b#"new") 1; WriteKey (Some b#"new") 1;
      Tick; WatchStep; WatchStep; WatchStep]); [exact Hr|vm_compute; reflexivity].
  - reflexivity.
  - reflexivity.
  - reflexivity.
  - reflexivity.
Defined.

Lemma cert_change_handled_witness :
  let σ := mkReloader (Some (b#"new", 5)) (Some (b#"new", 6)) 6 (Some (b#"old", b#"old")) (Some (1, 1)) WaitTick WaitSignal false in
  ∃ σ', cr_runs same_text true ([Tick; WatchStep; WatchStep] ++ [WatchStep]) σ = Some σ' ∧ watcher σ' = WaitTick ∧
    (GetCertificate σ' = Ok (b#"new", b#"new") ∧ lastMods σ' = Some (5, 6) ∧ reloaded σ' = true).
Proof.
  intros σ. apply (cert_change_handled same_text true σ b#"new" b#"new" 5 6 1 1); try reflexivity. left. lia.
Defined.
