(* ===== verification/Manager.v ===== *)
(** The reverse tunnel manager of the server: pkg/server/manager.go.

    Pointers are indices into the heaps of the world: [tls] holds the
    [tunnelListener]s, [waits] the [waitingConn]s and [conns] the client
    connections behind them (native WebSocket, gorilla or HTTP/2).  A channel
    that is only ever closed ([quit], [acquired], [done], [stop]) is the boolean
    that says whether it is closed, which is also the state of the [sync.Once]
    that closes it.

    This file has one definition per operation; each is one critical section of
    the code (under [m.mu] or [tl.queueMu]) or one channel operation, so that
    ManagerSys can interleave them.  The goroutines blocked in [queueCond.Wait]
    are threads of the world, and [Broadcast] makes them runnable again. *)

From S2P Require Import Prelude GoStrings GoNet Protocol TargetFrame.

(** ** State *)

Inductive conn_kind := WsConn | GorillaConn | H2Conn.

(** A client connection and whether it has been closed. *)
Record cconn := mkCconn { c_kind : conn_kind; c_closed : bool }.

(** [acquired] may be the nil channel; [done] is always made. *)
Record waitingConn := mkWait { w_conn : nat; acquired : option bool; done : bool }.

(** [ln] and [udpConn]: nil, or whether the socket is still open. *)
Record tunnelListener := mkTL {
  addr : bytes;
  isUnix : bool;
  protocol : LocalProtocol;
  ln : option bool;
  udpConn : option bool;
  waiting : list nat;
  waitCap : nat;
  queueCond : bool;
  quit : bool;
  lastUsed : Z;
  active : Z
}.

(** The destination a SOCKS5 or HTTP handshake on the listener produced. *)
Abbreviation target := (option (bytes * Z)).

(** Goroutines, by the point they have reached. *)
Inductive thread :=
  (** [HandleClient] and its variants, from [enqueueWaitingConn] on *)
  | CEnqueue (l w : nat)
  | CSleep (l w : nat)
  | CTouch (l w : nat)
  | CSelect (l w : nat) (timer : Z)
  | CTimeout (l w : nat)
  | CExpire (l w : nat)
  | CPurge (l w : nat)
  | CAfter (l w : nat)
  | CFinish (w : nat)
  | CDone (w : nat)
  (** [runListener] and [runUdpListener] *)
  | LAccept (l : nat)
  | LQuit (l : nat)
  | LDelete (l : nat)
  | LDone
  (** [handleIncoming]; the timer is [None] once it has fired *)
  | HStart (l : nat)
  | HTimer (l : nat) (tgt : target)
  | HDeadline (l : nat) (tgt : target) (timer : option Z)
  | HAcquire (l : nat) (tgt : target) (timer : option Z) (deadline : Z)
  | HSleep (l : nat) (tgt : target) (timer : option Z) (deadline : Z)
  | HMark (l : nat) (tgt : target) (w : nat)
  | HTouch (l : nat) (tgt : target) (w : nat)
  | HFrame (l : nat) (tgt : target) (w : nat)
  | HPipe (l w : nat)
  | HFinish (l w : nat)
  | HDec (l : nat)
  | HDone
  (** [reapIdleListeners] *)
  | RTick
  | RReap (now : Z)
  | RClose (ls : list nat)
  | RDone
  (** [Close] *)
  | KStart
  | KCollect
  | KClose (ls : list nat)
  | KDone.

Record world := mkWorld {
  listeners : gmap bytes nat;
  socketSoMark : Z;
  idleTimeout : Z;
  stop : bool;
  tls : list tunnelListener;
  waits : list waitingConn;
  conns : list cconn;
  threads : list thread;
  now : Z
}.

(** ** Field updates *)

Definition set_listeners (x : gmap bytes nat) (σ : world) : world :=
  mkWorld x (socketSoMark σ) (idleTimeout σ) (stop σ) (tls σ) (waits σ) (conns σ) (threads σ) (now σ).
Definition set_stop (x : bool) (σ : world) : world :=
  mkWorld (listeners σ) (socketSoMark σ) (idleTimeout σ) x (tls σ) (waits σ) (conns σ) (threads σ) (now σ).
Definition set_tls (x : list tunnelListener) (σ : world) : world :=
  mkWorld (listeners σ) (socketSoMark σ) (idleTimeout σ) (stop σ) x (waits σ) (conns σ) (threads σ) (now σ).
Definition set_waits (x : list waitingConn) (σ : world) : world :=
  mkWorld (listeners σ) (socketSoMark σ) (idleTimeout σ) (stop σ) (tls σ) x (conns σ) (threads σ) (now σ).
Definition set_conns (x : list cconn) (σ : world) : world :=
  mkWorld (listeners σ) (socketSoMark σ) (idleTimeout σ) (stop σ) (tls σ) (waits σ) x (threads σ) (now σ).
Definition set_threads (x : list thread) (σ : world) : world :=
  mkWorld (listeners σ) (socketSoMark σ) (idleTimeout σ) (stop σ) (tls σ) (waits σ) (conns σ) x (now σ).
Definition set_now (x : Z) (σ : world) : world :=
  mkWorld (listeners σ) (socketSoMark σ) (idleTimeout σ) (stop σ) (tls σ) (waits σ) (conns σ) (threads σ) x.

Definition with_waiting (x : list nat) (t : tunnelListener) : tunnelListener :=
  mkTL (addr t) (isUnix t) (protocol t) (ln t) (udpConn t) x (waitCap t) (queueCond t) (quit t) (lastUsed t) (active t).
Definition with_quit (t : tunnelListener) : tunnelListener :=
  mkTL (addr t) (isUnix t) (protocol t) (ln t) (udpConn t) (waiting t) (waitCap t) (queueCond t) true (lastUsed t) (active t).
Definition with_sockets_closed (t : tunnelListener) : tunnelListener :=
  mkTL (addr t) (isUnix t) (protocol t) ((λ _, false) <$> ln t) ((λ _, false) <$> udpConn t) (waiting t) (waitCap t) (queueCond t)
    (quit t) (lastUsed t) (active t).
Definition with_used (d now : Z) (t : tunnelListener) : tunnelListener :=
  mkTL (addr t) (isUnix t) (protocol t) (ln t) (udpConn t) (waiting t) (waitCap t) (queueCond t) (quit t) now (active t + d).

Definition upd_tl (l : nat) (f : tunnelListener → tunnelListener) (σ : world) : world :=
  set_tls (alter f l (tls σ)) σ.
Definition upd_wait (w : nat) (f : waitingConn → waitingConn) (σ : world) : world :=
  set_waits (alter f w (waits σ)) σ.
Definition spawn (t : thread) (σ : world) : world := set_threads (threads σ ++ [t]) σ.

(** [_ = conn.Close()] on a client connection. *)
Definition close_conn (c : nat) (σ : world) : world :=
  set_conns (alter (λ x, mkCconn (c_kind x) true) c (conns σ)) σ.

(** ** A waiting connection *)

Definition finish (w : nat) (closeConn : bool) (σ : world) : world :=
  match waits σ !! w with
  | Some x =>
      if done x then σ
      else
        upd_wait w (λ x, mkWait (w_conn x) (acquired x) true)
          (if closeConn then close_conn (w_conn x) σ else σ)
  | None => σ
  end.

Definition markAcquired (w : nat) (σ : world) : world :=
  upd_wait w (λ x, mkWait (w_conn x) ((λ _, true) <$> acquired x) (done x)) σ.

Definition isAcquired (w : nat) (σ : world) : bool :=
  match waits σ !! w with
  | Some x => bool_decide (acquired x = Some true)
  | None => false
  end.

Definition isDone (w : nat) (σ : world) : bool :=
  match waits σ !! w with Some x => done x | None => false end.

(** ** The registry of listeners *)

(** [current, ok := m.listeners[tl.addr]; ok && current == tl] *)
Definition registered (l : nat) (σ : world) : bool :=
  match tls σ !! l with
  | Some t => bool_decide (listeners σ !! addr t = Some l)
  | None => false
  end.

Definition touchListener (l : nat) (σ : world) : world :=
  if registered l σ then upd_tl l (with_used 0 (now σ)) σ else σ.

Definition updateActivePipes (l : nat) (delta : Z) (σ : world) : world :=
  if registered l σ then upd_tl l (with_used delta (now σ)) σ else σ.

Definition beginIncoming (l : nat) (σ : world) : world :=
  if registered l σ then upd_tl l (with_used 1 (now σ)) σ else σ.

(** ** The queue of a listener *)

(** Wake the goroutines blocked in [tl.queueCond.Wait()]. *)
Definition wake (l : nat) (t : thread) : thread :=
  match t with
  | CSleep l' w => if bool_decide (l' = l) then CEnqueue l' w else t
  | HSleep l' tgt tm dl => if bool_decide (l' = l) then HAcquire l' tgt tm dl else t
  | _ => t
  end.

Definition Broadcast (l : nat) (σ : world) : world :=
  set_threads (wake l <$> threads σ) σ.

(** [if tl.queueCond != nil { tl.queueCond.Broadcast() }] *)
Definition broadcast_if (l : nat) (σ : world) : world :=
  match tls σ !! l with
  | Some t => if queueCond t then Broadcast l σ else σ
  | None => σ
  end.

Definition closeTunnelListener (l : nat) (closeListener : bool) (σ : world) : world :=
  let σ := broadcast_if l (upd_tl l with_quit σ) in
  if closeListener then upd_tl l with_sockets_closed σ else σ.

Definition purgeDoneWaitersLocked (l : nat) (σ : world) : world :=
  match tls σ !! l with
  | Some t =>
      let pending := filter (λ w, isDone w σ = false) (waiting t) in
      let removed := existsb (λ w, isDone w σ) (waiting t) in
      let σ := upd_tl l (with_waiting pending) σ in
      if removed then broadcast_if l σ else σ
  | None => σ
  end.

Definition purgeDoneWaiters (l : nat) (σ : world) : world := purgeDoneWaitersLocked l σ.

(** What one round of a queue loop does: return, or block in [queueCond.Wait()]. *)
Inductive round (A : Type) := Returns (a : A) | Waits.
Arguments Returns {A} a.
Arguments Waits {A}.

(** One round of the loop of [enqueueWaitingConn]. *)
Definition enqueueWaitingConn (l w : nat) (σ : world) : round bool * world :=
  let σ := purgeDoneWaitersLocked l σ in
  match tls σ !! l with
  | Some t =>
      if quit t then (Returns false, σ)
      else if (length (waiting t) <? waitCap t)%nat then
        (Returns true, broadcast_if l (upd_tl l (with_waiting (waiting t ++ [w])) σ))
      else if negb (queueCond t) then (Returns false, σ)
      else (Waits, σ)
  | None => (Returns false, σ)
  end.

(** One round of the loop of [acquireWaitingConn], up to [markAcquired]. *)
Definition acquireWaitingConn (l : nat) (deadline : Z) (σ : world) : round (option nat) * world :=
  let σ := purgeDoneWaitersLocked l σ in
  match tls σ !! l with
  | Some t =>
      match waiting t with
      | w :: rest => (Returns (Some w), broadcast_if l (upd_tl l (with_waiting rest) σ))
      | [] =>
          if deadline <=? now σ then (Returns None, σ)
          else if quit t then (Returns None, σ)
          else if negb (queueCond t) then (Returns None, σ)
          else (Waits, σ)
      end
  | None => (Returns None, σ)
  end.

(** ** Listening *)

(** The address, whether it is a Unix socket, and the network. *)
Definition bind_addr (claims : JwtTunnelConfig) : bytes * bool * bytes :=
  match ReverseUnix (Protocol claims) with
  | Some u => (if bool_decide (Remote claims = []) then ReverseUnix_Path u else Remote claims, true, b#"unix")
  | None =>
      (JoinHostPort (Remote claims) (fmt_d (Port claims)), false,
       if nonnil (ReverseUdp (Protocol claims)) then b#"udp" else b#"tcp")
  end.

Definition new_listener (bindAddr : bytes) (isUnix : bool) (network : bytes) (p : LocalProtocol) (now : Z) : tunnelListener :=
  let udp := bool_decide (network = b#"udp") in
  mkTL bindAddr isUnix p (if udp then None else Some true) (if udp then Some true else None)
    [] 10 true false now 0.

(** [listen network addr] is what the operating system answers to the request
    for the socket. *)
Definition getOrCreateListener (listen : bytes → bytes → go unit) (claims : JwtTunnelConfig) (σ : world) :
    go nat * world :=
  let '(bindAddr, isUnix, network) := bind_addr claims in
  match listeners σ !! bindAddr with
  | Some l => (Ok l, upd_tl l (with_used 0 (now σ)) σ)
  | None =>
      match listen network bindAddr with
      | Ok _ =>
          let l := length (tls σ) in
          let σ := set_tls (tls σ ++ [new_listener bindAddr isUnix network (Protocol claims) (now σ)]) σ in
          let σ := set_listeners (<[bindAddr := l]> (listeners σ)) σ in
          (Ok l, spawn (LAccept l) σ)
      | Err e => (Err e, σ)
      | Panic => (Panic, σ)
      end
  end.

(** [HandleClient], [HandleGorillaClient] and [HandleClientH2] up to the
    enqueueing, on a new connection; they differ in the kind of connection. *)
Definition HandleClient (listen : bytes → bytes → go unit) (kind : conn_kind) (claims : JwtTunnelConfig) (σ : world) : world :=
  let c := length (conns σ) in
  let σ := set_conns (conns σ ++ [mkCconn kind false]) σ in
  match getOrCreateListener listen claims σ with
  | (Ok l, σ) =>
      let w := length (waits σ) in
      spawn (CEnqueue l w) (set_waits (waits σ ++ [mkWait c (Some false) false]) σ)
  | (_, σ) => close_conn c σ
  end.

(** ** Reaping and closing *)

(** The listeners the reaper takes: [active <= 0] and idle for [idleTimeout]. *)
Definition is_stale (now0 : Z) (σ : world) (l : nat) : bool :=
  match tls σ !! l with
  | Some t => negb ((0 <? active t) || (now0 - lastUsed t <? idleTimeout σ))
  | None => false
  end.

(** The critical section of [reapIdleListenersOnce]; the returned listeners are
    then closed one by one. *)
Definition reapIdleListenersOnce (now0 : Z) (σ : world) : list nat * world :=
  let stale := (filter (λ x, is_stale now0 σ x.2 = true) (map_to_list (listeners σ))).*2 in
  (stale, set_listeners (filter (λ x, is_stale now0 σ x.2 = false) (listeners σ)) σ).

(** The critical section of [Close]. *)
Definition Close (σ : world) : list nat * world :=
  ((map_to_list (listeners σ)).*2, set_listeners ∅ σ).

(** What [runListener] and [runUdpListener] do after the socket fails. *)
Definition unregister (l : nat) (σ : world) : world :=
  match tls σ !! l with
  | Some t => if registered l σ then set_listeners (delete (addr t) (listeners σ)) σ else σ
  | None => σ
  end.
