(* ===== verification/ManagerSys.v ===== *)
(** The reverse tunnel manager as a concurrent program: every goroutine of
    pkg/server/manager.go advances by the operations of Manager, in any order.

    The step relation interleaves the critical sections of the code.  Where the
    code reads shared state outside a lock (the [select]s on [done], [quit] and
    [acquired], the check in [handleWaitTimeout]) the reading and the reaction
    are separate steps. *)

From S2P Require Import Prelude GoStrings GoNet Protocol TargetFrame Manager.

(** ** The scheduler's choices *)

(** Which ready case a [select] takes, and how an external operation ends. *)
Inductive choice :=
  | Proceed
  | OnDone
  | OnQuit
  | OnAcquired
  | OnTimer
  | OnStop
  | Succeeds
  | Fails
  | Handshaken (host : bytes) (port : Z).

Inductive action :=
  | Tick (d : Z)
  | Connect (kind : conn_kind) (claims : JwtTunnelConfig) (listened : go unit)
  | Shutdown
  | LateTimer (l : nat)
  | Run (i : nat) (c : choice).

Definition second : Z := 1000000000.
Definition acquire_timeout : Z := 10 * second.

Definition goto (i : nat) (t : thread) (σ : world) : world := set_threads (<[i := t]> (threads σ)) σ.

Definition is_quit (l : nat) (σ : world) : bool :=
  match tls σ !! l with Some t => quit t | None => false end.

(** [tl.protocol.ReverseSocks5 != nil || tl.protocol.ReverseHttpProxy != nil] *)
Definition dynamic (l : nat) (σ : world) : bool :=
  match tls σ !! l with
  | Some t => nonnil (ReverseSocks5 (protocol t)) || nonnil (ReverseHttpProxy (protocol t))
  | None => false
  end.

(** When the copying ends, [PipeBiDir] has closed the HTTP/2 stream; the
    WebSocket pipes leave their connection to the caller. *)
Definition pipe_end (w : nat) (σ : world) : world :=
  match waits σ !! w with
  | Some x =>
      match conns σ !! w_conn x with
      | Some c => match c_kind c with H2Conn => close_conn (w_conn x) σ | _ => σ end
      | None => σ
      end
  | None => σ
  end.

(** ** One goroutine *)

(** [HandleClient] after the connection has been registered. *)
Definition run_client (i : nat) (t : thread) (c : choice) (σ : world) : option world :=
  match t, c with
  | CEnqueue l w, Proceed =>
      match enqueueWaitingConn l w σ with
      | (Returns true, σ') => Some (goto i (CTouch l w) σ')
      | (Returns false, σ') => Some (goto i (CFinish w) σ')
      | (Waits, σ') => Some (goto i (CSleep l w) σ')
      end
  | CTouch l w, Proceed =>
      Some (goto i (if idleTimeout σ <=? 0 then CAfter l w else CSelect l w (now σ + idleTimeout σ))
                 (touchListener l σ))
  | CSelect l w tm, OnDone => if isDone w σ then Some (goto i (CDone w) σ) else None
  | CSelect l w tm, OnQuit => if is_quit l σ then Some (goto i (CFinish w) σ) else None
  | CSelect l w tm, OnAcquired => if isAcquired w σ then Some (goto i (CAfter l w) σ) else None
  | CSelect l w tm, OnTimer => if tm <=? now σ then Some (goto i (CTimeout l w) σ) else None
  | CAfter l w, OnDone => if isDone w σ then Some (goto i (CDone w) σ) else None
  | CAfter l w, OnQuit => if is_quit l σ then Some (goto i (CFinish w) σ) else None
  | CTimeout l w, Proceed => Some (goto i (if isAcquired w σ then CAfter l w else CExpire l w) σ)
  | CExpire l w, Proceed => Some (goto i (CPurge l w) (finish w true σ))
  | CPurge l w, Proceed => Some (goto i (CDone w) (purgeDoneWaiters l σ))
  | CFinish w, Proceed => Some (goto i (CDone w) (finish w true σ))
  | _, _ => None
  end.

(** [runListener], and [runUdpListener] for the first datagram of a session. *)
Definition run_listener (i : nat) (t : thread) (c : choice) (σ : world) : option world :=
  match t, c with
  | LAccept l, Succeeds => Some (spawn (HStart l) (beginIncoming l σ))
  | LAccept l, Fails => Some (goto i (LQuit l) σ)
  | LQuit l, Proceed => Some (goto i (LDelete l) (closeTunnelListener l false σ))
  | LDelete l, Proceed => Some (goto i LDone (upd_tl l with_sockets_closed (unregister l σ)))
  | _, _ => None
  end.

(** [handleIncoming], with [acquireWaitingConn] and its timer. *)
Definition run_handler (i : nat) (t : thread) (c : choice) (σ : world) : option world :=
  match t, c with
  | HStart l, Proceed => if dynamic l σ then None else Some (goto i (HTimer l None) σ)
  | HStart l, Handshaken h p => if dynamic l σ then Some (goto i (HTimer l (Some (h, p))) σ) else None
  | HStart l, Fails => if dynamic l σ then Some (goto i (HDec l) σ) else None
  | HTimer l tgt, Proceed => Some (goto i (HDeadline l tgt (Some (now σ + acquire_timeout))) σ)
  | HDeadline l tgt tm, Proceed => Some (goto i (HAcquire l tgt tm (now σ + acquire_timeout)) σ)
  | HDeadline l tgt (Some tm), OnTimer =>
      if tm <=? now σ then Some (goto i (HDeadline l tgt None) (broadcast_if l σ)) else None
  | HAcquire l tgt tm dl, Proceed =>
      match acquireWaitingConn l dl σ with
      | (Returns (Some w), σ') => Some (goto i (HMark l tgt w) σ')
      | (Returns None, σ') => Some (goto i (HDec l) σ')
      | (Waits, σ') => Some (goto i (HSleep l tgt tm dl) σ')
      end
  | HAcquire l tgt (Some tm) dl, OnTimer | HSleep l tgt (Some tm) dl, OnTimer =>
      if tm <=? now σ then Some (goto i (HAcquire l tgt None dl) (broadcast_if l σ)) else None
  | HMark l tgt w, Proceed => Some (goto i (HTouch l tgt w) (markAcquired w σ))
  | HTouch l tgt w, Proceed => Some (goto i (HFrame l tgt w) (touchListener l σ))
  | HFrame l None w, Proceed => Some (goto i (HPipe l w) σ)
  | HFrame l (Some (h, p)) w, Succeeds =>
      match encodeTargetFrame h p with Ok _ => Some (goto i (HPipe l w) σ) | _ => None end
  | HFrame l (Some _) w, Fails => Some (goto i (HFinish l w) σ)
  | HPipe l w, Proceed => Some (goto i (HFinish l w) (pipe_end w σ))
  | HFinish l w, Proceed => Some (goto i (HDec l) (finish w false σ))
  | HDec l, Proceed => Some (goto i HDone (updateActivePipes l (-1) σ))
  | _, _ => None
  end.

(** [reapIdleListeners] and [Close]. *)
Definition run_reaper (i : nat) (t : thread) (c : choice) (σ : world) : option world :=
  match t, c with
  | RTick, Proceed => Some (goto i (RReap (now σ)) σ)
  | RTick, OnStop => if stop σ then Some (goto i RDone σ) else None
  | RReap now0, Proceed => let '(ls, σ') := reapIdleListenersOnce now0 σ in Some (goto i (RClose ls) σ')
  | RClose (l :: ls), Proceed => Some (goto i (RClose ls) (closeTunnelListener l true σ))
  | RClose [], Proceed => Some (goto i RTick σ)
  | KStart, Proceed => Some (goto i KCollect (set_stop true σ))
  | KCollect, Proceed => let '(ls, σ') := Close σ in Some (goto i (KClose ls) σ')
  | KClose (l :: ls), Proceed => Some (goto i (KClose ls) (closeTunnelListener l true σ))
  | KClose [], Proceed => Some (goto i KDone σ)
  | _, _ => None
  end.

(** ** The system *)

Definition run_thread (i : nat) (t : thread) (c : choice) (σ : world) : option world :=
  match t with
  | CEnqueue _ _ | CSleep _ _ | CTouch _ _ | CSelect _ _ _ | CTimeout _ _ | CExpire _ _ | CPurge _ _
  | CAfter _ _ | CFinish _ | CDone _ => run_client i t c σ
  | LAccept _ | LQuit _ | LDelete _ | LDone => run_listener i t c σ
  | RTick | RReap _ | RClose _ | RDone | KStart | KCollect | KClose _ | KDone => run_reaper i t c σ
  | _ => run_handler i t c σ
  end.

Definition exec (a : action) (σ : world) : option world :=
  match a with
  | Tick d => if 0 <=? d then Some (set_now (now σ + d) σ) else None
  | Connect kind claims listened => Some (HandleClient (λ _ _, listened) kind claims σ)
  | Shutdown => Some (spawn KStart σ)
  | LateTimer l => Some (broadcast_if l σ)
  | Run i c => t ← threads σ !! i; run_thread i t c σ
  end.

Definition NewReverseTunnelManager (soMark timeout start : Z) : world :=
  mkWorld ∅ soMark timeout false [] [] [] (if 0 <? timeout then [RTick] else []) start.

Definition step (σ σ' : world) : Prop := ∃ a, exec a σ = Some σ'.

Definition reachable (σ : world) : Prop :=
  ∃ soMark timeout start, rtc step (NewReverseTunnelManager soMark timeout start) σ.

(** A run as a list of actions, for concrete executions. *)
Fixpoint runs (acts : list action) (σ : world) : option world :=
  match acts with
  | [] => Some σ
  | a :: acts' => σ' ← exec a σ; runs acts' σ'
  end.

Lemma runs_rtc acts σ σ' : runs acts σ = Some σ' → rtc step σ σ'.
Proof.
  revert σ. induction acts as [|a acts IH]; intros σ; cbn [runs].
  - intros [= <-]. reflexivity.
  - intros H. apply bind_Some in H as (σ1 & Ha & Hr). eapply rtc_l; [by exists a|]. by apply IH.
Qed.
