(* ===== verification/ManagerInv.v ===== *)
(** Invariants of the reverse tunnel manager (pkg/server/manager.go) under
    every interleaving of its goroutines, proved by induction on the steps of
    ManagerSys.

    Ownership of client connections is counted: a waiting connection is
    announced by one goroutine, then sits in one queue, then is held by one
    handler.  The effect of each operation on the count, on the queues and on
    the goroutines is a lemma; the invariants follow by arithmetic. *)

From S2P Require Import Prelude GoStrings GoNet Protocol TargetFrame Manager ManagerSys.

(** ** Roles of goroutines *)

(** The listener of an incoming connection in progress. *)
Definition handler_of (t : thread) : option nat :=
  match t with
  | HStart l | HTimer l _ | HDeadline l _ _ | HAcquire l _ _ _ | HSleep l _ _ _ | HMark l _ _
  | HTouch l _ _ | HFrame l _ _ | HPipe l _ | HFinish l _ | HDec l => Some l
  | _ => None
  end.

(** The waiting connection a handler holds. *)
Definition holds (t : thread) : option nat :=
  match t with
  | HMark _ _ w | HTouch _ _ w | HFrame _ _ w | HPipe _ w | HFinish _ w => Some w
  | _ => None
  end.

(** The waiting connection a client goroutine is about to enqueue. *)
Definition announces (t : thread) : option nat :=
  match t with CEnqueue _ w | CSleep _ w => Some w | _ => None end.

Definition sleeping (t : thread) : option nat :=
  match t with CSleep l _ | HSleep l _ _ _ => Some l | _ => None end.

(** Every waiting connection and every listener a goroutine mentions. *)
Definition waits_of (t : thread) : list nat :=
  match t with
  | CEnqueue _ w | CSleep _ w | CTouch _ w | CSelect _ w _ | CTimeout _ w | CExpire _ w | CPurge _ w
  | CAfter _ w | CFinish w | CDone w | HMark _ _ w | HTouch _ _ w | HFrame _ _ w | HPipe _ w | HFinish _ w => [w]
  | _ => []
  end.
Definition listeners_of (t : thread) : list nat :=
  match t with
  | CEnqueue l _ | CSleep l _ | CTouch l _ | CSelect l _ _ | CTimeout l _ | CExpire l _ | CPurge l _ | CAfter l _
  | LAccept l | LQuit l | LDelete l => [l]
  | RClose ls | KClose ls => ls
  | _ => default [] ((λ l, [l]) <$> handler_of t)
  end.

(** ** Counting *)

Definition bit (b : bool) : nat := if b then 1%nat else 0%nat.

Fixpoint total {A} (f : A → nat) (l : list A) : nat :=
  match l with [] => 0%nat | x :: l' => (f x + total f l')%nat end.

Lemma total_app {A} (f : A → nat) l k : total f (l ++ k) = (total f l + total f k)%nat.
Proof. induction l; simpl; lia. Qed.

Lemma total_insert {A} (f : A → nat) l i x y : l !! i = Some x →
  (total f (<[i := y]> l) + f x = total f l + f y)%nat.
Proof.
  revert i. induction l as [|z l IH]; intros [|i]; simpl; intros H; simplify_eq; [lia|].
  specialize (IH _ H). lia.
Qed.

Lemma total_alter {A} (f : A → nat) l i x g : l !! i = Some x →
  (total f (alter g i l) + f x = total f l + f (g x))%nat.
Proof.
  revert i. induction l as [|z l IH]; intros [|i]; simpl; intros H; simplify_eq; [lia|].
  specialize (IH _ H). change (list_alter g i l) with (alter g i l). lia.
Qed.

Lemma total_fmap {A} (f : A → nat) g l : (∀ x, f (g x) = f x) → total f (g <$> l) = total f l.
Proof. intros H. induction l as [|x l IH]; [done|]. cbn. by rewrite H, <-IH. Qed.

Lemma total_ge {A} (f : A → nat) l i x : l !! i = Some x → (f x ≤ total f l)%nat.
Proof.
  revert i. induction l as [|z l IH]; intros [|i]; simpl; intros H; simplify_eq; [lia|].
  specialize (IH _ H). lia.
Qed.

Lemma total_ge2 {A} (f : A → nat) l i j x y : i ≠ j → l !! i = Some x → l !! j = Some y →
  (f x + f y ≤ total f l)%nat.
Proof.
  revert i j. induction l as [|z l IH]; intros [|i] [|j] Hne; simpl; intros H1 H2; simplify_eq.
  - apply (total_ge f) in H2. lia.
  - apply (total_ge f) in H1. lia.
  - specialize (IH i j ltac:(congruence) H1 H2). lia.
Qed.

Lemma total_zero {A} (f : A → nat) l : (∀ x, x ∈ l → f x = 0%nat) → total f l = 0%nat.
Proof. induction l as [|x l IH]; intros H; simpl; [done|]. rewrite H, IH; set_solver. Qed.

(** Occurrences in a queue. *)
Definition occ (w : nat) (q : list nat) : nat := total (λ v, bit (bool_decide (v = w))) q.

Lemma occ_filter w P `{∀ x, Decision (P x)} q : (occ w (filter P q) ≤ occ w q)%nat.
Proof.
  induction q as [|v q IH]; [done|]. rewrite filter_cons. unfold occ in *.
  case_decide; simpl; lia.
Qed.

Lemma occ_elem w q : w ∈ q → (1 ≤ occ w q)%nat.
Proof.
  induction 1 as [v|v v' q Hq IH]; unfold occ in *; simpl.
  - rewrite bool_decide_true by done. simpl. lia.
  - lia.
Qed.

(** How often [w] is announced, queued or held. *)
Definition owns (w : nat) (t : thread) : nat :=
  (bit (bool_decide (announces t = Some w)) + bit (bool_decide (holds t = Some w)))%nat.
Definition owners (w : nat) (σ : world) : nat :=
  (total (owns w) (threads σ) + total (λ t, occ w (waiting t)) (tls σ))%nat.

(** Handlers in progress on [l]. *)
Definition handling (l : nat) (t : thread) : nat := bit (bool_decide (handler_of t = Some l)).
Definition handlers (l : nat) (σ : world) : nat := total (handling l) (threads σ).

(** ** Waking *)

Lemma wake_roles l t :
  holds (wake l t) = holds t ∧ announces (wake l t) = announces t ∧ handler_of (wake l t) = handler_of t ∧
  waits_of (wake l t) = waits_of t ∧ listeners_of (wake l t) = listeners_of t.
Proof. destruct t; simpl; try case_bool_decide; done. Qed.

Lemma wake_awake l t : sleeping t = None → wake l t = t.
Proof. by destruct t. Qed.

Lemma wake_sleeping l t l' : sleeping (wake l t) = Some l' → l' ≠ l ∧ wake l t = t.
Proof. destruct t; simpl; try case_bool_decide; simpl; try done; intros [= <-]; done. Qed.

(** An operation lets the goroutines alone or wakes those of one listener. *)
Definition woken (l : nat) (σ σ' : world) : Prop :=
  threads σ' = threads σ ∨ threads σ' = wake l <$> threads σ.

Lemma woken_total l σ σ' f : (∀ t, f (wake l t) = f t) → woken l σ σ' →
  total f (threads σ') = total f (threads σ).
Proof. intros Hf [-> | ->]; [done|]. by apply total_fmap. Qed.

Lemma woken_lookup l σ σ' i t : woken l σ σ' → sleeping t = None → threads σ !! i = Some t → threads σ' !! i = Some t.
Proof.
  intros [-> | ->] Hs Hi; [done|]. rewrite list_lookup_fmap, Hi. simpl. by rewrite wake_awake.
Qed.

Lemma owns_wake l w t : owns w (wake l t) = owns w t.
Proof. unfold owns. destruct (wake_roles l t) as (-> & -> & _). done. Qed.

Lemma handling_wake l l' t : handling l' (wake l t) = handling l' t.
Proof. unfold handling. destruct (wake_roles l t) as (_ & _ & -> & _). done. Qed.

(** ** The invariant *)

Record inv (σ : world) : Prop := {
  inv_waits : ∀ i t w, threads σ !! i = Some t → w ∈ waits_of t → (w < length (waits σ))%nat;
  inv_lis : ∀ i t l, threads σ !! i = Some t → l ∈ listeners_of t → (l < length (tls σ))%nat;
  inv_queue : ∀ l t w, tls σ !! l = Some t → w ∈ waiting t → (w < length (waits σ))%nat;
  inv_reg : ∀ a l, listeners σ !! a = Some l → ∃ t, tls σ !! l = Some t ∧ addr t = a;
  inv_cond : ∀ l t, tls σ !! l = Some t → queueCond t = true;
  inv_cap : ∀ l t, tls σ !! l = Some t → waitCap t = 10%nat ∧ (length (waiting t) ≤ 10)%nat;
  inv_owners : ∀ w, (owners w σ ≤ 1)%nat;
  inv_active : ∀ l t, tls σ !! l = Some t → registered l σ = true → active t = Z.of_nat (handlers l σ);
  inv_sleep_c : ∀ i l w t, threads σ !! i = Some (CSleep l w) → tls σ !! l = Some t →
    quit t = false ∧ length (waiting t) = 10%nat;
  inv_sleep_h : ∀ i l tgt tm dl t, threads σ !! i = Some (HSleep l tgt tm dl) → tls σ !! l = Some t →
    quit t = false ∧ waiting t = []
}.

(** ** Operations in one form

    Every operation on a listener changes that listener and either leaves the
    goroutines alone or wakes those that sleep on it. *)

Definition tl_op (b : bool) (l : nat) (f : tunnelListener → tunnelListener) (σ : world) : world :=
  set_threads (if b then wake l <$> threads σ else threads σ) (set_tls (alter f l (tls σ)) σ).

Lemma set_tls_same σ : set_tls (tls σ) σ = σ.
Proof. by destruct σ. Qed.

Lemma tl_op_id l σ : tl_op false l id σ = σ.
Proof. unfold tl_op. rewrite list_alter_id by done. by destruct σ. Qed.

Definition live (l : nat) (t : tunnelListener) (σ : world) : list nat :=
  filter (λ w, isDone w σ = false) (waiting t).

Lemma touch_form σ l d : (if registered l σ then upd_tl l (with_used d (now σ)) σ else σ) =
  tl_op false l (if registered l σ then with_used d (now σ) else id) σ.
Proof. destruct (registered l σ); [by destruct σ|by rewrite tl_op_id]. Qed.

Section forms.
Context (σ : world) (l : nat) (t : tunnelListener).
Hypothesis Hl : tls σ !! l = Some t.
Hypothesis Hc : queueCond t = true.

Lemma broadcast_form : broadcast_if l σ = tl_op true l id σ.
Proof.
  unfold broadcast_if, tl_op. rewrite Hl, Hc, list_alter_id by done. by destruct σ.
Qed.

Lemma broadcast_upd f : queueCond (f t) = true → broadcast_if l (upd_tl l f σ) = tl_op true l f σ.
Proof.
  intros Hf. unfold broadcast_if, upd_tl. cbn [tls set_tls]. by rewrite list_lookup_alter_eq, Hl; simpl; rewrite Hf.
Qed.

Lemma close_form b : closeTunnelListener l b σ =
  tl_op true l (λ t, if b then with_sockets_closed (with_quit t) else with_quit t) σ.
Proof.
  unfold closeTunnelListener. rewrite broadcast_upd by done. destruct b; [|done].
  unfold upd_tl, tl_op. cbn [tls set_tls set_threads]. by rewrite list_alter_alter_eq.
Qed.

Lemma no_done_live : existsb (λ w, isDone w σ) (waiting t) = false → live l t σ = waiting t.
Proof.
  unfold live. induction (waiting t) as [|w q IH]; [done|]. simpl. intros [Hw Hq]%orb_false_iff.
  rewrite filter_cons_True by done. by rewrite IH.
Qed.

Lemma purge_form : ∃ b, purgeDoneWaitersLocked l σ = tl_op b l (with_waiting (live l t σ)) σ ∧
  (b = false → live l t σ = waiting t).
Proof.
  unfold purgeDoneWaitersLocked. rewrite Hl. fold (live l t σ).
  destruct (existsb _ _) eqn:E.
  - exists true. by rewrite broadcast_upd.
  - exists false. split; [done|]. intros _. by apply no_done_live.
Qed.
End forms.

(** The listener and the goroutines after a purge. *)
Lemma tl_op_lookup b l f σ t : tls σ !! l = Some t → tls (tl_op b l f σ) !! l = Some (f t).
Proof. intros H. cbn. by rewrite list_lookup_alter_eq, H. Qed.

Lemma wake_wake l t : wake l (wake l t) = wake l t.
Proof. destruct t; simpl; try case_bool_decide; simpl; rewrite ?bool_decide_false; done. Qed.

Lemma tl_op_op b b' l f g σ :
  tl_op b' l g (tl_op b l f σ) = tl_op (b || b') l (λ t, g (f t)) σ.
Proof.
  unfold tl_op. cbn. rewrite list_alter_alter_eq. destruct b, b'; cbn [orb]; try done.
  rewrite <-list_fmap_compose, (list_fmap_ext _ (wake l)); [done|]. intros. apply wake_wake.
Qed.

(** The two queue loops, as one update of the listener each. *)
Lemma enqueue_form σ l t w : tls σ !! l = Some t → queueCond t = true →
  ∃ b r ws, enqueueWaitingConn l w σ = (r, tl_op b l (with_waiting ws) σ) ∧
    (b = false → ws = waiting t) ∧
    match r with
    | Returns true => quit t = false ∧ (length (live l t σ) < waitCap t)%nat ∧ ws = live l t σ ++ [w] ∧ b = true
    | Returns false => quit t = true ∧ ws = live l t σ
    | Waits => quit t = false ∧ (waitCap t ≤ length (live l t σ))%nat ∧ ws = live l t σ
    end.
Proof.
  intros Hl Hc. destruct (purge_form σ l t Hl Hc) as (b & Hp & Hb). unfold enqueueWaitingConn. rewrite Hp.
  rewrite (tl_op_lookup _ _ _ _ t) by done. cbn [quit with_waiting waiting waitCap queueCond].
  destruct (quit t) eqn:Eq; [by exists b, (Returns false), (live l t σ)|].
  destruct (Nat.ltb_spec (length (live l t σ)) (waitCap t)).
  - rewrite (broadcast_upd _ l (with_waiting (live l t σ) t)), tl_op_op, orb_true_r
      by (try apply tl_op_lookup; done).
    by exists true, (Returns true), (live l t σ ++ [w]).
  - rewrite Hc. by exists b, Waits, (live l t σ).
Qed.

Lemma acquire_form σ l t dl : tls σ !! l = Some t → queueCond t = true →
  ∃ b r ws, acquireWaitingConn l dl σ = (r, tl_op b l (with_waiting ws) σ) ∧
    (b = false → ws = waiting t) ∧
    match r with
    | Returns (Some w) => live l t σ = w :: ws ∧ b = true
    | Returns None => live l t σ = [] ∧ ws = [] ∧ (dl ≤ now σ ∨ quit t = true)
    | Waits => live l t σ = [] ∧ ws = [] ∧ now σ < dl ∧ quit t = false
    end.
Proof.
  intros Hl Hc. destruct (purge_form σ l t Hl Hc) as (b & Hp & Hb). unfold acquireWaitingConn. rewrite Hp.
  rewrite (tl_op_lookup _ _ _ _ t) by done. cbn [quit with_waiting waiting waitCap queueCond].
  destruct (live l t σ) as [|w ws] eqn:El.
  - cbn [now tl_op set_threads set_tls]. destruct (Z.leb_spec dl (now σ)).
    { exists b, (Returns None), []. split_and!; auto. }
    destruct (quit t) eqn:Eq.
    { exists b, (Returns None), []. split_and!; auto. }
    rewrite Hc. exists b, Waits, []. split_and!; auto.
  - rewrite (broadcast_upd _ l (with_waiting (w :: ws) t)), tl_op_op, orb_true_r
      by (try apply tl_op_lookup; done).
    by exists true, (Returns (Some w)), ws.
Qed.

(** ** Preservation: a goroutine acts on one listener *)

Section preserve.
Context (σ : world) (i l : nat) (t t' : thread) (b : bool) (f : tunnelListener → tunnelListener) (tl : tunnelListener).
Hypothesis Hinv : inv σ.
Hypothesis Hi : threads σ !! i = Some t.
Hypothesis Hl : tls σ !! l = Some tl.
Hypothesis Hf : addr (f tl) = addr tl ∧ waitCap (f tl) = waitCap tl ∧ queueCond (f tl) = queueCond tl.
Hypothesis Hwaits : ∀ w, w ∈ waits_of t' → (w < length (waits σ))%nat.
Hypothesis Hlis : ∀ k, k ∈ listeners_of t' → (k < length (tls σ))%nat.
Hypothesis Hqueue : ∀ w, w ∈ waiting (f tl) → (w < length (waits σ))%nat.
Hypothesis Hcap : (length (waiting (f tl)) ≤ 10)%nat.
Hypothesis Hown : ∀ w, (occ w (waiting (f tl)) + owns w t' ≤ occ w (waiting tl) + owns w t)%nat.
Hypothesis Hact : ∀ k, registered k σ = true →
  (if bool_decide (k = l) then active (f tl) - active tl else 0) = Z.of_nat (handling k t') - Z.of_nat (handling k t).
Hypothesis Hkeep : b = false → quit (f tl) = quit tl ∧ waiting (f tl) = waiting tl.
Hypothesis Hsc : ∀ k w, t' = CSleep k w → k = l ∧ quit (f tl) = false ∧ length (waiting (f tl)) = 10%nat.
Hypothesis Hsh : ∀ k tgt tm dl, t' = HSleep k tgt tm dl → k = l ∧ quit (f tl) = false ∧ waiting (f tl) = [].

Let σ' := goto i t' (tl_op b l f σ).

Lemma pres_tls k x : tls σ' !! k = Some x →
  (k = l ∧ x = f tl) ∨ (k ≠ l ∧ tls σ !! k = Some x).
Proof.
  cbn. destruct (decide (k = l)) as [->|Hne].
  - rewrite list_lookup_alter_eq, Hl. simpl. intros [= <-]. by left.
  - rewrite list_lookup_alter_ne by done. by right.
Qed.

Lemma pres_threads j x : threads σ' !! j = Some x →
  (j = i ∧ x = t') ∨ (j ≠ i ∧ ∃ y, threads σ !! j = Some y ∧ x = if b then wake l y else y).
Proof.
  cbn. destruct (decide (j = i)) as [->|Hne].
  - destruct b; rewrite list_lookup_insert_eq; try (intros [= <-]; by left);
      rewrite ?length_fmap; by eapply lookup_lt_Some.
  - rewrite list_lookup_insert_ne by done. destruct b; [|by eauto].
    rewrite list_lookup_fmap. intros (y & ? & ?)%fmap_Some. eauto 6.
Qed.

Lemma pres_total (g : thread → nat) : (∀ x, g (wake l x) = g x) →
  (total g (threads σ') + g t = total g (threads σ) + g t')%nat.
Proof.
  intros Hg. cbn. destruct b.
  - rewrite <-(total_fmap g (wake l) (threads σ)) by done. rewrite <-(Hg t).
    apply total_insert. by rewrite list_lookup_fmap, Hi.
  - by apply total_insert.
Qed.

Lemma pres_registered k : registered k σ' = registered k σ.
Proof.
  unfold registered. cbn. destruct (decide (k = l)) as [->|Hne].
  - rewrite list_lookup_alter_eq, Hl. simpl. by destruct Hf as (-> & _).
  - by rewrite list_lookup_alter_ne.
Qed.

Lemma inv_tl_op : inv σ'.
Proof.
  destruct Hf as (Hfa & Hfc & Hfq). constructor.
  - intros j x w Hj Hw. change (waits σ') with (waits σ).
    apply pres_threads in Hj as [[-> ->]|(Hne & y & Hy & ->)]; [by apply Hwaits|].
    destruct b; [destruct (wake_roles l y) as (_ & _ & _ & Hr & _); rewrite Hr in Hw|]; by eapply inv_waits.
  - intros j x k Hj Hk. cbn. rewrite length_alter.
    apply pres_threads in Hj as [[-> ->]|(Hne & y & Hy & ->)]; [by apply Hlis|].
    destruct b; [destruct (wake_roles l y) as (_ & _ & _ & _ & Hr); rewrite Hr in Hk|]; by eapply inv_lis.
  - intros k x w [[-> ->]|[Hne Hk]]%pres_tls Hw; [by apply Hqueue|]. exact (inv_queue _ Hinv _ _ _ Hk Hw).
  - intros a k Ha. destruct (inv_reg _ Hinv a k Ha) as (x & Hx & Hxa). cbn.
    destruct (decide (k = l)) as [->|Hne].
    + rewrite list_lookup_alter_eq, Hl. simpl. eexists. split; [done|]. congruence.
    + rewrite list_lookup_alter_ne by done. eauto.
  - intros k x [[-> ->]|[Hne Hk]]%pres_tls; [|by eapply inv_cond]. rewrite Hfq. by eapply inv_cond.
  - intros k x [[-> ->]|[Hne Hk]]%pres_tls; [|by eapply inv_cap].
    rewrite Hfc. split; [by eapply inv_cap|done].
  - intros w. pose proof (inv_owners _ Hinv w) as Ho. unfold owners in *.
    pose proof (pres_total (owns w) (owns_wake l w)) as Ht.
    assert (total (λ t, occ w (waiting t)) (tls σ') + occ w (waiting tl) =
            total (λ t, occ w (waiting t)) (tls σ) + occ w (waiting (f tl)))%nat as Hq.
    { cbn. by apply (total_alter (λ t, occ w (waiting t))). }
    specialize (Hown w). lia.
  - intros k x Hk Hr. rewrite pres_registered in Hr. unfold handlers.
    pose proof (pres_total (handling k) (handling_wake l k)) as Ht.
    pose proof (Hact k Hr) as Ha. apply pres_tls in Hk as [[-> ->]|[Hne Hk]].
    + rewrite bool_decide_true in Ha by done. pose proof (inv_active _ Hinv _ _ Hl Hr) as H0. unfold handlers in H0. lia.
    + rewrite bool_decide_false in Ha by done. pose proof (inv_active _ Hinv _ _ Hk Hr) as H0. unfold handlers in H0. lia.
  - intros j k w x Hj Hk.
    apply pres_threads in Hj as [[-> Heq]|(Hne & y & Hy & Heq)].
    + destruct (Hsc k w (eq_sym Heq)) as (-> & ? & ?). by apply pres_tls in Hk as [[_ ->]|[? _]].
    + assert (y = CSleep k w ∧ (k = l → b = false)) as [-> Hb].
      { destruct b; [|done]. symmetry in Heq. destruct (wake_sleeping l y k) as [? Hw]; [by rewrite Heq|].
        rewrite Hw in Heq. done. }
      apply pres_tls in Hk as [[-> ->]|[? Hk]]; [|by eapply inv_sleep_c].
      destruct (Hkeep (Hb eq_refl)) as [-> ->]. by eapply inv_sleep_c.
  - intros j k tgt tm dl x Hj Hk.
    apply pres_threads in Hj as [[-> Heq]|(Hne & y & Hy & Heq)].
    + destruct (Hsh k tgt tm dl (eq_sym Heq)) as (-> & ? & ?). by apply pres_tls in Hk as [[_ ->]|[? _]].
    + assert (y = HSleep k tgt tm dl ∧ (k = l → b = false)) as [-> Hb].
      { destruct b; [|done]. symmetry in Heq. destruct (wake_sleeping l y k) as [? Hw]; [by rewrite Heq|].
        rewrite Hw in Heq. done. }
      apply pres_tls in Hk as [[-> ->]|[? Hk]]; [|by eapply inv_sleep_h].
      destruct (Hkeep (Hb eq_refl)) as [-> ->]. by eapply inv_sleep_h.
Qed.
End preserve.

(** ** Preservation: the other kinds of steps *)

(** Changes outside the listeners, the goroutines and the registry. *)
Lemma inv_ext σ σ' : inv σ → tls σ' = tls σ → threads σ' = threads σ → listeners σ' = listeners σ →
  length (waits σ') = length (waits σ) → inv σ'.
Proof.
  intros [H1 H2 H3 H4 H5 H6 H7 H8 H9 H10] Et Eh El Ew.
  constructor; unfold owners, handlers, registered in *; rewrite ?Et, ?Eh, ?El, ?Ew; done.
Qed.

(** A goroutine moves on without sleeping. *)
Lemma inv_goto σ i t t' : inv σ → threads σ !! i = Some t → sleeping t' = None →
  (∀ w, w ∈ waits_of t' → (w < length (waits σ))%nat) →
  (∀ k, k ∈ listeners_of t' → (k < length (tls σ))%nat) →
  (∀ w, (owns w t' ≤ owns w t)%nat) → (∀ k, registered k σ = true → handling k t' = handling k t) →
  inv (goto i t' σ).
Proof.
  intros [H1 H2 H3 H4 H5 H6 H7 H8 H9 H10] Hi Hs Hw Hk Ho Hh.
  assert (∀ j x, threads (goto i t' σ) !! j = Some x → (j = i ∧ x = t') ∨ threads σ !! j = Some x) as Hthr.
  { intros j x. cbn. destruct (decide (j = i)) as [->|Hne]; [|rewrite list_lookup_insert_ne by done; by right].
    rewrite list_lookup_insert_eq by (by eapply lookup_lt_Some). intros [= <-]. by left. }
  constructor; try done.
  - intros j x w [[-> ->]|Hj]%Hthr; [apply Hw|by eapply H1].
  - intros j x k [[-> ->]|Hj]%Hthr; [apply Hk|by eapply H2].
  - intros w. specialize (H7 w). specialize (Ho w). unfold owners in *. cbn.
    pose proof (total_insert (owns w) _ _ _ t' Hi). lia.
  - intros k x Hx Hr. change (registered k σ = true) in Hr. rewrite (H8 k x Hx Hr). unfold handlers. cbn.
    pose proof (total_insert (handling k) _ _ _ t' Hi). specialize (Hh k Hr). lia.
  - intros j k w x [[-> <-]|Hj]%Hthr; [done|by eapply H9].
  - intros j k tgt tm dl x [[-> <-]|Hj]%Hthr; [done|by eapply H10].
Qed.

(** A new goroutine starts out idle. *)
Lemma spawn_goto t σ : spawn t σ = goto (length (threads σ)) t (spawn HDone σ).
Proof.
  unfold spawn, goto. cbn [threads set_threads]. rewrite insert_app_r_alt by lia. by rewrite Nat.sub_diag.
Qed.

Lemma inv_spawn_idle σ : inv σ → inv (spawn HDone σ).
Proof.
  intros [H1 H2 H3 H4 H5 H6 H7 H8 H9 H10].
  assert (∀ j x, threads (spawn HDone σ) !! j = Some x → x = HDone ∨ threads σ !! j = Some x) as Hthr.
  { intros j x. cbn. rewrite lookup_app_Some. intros [?|[_ ?%list_lookup_singleton_Some]]; [by right|left; naive_solver]. }
  constructor; try done.
  - intros j x w [->|Hj]%Hthr; [set_solver|by eapply H1].
  - intros j x k [->|Hj]%Hthr; [set_solver|by eapply H2].
  - intros w. specialize (H7 w). unfold owners in *. cbn. rewrite total_app. simpl. lia.
  - intros k x Hx Hr. rewrite (H8 k x Hx Hr). unfold handlers. cbn. rewrite total_app. simpl. lia.
  - intros j k w x [[=]|Hj]%Hthr. by eapply H9.
  - intros j k tgt tm dl x [[=]|Hj]%Hthr. by eapply H10.
Qed.

Lemma inv_unspawn_idle σ : inv (spawn HDone σ) → inv σ.
Proof.
  assert (∀ j x, threads σ !! j = Some x → threads (spawn HDone σ) !! j = Some x) as Hthr.
  { intros j x Hj. cbn. by apply lookup_app_l_Some. }
  intros [H1 H2 H3 H4 H5 H6 H7 H8 H9 H10]. constructor; try done.
  - intros j x w Hj%Hthr. by apply (H1 j).
  - intros j x k Hj%Hthr. by apply (H2 j).
  - intros w. specialize (H7 w). unfold owners in *. cbn in H7. rewrite total_app in H7. lia.
  - intros k x Hx Hr. rewrite (H8 k x Hx Hr). unfold handlers. cbn. rewrite total_app. simpl. lia.
  - intros j k w x Hj%Hthr. by apply (H9 j k w x).
  - intros j k tgt tm dl x Hj%Hthr. by apply (H10 j k tgt tm dl x).
Qed.

Lemma spawn_idle_lookup σ : threads (spawn HDone σ) !! length (threads σ) = Some HDone.
Proof. cbn. rewrite lookup_app_r, Nat.sub_diag by done. done. Qed.

(** Listeners leave the registry. *)
Lemma inv_shrink σ m : inv σ → (∀ a l, m !! a = Some l → listeners σ !! a = Some l) → inv (set_listeners m σ).
Proof.
  intros [H1 H2 H3 H4 H5 H6 H7 H8 H9 H10] Hm. constructor; try done.
  - intros a l Ha. by apply H4, Hm.
  - intros l t Hl Hr. rewrite (H8 l t Hl); [done|]. unfold registered in *. cbn in *. rewrite Hl in *.
    bool_to_prop. apply bool_decide_eq_true. by apply Hm.
Qed.

(** A new waiting connection. *)
Lemma inv_new_wait σ x : inv σ → inv (set_waits (waits σ ++ [x]) σ).
Proof.
  intros [H1 H2 H3 H4 H5 H6 H7 H8 H9 H10].
  constructor; try done; intros; cbn; rewrite length_app; simpl; [eapply Nat.lt_lt_add_r, H1|eapply Nat.lt_lt_add_r, H3]; done.
Qed.

(** A waiting connection nobody knows yet has no owner. *)
Lemma owners_fresh σ w : inv σ → (length (waits σ) ≤ w)%nat → owners w σ = 0%nat.
Proof.
  intros Hinv Hw. unfold owners. rewrite !total_zero; [done|..].
  - intros t (l & Hl)%list_elem_of_lookup. destruct (occ w (waiting t)) eqn:E; [done|].
    assert (w ∈ waiting t) as Hin.
    { destruct (decide (w ∈ waiting t)) as [|Hn]; [done|]. exfalso. unfold occ in E. rewrite total_zero in E; [done|].
      intros v Hv. rewrite bool_decide_false; [done|]. by intros ->. }
    pose proof (inv_queue _ Hinv _ _ _ Hl Hin). lia.
  - intros t (i & Hi)%list_elem_of_lookup. pose proof (inv_waits _ Hinv i t w Hi) as Hin.
    unfold owns. destruct t; simpl in *; rewrite ?bool_decide_false; try done;
      intros [= ->]; (enough (w < length (waits σ))%nat by lia); apply Hin; by left.
Qed.

(** No handler exists for a listener that has not been created. *)
Lemma handlers_fresh σ l : inv σ → (length (tls σ) ≤ l)%nat → handlers l σ = 0%nat.
Proof.
  intros Hinv Hl. apply total_zero. intros t (i & Hi)%list_elem_of_lookup.
  pose proof (inv_lis _ Hinv i t l Hi) as Hin. unfold handling.
  destruct t; simpl in *; rewrite ?bool_decide_false; try done;
      intros [= ->]; (enough (l < length (tls σ))%nat by lia); apply Hin; by left.
Qed.

(** A new listener enters the registry. *)
Lemma inv_new_listener σ a tl : inv σ → listeners σ !! a = None →
  addr tl = a → waiting tl = [] → waitCap tl = 10%nat → queueCond tl = true → active tl = 0 →
  inv (set_listeners (<[a := length (tls σ)]> (listeners σ)) (set_tls (tls σ ++ [tl]) σ)).
Proof.
  intros Hinv Ha Hta Htw Htc Htq Htz. set (σ' := set_listeners _ _).
  assert (∀ k x, tls σ' !! k = Some x → (k = length (tls σ) ∧ x = tl) ∨ tls σ !! k = Some x) as Htls.
  { intros k x. cbn. rewrite lookup_app_Some. intros [?|[? Hs]]; [by right|].
    apply list_lookup_singleton_Some in Hs as [??]. left. split; [lia|done]. }
  pose proof (handlers_fresh σ _ Hinv (le_n _)) as Hf.
  destruct Hinv as [H1 H2 H3 H4 H5 H6 H7 H8 H9 H10]. constructor.
  - done.
  - intros i t l Hi Hl. cbn. rewrite length_app. simpl. pose proof (H2 i t l Hi Hl). lia.
  - intros k x w [[-> ->]|Hk]%Htls; [rewrite Htw; set_solver|by apply (H3 k)].
  - intros b k. cbn. destruct (decide (b = a)) as [->|Hne].
    + rewrite lookup_insert_eq. intros [= <-]. exists tl. rewrite lookup_app_r, Nat.sub_diag by done. done.
    + rewrite lookup_insert_ne by done. intros (t & Ht & Hb)%H4. exists t. split; [|done].
      rewrite lookup_app_l; [done|]. by eapply lookup_lt_Some.
  - intros k x [[-> ->]|Hk]%Htls; [done|by eapply H5].
  - intros k x [[-> ->]|Hk]%Htls; [rewrite Htw; simpl; split; [done|lia]|by eapply H6].
  - intros w. specialize (H7 w). unfold owners in *. cbn. rewrite total_app. simpl. rewrite Htw. simpl. lia.
  - intros k x [[-> ->]|Hk]%Htls Hr; [rewrite Htz; change (handlers (length (tls σ)) σ') with (handlers (length (tls σ)) σ); lia|].
    rewrite (H8 k x Hk); [done|]. unfold registered in *. cbn in Hr. rewrite Hk.
    rewrite lookup_app_l, Hk in Hr by (by eapply lookup_lt_Some). bool_to_prop. apply bool_decide_eq_true.
    rewrite lookup_insert_ne in Hr; [done|]. intros ->. rewrite lookup_insert_eq in Hr. injection Hr as <-.
    apply lookup_lt_Some in Hk. lia.
  - intros i k w x Hi [[-> ->]|Hk]%Htls; [|by eapply H9].
    exfalso. pose proof (H2 i _ (length (tls σ)) Hi ltac:(by left)). lia.
  - intros i k tgt tm dl x Hi [[-> ->]|Hk]%Htls; [|by eapply H10].
    exfalso. pose proof (H2 i _ (length (tls σ)) Hi ltac:(by left)). lia.
Qed.

(** ** Every step preserves the invariant *)

Lemma finish_frame w b σ :
  tls (finish w b σ) = tls σ ∧ threads (finish w b σ) = threads σ ∧ listeners (finish w b σ) = listeners σ ∧
  length (waits (finish w b σ)) = length (waits σ).
Proof.
  unfold finish. destruct (waits σ !! w) as [x|]; [|done]. destruct (done x); [done|].
  destruct b; cbn; by rewrite length_alter.
Qed.

Lemma inv_finish w b σ : inv σ → inv (finish w b σ).
Proof. intros H. destruct (finish_frame w b σ) as (? & ? & ? & ?). by apply (inv_ext σ). Qed.

Lemma inv_markAcquired w σ : inv σ → inv (markAcquired w σ).
Proof. intros H. apply (inv_ext σ); cbn; rewrite ?length_alter; done. Qed.

Lemma pipe_end_frame w σ :
  tls (pipe_end w σ) = tls σ ∧ threads (pipe_end w σ) = threads σ ∧ listeners (pipe_end w σ) = listeners σ ∧
  waits (pipe_end w σ) = waits σ.
Proof.
  unfold pipe_end. destruct (waits σ !! w) as [x|]; [|done]. destruct (conns σ !! _) as [c|]; [|done].
  by destruct (c_kind c).
Qed.

Lemma inv_pipe_end w σ : inv σ → inv (pipe_end w σ).
Proof. intros H. destruct (pipe_end_frame w σ) as (? & ? & ? & E). apply (inv_ext σ); try done. by rewrite E. Qed.

Lemma live_sub l t σ w : w ∈ live l t σ → w ∈ waiting t.
Proof. unfold live. rewrite list_elem_of_filter. tauto. Qed.

Lemma live_length l t σ : (length (live l t σ) ≤ length (waiting t))%nat.
Proof. apply length_filter. Qed.

Lemma live_occ w l t σ : (occ w (live l t σ) ≤ occ w (waiting t))%nat.
Proof. apply occ_filter. Qed.

Lemma occ_app w q v : occ w (q ++ [v]) = (occ w q + bit (bool_decide (v = w)))%nat.
Proof. unfold occ. rewrite total_app. simpl. lia. Qed.

Lemma occ_cons w v q : occ w (v :: q) = (bit (bool_decide (v = w)) + occ w q)%nat.
Proof. done. Qed.

Lemma owns_enqueued w l v t : announces t = Some v → holds t = None → announces l = None → holds l = None →
  (owns w l + bit (bool_decide (v = w)) = owns w t)%nat.
Proof.
  intros Ha Hh Ha' Hh'. unfold owns. rewrite Ha, Hh, Ha', Hh'. simpl.
  rewrite (bool_decide_ext (Some v = Some w) (v = w)) by naive_solver. lia.
Qed.

Lemma owns_none w t : announces t = None → holds t = None → owns w t = 0%nat.
Proof. unfold owns. by intros -> ->. Qed.

(** Listener updates that leave the queue alone. *)
Lemma inv_used σ i t t' l tl d : inv σ → threads σ !! i = Some t → tls σ !! l = Some tl → sleeping t' = None →
  (∀ w, w ∈ waits_of t' → (w < length (waits σ))%nat) →
  (∀ k, k ∈ listeners_of t' → (k < length (tls σ))%nat) →
  (∀ w, (owns w t' ≤ owns w t)%nat) →
  (∀ k, Z.of_nat (handling k t') - Z.of_nat (handling k t) = if bool_decide (k = l) then d else 0) →
  inv (goto i t' (if registered l σ then upd_tl l (with_used d (now σ)) σ else σ)).
Proof.
  intros Hinv Hi Hl Hs Hw Hk Ho Hh. rewrite touch_form.
  apply inv_tl_op with t tl; try done.
  - by destruct (registered l σ).
  - intros w Hq. eapply (inv_queue _ Hinv l tl); [done|]. by destruct (registered l σ).
  - destruct (inv_cap _ Hinv l tl Hl). by destruct (registered l σ).
  - intros w. specialize (Ho w). destruct (registered l σ); simpl; lia.
  - intros k Hr. rewrite Hh. case_bool_decide as E; [|done]. subst k. rewrite Hr. simpl. lia.
  - by destruct (registered l σ).
  - intros k w ->. done.
  - intros k tgt tm dl ->. done.
Qed.

Lemma inv_closed σ i t t' l tl b : inv σ → threads σ !! i = Some t → tls σ !! l = Some tl → sleeping t' = None →
  (∀ w, w ∈ waits_of t' → (w < length (waits σ))%nat) →
  (∀ k, k ∈ listeners_of t' → (k < length (tls σ))%nat) →
  (∀ w, (owns w t' ≤ owns w t)%nat) → (∀ k, handling k t' = handling k t) →
  inv (goto i t' (closeTunnelListener l b σ)).
Proof.
  intros Hinv Hi Hl Hs Hw Hk Ho Hh. rewrite (close_form σ l tl) by (done || by eapply inv_cond).
  apply inv_tl_op with t tl; try done.
  - by destruct b.
  - intros w Hq. eapply (inv_queue _ Hinv l tl); [done|]. by destruct b.
  - destruct (inv_cap _ Hinv l tl Hl). by destruct b.
  - intros w. specialize (Ho w). destruct b; simpl; lia.
  - intros k Hr. rewrite Hh. destruct b; simpl; case_bool_decide; lia.
  - intros k w ->. done.
  - intros k tgt tm dl ->. done.
Qed.

(** Queue rounds: [ws] is the new queue. *)
Lemma inv_queue_op σ i t t' l tl b ws : inv σ → threads σ !! i = Some t → tls σ !! l = Some tl →
  (b = false → ws = waiting tl) →
  (∀ w, w ∈ waits_of t' → (w < length (waits σ))%nat) →
  (∀ k, k ∈ listeners_of t' → (k < length (tls σ))%nat) →
  (∀ w, w ∈ ws → (w < length (waits σ))%nat) → (length ws ≤ 10)%nat →
  (∀ w, (occ w ws + owns w t' ≤ occ w (waiting tl) + owns w t)%nat) →
  (∀ k, handling k t' = handling k t) →
  (∀ k w, t' = CSleep k w → k = l ∧ quit tl = false ∧ length ws = 10%nat) →
  (∀ k tgt tm dl, t' = HSleep k tgt tm dl → k = l ∧ quit tl = false ∧ ws = []) →
  inv (goto i t' (tl_op b l (with_waiting ws) σ)).
Proof.
  intros Hinv Hi Hl Hb Hw Hk Hq Hcap Ho Hh Hc Hs. apply inv_tl_op with t tl; try done.
  - intros k Hr. rewrite Hh. simpl. case_bool_decide; lia.
  - intros ->. simpl. by rewrite Hb.
Qed.

(** A goroutine's own listener exists. *)
Lemma thread_listener σ i t l : inv σ → threads σ !! i = Some t → l ∈ listeners_of t →
  ∃ tl, tls σ !! l = Some tl.
Proof. intros Hinv Hi Hl. apply lookup_lt_is_Some. by eapply inv_lis. Qed.

(** Side conditions on a goroutine that keeps its listener and connection. *)
Ltac same_refs Hinv Hi :=
  intros ? ?; first [ by eapply (inv_waits _ Hinv _ _ _ Hi) | by eapply (inv_lis _ Hinv _ _ _ Hi) | set_solver ].
Ltac count :=
  intros; unfold handling, owns; cbn [handler_of announces holds];
  repeat case_bool_decide; simplify_eq; cbn [bit] in *; lia.
Ltac side Hinv Hi := first [ done | same_refs Hinv Hi | count ].
Ltac plain Hinv Hi := eapply (inv_goto _ _ _ _ Hinv Hi); side Hinv Hi.

Lemma inv_run_client σ i t c σ' : inv σ → threads σ !! i = Some t → run_client i t c σ = Some σ' → inv σ'.
Proof.
  intros Hinv Hi Hr.
  destruct t; destruct c; try discriminate Hr; cbn [run_client] in Hr.
  - (* enqueue round *)
    destruct (thread_listener σ i _ l Hinv Hi ltac:(by left)) as [tl Hl].
    pose proof (inv_cond _ Hinv _ _ Hl) as Hq. destruct (inv_cap _ Hinv _ _ Hl) as [Hc10 Hlen].
    destruct (enqueue_form σ l tl w Hl Hq) as (b & r & ws & He & Hb & Hcase). rewrite He in Hr.
    pose proof (live_length l tl σ) as Hll.
    destruct r as [[]|]; injection Hr as <-; eapply inv_queue_op; try done; try same_refs Hinv Hi.
    + destruct Hcase as (_ & _ & -> & _). intros v [Hv%live_sub|Hv%list_elem_of_singleton]%elem_of_app.
      * by eapply inv_queue.
      * subst v. eapply (inv_waits _ Hinv _ _ _ Hi). by left.
    + destruct Hcase as (_ & ? & -> & _). rewrite length_app. simpl. lia.
    + destruct Hcase as (_ & _ & -> & _). intros v. rewrite occ_app. pose proof (live_occ v l tl σ).
      pose proof (owns_enqueued v (CTouch l w) w (CEnqueue l w) eq_refl eq_refl eq_refl eq_refl). lia.
    + destruct Hcase as (_ & ->). intros v Hv%live_sub. by eapply inv_queue.
    + destruct Hcase as (_ & ->). lia.
    + destruct Hcase as (_ & ->). intros v. rewrite (owns_none v (CFinish w)) by done. pose proof (live_occ v l tl σ). lia.
    + destruct Hcase as (_ & _ & ->). intros v Hv%live_sub. by eapply inv_queue.
    + destruct Hcase as (_ & _ & ->). lia.
    + destruct Hcase as (_ & _ & ->). intros v. pose proof (live_occ v l tl σ).
      change (owns v (CSleep l w)) with (owns v (CEnqueue l w)). lia.
    + destruct Hcase as (? & ? & ->). intros k v [= <- <-]. split_and!; [done..|lia].
  - destruct (thread_listener σ i _ l Hinv Hi ltac:(by left)) as [tl Hl]. injection Hr as <-.
    destruct (_ <=? 0); eapply (inv_used _ _ _ _ _ _ 0 Hinv Hi Hl); side Hinv Hi.
  - destruct (isDone _ _); [|done]. injection Hr as <-. plain Hinv Hi.
  - destruct (is_quit _ _); [|done]. injection Hr as <-. plain Hinv Hi.
  - destruct (isAcquired _ _); [|done]. injection Hr as <-. plain Hinv Hi.
  - destruct (_ <=? _); [|done]. injection Hr as <-. plain Hinv Hi.
  - injection Hr as <-. destruct (isAcquired _ _); plain Hinv Hi.
  - injection Hr as <-. destruct (finish_frame w true σ) as (Et & Eh & _ & Ew).
    rewrite <-Eh in Hi. apply inv_finish with (w := w) (b := true) in Hinv. plain Hinv Hi.
  - destruct (thread_listener σ i _ l Hinv Hi ltac:(by left)) as [tl Hl]. injection Hr as <-.
    unfold purgeDoneWaiters. destruct (purge_form σ l tl Hl (inv_cond _ Hinv _ _ Hl)) as (b & -> & Hb).
    destruct (inv_cap _ Hinv _ _ Hl) as [Hc10 Hlen]. pose proof (live_length l tl σ).
    eapply inv_queue_op; try done; try same_refs Hinv Hi; [..|intros v; rewrite (owns_none v (CDone w)) by done; pose proof (live_occ v l tl σ); lia].
    + intros v Hv%live_sub. by eapply inv_queue.
    + lia.
  - destruct (isDone _ _); [|done]. injection Hr as <-. plain Hinv Hi.
  - destruct (is_quit _ _); [|done]. injection Hr as <-. plain Hinv Hi.
  - injection Hr as <-. destruct (finish_frame w true σ) as (Et & Eh & _ & Ew).
    rewrite <-Eh in Hi. apply inv_finish with (w := w) (b := true) in Hinv. plain Hinv Hi.
Qed.

Lemma inv_run_listener σ i t c σ' : inv σ → threads σ !! i = Some t → run_listener i t c σ = Some σ' → inv σ'.
Proof.
  intros Hinv Hi Hr. destruct t; try discriminate Hr; destruct c; try discriminate Hr; cbn [run_listener] in Hr;
    injection Hr as <-; try (by plain Hinv Hi);
    destruct (thread_listener σ i _ l Hinv Hi ltac:(by left)) as [tl Hl].
  - (* accept *)
    rewrite spawn_goto. unfold beginIncoming.
    replace (length (threads _)) with (length (threads σ)) by by destruct (registered l σ).
    replace (spawn HDone _) with
      (if registered l (spawn HDone σ) then upd_tl l (with_used 1 (now (spawn HDone σ))) (spawn HDone σ) else spawn HDone σ)
      by (change (registered l (spawn HDone σ)) with (registered l σ); by destruct (registered l σ)).
    eapply (inv_used _ _ _ _ _ _ 1 (inv_spawn_idle _ Hinv) (spawn_idle_lookup σ) Hl); side Hinv Hi.
  - eapply (inv_closed _ _ _ _ _ _ false Hinv Hi Hl); side Hinv Hi.
  - (* unregister, then close the socket *)
    assert (∃ m, unregister l σ = set_listeners m σ ∧ ∀ a k, m !! a = Some k → listeners σ !! a = Some k) as (m & -> & Hm).
    { unfold unregister. rewrite Hl. destruct (registered l σ).
      - eexists. split; [done|]. intros a k [? ?]%lookup_delete_Some. done.
      - exists (listeners σ). split; [by destruct σ|done]. }
    apply inv_shrink with (m := m) in Hinv; [|done].
    change (upd_tl l with_sockets_closed ?s) with (tl_op false l with_sockets_closed s).
    assert (threads (set_listeners m σ) !! i = Some (LDelete l)) as Hi' by done.
    assert (tls (set_listeners m σ) !! l = Some tl) as Hl' by done.
    eapply (inv_tl_op _ _ _ _ _ _ _ _ Hinv Hi' Hl'); try done.
    + set_solver.
    + set_solver.
    + intros w Hw. exact (inv_queue _ Hinv l tl w Hl Hw).
    + by destruct (inv_cap _ Hinv _ _ Hl').
    + intros k _. simpl. case_bool_decide; count.
Qed.

(** A timer callback wakes the goroutines of its listener. *)
Lemma inv_broadcast σ i t t' l tl : inv σ → threads σ !! i = Some t → tls σ !! l = Some tl → sleeping t' = None →
  waits_of t' = waits_of t → listeners_of t' = listeners_of t → announces t' = announces t → holds t' = holds t →
  handler_of t' = handler_of t → inv (goto i t' (broadcast_if l σ)).
Proof.
  intros Hinv Hi Hl Hs Ew El Ea Eh Ec. rewrite (broadcast_form σ l tl) by (done || by eapply inv_cond).
  apply inv_tl_op with t tl; try done.
  - rewrite Ew. same_refs Hinv Hi.
  - rewrite El. same_refs Hinv Hi.
  - intros w. exact (inv_queue _ Hinv l tl w Hl).
  - by destruct (inv_cap _ Hinv _ _ Hl).
  - intros w. unfold owns. rewrite Ea, Eh. simpl. lia.
  - intros k _. unfold handling. rewrite Ec. simpl. case_bool_decide; lia.
  - intros k w ->. done.
  - intros k tgt tm dl ->. done.
Qed.

Lemma inv_acquire σ i l tgt tm dl : inv σ → threads σ !! i = Some (HAcquire l tgt tm dl) →
  match acquireWaitingConn l dl σ with
  | (Returns (Some w), σ') => inv (goto i (HMark l tgt w) σ')
  | (Returns None, σ') => inv (goto i (HDec l) σ')
  | (Waits, σ') => inv (goto i (HSleep l tgt tm dl) σ')
  end.
Proof.
  intros Hinv Hi. destruct (thread_listener σ i _ l Hinv Hi ltac:(by left)) as [tl Hl].
  destruct (acquire_form σ l tl dl Hl (inv_cond _ Hinv _ _ Hl)) as (b & r & ws & -> & Hb & Hcase).
  destruct (inv_cap _ Hinv _ _ Hl) as [_ Hlen]. pose proof (live_length l tl σ) as Hll.
  pose proof (λ w, live_occ w l tl σ) as Hocc. pose proof (live_sub l tl σ) as Hsub.
  destruct r as [[w|]|].
  - destruct Hcase as [Elive ->]. rewrite Elive in *.
    eapply inv_queue_op; try done.
    + intros v Hv%list_elem_of_singleton. subst v. eapply (inv_queue _ Hinv l tl); [done|]. apply Hsub. by left.
    + same_refs Hinv Hi.
    + intros v Hv. eapply (inv_queue _ Hinv l tl); [done|]. apply Hsub. by right.
    + simpl in Hll. lia.
    + intros v. specialize (Hocc v). rewrite occ_cons in Hocc. revert Hocc. count.
  - destruct Hcase as (_ & -> & _). eapply inv_queue_op; try done; try same_refs Hinv Hi; [simpl; lia|].
    intros v. change (occ v []) with 0%nat. change (owns v (HDec l)) with 0%nat. lia.
  - destruct Hcase as (_ & -> & _ & ?). eapply inv_queue_op; try done; try same_refs Hinv Hi; [simpl; lia|..].
    intros v. change (occ v []) with 0%nat. change (owns v (HSleep l tgt tm dl)) with 0%nat. lia.
Qed.

Lemma inv_run_handler σ i t c σ' : inv σ → threads σ !! i = Some t → run_handler i t c σ = Some σ' → inv σ'.
Proof.
  intros Hinv Hi Hr. destruct t; try discriminate Hr; destruct c; try discriminate Hr; cbn [run_handler] in Hr.
  all: lazymatch type of Hr with
       | context [acquireWaitingConn] => pose proof (inv_acquire _ _ _ _ _ _ Hinv Hi) as Hacq
       | _ => idtac
       end.
  all: repeat case_match; try discriminate Hr; simplify_eq; try done; try (by plain Hinv Hi).
  all: destruct (thread_listener σ i _ l Hinv Hi ltac:(by left)) as [tl Hl].
  - by eapply (inv_broadcast _ _ _ _ _ _ Hinv Hi Hl).
  - by eapply (inv_broadcast _ _ _ _ _ _ Hinv Hi Hl).
  - by eapply (inv_broadcast _ _ _ _ _ _ Hinv Hi Hl).
  - assert (threads (markAcquired w σ) !! i = Some (HMark l tgt w)) as Hi' by done.
    apply inv_markAcquired with (w := w) in Hinv. plain Hinv Hi'.
  - eapply (inv_used _ _ _ _ _ _ 0 Hinv Hi Hl); side Hinv Hi.
  - destruct (pipe_end_frame w σ) as (_ & E & _). rewrite <-E in Hi.
    apply inv_pipe_end with (w := w) in Hinv. plain Hinv Hi.
  - destruct (finish_frame w false σ) as (_ & E & _). rewrite <-E in Hi.
    apply inv_finish with (w := w) (b := false) in Hinv. plain Hinv Hi.
  - eapply (inv_used _ _ _ _ _ _ (-1) Hinv Hi Hl); side Hinv Hi.
Qed.

Lemma inv_run_reaper σ i t c σ' : inv σ → threads σ !! i = Some t → run_reaper i t c σ = Some σ' → inv σ'.
Proof.
  intros Hinv Hi Hr. destruct t; try discriminate Hr; destruct c; try discriminate Hr; cbn [run_reaper] in Hr;
    repeat case_match; try discriminate Hr; simplify_eq; try (by plain Hinv Hi).
  - (* the critical section of the reaper *)
    unfold reapIdleListenersOnce in H. injection H as <- <-.
    assert (∀ k, k ∈ (filter (λ x : bytes * nat, is_stale now σ x.2 = true) (map_to_list (listeners σ))).*2 →
      (k < length (tls σ))%nat) as Hk.
    { intros k ([a k'] & -> & [_ Ha]%list_elem_of_filter)%list_elem_of_fmap. apply elem_of_map_to_list in Ha.
      destruct (inv_reg _ Hinv _ _ Ha) as (x & Hx & _). by eapply lookup_lt_Some. }
    apply inv_shrink with (m := filter (λ x, is_stale now σ x.2 = false) (listeners σ)) in Hinv.
    + eapply (inv_goto _ _ _ _ Hinv Hi); side Hinv Hi.
    + intros a k [? _]%map_lookup_filter_Some. done.
  - destruct (thread_listener σ i _ n Hinv Hi ltac:(by left)) as [tl Hl].
    eapply (inv_closed _ _ _ _ _ _ true Hinv Hi Hl); try done; intros k Hk; [set_solver|].
    eapply (inv_lis _ Hinv _ _ _ Hi). by right.
  - assert (inv (set_stop true σ)) as Hinv' by by apply (inv_ext σ). plain Hinv' Hi.
  - unfold Close in H. injection H as <- <-.
    assert (∀ k, k ∈ (map_to_list (listeners σ)).*2 → (k < length (tls σ))%nat) as Hk.
    { intros k ([a k'] & -> & Ha)%list_elem_of_fmap. apply elem_of_map_to_list in Ha.
      destruct (inv_reg _ Hinv _ _ Ha) as (x & Hx & _). by eapply lookup_lt_Some. }
    apply inv_shrink with (m := ∅) in Hinv.
    + eapply (inv_goto _ _ _ _ Hinv Hi); side Hinv Hi.
    + intros a k. by rewrite lookup_empty.
  - destruct (thread_listener σ i _ n Hinv Hi ltac:(by left)) as [tl Hl].
    eapply (inv_closed _ _ _ _ _ _ true Hinv Hi Hl); try done; intros k Hk; [set_solver|].
    eapply (inv_lis _ Hinv _ _ _ Hi). by right.
Qed.

(** A goroutine announces a connection nobody owns. *)
Lemma inv_announce σ i l w : inv σ → threads σ !! i = Some HDone → (l < length (tls σ))%nat →
  (w < length (waits σ))%nat → owners w σ = 0%nat → inv (goto i (CEnqueue l w) σ).
Proof.
  intros [H1 H2 H3 H4 H5 H6 H7 H8 H9 H10] Hi Hl Hw Ho.
  assert (∀ j x, threads (goto i (CEnqueue l w) σ) !! j = Some x → x = CEnqueue l w ∨ threads σ !! j = Some x) as Hthr.
  { intros j x. cbn. destruct (decide (j = i)) as [->|Hne]; [|rewrite list_lookup_insert_ne by done; by right].
    rewrite list_lookup_insert_eq by (by eapply lookup_lt_Some). intros [= <-]. by left. }
  constructor; try done.
  - intros j x v [->|Hj]%Hthr; [|by eapply H1]. by intros ->%list_elem_of_singleton.
  - intros j x k [->|Hj]%Hthr; [|by eapply H2]. by intros ->%list_elem_of_singleton.
  - intros v. specialize (H7 v). unfold owners in *. cbn.
    pose proof (total_insert (owns v) _ _ _ (CEnqueue l w) Hi) as Ht. change (owns v HDone) with 0%nat in Ht.
    destruct (decide (v = w)) as [->|Hne]; [assert (owns w (CEnqueue l w) ≤ 1)%nat by count; lia|].
    assert (owns v (CEnqueue l w) = 0%nat) by count. lia.
  - intros k x Hx Hr. rewrite (H8 k x Hx Hr). unfold handlers. cbn.
    pose proof (total_insert (handling k) _ _ _ (CEnqueue l w) Hi) as Ht.
    change (handling k (CEnqueue l w)) with 0%nat in Ht. change (handling k HDone) with 0%nat in Ht. lia.
  - intros j k v x [[=]|Hj]%Hthr. by eapply H9.
  - intros j k tgt tm dl x [[=]|Hj]%Hthr. by eapply H10.
Qed.

(** [tl.lastUsed = time.Now()] on a registered listener. *)
Lemma inv_touch σ l t : inv σ → tls σ !! l = Some t → registered l σ = true → inv (upd_tl l (with_used 0 (now σ)) σ).
Proof.
  intros Hinv Hl Hr.
  assert (∀ k x, tls (upd_tl l (with_used 0 (now σ)) σ) !! k = Some x →
    ∃ y, tls σ !! k = Some y ∧ addr x = addr y ∧ waiting x = waiting y ∧ waitCap x = waitCap y ∧
         queueCond x = queueCond y ∧ quit x = quit y ∧ active x = active y) as Htls.
  { intros k x. cbn. destruct (decide (k = l)) as [->|Hne].
    - rewrite list_lookup_alter_eq, Hl. intros [= <-]. exists t. split_and!; try done. simpl. lia.
    - rewrite list_lookup_alter_ne by done. eauto 10. }
  assert (∀ k, registered k (upd_tl l (with_used 0 (now σ)) σ) = registered k σ) as Hreg.
  { intros k. unfold registered. cbn. destruct (decide (k = l)) as [->|Hne].
    - by rewrite list_lookup_alter_eq, Hl.
    - by rewrite list_lookup_alter_ne. }
  destruct Hinv as [H1 H2 H3 H4 H5 H6 H7 H8 H9 H10]. constructor; try done.
  - intros i x k Hi Hk. cbn. rewrite length_alter. by eapply H2.
  - intros k x w (y & Hy & _ & -> & _)%Htls. by apply (H3 k).
  - intros a k (x & Hx & Hxa)%H4. cbn. destruct (decide (k = l)) as [->|Hne].
    + rewrite list_lookup_alter_eq, Hx. simpl. by eexists.
    + rewrite list_lookup_alter_ne by done. eauto.
  - intros k x (y & Hy & _ & _ & _ & -> & _)%Htls. by eapply H5.
  - intros k x (y & Hy & _ & -> & -> & _)%Htls. by eapply H6.
  - intros w. specialize (H7 w). unfold owners in *. cbn.
    pose proof (total_alter (λ t, occ w (waiting t)) _ _ _ (with_used 0 (now σ)) Hl) as Ht. simpl in Ht. lia.
  - intros k x (y & Hy & _ & _ & _ & _ & _ & ->)%Htls Hrk. rewrite Hreg in Hrk. by apply H8.
  - intros i k w x Hi (y & Hy & _ & -> & _ & _ & -> & _)%Htls. by eapply H9.
  - intros i k tgt tm dl x Hi (y & Hy & _ & -> & _ & _ & -> & _)%Htls. by eapply H10.
Qed.

Lemma inv_connect σ listen kind claims : inv σ → inv (HandleClient listen kind claims σ).
Proof.
  intros Hinv. unfold HandleClient.
  assert (inv (set_conns (conns σ ++ [mkCconn kind false]) σ)) as Hinv1 by by apply (inv_ext σ).
  generalize (length (conns σ)) as c. intros c. set (σ1 := set_conns _ σ) in *. clearbody σ1. clear Hinv σ.
  assert (inv (close_conn c σ1)) as Hcl by by apply (inv_ext σ1).
  unfold getOrCreateListener. destruct (bind_addr claims) as [[a u] net].
  assert (∀ σ2 l, inv σ2 → (l < length (tls σ2))%nat →
    inv (spawn (CEnqueue l (length (waits σ2))) (set_waits (waits σ2 ++ [mkWait c (Some false) false]) σ2)))
    as Hspawn.
  { intros σ2 l H2 Hl. rewrite spawn_goto. cbn [threads set_waits].
    pose proof (owners_fresh σ2 (length (waits σ2)) H2 (le_n _)) as Hfresh.
    apply (inv_new_wait _ (mkWait c (Some false) false)), inv_spawn_idle in H2.
    apply (inv_announce _ _ _ _ H2); try done.
    - apply (spawn_idle_lookup (set_waits _ σ2)).
    - cbn. rewrite length_app. simpl. lia.
    - unfold owners in *. cbn. rewrite total_app. simpl. lia. }
  destruct (listeners σ1 !! a) as [l|] eqn:Ha.
  - destruct (inv_reg _ Hinv1 _ _ Ha) as (t & Ht & Hta). apply Hspawn.
    + apply (inv_touch _ _ t); [done..|]. unfold registered. rewrite Ht, Hta. by apply bool_decide_eq_true.
    + cbn. rewrite length_alter. by eapply lookup_lt_Some.
  - destruct (listen net a); try done. apply Hspawn.
    + rewrite spawn_goto. eapply inv_goto; [|apply spawn_idle_lookup|try done..].
      * apply inv_spawn_idle, (inv_new_listener σ1 a); try done.
      * set_solver.
      * intros k Hk%list_elem_of_singleton. subst k. cbn. rewrite length_app. simpl. lia.
    + cbn. rewrite length_app. simpl. lia.
Qed.

(** ** Reachable states *)

Lemma inv_init soMark timeout start : inv (NewReverseTunnelManager soMark timeout start).
Proof.
  assert (∀ i t, threads (NewReverseTunnelManager soMark timeout start) !! i = Some t → t = RTick) as Ht.
  { intros i t. cbn. destruct (0 <? timeout); [|done]. by intros [_ <-]%list_lookup_singleton_Some. }
  constructor; try done.
  - intros i t w ->%Ht. set_solver.
  - intros i t w ->%Ht. set_solver.
  - intros w. unfold owners. cbn [NewReverseTunnelManager threads tls total]. destruct (0 <? timeout); [|cbn; lia].
    cbn [total]. rewrite (owns_none w RTick) by done. lia.
Qed.

Lemma inv_step σ σ' : inv σ → step σ σ' → inv σ'.
Proof.
  intros Hinv [a Ha]. destruct a as [d|kind claims r| |l|i c]; cbn [exec] in Ha.
  - destruct (0 <=? d); [|done]. injection Ha as <-. by apply (inv_ext σ).
  - injection Ha as <-. by apply inv_connect.
  - injection Ha as <-. rewrite spawn_goto.
    eapply inv_goto; [by apply inv_spawn_idle|apply spawn_idle_lookup|done..|set_solver|set_solver|done|done].
  - injection Ha as <-. destruct (tls σ !! l) as [t|] eqn:Hl; [|unfold broadcast_if; by rewrite Hl].
    assert (inv (goto (length (threads σ)) HDone (broadcast_if l (spawn HDone σ)))) as H'.
    { eapply inv_broadcast; [by apply inv_spawn_idle|apply spawn_idle_lookup|done..]. }
    pose proof (inv_cond _ Hinv _ _ Hl) as Hq. apply inv_unspawn_idle. rewrite (broadcast_form σ l t Hl Hq).
    rewrite (broadcast_form (spawn HDone σ) l t Hl Hq) in H'.
    rewrite spawn_goto. revert H'. unfold goto, tl_op, spawn. cbn. rewrite fmap_app, length_fmap. done.
  - apply bind_Some in Ha as (t & Hi & Hr). unfold run_thread in Hr.
    destruct t; first [ exact (inv_run_client _ _ _ _ _ Hinv Hi Hr) | exact (inv_run_listener _ _ _ _ _ Hinv Hi Hr)
      | exact (inv_run_handler _ _ _ _ _ Hinv Hi Hr) | exact (inv_run_reaper _ _ _ _ _ Hinv Hi Hr) ].
Qed.

(** Invariants that every step preserves hold in every reachable state. *)
Lemma reachable_ind (P : world → Prop) :
  (∀ m d t0, P (NewReverseTunnelManager m d t0)) → (∀ σ σ', reachable σ → P σ → step σ σ' → P σ') →
  ∀ σ, reachable σ → P σ.
Proof.
  intros H0 Hs σ (m & d & t0 & H).
  assert (∀ σ', reachable σ' → P σ' → rtc step σ' σ → P σ) as Hgen.
  { clear H. intros σ' Hr HP H. induction H as [|σ1 σ2 σ3 H12 H IH]; [done|]. apply IH; [|by eapply Hs].
    destruct Hr as (m' & d' & t' & Hr). exists m', d', t'. by eapply rtc_r. }
  eapply Hgen; [|apply H0|exact H]. by exists m, d, t0.
Qed.

Lemma reachable_inv σ : reachable σ → inv σ.
Proof. apply reachable_ind; eauto using inv_init, inv_step. Qed.
