(* ===== verification/ManagerProps.v ===== *)
(** What the reverse tunnel manager (pkg/server/manager.go) guarantees in every
    reachable state, and two executions in which it does not do what it means
    to. *)

From S2P Require Import Prelude GoStrings GoNet Protocol TargetFrame Manager ManagerSys ManagerInv.

(** ** The fate of a client connection *)

Definition is_closed (w : nat) (σ : world) : bool :=
  match waits σ !! w with
  | Some x => match conns σ !! w_conn x with Some c => c_closed c | None => false end
  | None => false
  end.

(** A client goroutine past its [finish], and a handler past [markAcquired]. *)
Definition finished (t : thread) : option nat :=
  match t with CPurge _ w | CDone w => Some w | _ => None end.
Definition marked (t : thread) : option nat :=
  match t with HTouch _ _ w | HFrame _ _ w | HPipe _ w | HFinish _ w => Some w | _ => None end.

Record thread_ok (σ : world) (t : thread) : Prop := {
  ok_finished : ∀ w, finished t = Some w → isDone w σ = true;
  ok_marked : ∀ w, marked t = Some w → isAcquired w σ = true;
  ok_holds : ∀ w, holds t = Some w → isDone w σ = true → is_closed w σ = true
}.

Record wait_ok (σ : world) (x : waitingConn) : Prop := {
  ok_chan : acquired x ≠ None;
  ok_conn : is_Some (conns σ !! w_conn x);
  ok_done : done x = true → acquired x = Some true ∨ c_closed <$> conns σ !! w_conn x = Some true
}.

Definition fate (σ : world) : Prop :=
  (∀ i t, threads σ !! i = Some t → thread_ok σ t) ∧ (∀ w x, waits σ !! w = Some x → wait_ok σ x).

(** How the waiting connections evolve in a step: flags are never reset, and a
    connection that becomes done has been closed. *)
Record evolves (σ σ' : world) : Prop := {
  ev_done : ∀ w, isDone w σ = true → isDone w σ' = true;
  ev_acquired : ∀ w, isAcquired w σ = true → isAcquired w σ' = true;
  ev_closed : ∀ w, is_closed w σ = true → is_closed w σ' = true;
  ev_new : ∀ w, isDone w σ' = true → isDone w σ = true ∨ is_closed w σ' = true
}.

Lemma evolves_same σ σ' : waits σ' = waits σ → conns σ' = conns σ → evolves σ σ'.
Proof. intros Hw Hc. unfold isDone, isAcquired, is_closed. constructor; unfold isDone, isAcquired, is_closed; rewrite ?Hw, ?Hc; auto. Qed.

Lemma thread_ok_evolves σ σ' t : evolves σ σ' → thread_ok σ t → thread_ok σ' t.
Proof.
  intros [Hd Ha Hc Hn] [H1 H2 H3]. constructor; eauto.
  intros w Hw Hdone. destruct (Hn w Hdone) as [?|?]; eauto.
Qed.

Lemma thread_ok_wake σ l t : thread_ok σ t → thread_ok σ (wake l t).
Proof.
  intros H. destruct t; simpl; try done; case_bool_decide; try done; by constructor.
Qed.

(** A goroutine that has none of the roles is fine. *)
Lemma thread_ok_none σ t : finished t = None → marked t = None → holds t = None → thread_ok σ t.
Proof. intros H1 H2 H3. constructor; intros w; by rewrite ?H1, ?H2, ?H3. Qed.

(** ** Steps that leave the connections alone *)

Lemma fate_threads σ σ' : fate σ → waits σ' = waits σ → conns σ' = conns σ →
  (∀ j t, threads σ' !! j = Some t → thread_ok σ t) → fate σ'.
Proof.
  intros [Ht Hx] Hw Hc Hthr. split.
  - intros j t Hj. eapply thread_ok_evolves; [by apply evolves_same|]. by apply (Hthr j).
  - intros w x. rewrite Hw. intros [H1 H2 H3]%Hx. constructor; rewrite ?Hc; done.
Qed.

(** A goroutine moves, the others at most wake up. *)
Lemma fate_goto l σ σ1 i t' : fate σ → woken l σ σ1 → waits σ1 = waits σ → conns σ1 = conns σ →
  thread_ok σ t' → fate (goto i t' σ1).
Proof.
  intros Hf Hwk Hw Hc Ht'. eapply fate_threads; [exact Hf|done..|].
  intros j t. cbn. destruct (decide (j = i)) as [->|Hne].
  - intros Hj. pose proof (lookup_lt_Some _ _ _ Hj) as Hlt. rewrite length_insert in Hlt.
    rewrite list_lookup_insert_eq in Hj by done. by injection Hj as <-.
  - rewrite list_lookup_insert_ne by done. destruct Hf as [Hf _].
    destruct Hwk as [-> | ->]; [by apply Hf|]. rewrite list_lookup_fmap.
    intros (y & Hy & ->)%fmap_Some. by eapply thread_ok_wake, Hf.
Qed.

Lemma fate_spawn σ t : fate σ → thread_ok σ t → fate (spawn t σ).
Proof.
  intros Hf Ht. eapply fate_threads; [exact Hf|done..|]. intros j x. cbn. rewrite lookup_app_Some.
  intros [Hj|[_ [_ ->]%list_lookup_singleton_Some]]; [|done]. by eapply Hf.
Qed.

(** ** Operations leave the connections alone *)

Definition quiet (l : nat) (σ σ' : world) : Prop := woken l σ σ' ∧ waits σ' = waits σ ∧ conns σ' = conns σ.

Lemma quiet_refl l σ : quiet l σ σ.
Proof. by split; [left|]. Qed.

Lemma wake_twice l (ts : list thread) : wake l <$> (wake l <$> ts) = wake l <$> ts.
Proof. rewrite <-list_fmap_compose. apply list_fmap_ext. intros. apply wake_wake. Qed.

Lemma quiet_trans l σ1 σ2 σ3 : quiet l σ1 σ2 → quiet l σ2 σ3 → quiet l σ1 σ3.
Proof.
  intros ([E|E] & Hw & Hc) ([E'|E'] & Hw' & Hc'); (split; [|split; congruence]); unfold woken; rewrite E', E;
    auto. right. apply wake_twice.
Qed.

Lemma quiet_upd l k f σ : quiet l σ (upd_tl k f σ).
Proof. by split; [left|]. Qed.

Lemma quiet_broadcast l σ : quiet l σ (broadcast_if l σ).
Proof.
  unfold broadcast_if. destruct (tls σ !! l) as [t|]; [|apply quiet_refl].
  destruct (queueCond t); [|apply quiet_refl]. by split; [right|].
Qed.

Lemma quiet_used l k d σ : quiet l σ (if registered k σ then upd_tl k (with_used d (now σ)) σ else σ).
Proof. destruct (registered k σ); [apply quiet_upd|apply quiet_refl]. Qed.

Lemma quiet_close l b σ : quiet l σ (closeTunnelListener l b σ).
Proof.
  unfold closeTunnelListener. eapply quiet_trans; [apply (quiet_upd l l with_quit)|].
  eapply quiet_trans; [apply quiet_broadcast|]. destruct b; [apply quiet_upd|apply quiet_refl].
Qed.

Lemma quiet_purge l σ : quiet l σ (purgeDoneWaitersLocked l σ).
Proof.
  unfold purgeDoneWaitersLocked. destruct (tls σ !! l) as [t|]; [|apply quiet_refl].
  eapply quiet_trans; [apply quiet_upd|]. destruct (existsb _ _); [apply quiet_broadcast|apply quiet_refl].
Qed.

Lemma quiet_enqueue l w σ : quiet l σ (enqueueWaitingConn l w σ).2.
Proof.
  unfold enqueueWaitingConn. eapply quiet_trans; [apply quiet_purge|].
  destruct (tls _ !! l) as [t|]; [|apply quiet_refl]. repeat case_match; try apply quiet_refl.
  eapply quiet_trans; [apply quiet_upd|apply quiet_broadcast].
Qed.

Lemma quiet_acquire l dl σ : quiet l σ (acquireWaitingConn l dl σ).2.
Proof.
  unfold acquireWaitingConn. eapply quiet_trans; [apply quiet_purge|].
  destruct (tls _ !! l) as [t|]; [|apply quiet_refl]. repeat case_match; try apply quiet_refl.
  eapply quiet_trans; [apply quiet_upd|apply quiet_broadcast].
Qed.

#[export] Hint Resolve quiet_refl quiet_broadcast quiet_used quiet_close quiet_purge quiet_enqueue quiet_acquire : go.

Lemma fate_quiet l σ σ1 i t' : fate σ → quiet l σ σ1 → thread_ok σ t' → fate (goto i t' σ1).
Proof. intros Hf (? & ? & ?) Ht. by eapply fate_goto. Qed.

(** ** Operations on the connections *)

Lemma close_conn_lookup c σ k : conns (close_conn c σ) !! k =
  (λ x, if bool_decide (k = c) then mkCconn (c_kind x) true else x) <$> conns σ !! k.
Proof.
  cbn. case_bool_decide as E.
  - subst k. by rewrite list_lookup_alter_eq.
  - rewrite list_lookup_alter_ne by done. by destruct (conns σ !! k).
Qed.

Lemma evolves_close c σ : evolves σ (close_conn c σ).
Proof.
  constructor; try done; [|by left].
  intros w. unfold is_closed. cbn [waits close_conn set_conns]. destruct (waits σ !! w) as [x|]; [|done].
  rewrite close_conn_lookup. destruct (conns σ !! w_conn x); [|done]. simpl. by case_bool_decide.
Qed.

Lemma wait_ok_close c σ x : wait_ok σ x → wait_ok (close_conn c σ) x.
Proof.
  intros [H1 [y Hy] H3]. constructor; [done| |]; rewrite close_conn_lookup, Hy; simpl; [done|].
  intros [?|Hc]%H3; [by left|]. rewrite Hy in Hc. right. case_bool_decide; [done|]. done.
Qed.

Lemma evolves_trans σ1 σ2 σ3 : evolves σ1 σ2 → evolves σ2 σ3 → evolves σ1 σ3.
Proof.
  intros [A1 B1 C1 D1] [A2 B2 C2 D2]. constructor; eauto.
  intros w H3. destruct (D2 w H3) as [H2|]; [|by right]. destruct (D1 w H2); eauto.
Qed.

(** The world after a [finish] that has an effect. *)
Lemma isDone_set w v σ : isDone v (upd_wait w (λ x, mkWait (w_conn x) (acquired x) true) σ) =
  if bool_decide (v = w) then bool_decide (is_Some (waits σ !! w)) else isDone v σ.
Proof.
  unfold isDone. cbn. case_bool_decide as E.
  - subst v. rewrite list_lookup_alter_eq. by destruct (waits σ !! w).
  - by rewrite list_lookup_alter_ne.
Qed.

Lemma isAcquired_set w v σ : isAcquired v (upd_wait w (λ x, mkWait (w_conn x) (acquired x) true) σ) = isAcquired v σ.
Proof.
  unfold isAcquired. cbn. destruct (decide (v = w)) as [->|].
  - rewrite list_lookup_alter_eq. by destruct (waits σ !! w).
  - by rewrite list_lookup_alter_ne.
Qed.

Lemma is_closed_set w v f σ : (∀ x, w_conn (f x) = w_conn x) → is_closed v (upd_wait w f σ) = is_closed v σ.
Proof.
  intros Hf. unfold is_closed. cbn. destruct (decide (v = w)) as [->|].
  - rewrite list_lookup_alter_eq. destruct (waits σ !! w); [|done]. cbn. by rewrite Hf.
  - by rewrite list_lookup_alter_ne.
Qed.

Lemma fate_finish_true w σ : fate σ → fate (finish w true σ).
Proof.
  intros [Ht Hx]. unfold finish. destruct (waits σ !! w) as [x|] eqn:Ew; [|done].
  destruct (done x) eqn:Ed; [done|]. pose proof (Hx w x Ew) as [Hch [c Hc] _].
  set (σ1 := close_conn (w_conn x) σ). set (σ2 := upd_wait w _ σ1).
  assert (is_closed w σ2 = true) as Hcl.
  { unfold σ2. rewrite is_closed_set by done. unfold is_closed. cbn [waits σ1 close_conn set_conns]. rewrite Ew.
    unfold σ1. rewrite close_conn_lookup, Hc. simpl. by rewrite bool_decide_true. }
  assert (evolves σ σ2) as Hev.
  { eapply evolves_trans; [apply (evolves_close (w_conn x))|]. fold σ1. constructor.
    - intros v Hv. unfold σ2. rewrite isDone_set. case_bool_decide; [|done]. apply bool_decide_eq_true. cbn. by rewrite Ew.
    - intros v Hv. unfold σ2. by rewrite isAcquired_set.
    - intros v Hv. unfold σ2. by rewrite is_closed_set.
    - intros v. unfold σ2 at 1. rewrite isDone_set. case_bool_decide as E; [subst v|]; auto. }
  split.
  - intros i t Hi. eapply thread_ok_evolves; [exact Hev|]. by apply (Ht i).
  - intros v y. unfold σ2. cbn. destruct (decide (v = w)) as [->|Hne].
    + rewrite list_lookup_alter_eq, Ew. intros [= <-]. constructor; simpl; [done|..].
      * change (is_Some (conns σ1 !! w_conn x)). unfold σ1. rewrite close_conn_lookup, Hc. by eexists.
      * intros _. right. change (c_closed <$> conns σ1 !! w_conn x = Some true). unfold σ1.
        rewrite close_conn_lookup, Hc. simpl. by rewrite bool_decide_true.
    + rewrite list_lookup_alter_ne by done. intros Hv. destruct (wait_ok_close (w_conn x) σ y (Hx v y Hv)) as [? ? ?].
      by constructor.
Qed.

Lemma holds_owns w t : holds t = Some w → (1 ≤ owns w t)%nat.
Proof. unfold owns. intros ->. rewrite (bool_decide_true (Some w = Some w)) by done. simpl. lia. Qed.

(** A handler releases its connection: nobody else holds it. *)
Lemma fate_finish_false σ i l w : inv σ → fate σ → threads σ !! i = Some (HFinish l w) →
  fate (goto i (HDec l) (finish w false σ)).
Proof.
  intros Hinv Hf Hi. pose proof (proj1 Hf _ _ Hi) as [_ Hm _].
  unfold finish. destruct (waits σ !! w) as [x|] eqn:Ew; [|by apply (fate_quiet l σ); auto using quiet_refl, thread_ok_none].
  destruct (done x) eqn:Ed; [by apply (fate_quiet l σ); auto using quiet_refl, thread_ok_none|].
  destruct Hf as [Ht Hx]. set (σ2 := upd_wait w _ σ). specialize (Hm w eq_refl).
  assert (∀ j t, j ≠ i → threads σ !! j = Some t → holds t ≠ Some w) as Hothers.
  { intros j t Hne Hj Hh. pose proof (total_ge2 (owns w) _ _ _ _ _ Hne Hj Hi) as Hg.
    pose proof (inv_owners _ Hinv w) as Ho. unfold owners in Ho.
    pose proof (holds_owns w t Hh). pose proof (holds_owns w (HFinish l w) eq_refl). lia. }
  split.
  - intros j t. cbn. destruct (decide (j = i)) as [->|Hne].
    + intros Hj. rewrite list_lookup_insert_eq in Hj by (by eapply lookup_lt_Some). injection Hj as <-. by apply thread_ok_none.
    + rewrite list_lookup_insert_ne by done. intros Hj. destruct (Ht j t Hj) as [H1 H2 H3]. constructor.
      * intros v Hv. change (isDone v σ2 = true). unfold σ2. rewrite isDone_set. case_bool_decide; [|by apply H1].
        apply bool_decide_eq_true. by rewrite Ew.
      * intros v Hv. change (isAcquired v σ2 = true). unfold σ2. rewrite isAcquired_set. by apply H2.
      * intros v Hv. change (isDone v σ2 = true → is_closed v σ2 = true). unfold σ2.
        rewrite isDone_set, is_closed_set by done. case_bool_decide as E; [|by apply H3].
        subst v. by apply (Hothers j t) in Hv.
  - intros v y. cbn. destruct (decide (v = w)) as [->|Hne].
    + rewrite list_lookup_alter_eq, Ew. intros [= <-]. destruct (Hx w x Ew) as [? ? ?]. constructor; try done.
      intros _. left. unfold isAcquired in Hm. rewrite Ew in Hm. by apply bool_decide_eq_true in Hm.
    + rewrite list_lookup_alter_ne by done. intros Hv. destruct (Hx v y Hv) as [? ? ?]. by constructor.
Qed.

(** ** Every step *)

Lemma fate_markAcquired w σ : fate σ → fate (markAcquired w σ).
Proof.
  intros [Ht Hx].
  assert (evolves σ (markAcquired w σ)) as Hev.
  { constructor.
    - intros v. unfold isDone, markAcquired. cbn. destruct (decide (v = w)) as [->|].
      + rewrite list_lookup_alter_eq. by destruct (waits σ !! w).
      + by rewrite list_lookup_alter_ne.
    - intros v. unfold isAcquired, markAcquired. cbn. destruct (decide (v = w)) as [->|].
      + rewrite list_lookup_alter_eq. destruct (waits σ !! w) as [x|]; [|done]. cbn.
        intros H%bool_decide_eq_true. by rewrite H.
      + by rewrite list_lookup_alter_ne.
    - intros v. unfold markAcquired. by rewrite is_closed_set.
    - intros v. unfold isDone, markAcquired. cbn. left. revert H. destruct (decide (v = w)) as [->|].
      + rewrite list_lookup_alter_eq. by destruct (waits σ !! w).
      + by rewrite list_lookup_alter_ne. }
  split.
  - intros i t Hi. eapply thread_ok_evolves; [exact Hev|]. by apply (Ht i).
  - intros v y. cbn. destruct (decide (v = w)) as [->|].
    + rewrite list_lookup_alter_eq. destruct (waits σ !! w) as [x|] eqn:Ew; [|done]. intros [= <-].
      destruct (Hx w x Ew) as [Hch ? ?]. constructor; simpl; [by destruct (acquired x)|done|].
      intros _. left. by destruct (acquired x).
    + rewrite list_lookup_alter_ne by done. intros [? ? ?]%Hx. by constructor.
Qed.

Lemma markAcquired_acquired w σ : fate σ → (w < length (waits σ))%nat → isAcquired w (markAcquired w σ) = true.
Proof.
  intros [_ Hx] [x Hw]%lookup_lt_is_Some. unfold isAcquired, markAcquired. cbn. rewrite list_lookup_alter_eq, Hw. cbn.
  destruct (Hx w x Hw) as [Hch _ _]. by destruct (acquired x).
Qed.

Lemma finish_done w b σ : (w < length (waits σ))%nat → isDone w (finish w b σ) = true.
Proof.
  intros [x Hw]%lookup_lt_is_Some. unfold finish. rewrite Hw. destruct (done x) eqn:Ed.
  - unfold isDone. by rewrite Hw.
  - rewrite isDone_set, bool_decide_true by done. apply bool_decide_eq_true. destruct b; cbn; by rewrite Hw.
Qed.

Lemma fate_pipe_end w σ : fate σ → fate (pipe_end w σ).
Proof.
  intros [Ht Hx]. unfold pipe_end. destruct (waits σ !! w) as [x|]; [|done]. destruct (conns σ !! _) as [c|]; [|done].
  destruct (c_kind c); try done. split.
  - intros i t Hi. eapply thread_ok_evolves; [apply evolves_close|]. by apply (Ht i).
  - intros v y Hv. by eapply wait_ok_close, Hx.
Qed.

(** Moving on within the same roles. *)
Lemma ok_roles σ t t' : thread_ok σ t → finished t' = finished t → marked t' = marked t → holds t' = holds t → thread_ok σ t'.
Proof. intros [H1 H2 H3] E1 E2 E3. constructor; intros w; rewrite ?E1, ?E2, ?E3; auto. Qed.

Lemma fate_run_client σ i t c σ' : inv σ → fate σ → threads σ !! i = Some t → run_client i t c σ = Some σ' → fate σ'.
Proof.
  intros Hinv Hf Hi Hr.
  assert (∀ w, w ∈ waits_of t → (w < length (waits σ))%nat) as Hw by (intros w; by apply (inv_waits _ Hinv i)).
  assert (∀ l t', finished t' = None → marked t' = None → holds t' = None → ∀ σ1, quiet l σ σ1 → fate (goto i t' σ1)) as Hplain.
  { intros l t' ? ? ? σ1 Hq. eapply fate_quiet; [done..|]. by apply thread_ok_none. }
  assert (∀ w, isDone w σ = true → fate (goto i (CDone w) σ)) as Hdone.
  { intros w Hd. apply (fate_quiet 0 σ); [done|apply quiet_refl|]. constructor; try done. by intros ? [= <-]. }
  assert (∀ w t', w ∈ waits_of t → finished t' = Some w → marked t' = None → holds t' = None → fate (goto i t' (finish w true σ))) as Hfin.
  { intros w t' Hin Hft Hmt Hht. apply (fate_quiet 0 (finish w true σ)); [by apply fate_finish_true|apply quiet_refl|].
    constructor; intros v; rewrite ?Hft, ?Hmt, ?Hht; try done. intros [= <-]. by apply finish_done, Hw. }
  destruct t; try discriminate Hr; destruct c; try discriminate Hr; cbn [run_client] in Hr.
  - pose proof (quiet_enqueue l w σ) as Hq.
    destruct (enqueueWaitingConn l w σ) as [[[]|] σ1]; injection Hr as <-; by apply (Hplain l).
  - injection Hr as <-. destruct (_ <=? 0); apply (Hplain l); try done; apply quiet_used.
  - destruct (isDone _ _) eqn:E; [|done]. injection Hr as <-. by apply Hdone.
  - destruct (is_quit _ _); [|done]. injection Hr as <-. apply (Hplain l); auto with go.
  - destruct (isAcquired _ _); [|done]. injection Hr as <-. apply (Hplain l); auto with go.
  - destruct (_ <=? _); [|done]. injection Hr as <-. apply (Hplain l); auto with go.
  - injection Hr as <-. destruct (isAcquired _ _); apply (Hplain l); auto with go.
  - injection Hr as <-. apply Hfin; done || by left.
  - injection Hr as <-. eapply fate_quiet; [done|apply quiet_purge|].
    eapply (ok_roles _ (CPurge l w)); [by apply (proj1 Hf i)|done..].
  - destruct (isDone _ _) eqn:E; [|done]. injection Hr as <-. by apply Hdone.
  - destruct (is_quit _ _); [|done]. injection Hr as <-. apply (Hplain l); auto with go.
  - injection Hr as <-. apply Hfin; done || by left.
Qed.

Lemma fate_run_handler σ i t c σ' : inv σ → fate σ → threads σ !! i = Some t → run_handler i t c σ = Some σ' → fate σ'.
Proof.
  intros Hinv Hf Hi Hr. pose proof (proj1 Hf _ _ Hi) as Hok.
  assert (∀ l t', finished t' = None → marked t' = None → holds t' = None → ∀ σ1, quiet l σ σ1 → fate (goto i t' σ1)) as Hplain.
  { intros l t' ? ? ? σ1 Hq. eapply fate_quiet; [done..|]. by apply thread_ok_none. }
  assert (∀ l t' σ1, finished t' = finished t → marked t' = marked t → holds t' = holds t → quiet l σ σ1 →
    fate (goto i t' σ1)) as Hroles.
  { intros l t' σ1 ? ? ? Hq. eapply fate_quiet; [done..|]. by eapply ok_roles. }
  destruct t; try discriminate Hr; destruct c; try discriminate Hr; cbn [run_handler] in Hr.
  all: lazymatch type of Hr with
       | context [acquireWaitingConn] => idtac
       | _ => repeat case_match; try discriminate Hr; simplify_eq;
              try (by eapply (Hplain l); auto with go); try (by eapply (Hroles l); auto with go)
       end.
  - (* acquire *)
    destruct (thread_listener σ i _ l Hinv Hi ltac:(by left)) as [tl Hl].
    destruct (acquire_form σ l tl deadline Hl (inv_cond _ Hinv _ _ Hl)) as (b & r & ws & He & _ & Hcase).
    pose proof (quiet_acquire l deadline σ) as Hq. rewrite He in Hq, Hr. cbn [snd] in Hq.
    destruct r as [[w|]|]; destruct timer; injection Hr as <-; try (by apply (Hplain l)).
    all: eapply fate_quiet; [done..|]; constructor; try done; intros v [= <-].
    all: destruct Hcase as [El _]; assert (w ∈ live l tl σ) as Hin by (rewrite El; by left).
    all: unfold live in Hin; apply list_elem_of_filter in Hin as [Hd _]; congruence.
  - (* mark *)
    apply (fate_quiet l (markAcquired w σ)); [by apply fate_markAcquired|apply quiet_refl|].
    destruct (proj1 (fate_markAcquired w σ Hf) i (HMark l tgt w) Hi) as [_ _ Hh].
    constructor; try done; try exact Hh. intros v [= <-].
    apply markAcquired_acquired; [done|]. apply (inv_waits _ Hinv i _ _ Hi). by left.
  - apply (Hroles l); try done. apply quiet_used.
  - apply (fate_quiet l (pipe_end w σ)); [by apply fate_pipe_end|apply quiet_refl|].
    destruct (pipe_end_frame w σ) as (_ & Hth & _). pose proof (proj1 (fate_pipe_end w σ Hf) i (HPipe l w)) as Hp.
    rewrite Hth in Hp. by eapply ok_roles; [apply Hp|..].
  - by apply fate_finish_false.
  - apply (Hplain l); try done. apply quiet_used.
Qed.

Lemma fate_run_reaper σ i t c σ' : fate σ → run_reaper i t c σ = Some σ' → fate σ'.
Proof.
  intros Hf Hr. assert (∀ l t', finished t' = None → marked t' = None → holds t' = None → ∀ σ1, quiet l σ σ1 → fate (goto i t' σ1)) as Hplain.
  { intros l t' ? ? ? σ1 Hq. eapply fate_quiet; [done..|]. by apply thread_ok_none. }
  destruct t; try discriminate Hr; destruct c; try discriminate Hr; cbn [run_reaper] in Hr;
    repeat case_match; try discriminate Hr; simplify_eq;
    try (by eapply (Hplain 0%nat); auto with go); try (by eapply Hplain; auto with go).
  all: unfold reapIdleListenersOnce, Close in *; simplify_eq; apply (Hplain 0%nat); try done; by split; [left|].
Qed.

Lemma fate_run_listener σ i t c σ' : fate σ → run_listener i t c σ = Some σ' → fate σ'.
Proof.
  intros Hf Hr. assert (∀ l t', finished t' = None → marked t' = None → holds t' = None → ∀ σ1, quiet l σ σ1 → fate (goto i t' σ1)) as Hplain.
  { intros l t' ? ? ? σ1 Hq. eapply fate_quiet; [done..|]. by apply thread_ok_none. }
  destruct t; try discriminate Hr; destruct c; try discriminate Hr; cbn [run_listener] in Hr; injection Hr as <-.
  - apply fate_spawn; [|by apply thread_ok_none]. unfold beginIncoming.
    destruct (registered l σ); [|done]. by apply (fate_threads σ), Hf.
  - apply (Hplain 0%nat); auto with go.
  - by apply (Hplain l), (quiet_close l false).
  - apply (Hplain l); try done. unfold unregister. destruct (tls σ !! l); [|apply quiet_upd].
    destruct (registered l σ); by split; [left|].
Qed.

Lemma fate_connect σ listen kind claims : fate σ → fate (HandleClient listen kind claims σ).
Proof.
  intros [Ht Hx]. unfold HandleClient. set (σ1 := set_conns _ σ).
  assert (∀ k, is_Some (conns σ !! k) → conns σ1 !! k = conns σ !! k) as Hold.
  { intros k [c Hk]. cbn. by rewrite lookup_app_l, Hk by by eapply lookup_lt_Some. }
  assert (fate σ1) as Hf1.
  { split.
    - intros i t Hi. destruct (Ht i t Hi) as [H1 H2 H3]. constructor; try done. intros w Hw Hd.
      pose proof (H3 w Hw Hd) as Hc. unfold is_closed in *. cbn [waits σ1 set_conns] in *.
      destruct (waits σ !! w) as [x|] eqn:Ew; [|done]. rewrite Hold; [done|]. by eapply ok_conn, Hx.
    - intros w x Hw. destruct (Hx w x Hw) as [H1 H2 H3]. constructor; rewrite ?Hold; done. }
  assert (is_Some (conns σ1 !! length (conns σ))) as Hc1.
  { cbn. rewrite lookup_app_r, Nat.sub_diag by done. by eexists. }
  clearbody σ1. generalize dependent (length (conns σ)). intros c Hc1. clear Ht Hx Hold.
  assert (∀ σ2 l, fate σ2 → conns σ2 = conns σ1 →
    fate (spawn (CEnqueue l (length (waits σ2))) (set_waits (waits σ2 ++ [mkWait c (Some false) false]) σ2))) as Hspawn.
  { intros σ2 l [Ht2 Hx2] Hc2.
    assert (∀ w, isDone w σ2 = true ∨ isAcquired w σ2 = true ∨ is_closed w σ2 = true → waits σ2 !! w ≠ None) as Hsome.
    { intros w. unfold isDone, isAcquired, is_closed. destruct (waits σ2 !! w); [done|]. naive_solver. }
    assert (∀ w, waits σ2 !! w ≠ None → (waits σ2 ++ [mkWait c (Some false) false]) !! w = waits σ2 !! w) as Hsame.
    { intros w. destruct (waits σ2 !! w) eqn:E; [|done]. intros _. by rewrite lookup_app_l, E by by eapply lookup_lt_Some. }
    apply fate_spawn; [|by apply thread_ok_none]. split.
    - intros i t Hi. destruct (Ht2 i t Hi) as [H1 H2 H3]. constructor.
      + intros w Hw. pose proof (H1 w Hw) as Hd. unfold isDone in *. cbn. by rewrite Hsame; [|apply Hsome; auto].
      + intros w Hw. pose proof (H2 w Hw) as Hd. unfold isAcquired in *. cbn. by rewrite Hsame; [|apply Hsome; auto].
      + intros w Hw Hd. assert (waits σ2 !! w ≠ None) as Hn.
        { intros E. unfold isDone in Hd. cbn in Hd. rewrite lookup_app_r in Hd by by apply lookup_ge_None.
          by destruct (w - length (waits σ2))%nat. }
        unfold isDone, is_closed in *. cbn in *. rewrite Hsame in * by done. by apply H3.
    - intros w x. cbn. rewrite lookup_app_Some. intros [Hw|[_ [_ <-]%list_lookup_singleton_Some]].
      + destruct (Hx2 w x Hw) as [? ? ?]. by constructor.
      + constructor; cbn; [done|by rewrite Hc2|done]. }
  assert (fate (close_conn c σ1)) as Hcl.
  { destruct Hf1 as [Ht1 Hx1]. split.
    - intros i t Hi. eapply thread_ok_evolves; [apply evolves_close|]. by apply (Ht1 i).
    - intros w x Hw. by eapply wait_ok_close, Hx1. }
  unfold getOrCreateListener. destruct (bind_addr claims) as [[a u] net]. destruct (listeners σ1 !! a) as [l|].
  - apply Hspawn; [|done]. by apply (fate_threads σ1), Hf1.
  - destruct (listen net a); try done. apply Hspawn; [|done]. apply fate_spawn; [|by apply thread_ok_none].
    by apply (fate_threads σ1), Hf1.
Qed.

Lemma reachable_fate σ : reachable σ → fate σ.
Proof.
  apply reachable_ind.
  - intros m d t0. split; [|done]. intros i t. cbn. destruct (0 <? d); [|done].
    intros [_ <-]%list_lookup_singleton_Some. by apply thread_ok_none.
  - intros σ1 σ2 Hr Hf [a Ha]. apply reachable_inv in Hr. destruct a as [d|kind claims r| |l|i c]; cbn [exec] in Ha.
    + destruct (0 <=? d); [|done]. injection Ha as <-. by apply (fate_threads σ1), Hf.
    + injection Ha as <-. by apply fate_connect.
    + injection Ha as <-. apply fate_spawn; [done|by apply thread_ok_none].
    + injection Ha as <-. destruct (quiet_broadcast l σ1) as (Hwk & ? & ?). apply (fate_threads σ1); try done.
      intros j t. destruct Hwk as [-> | ->]; [apply Hf|]. rewrite list_lookup_fmap.
      intros (y & Hy & ->)%fmap_Some. by eapply thread_ok_wake, Hf.
    + apply bind_Some in Ha as (t & Hi & Hrun). unfold run_thread in Hrun.
      destruct t; first [ exact (fate_run_client _ _ _ _ _ Hr Hf Hi Hrun) | exact (fate_run_listener _ _ _ _ _ Hf Hrun)
        | exact (fate_run_handler _ _ _ _ _ Hr Hf Hi Hrun) | exact (fate_run_reaper _ _ _ _ _ Hf Hrun) ].
Qed.

(** When the goroutine of a client has ended, its connection was closed or had been
    handed to an incoming connection. *)
Lemma client_done_fate σ i w : reachable σ → threads σ !! i = Some (CDone w) → is_closed w σ = true ∨ isAcquired w σ = true.
Proof.
  intros [Ht Hx]%reachable_fate Hi. pose proof (ok_finished _ _ (Ht _ _ Hi) w eq_refl) as Hd.
  unfold isDone, is_closed, isAcquired in *.
  destruct (waits σ !! w) as [x|] eqn:Hw; [|done]. destruct (ok_done _ _ (Hx w x Hw) Hd) as [H|H].
  - right. by apply bool_decide_eq_true.
  - left. destruct (conns σ !! w_conn x); [|done]. by injection H.
Qed.
