(* ===== verification/ManagerThms.v ===== *)
(** The guarantees of the reverse tunnel manager (pkg/server/manager.go), as
    consequences of the invariants of ManagerInv and ManagerProps, and concrete
    executions of the two races its code leaves open. *)

From S2P Require Import Prelude GoStrings GoNet Protocol TargetFrame Manager ManagerSys ManagerInv ManagerProps.

Lemma runs_reachable acts m d t0 σ : runs acts (NewReverseTunnelManager m d t0) = Some σ → reachable σ.
Proof. intros H. exists m, d, t0. by eapply runs_rtc. Qed.

(** ** Concrete executions *)

Definition tcp_claims : JwtTunnelConfig := mkClaims b#"t1" (setReverseTcp noProtocol) b#"0.0.0.0" 8080.
Definition udp_claims : JwtTunnelConfig :=
  mkClaims b#"t2" (setReverseUdp (mkReverseUdp None) noProtocol) b#"0.0.0.0" 8080.

(** The manager with an idle timeout of a minute: its reaper is goroutine 0. *)
Definition start : world := NewReverseTunnelManager 0 (60 * second) 0.

Definition after (acts : list action) : world := default start (runs acts start).

(** A client connects (listener 0 is goroutine 1, the client goroutine 2) and
    waits in the pool. *)
Definition client_waits : list action :=
  [Connect WsConn tcp_claims (Ok ()); Run 2 Proceed; Run 2 Proceed].

(** A connection arrives (goroutine 3) and takes it. *)
Definition conn_served : list action :=
  client_waits ++
  [Run 1 Succeeds; Run 3 Proceed; Run 3 Proceed; Run 3 Proceed; Run 3 Proceed; Run 3 Proceed; Run 3 Proceed;
   Run 3 Proceed].

Lemma after_reachable acts : nonnil (runs acts start) = true → reachable (after acts).
Proof. unfold after. destruct (runs acts start) eqn:H; [|done]. intros _. by eapply runs_reachable. Qed.

Example served_state :
  threads (after conn_served) = [RTick; LAccept 0; CSelect 0 0 (60 * second); HPipe 0 0] ∧
  waits (after conn_served) = [mkWait 0 (Some true) false] ∧
  (waiting <$> tls (after conn_served)) = [[]] ∧ (active <$> tls (after conn_served)) = [1].
Proof. by vm_compute. Qed.

(** ** Exclusive use *)

Lemma occ_NoDup q : (∀ w, (occ w q ≤ 1)%nat) → NoDup q.
Proof.
  induction q as [|v q IH]; intros H; constructor.
  - intros Hin%occ_elem. specialize (H v). rewrite occ_cons, bool_decide_true in H by done. simpl in H. lia.
  - apply IH. intros w. specialize (H w). rewrite occ_cons in H. lia.
Qed.

Lemma queue_occ σ l t w : tls σ !! l = Some t → (occ w (waiting t) ≤ owners w σ)%nat.
Proof. intros H. unfold owners. pose proof (total_ge (λ t, occ w (waiting t)) _ _ _ H). simpl in *. lia. Qed.

(** C1: a pooled client connection is never used twice: in every reachable state
    it is held by at most one incoming connection, while it is held it is in no
    queue, and no queue lists a connection twice or shares one with another
    listener. *)
Theorem pool_exclusive σ : reachable σ →
  (∀ i j t t' w, threads σ !! i = Some t → threads σ !! j = Some t' → holds t = Some w → holds t' = Some w → i = j) ∧
  (∀ i t w l tl, threads σ !! i = Some t → holds t = Some w → tls σ !! l = Some tl → w ∉ waiting tl) ∧
  (∀ l tl, tls σ !! l = Some tl → NoDup (waiting tl)) ∧
  (∀ l l' tl tl' w, tls σ !! l = Some tl → tls σ !! l' = Some tl' → w ∈ waiting tl → w ∈ waiting tl' → l = l').
Proof.
  intros Hr%reachable_inv. pose proof (inv_owners _ Hr) as Ho. split_and!.
  - intros i j t t' w Hi Hj Ht Ht'. destruct (decide (i = j)) as [|Hne]; [done|exfalso].
    pose proof (total_ge2 (owns w) _ _ _ _ _ Hne Hi Hj). specialize (Ho w). unfold owners in Ho.
    pose proof (holds_owns w t Ht). pose proof (holds_owns w t' Ht'). lia.
  - intros i t w l tl Hi Ht Hl Hw%occ_elem. specialize (Ho w). unfold owners in Ho.
    pose proof (total_ge (owns w) _ _ _ Hi). pose proof (holds_owns w t Ht).
    pose proof (total_ge (λ t, occ w (waiting t)) _ _ _ Hl). simpl in *. lia.
  - intros l tl Hl. apply occ_NoDup. intros w. pose proof (queue_occ σ l tl w Hl). specialize (Ho w). lia.
  - intros l l' tl tl' w Hl Hl' Hw%occ_elem Hw'%occ_elem. destruct (decide (l = l')) as [|Hne]; [done|exfalso].
    specialize (Ho w). unfold owners in Ho. pose proof (total_ge2 (λ t, occ w (waiting t)) _ _ _ _ _ Hne Hl Hl').
    simpl in *. lia.
Qed.

Lemma pool_exclusive_witness :
  threads (after conn_served) !! 3%nat = Some (HPipe 0 0) ∧
  (∀ j t', threads (after conn_served) !! j = Some t' → holds t' = Some 0%nat → 3%nat = j).
Proof.
  split; [by vm_compute|]. intros j t' Hj Ht'.
  refine (proj1 (pool_exclusive (after conn_served) _) 3%nat j (HPipe 0 0) t' 0%nat _ Hj _ Ht'); [|by vm_compute..].
  apply after_reachable. by vm_compute.
Defined.

(** The pool of a listener is bounded: never more than [waitCap] = 10
    connections wait, whatever number of clients connects. *)
Theorem pool_bounded σ l tl : reachable σ → tls σ !! l = Some tl →
  waitCap tl = 10%nat ∧ (length (waiting tl) ≤ waitCap tl)%nat.
Proof. intros Hr%reachable_inv Hl. destruct (inv_cap _ Hr _ _ Hl) as [-> ?]. done. Qed.

(** Eleven clients: the eleventh sleeps. *)
Definition crowd : list action :=
  concat ((λ i, [Connect WsConn tcp_claims (Ok ()); Run (2 + i) Proceed]) <$> seq 0 11).

Lemma pool_bounded_witness : ∃ tl, tls (after crowd) !! 0%nat = Some tl ∧
  threads (after crowd) !! 12%nat = Some (CSleep 0 10) ∧
  waitCap tl = 10%nat ∧ (length (waiting tl) ≤ waitCap tl)%nat.
Proof.
  eexists. split; [by vm_compute|]. split; [by vm_compute|].
  apply (pool_bounded (after crowd) 0); [|by vm_compute]. apply after_reachable. by vm_compute.
Defined.

(** C9: no wake-up is lost: whenever a goroutine is asleep on a listener's
    condition variable, what it waits for is really not there: the listener is
    not closed, and a client that waits for room faces a full queue, an incoming
    connection that waits for a client an empty one. *)
Theorem no_lost_wakeup σ i t l : reachable σ → threads σ !! i = Some t → sleeping t = Some l →
  ∃ tl, tls σ !! l = Some tl ∧ quit tl = false ∧
    match t with CSleep _ _ => length (waiting tl) = waitCap tl | _ => waiting tl = [] end.
Proof.
  intros Hr%reachable_inv Hi Hs. destruct (thread_listener σ i t l Hr Hi) as [tl Hl].
  { destruct t; try done; injection Hs as ->; by left. }
  exists tl. split; [done|]. destruct (inv_cap _ Hr _ _ Hl) as [Hc _].
  destruct t; try done; injection Hs as ->.
  - rewrite Hc. by eapply inv_sleep_c.
  - by eapply inv_sleep_h.
Qed.

Lemma no_lost_wakeup_witness : ∃ tl, tls (after crowd) !! 0%nat = Some tl ∧ quit tl = false ∧
  length (waiting tl) = waitCap tl.
Proof.
  apply (no_lost_wakeup (after crowd) 12 (CSleep 0 10) 0); [|by vm_compute..].
  apply after_reachable. by vm_compute.
Defined.

(** ** Idle listeners *)

Lemma handlers_zero σ l i t : handlers l σ = 0%nat → threads σ !! i = Some t → handler_of t ≠ Some l.
Proof.
  intros H0 Hi Ht. pose proof (total_ge (handling l) _ _ _ Hi) as Hg. unfold handlers in H0.
  unfold handling at 1 in Hg. rewrite Ht, bool_decide_true in Hg by done. simpl in Hg. lia.
Qed.

(** C14: the reaper only takes idle listeners: each one it removes has been
    registered and unused for the idle timeout, and no incoming connection is
    being handled on it, so no tunnel in progress is cut by it; every other
    listener stays registered. *)
Theorem reaper_spares_busy σ now0 ls σ' : reachable σ → reapIdleListenersOnce now0 σ = (ls, σ') →
  (∀ l, l ∈ ls → ∃ tl, tls σ !! l = Some tl ∧ listeners σ !! addr tl = Some l ∧ listeners σ' !! addr tl = None ∧
     idleTimeout σ ≤ now0 - lastUsed tl ∧ ∀ i t, threads σ !! i = Some t → handler_of t ≠ Some l) ∧
  (∀ a l, listeners σ !! a = Some l → l ∉ ls → listeners σ' !! a = Some l).
Proof.
  intros Hr%reachable_inv [= <- <-]. split.
  - intros l ([a l'] & -> & [Hs Ha]%list_elem_of_filter)%list_elem_of_fmap. apply elem_of_map_to_list in Ha.
    cbn [snd] in *. destruct (inv_reg _ Hr _ _ Ha) as (tl & Hl & <-). exists tl.
    pose proof Hs as Hs'. unfold is_stale in Hs'. rewrite Hl in Hs'. bool_to_prop. split_and!; try done.
    + apply map_lookup_filter_None. right. intros x Hx. rewrite Ha in Hx. injection Hx as <-. cbn. by rewrite Hs.
    + intros i t. apply handlers_zero.
      assert (registered l' σ = true) as Hreg by (unfold registered; rewrite Hl; by apply bool_decide_eq_true).
      pose proof (inv_active _ Hr _ _ Hl Hreg). lia.
  - intros a l Ha Hn. apply map_lookup_filter_Some. split; [done|]. cbn. apply not_true_iff_false. intros Hs.
    apply Hn, list_elem_of_fmap. exists (a, l). split; [done|]. apply list_elem_of_filter. split; [done|].
    by apply elem_of_map_to_list.
Qed.

(** An idle listener after two minutes, and a busy one. *)
Lemma reaper_spares_busy_witness :
  (reapIdleListenersOnce (120 * second) (after client_waits)).1 = [0%nat] ∧
  (reapIdleListenersOnce (120 * second) (after conn_served)).1 = [] ∧
  ∃ tl, tls (after client_waits) !! 0%nat = Some tl ∧ listeners (after client_waits) !! addr tl = Some 0%nat ∧
    listeners (reapIdleListenersOnce (120 * second) (after client_waits)).2 !! addr tl = None ∧
    idleTimeout (after client_waits) ≤ 120 * second - lastUsed tl ∧
    ∀ i t, threads (after client_waits) !! i = Some t → handler_of t ≠ Some 0%nat.
Proof.
  split; [by vm_compute|]. split; [by vm_compute|].
  refine (proj1 (reaper_spares_busy (after client_waits) (120 * second) _ _ _ (surjective_pairing _)) 0%nat _).
  - apply after_reachable. by vm_compute.
  - vm_compute. by left.
Defined.

(** ** The fate of a connection *)

(** C13: [HandleClient] never abandons a connection: when its goroutine has ended,
    the connection was closed or had been handed to an incoming connection; and
    it never ends while a handler is still using the connection unless it has
    closed it (the caller closes it next).  A handler that is past acquisition
    holds a connection marked as acquired. *)
Theorem connection_fate σ : reachable σ →
  (∀ i w, threads σ !! i = Some (CDone w) → is_closed w σ = true ∨ isAcquired w σ = true) ∧
  (∀ i j w t, threads σ !! i = Some (CDone w) → threads σ !! j = Some t → holds t = Some w → is_closed w σ = true) ∧
  (∀ i t w, threads σ !! i = Some t → marked t = Some w → isAcquired w σ = true).
Proof.
  intros Hr. pose proof (reachable_fate σ Hr) as [Ht _]. split_and!.
  - intros i w. by apply client_done_fate.
  - intros i j w t Hi Hj Hh. exact (ok_holds _ _ (Ht _ _ Hj) w Hh (ok_finished _ _ (Ht _ _ Hi) w eq_refl)).
  - intros i t w Hi Hm. exact (ok_marked _ _ (Ht _ _ Hi) w Hm).
Qed.

(** The whole life of a tunnel, and an idle client after its timeout. *)
Definition tunnel_over : list action :=
  conn_served ++ [Run 3 Proceed; Run 3 Proceed; Run 3 Proceed; Run 2 OnDone].
Definition client_expires : list action :=
  client_waits ++ [Tick (60 * second); Run 2 OnTimer; Run 2 Proceed; Run 2 Proceed; Run 2 Proceed].

Lemma connection_fate_witness :
  (is_closed 0 (after tunnel_over) = true ∨ isAcquired 0 (after tunnel_over) = true) ∧
  (is_closed 0 (after client_expires) = true ∨ isAcquired 0 (after client_expires) = true) ∧
  is_closed 0 (after tunnel_over) = false ∧ isAcquired 0 (after client_expires) = false.
Proof.
  split; [|split; [|by vm_compute]].
  - apply (proj1 (connection_fate (after tunnel_over) ltac:(apply after_reachable; by vm_compute)) 2%nat). by vm_compute.
  - apply (proj1 (connection_fate (after client_expires) ltac:(apply after_reachable; by vm_compute)) 2%nat). by vm_compute.
Defined.

(** ** The queue is a bounded FIFO of the live connections *)

(** The abstract pool: at most ten connections, oldest first. *)
Definition pool_put (w : nat) (q : list nat) : option (list nat) :=
  if (length q <? 10)%nat then Some (q ++ [w]) else None.
Definition pool_take (q : list nat) : option (nat * list nat) :=
  match q with [] => None | w :: q' => Some (w, q') end.

(** The pool a listener implements: its queue without the finished entries. *)
Definition pool (l : nat) (σ : world) : list nat :=
  match tls σ !! l with Some t => live l t σ | None => [] end.

Lemma filter_live σ q : Forall (λ w, isDone w σ = false) q → filter (λ w, isDone w σ = false) q = q.
Proof. induction 1 as [|w q Hw _ IH]; [done|]. rewrite filter_cons_True by done. by rewrite IH. Qed.

Lemma pool_after b l ws σ t : tls σ !! l = Some t → Forall (λ w, isDone w σ = false) ws →
  pool l (tl_op b l (with_waiting ws) σ) = ws.
Proof.
  intros Hl Hws. unfold pool. rewrite (tl_op_lookup _ _ _ _ t) by done. unfold live. cbn [waiting with_waiting].
  by apply filter_live.
Qed.

Lemma live_done l t σ : Forall (λ w, isDone w σ = false) (live l t σ).
Proof. apply Forall_forall. intros w Hw%list_elem_of_In%list_elem_of_filter. tauto. Qed.

(** C8: the queue operations implement a bounded FIFO pool of live connections:
    adding to an open listener succeeds exactly when the pool has room and puts
    the connection last, and otherwise waits; taking returns the connection that
    has waited longest and, when there is none, gives up only after the deadline
    or on a closed listener.  Finished connections are never handed out and
    never count against the capacity. *)
Theorem pool_refines_fifo σ l tl w dl : reachable σ → tls σ !! l = Some tl → isDone w σ = false →
  match enqueueWaitingConn l w σ with
  | (Returns true, σ') => quit tl = false ∧ pool_put w (pool l σ) = Some (pool l σ')
  | (Returns false, σ') => quit tl = true ∧ pool l σ' = pool l σ
  | (Waits, σ') => quit tl = false ∧ pool_put w (pool l σ) = None ∧ pool l σ' = pool l σ
  end ∧
  match acquireWaitingConn l dl σ with
  | (Returns (Some v), σ') => pool_take (pool l σ) = Some (v, pool l σ')
  | (Returns None, σ') => pool_take (pool l σ) = None ∧ pool l σ' = pool l σ ∧ (dl ≤ now σ ∨ quit tl = true)
  | (Waits, σ') => pool_take (pool l σ) = None ∧ pool l σ' = pool l σ ∧ now σ < dl ∧ quit tl = false
  end.
Proof.
  intros Hr%reachable_inv Hl Hw. destruct (inv_cap _ Hr _ _ Hl) as [Hcap _].
  pose proof (inv_cond _ Hr _ _ Hl) as Hc. pose proof (live_done l tl σ) as Hlive.
  assert (pool l σ = live l tl σ) as Hp by (unfold pool; by rewrite Hl). split.
  - destruct (enqueue_form σ l tl w Hl Hc) as (b & r & ws & -> & _ & Hcase). unfold pool_put. rewrite Hp.
    rewrite Hcap in Hcase. destruct r as [[]|].
    + destruct Hcase as (Hq & Hlt & -> & _). rewrite (proj2 (Nat.ltb_lt _ _)) by done. split; [done|].
      erewrite pool_after; [done|done|]. apply Forall_app. split; [done|by constructor].
    + destruct Hcase as (Hq & ->). split; [done|]. by eapply pool_after.
    + destruct Hcase as (Hq & Hge & ->). rewrite (proj2 (Nat.ltb_ge _ _)) by done. split_and!; try done. by eapply pool_after.
  - destruct (acquire_form σ l tl dl Hl Hc) as (b & r & ws & -> & _ & Hcase). unfold pool_take. rewrite Hp.
    destruct r as [[v|]|].
    + destruct Hcase as (El & _). rewrite El in *. inversion Hlive. by erewrite pool_after.
    + destruct Hcase as (El & -> & ?). rewrite El. split_and!; try done. by eapply pool_after.
    + destruct Hcase as (El & -> & ? & ?). rewrite El. split_and!; try done. by eapply pool_after.
Qed.

Lemma pool_refines_fifo_witness : ∃ tl, tls (after crowd) !! 0%nat = Some tl ∧
  match enqueueWaitingConn 0 11 (after crowd) with
  | (Returns true, σ') => quit tl = false ∧ pool_put 11 (pool 0 (after crowd)) = Some (pool 0 σ')
  | (Returns false, σ') => quit tl = true ∧ pool 0 σ' = pool 0 (after crowd)
  | (Waits, σ') => quit tl = false ∧ pool_put 11 (pool 0 (after crowd)) = None ∧ pool 0 σ' = pool 0 (after crowd)
  end ∧
  match acquireWaitingConn 0 5 (after crowd) with
  | (Returns (Some v), σ') => pool_take (pool 0 (after crowd)) = Some (v, pool 0 σ')
  | (Returns None, σ') => pool_take (pool 0 (after crowd)) = None ∧ pool 0 σ' = pool 0 (after crowd) ∧ (5 ≤ now (after crowd) ∨ quit tl = true)
  | (Waits, σ') => pool_take (pool 0 (after crowd)) = None ∧ pool 0 σ' = pool 0 (after crowd) ∧ now (after crowd) < 5 ∧ quit tl = false
  end.
Proof.
  eexists. split; [by vm_compute|].
  apply (pool_refines_fifo (after crowd)); [|by vm_compute..]. apply after_reachable. by vm_compute.
Defined.

(** ** Where the code falls short *)

(** The client's timer expires; [handleWaitTimeout] finds the connection not
    acquired; before it acts an incoming connection takes the connection. *)
Definition timeout_race : list action :=
  client_waits ++ [Tick (60 * second); Run 2 OnTimer; Run 2 Proceed] ++
  [Run 1 Succeeds; Run 3 Proceed; Run 3 Proceed; Run 3 Proceed; Run 3 Proceed; Run 3 Proceed; Run 3 Proceed;
   Run 3 Proceed] ++ [Run 2 Proceed].

(** The check in [handleWaitTimeout] is not atomic with the closing that
    follows it: there is an execution in which an incoming connection acquires
    the pooled connection in between and is being served on it when the timeout
    closes it, with neither a shutdown nor a closed listener. *)
Theorem handleWaitTimeout_race : ∃ σ tl, reachable σ ∧ threads σ !! 3%nat = Some (HPipe 0 0) ∧
  is_closed 0 σ = true ∧ isAcquired 0 σ = true ∧ tls σ !! 0%nat = Some tl ∧ quit tl = false ∧ stop σ = false.
Proof.
  exists (after timeout_race). eexists. split; [apply after_reachable; by vm_compute|]. by vm_compute.
Qed.

(** [acquireWaitingConn] arms its timer and computes its deadline one after the
    other; here a microsecond passes in between. *)
Definition timeout_lost : list action :=
  client_waits ++ [Run 1 Succeeds; Run 3 Proceed; Run 3 Proceed; Run 3 Proceed; Run 3 Proceed] ++
  [Run 1 Succeeds; Run 4 Proceed; Run 4 Proceed; Tick 1000; Run 4 Proceed; Run 4 Proceed] ++
  [Tick (10 * second - 1000); Run 4 OnTimer; Run 4 Proceed; Tick (50 * second)].

(** The ten-second limit of [acquireWaitingConn] can be missed: the timer is
    armed before the deadline is computed, so when it fires the deadline may
    still be ahead, the goroutine goes back to sleep and nothing wakes it at the
    deadline.  There is an execution in which it sleeps fifty seconds later
    although its timer has fired and its deadline is long past, and no step of
    its own is possible. *)
Theorem acquire_timeout_lost : ∃ σ dl, reachable σ ∧ threads σ !! 4%nat = Some (HSleep 0 None None dl) ∧
  dl + 49 * second ≤ now σ ∧ ∀ c, exec (Run 4 c) σ = None.
Proof.
  exists (after timeout_lost). eexists. split; [apply after_reachable; by vm_compute|].
  split; [by vm_compute|]. split; [by vm_compute|]. intros []; by vm_compute.
Qed.

(** A listener is found by its address alone: a client that asks for a
    reverse UDP tunnel on an address on which a reverse TCP tunnel exists is
    queued on the TCP listener, and no UDP socket is opened for it. *)
Theorem listener_shared_across_protocols : ∃ σ tl, reachable σ ∧
  runs [Connect WsConn tcp_claims (Ok ()); Connect WsConn udp_claims (Ok ())] start = Some σ ∧
  threads σ !! 3%nat = Some (CEnqueue 0 1) ∧ tls σ = [tl] ∧ ln tl = Some true ∧ udpConn tl = None ∧
  ReverseUdp (protocol tl) = None ∧ (bind_addr udp_claims).2 = b#"udp".
Proof.
  exists (after [Connect WsConn tcp_claims (Ok ()); Connect WsConn udp_claims (Ok ())]).
  eexists. split; [apply after_reachable; by vm_compute|]. by vm_compute.
Qed.
