(* ===== verification/SelfSigned.v ===== *)
(** pkg/server/selfsigned.go: the ephemeral certificate of a server without files.

    Keys, randomness and the encodings of package x509 are the class [X509]; the
    template, with the names the certificate is valid for, and the PEM armour are
    definitions. *)

From S2P Require Import Prelude GoStrings GoNet GoBase64.

(** ** PEM *)

(** Lines of 64 characters; [n] bounds their number. *)
Fixpoint pem_lines (n : nat) (s : bytes) : bytes :=
  match n, s with
  | S n', _ :: _ => take 64 s ++ [x0a] ++ pem_lines n' (drop 64 s)
  | _, _ => []
  end.

(** [pem.EncodeToMemory] of a block without headers. *)
Definition EncodeToMemory (ty : bytes) (data : bytes) : bytes :=
  b#"-----BEGIN " ++ ty ++ b#"-----" ++ [x0a] ++
  pem_lines (length (b64_encode data)) (b64_encode data) ++
  b#"-----END " ++ ty ++ b#"-----" ++ [x0a].

(** ** Certificates *)

Definition Hour : Z := 3600 * 10 ^ 9.

(** The bits of [x509.KeyUsage] and the usage of a server certificate. *)
Definition KeyUsageDigitalSignature : Z := Z.shiftl 1 0.
Definition KeyUsageKeyEncipherment : Z := Z.shiftl 1 2.
Definition KeyUsageCertSign : Z := Z.shiftl 1 5.
Inductive ExtKeyUsage := ServerAuth | ClientAuth.

Record template := mkTemplate {
  SerialNumber : Z;
  Organization : list bytes;
  CommonName : bytes;
  NotBefore : Z;
  NotAfter : Z;
  KeyUsage : Z;
  ExtKeyUsages : list ExtKeyUsage;
  BasicConstraintsValid : bool;
  IPAddresses : list bytes;
  DNSNames : list bytes
}.

Class X509 := {
  PrivateKey : Type;
  CreateCertificate : template → template → PrivateKey → go bytes;
  MarshalPKCS8PrivateKey : PrivateKey → go bytes;
  (** the chain of certificates in DER *)
  X509KeyPair : bytes → bytes → go (list bytes)
}.

(** "X509KeyPair parses a public/private key pair from a pair of PEM encoded data." *)
Class X509Law (X : X509) := {
  key_pair : ∀ t k der kd, CreateCertificate t t k = Ok der → MarshalPKCS8PrivateKey k = Ok kd →
    X509KeyPair (EncodeToMemory b#"CERTIFICATE" der) (EncodeToMemory b#"PRIVATE KEY" kd) = Ok [der]
}.

(** One name of the certificate. *)
Definition add_host (t : template) (h : bytes) : template :=
  if bool_decide (h = []) then t
  else match ParseIP h with
       | Some ip => mkTemplate (SerialNumber t) (Organization t) (CommonName t) (NotBefore t) (NotAfter t) (KeyUsage t)
                      (ExtKeyUsages t) (BasicConstraintsValid t) (IPAddresses t ++ [ip]) (DNSNames t)
       | None => mkTemplate (SerialNumber t) (Organization t) (CommonName t) (NotBefore t) (NotAfter t) (KeyUsage t)
                   (ExtKeyUsages t) (BasicConstraintsValid t) (IPAddresses t) (DNSNames t ++ [h])
       end.

Definition local_hosts : list bytes := [b#"localhost"; b#"127.0.0.1"; b#"::1"].

(** [now1] and [now2] are the two readings of the clock. *)
Definition blank_template (serial now1 now2 : Z) : template :=
  mkTemplate serial [b#"WarpStream Ephemeral"] b#"localhost" (now1 - Hour) (now2 + 365 * 24 * Hour)
    (Z.lor KeyUsageDigitalSignature KeyUsageKeyEncipherment) [ServerAuth] true [] [].
Definition host_template (serial now1 now2 : Z) (hosts : list bytes) : template :=
  fold_left add_host (local_hosts ++ hosts) (blank_template serial now1 now2).

Definition serialNumberLimit : Z := Z.shiftl 1 128.

Section SelfSigned.
Context `{X : X509}.

(** [key] and [serial] are the results of [ecdsa.GenerateKey] and [rand.Int]. *)
Definition generateSelfSignedCert (key : go PrivateKey) (serial : Z → go Z) (now1 now2 : Z) (hosts : list bytes) : go (list bytes) :=
  priv ← key;
  serialNumber ← serial serialNumberLimit;
  let t := host_template serialNumber now1 now2 hosts in
  derBytes ← CreateCertificate t t priv;
  let certPEM := EncodeToMemory b#"CERTIFICATE" derBytes in
  privBytes ← MarshalPKCS8PrivateKey priv;
  let keyPEM := EncodeToMemory b#"PRIVATE KEY" privBytes in
  X509KeyPair certPEM keyPEM.
End SelfSigned.

(** ** Laws *)

(** Whether the certificate is for a name: an address in any notation, else a DNS name. *)
Definition names (t : template) (h : bytes) : Prop :=
  match ParseIP h with Some ip => ip ∈ IPAddresses t | None => h ∈ DNSNames t end.

Lemma add_host_fixed t h :
  let t' := add_host t h in
  SerialNumber t' = SerialNumber t ∧ NotBefore t' = NotBefore t ∧ NotAfter t' = NotAfter t ∧ KeyUsage t' = KeyUsage t ∧
  ExtKeyUsages t' = ExtKeyUsages t.
Proof. unfold add_host. by repeat case_match. Qed.

Lemma fold_hosts l t :
  let t' := fold_left add_host l t in
  SerialNumber t' = SerialNumber t ∧ NotBefore t' = NotBefore t ∧ NotAfter t' = NotAfter t ∧ KeyUsage t' = KeyUsage t ∧
  ExtKeyUsages t' = ExtKeyUsages t ∧
  IPAddresses t' = IPAddresses t ++ omap ParseIP (filter (λ h, h ≠ []) l) ∧
  DNSNames t' = DNSNames t ++ filter (λ h, ParseIP h = None) (filter (λ h, h ≠ []) l).
Proof.
  revert t. induction l as [|h l IH]; intros t; cbn [fold_left].
  { cbn. by rewrite !app_nil_r. }
  destruct (IH (add_host t h)) as (-> & -> & -> & -> & -> & -> & ->).
  destruct (add_host_fixed t h) as (-> & -> & -> & -> & ->). do 5 (split; [done|]).
  unfold add_host. destruct (bool_decide_reflect (h = [])) as [->|Hh].
  { by rewrite (filter_cons_False (λ h, h ≠ [])) by naive_solver. }
  rewrite !(filter_cons_True (λ h, h ≠ [])) by done. cbn [omap list_omap]. destruct (ParseIP h) as [ip|] eqn:E; cbn [IPAddresses DNSNames].
  - rewrite filter_cons_False by naive_solver. by rewrite <-app_assoc.
  - rewrite filter_cons_True by done. by rewrite <-app_assoc.
Qed.

Lemma host_template_names serial now1 now2 hosts h :
  h ≠ [] → names (host_template serial now1 now2 hosts) h ↔
    ∃ h', h' ∈ local_hosts ++ hosts ∧ h' ≠ [] ∧ match ParseIP h with Some ip => ParseIP h' = Some ip | None => h' = h end.
Proof.
  intros Hh. unfold names, host_template.
  destruct (fold_hosts (local_hosts ++ hosts) (blank_template serial now1 now2)) as (_ & _ & _ & _ & _ & -> & ->).
  cbn [IPAddresses DNSNames blank_template]. rewrite !app_nil_l. destruct (ParseIP h) as [ip|] eqn:E.
  - rewrite list_elem_of_omap. setoid_rewrite list_elem_of_filter. naive_solver.
  - rewrite !list_elem_of_filter. naive_solver.
Qed.

(** The ephemeral certificate fits its use: when the random sources and the encoder
    work it is returned; it names localhost, both loopback addresses and every host
    asked for, in whatever notation an address is written, and nothing else; it is
    valid from the hour before it was made for a year, has a serial number below
    2^128 and is a server certificate that cannot sign others. *)
Theorem selfsigned_fits `{X : X509} `{XL : !X509Law X} key serial now1 now2 hosts k n der kd :
  key = Ok k → serial serialNumberLimit = Ok n → 0 ≤ n < serialNumberLimit → now1 ≤ now2 →
  CreateCertificate (host_template n now1 now2 hosts) (host_template n now1 now2 hosts) k = Ok der →
  MarshalPKCS8PrivateKey k = Ok kd →
  let t := host_template n now1 now2 hosts in
  generateSelfSignedCert key serial now1 now2 hosts = Ok [der] ∧
  (∀ h, h ∈ local_hosts ++ hosts → h ≠ [] → names t h) ∧
  (∀ h, h ≠ [] → names t h → ∃ h', h' ∈ local_hosts ++ hosts ∧ (h' = h ∨ is_Some (ParseIP h) ∧ ParseIP h' = ParseIP h)) ∧
  (∀ now, now1 - Hour ≤ now ≤ now2 + 365 * 24 * Hour ↔ NotBefore t ≤ now ≤ NotAfter t) ∧
  0 ≤ SerialNumber t < 2 ^ 128 ∧ ExtKeyUsages t = [ServerAuth] ∧ Z.land (KeyUsage t) KeyUsageCertSign = 0.
Proof.
  intros Hk Hs Hn Hnow Hc Hm t. unfold t.
  destruct (fold_hosts (local_hosts ++ hosts) (blank_template n now1 now2)) as (E1 & E2 & E3 & E4 & E5 & _ & _).
  fold (host_template n now1 now2 hosts) in E1, E2, E3, E4, E5. split_and!.
  - unfold generateSelfSignedCert. rewrite Hk. cbn [mbind go_bind]. rewrite Hs. cbn [mbind go_bind]. rewrite Hc. cbn [mbind go_bind].
    rewrite Hm. cbn [mbind go_bind]. by apply (key_pair (host_template n now1 now2 hosts) k).
  - intros h Hh Hne. apply host_template_names; [done|]. exists h. destruct (ParseIP h); done.
  - intros h Hne (h' & Hin & _ & Hm')%host_template_names; [|done]. exists h'. split; [done|]. destruct (ParseIP h); [|by left].
    right. by eauto.
  - intros now. by rewrite E2, E3.
  - rewrite E1. apply Hn.
  - rewrite E1. apply Hn.
  - by rewrite E5.
  - by rewrite E4.
Qed.

(** A key whose certificates are their first DNS name. *)
#[export] Instance ToyX509 : X509 := {|
  PrivateKey := unit;
  CreateCertificate t _ _ := if bool_decide (DNSNames t = [b#"localhost"; b#"box.lan"]) then Ok b#"DER" else Err ErrIO;
  MarshalPKCS8PrivateKey _ := Ok b#"KEY";
  X509KeyPair c k :=
    if bool_decide (c = EncodeToMemory b#"CERTIFICATE" b#"DER") && bool_decide (k = EncodeToMemory b#"PRIVATE KEY" b#"KEY")
    then Ok [b#"DER"] else Err (Errorf b#"tls: failed to find any PEM data in certificate input" [])
|}.

#[export] Instance ToyX509_law : X509Law ToyX509.
Proof.
  split. cbn [CreateCertificate MarshalPKCS8PrivateKey X509KeyPair ToyX509]. intros t k der kd.
  case_bool_decide; [|done]. intros [= <-] [= <-]. by rewrite !bool_decide_true.
Qed.

Lemma selfsigned_fits_witness :
  generateSelfSignedCert (X:=ToyX509) (Ok ()) (λ lim, Ok (lim - 1)) 0 5 [b#"box.lan"; []; b#"10.0.0.7"] = Ok [b#"DER"].
Proof.
  apply (selfsigned_fits (X:=ToyX509) (Ok ()) (λ lim, Ok (lim - 1)) 0 5 [b#"box.lan"; []; b#"10.0.0.7"] () (serialNumberLimit - 1) b#"DER" b#"KEY");
    by vm_compute.
Defined.

Example pem_armour : EncodeToMemory b#"CERTIFICATE" b#"DER" =
  b#"-----BEGIN CERTIFICATE-----" ++ [x0a] ++ b#"REVS" ++ [x0a] ++ b#"-----END CERTIFICATE-----" ++ [x0a].
Proof. vm_compute. reflexivity. Qed.
