(* ===== verification/Server.v ===== *)
(** pkg/server/server.go: from an HTTP request to a tunnel.

    The JWT library is third-party code and appears as the class [JwtLibrary]
    with the documented promise of a verified parse ([JwtLaw]).  An HTTP request
    is what the code reads of it: path, headers, peer certificate and protocol
    version. *)

From S2P Require Import Prelude GoStrings GoNet GoIO Protocol Restrictions ProxyProto IdleTimer Manager.

(** ** Configuration *)

Record Config := mkConfig {
  ListenAddr : bytes;
  PathPrefix : bytes;
  JWTSecret : bytes;
  InsecureNoJWTValidation : bool;
  SocketSoMark : Z;
  WebsocketPingFrequency : Z;
  WebsocketMaskFrame : bool;
  DnsResolver : list bytes;
  DnsResolverPreferIpv4 : bool;
  RestrictTo : list bytes;
  RestrictHttpUpgradePathPrefix : list bytes;
  RestrictConfig : bytes;
  Tls : bool;
  TlsCertificate : bytes;
  TlsPrivateKey : bytes;
  TlsClientCaCerts : bytes;
  HttpProxy : bytes;
  HttpProxyLogin : bytes;
  HttpProxyPassword : bytes;
  RemoteToLocalServerIdleTimeout : Z;
  WebsocketProtocol : bytes
}.

Definition set_PathPrefix (p : bytes) (c : Config) : Config :=
  mkConfig (ListenAddr c) p (JWTSecret c) (InsecureNoJWTValidation c) (SocketSoMark c) (WebsocketPingFrequency c)
    (WebsocketMaskFrame c) (DnsResolver c) (DnsResolverPreferIpv4 c) (RestrictTo c) (RestrictHttpUpgradePathPrefix c)
    (RestrictConfig c) (Tls c) (TlsCertificate c) (TlsPrivateKey c) (TlsClientCaCerts c) (HttpProxy c)
    (HttpProxyLogin c) (HttpProxyPassword c) (RemoteToLocalServerIdleTimeout c) (WebsocketProtocol c).

(** [Config.UnmarshalYAML]: [unmarshal] gives the fields and the legacy prefix. *)
Definition Config_UnmarshalYAML (unmarshal : go (Config * bytes)) : go Config :=
  '(c, legacyPathPrefix) ← unmarshal;
  Ok (if bool_decide (PathPrefix c = []) then set_PathPrefix legacyPathPrefix c else c).

Section Server.
Context `{RE : RegexpEngine}.

(** ** Rules *)

(** The [Match] part of the rule built from the command line. *)
Definition default_match (config : Config) : list MatchConfig :=
  match RestrictHttpUpgradePathPrefix config with
  | [] => [mkMatch true None None None]
  | prefixes =>
      prefixes ≫= λ p,
        match regexp_Compile (b#"^/" ++ TrimPrefix p b#"/") with
        | Some re => [mkMatch false (Some re) None None]
        | None => []
        end
  end.

(** One entry of [RestrictTo]. *)
Definition restrict_entry (r : bytes) : list AllowConfig :=
  match SplitHostPort r with
  | Some (host, portStr) =>
      let port := u16 (ParseUint portStr 16).1 in
      let re := regexp_Compile (b#"^" ++ QuoteMeta host ++ b#"$") in
      [mkAllow (Some (mkAllowTunnel [] [mkPortRange port port] (Some re) [])) None]
  | None => []
  end.

Definition default_allow (config : Config) : list AllowConfig :=
  match RestrictTo config with
  | [] => [mkAllow (Some (mkAllowTunnel [] [] None [])) (Some (mkAllowReverse [] [] [] [] None))]
  | rs => rs ≫= restrict_entry
  end.

(** The rules a new server starts with; [load] is [LoadRestrictions(config.RestrictConfig)]. *)
Definition NewServer_rules (load : go RestrictionsRules) (config : Config) : option RestrictionsRules :=
  let rules :=
    if negb (bool_decide (RestrictConfig config = [])) then
      match load with Ok r => Some r | _ => None end
    else None in
  match rules with
  | Some r => Some r
  | None =>
      if negb (bool_decide (RestrictTo config = [])) || negb (bool_decide (RestrictHttpUpgradePathPrefix config = []))
      then Some [mkRestriction b#"Default Restrictions" (default_match config) (default_allow config)]
      else None
  end.

(** ** Tokens *)

Class JwtLibrary := {
  (** the claims and the signing algorithm named in the token *)
  ParseUnverified : bytes → go (JwtTunnelConfig * bytes);
  (** the key function gets the algorithm; the result says whether the token is valid *)
  ParseWithClaims : bytes → (bytes → go bytes) → go (JwtTunnelConfig * bool);
  (** [signed alg key token claims]: the token carries these claims under a
      signature with that algorithm and key *)
  signed : bytes → bytes → bytes → JwtTunnelConfig → Prop
}.

(** "Parse parses, validates, verifies the signature and returns the parsed
    token": a valid token is signed with the key the key function returned. *)
Class JwtLaw (J : JwtLibrary) := {
  parsed_signed : ∀ tok keyFunc c, ParseWithClaims tok keyFunc = Ok (c, true) →
    ∃ alg key, keyFunc alg = Ok key ∧ signed alg key tok c
}.

Context `{J : JwtLibrary}.

Definition HS256 : bytes := b#"HS256".
Definition bad_method : error := Errorf b#"unexpected signing method: %s" [].

Definition parseUnverified (tokenStr : bytes) : go JwtTunnelConfig :=
  '(claims, alg) ← ParseUnverified tokenStr;
  if negb (bool_decide (alg = HS256)) then Err bad_method else Ok claims.

Definition parseJWTClaims (config : Config) (tokenStr : bytes) : go JwtTunnelConfig :=
  if negb (bool_decide (WebsocketProtocol config = b#"ws")) then parseUnverified tokenStr
  else if negb (bool_decide (JWTSecret config = [])) then
    match ParseWithClaims tokenStr (λ alg, if negb (bool_decide (alg = HS256)) then Err bad_method
                                           else Ok (JWTSecret config)) with
    | Ok (claims, true) => Ok claims
    | Panic => Panic
    | res =>
        if negb (InsecureNoJWTValidation config) then
          match res with Err e => Err e | _ => Err (Errorf b#"invalid JWT token" []) end
        else parseUnverified tokenStr
    end
  else parseUnverified tokenStr.

(** ** Requests *)

Record Request := mkRequest {
  URL_Path : bytes;
  Header_Get : bytes → bytes;
  PeerCommonName : option bytes;
  ProtoMajor : Z;
  RemoteAddr : bytes
}.

(** The first offered subprotocol with the token prefix. *)
Definition bearer_token (header : bytes) : bytes :=
  match List.find (λ part, HasPrefix part JwtHeaderPrefix) (TrimSpace <$> Split header b#",") with
  | Some part => TrimPrefix part JwtHeaderPrefix
  | None => []
  end.

Definition token_of (r : Request) : bytes :=
  let tokenStr := bearer_token (Header_Get r b#"Sec-WebSocket-Protocol") in
  if bool_decide (tokenStr = []) then Header_Get r b#"Cookie" else tokenStr.

(** Whether the subprotocol "v1" is offered. *)
Definition offers_v1 (r : Request) : bool :=
  existsb (λ part, bool_decide (TrimSpace part = b#"v1")) (Split (Header_Get r b#"Sec-WebSocket-Protocol") b#",").

Inductive carrier := Http2Tunnel | GorillaTunnel | NativeTunnel.

(** How the request ends: an HTTP error, or a tunnel handed to one of the three
    connection handlers (for the WebSocket carriers after their upgrade). *)
Inductive response :=
  | StatusNotFound
  | StatusUnauthorized (msg : bytes)
  | StatusForbidden
  | Tunnelled (by_carrier : carrier) (v1 : bool) (claims : JwtTunnelConfig)
  | Crashed.

Definition serve_tunnel (config : Config) (r : Request) (claims : JwtTunnelConfig) : response :=
  let isWebsocket := ToLowerIs (Header_Get r b#"Upgrade") b#"websocket" in
  if (2 <=? ProtoMajor r) && negb isWebsocket then Tunnelled Http2Tunnel false claims
  else if bool_decide (WebsocketProtocol config = b#"ws") then Tunnelled GorillaTunnel (offers_v1 r) claims
  else Tunnelled NativeTunnel (offers_v1 r) claims.

Definition ServeHTTP (config : Config) (rules : option RestrictionsRules) (r : Request) : response :=
  if negb (bool_decide (PathPrefix config = [])) && negb (HasPrefix (URL_Path r) (b#"/" ++ PathPrefix config))
  then StatusNotFound
  else
    let tokenStr := token_of r in
    if bool_decide (tokenStr = []) then StatusUnauthorized b#"Missing authorization token"
    else
      match parseJWTClaims config tokenStr with
      | Err _ => StatusUnauthorized b#"Invalid token"
      | Panic => Crashed
      | Ok claims =>
          match rules with
          | None => serve_tunnel config r claims
          | Some _ =>
              match Validate rules claims (URL_Path r) (Header_Get r b#"Authorization") (default [] (PeerCommonName r)) with
              | Ok true => serve_tunnel config r claims
              | Ok false => StatusForbidden
              | _ => Crashed
              end
          end
      end.

(** ** Tunnels *)

Definition shouldWriteProxyHeader (claims : JwtTunnelConfig) : bool :=
  let p := Protocol claims in
  match Tcp p with Some x => Tcp_ProxyProtocol x | None => false end ||
  match Protocol.HttpProxy p with Some x => HttpProxy_ProxyProtocol x | None => false end ||
  match Stdio p with Some x => Stdio_ProxyProtocol x | None => false end ||
  match Unix p with Some x => Unix_ProxyProtocol x | None => false end.

(** [time.Duration(secs) * time.Second] on int64. *)
Definition udpTimeoutDuration (claims : JwtTunnelConfig) : Z :=
  match Udp (Protocol claims) with
  | Some (mkUdp (Some d)) => if 0 <? Secs d then i64 (i64 (Secs d) * Second) else 30 * Second
  | _ => 30 * Second
  end.

(** [dial] opens the connection: its sending side and its remote address.  A UDP
    connection comes wrapped in an idle timer. *)
Definition dialTargetAndMaybeProxyHeader (dial : bytes → bytes → go (txside * net_addr)) (now : Z)
    (claims : JwtTunnelConfig) (network targetAddr : bytes) (srcAddr : net_addr) :
    go (txside * option IdleTimeoutConn) :=
  '(conn, remoteAddr) ← dial network targetAddr;
  let idle := if bool_decide (network = b#"udp") then Some (NewIdleTimeoutConn (udpTimeoutDuration claims) now) else None in
  if bool_decide (network = b#"tcp") && shouldWriteProxyHeader claims then
    match WriteProxyHeaderV2 srcAddr remoteAddr conn with
    | (Ok _, conn') => Ok (conn', idle)
    | (Err e, _) => Err (Errorf b#"failed to write PROXY protocol header: %w" [])
    | (Panic, _) => Panic
    end
  else Ok (conn, idle).

(** What [handleConnection], [handleGorillaConnection] and
    [handleHttp2Connection] do with the claims: dial a target, join the pool of
    a reverse listener, or give up. *)
Inductive route :=
  | ForwardTo (network targetAddr : bytes)
  | ReverseFrom
  | Unsupported.

Definition is_forward (p : LocalProtocol) : bool :=
  nonnil (Tcp p) || nonnil (Udp p) || nonnil (Socks5 p) || nonnil (Protocol.HttpProxy p) || nonnil (Unix p).
Definition is_reverse (p : LocalProtocol) : bool :=
  nonnil (ReverseTcp p) || nonnil (ReverseUnix p) || nonnil (ReverseSocks5 p) || nonnil (ReverseHttpProxy p) ||
  nonnil (ReverseUdp p).

Definition handleConnection (claims : JwtTunnelConfig) : route :=
  let p := Protocol claims in
  if is_forward p then
    match Unix p with
    | Some u => ForwardTo b#"unix" (Unix_Path u)
    | None =>
        ForwardTo (if nonnil (Udp p) then b#"udp" else b#"tcp")
          (JoinHostPort (Remote claims) (fmt_d (Port claims)))
    end
  else if is_reverse p then ReverseFrom
  else Unsupported.
End Server.
