(* ===== verification/ServerThms.v ===== *)
(** What the request path of the server (pkg/server/server.go) guarantees, and
    where the decision and the action on a request disagree. *)

From S2P Require Import Prelude GoStrings GoNet GoIO Protocol Restrictions ProxyProto IdleTimer Manager Server.

(** ** A regular-expression engine and a token library to run requests with

    Tokens of the small library read [alg.key.remote]: the claims are a TCP
    tunnel to [remote] on port 80. *)

Definition toy_claims (remote : bytes) : JwtTunnelConfig := mkClaims [] (setTcp (mkTcp false) noProtocol) remote 80.

Definition toy_fields (tok : bytes) : option (bytes * bytes * bytes) :=
  '(alg, rest) ← Cut tok b#".";
  '(key, remote) ← Cut rest b#".";
  Some (alg, key, remote).

#[export] Instance ToyJwt : JwtLibrary := {|
  ParseUnverified tok :=
    match toy_fields tok with
    | Some (alg, _, remote) => Ok (toy_claims remote, alg)
    | None => Err (Errorf b#"token is malformed" [])
    end;
  ParseWithClaims tok keyFunc :=
    match toy_fields tok with
    | Some (alg, sig, remote) =>
        key ← keyFunc alg;
        if bool_decide (sig = key) then Ok (toy_claims remote, true) else Err (Errorf b#"signature is invalid" [])
    | None => Err (Errorf b#"token is malformed" [])
    end;
  signed alg key tok c := ∃ remote, toy_fields tok = Some (alg, key, remote) ∧ c = toy_claims remote
|}.

#[export] Instance ToyJwt_law : JwtLaw ToyJwt.
Proof.
  split. intros tok kf c. cbn. destruct (toy_fields tok) as [[[alg sig] remote]|]; [|done].
  destruct (kf alg) as [key| |] eqn:Ek; cbn; [|done..]. case_bool_decide as E; [|done]. intros [= <-].
  exists alg, key. split; [done|]. exists remote. by subst sig.
Qed.

Definition example_config : Config :=
  mkConfig b#"ws://0.0.0.0:8080" b#"v1" b#"k3y" false 0 0 false [] false [] [] [] false [] [] [] [] [] [] 0 b#"ws".
Definition example_request : Request :=
  mkRequest b#"/v1/events"
    (λ h, if bool_decide (h = b#"Sec-WebSocket-Protocol") then b#"v1, authorization.bearer.HS256.k3y.10.0.0.7" else [])
    None 1 b#"198.51.100.4:5060".

Section gate.
Context `{RE : RegexpEngine} `{J : JwtLibrary}.

(** ** The gate *)

(** C2: no tunnel without permission: a request becomes a tunnel only if its path
    has the configured prefix, it presented a token, the token was accepted and
    yields exactly the claims the tunnel is opened with, and the restriction
    rules, when there are any, permit those claims for this path, authorization
    header and client certificate. *)
Theorem ServeHTTP_gate config rules r carrier v1 claims :
  rules_wf rules → ServeHTTP config rules r = Tunnelled carrier v1 claims →
  (PathPrefix config = [] ∨ ∃ rest, URL_Path r = b#"/" ++ PathPrefix config ++ rest) ∧
  token_of r ≠ [] ∧ parseJWTClaims config (token_of r) = Ok claims ∧
  permitted rules claims (URL_Path r) (Header_Get r b#"Authorization") (default [] (PeerCommonName r)).
Proof.
  intros Hwf H. unfold ServeHTTP in H. destruct (_ && _) eqn:Ep; [done|].
  case_bool_decide as Et; [done|]. destruct (parseJWTClaims config (token_of r)) as [c| |] eqn:Ej; [|done..].
  assert (serve_tunnel config r c = Tunnelled carrier v1 claims ∧
          permitted rules c (URL_Path r) (Header_Get r b#"Authorization") (default [] (PeerCommonName r))) as [Hs Hp].
  { destruct rules as [l|]; [|split; [done|by left]].
    destruct (Validate_spec (Some l) c (URL_Path r) (Header_Get r b#"Authorization") (default [] (PeerCommonName r)) Hwf)
      as (b & Hb & HP). rewrite Hb in H. destruct b; [|done]. split; [done|]. by apply HP. }
  assert (c = claims) as -> by (unfold serve_tunnel in Hs; repeat case_match; congruence).
  split_and!; try done. apply andb_false_iff in Ep as [Ep|Ep]; bool_to_prop; [by left|right].
  apply HasPrefix_spec in Ep as [rest ->]. exists rest. by rewrite <-(assoc_L (++)).
Qed.

(** C7: with a secret in ws mode and validation not disabled, the claims of every
    accepted token are signed with HS256 under that secret; in the other modes,
    or with validation disabled, a token whose header does not name HS256 is
    still refused. *)
Theorem parseJWTClaims_verified `{!JwtLaw J} config tok claims :
  parseJWTClaims config tok = Ok claims →
  (WebsocketProtocol config = b#"ws" → JWTSecret config ≠ [] → InsecureNoJWTValidation config = false →
     signed HS256 (JWTSecret config) tok claims) ∧
  (ParseUnverified tok = Ok (claims, HS256) ∨ signed HS256 (JWTSecret config) tok claims).
Proof.
  unfold parseJWTClaims.
  assert (parseUnverified tok = Ok claims → ParseUnverified tok = Ok (claims, HS256)) as Hu.
  { unfold parseUnverified. destruct (ParseUnverified tok) as [[c alg]| |]; cbn; [|done..].
    case_bool_decide as E; [|done]. cbn. intros [= ->]. by subst. }
  case_bool_decide as Em; cbn [negb]; [|intros H; split; [done|auto]].
  case_bool_decide as Es; cbn [negb]; [intros H; split; [done|auto]|].
  set (kf := λ alg, _).
  assert (∀ c, ParseWithClaims tok kf = Ok (c, true) → signed HS256 (JWTSecret config) tok c) as Hv.
  { intros c (alg & key & Hk & Hsig)%parsed_signed. unfold kf in Hk. case_bool_decide; [|done].
    injection Hk as <-. by subst alg. }
  destruct (ParseWithClaims tok kf) as [[c []]|e|] eqn:Ep.
  - intros [= ->]. split; auto.
  - destruct (InsecureNoJWTValidation config); [|done]. intros H. split; [done|auto].
  - destruct (InsecureNoJWTValidation config); [|done]. intros H. split; [done|auto].
  - done.
Qed.

(** ** Routing *)

(** C38: claims that name both a forward and a reverse protocol are judged by the
    rules for reverse tunnels only but served as a forward tunnel: whatever the
    forward entries say, such a request is permitted as soon as one matching rule
    has an unrestricted reverse entry, and the server then dials the TCP target
    named in the claims. *)
Theorem restriction_bypass_by_mixed_claims rules rc a path auth cn id host port :
  rc ∈ rules → (∃ m, m ∈ Match rc ∧ Any m = true) → a ∈ Allow rc →
  ReverseTunnel a = Some (mkAllowReverse [] [] [] [] None) → rules_wf (Some rules) →
  let claims := mkClaims id (setTcp (mkTcp false) (setReverseTcp noProtocol)) host port in
  Validate (Some rules) claims path auth cn = Ok true ∧
  handleConnection claims = ForwardTo b#"tcp" (JoinHostPort host (fmt_d port)).
Proof.
  intros Hrc (m & Hm & Hany) Ha Hr Hwf claims. split; [|done].
  destruct (Validate_spec (Some rules) claims path auth cn Hwf) as (b & -> & Hb). f_equal. apply Hb.
  right. right. exists rules, rc. split_and!; try done; [exists m; split; [done|by left]|].
  exists a. split; [done|]. cbn. eexists. split; [done|].
  split; [by left|]. cbn. split; [by left|by left].
Qed.

(** The [unix_path] pattern of a reverse rule does not restrict where the
    server listens: it is matched against the path in the protocol, while the
    listener is bound to the remote of the claims when that is set, so any path
    can be bound under any pattern that accepts some path. *)
Theorem unix_path_restriction_ineffective a id path anywhere :
  art_Protocol a = [] → regexp_ok (art_UnixPath a) path → anywhere ≠ [] →
  let claims := mkClaims id (setReverseUnix (mkReverseUnix path) noProtocol) anywhere 0 in
  reverse_policy a claims ∧ handleConnection claims = ReverseFrom ∧ (bind_addr claims).1.1 = anywhere.
Proof.
  intros Hp Hre Hne claims. split_and!; [|done|].
  - unfold reverse_policy. cbn. split; [by left|done].
  - cbn. by rewrite bool_decide_false.
Qed.

(** Rules that cannot be loaded leave the server open: when the restriction
    file fails to load and nothing else restricts, every request that carries an
    acceptable token is served. *)
Theorem failed_rules_fail_open config e r claims :
  RestrictTo config = [] → RestrictHttpUpgradePathPrefix config = [] → PathPrefix config = [] →
  token_of r ≠ [] → parseJWTClaims config (token_of r) = Ok claims →
  ∃ carrier v1, ServeHTTP config (NewServer_rules (Err e) config) r = Tunnelled carrier v1 claims.
Proof.
  intros Hr Hu Hp Ht Hj.
  assert (NewServer_rules (Err e) config = None) as ->.
  { unfold NewServer_rules. rewrite Hr, Hu. by destruct (negb _). }
  unfold ServeHTTP. rewrite Hp, Hj. rewrite (bool_decide_true ([] = [])), (bool_decide_false (token_of r = [])) by done.
  cbn [negb andb]. unfold serve_tunnel. destruct (_ && _); [eauto|]. destruct (bool_decide _); eauto.
Qed.
End gate.

(** ** The requests and rules of the examples *)

Lemma example_serve : ServeHTTP example_config None example_request = Tunnelled GorillaTunnel true (toy_claims b#"10.0.0.7").
Proof. by vm_compute. Qed.

Lemma ServeHTTP_gate_witness :
  (PathPrefix example_config = [] ∨ ∃ rest, URL_Path example_request = b#"/" ++ PathPrefix example_config ++ rest) ∧
  token_of example_request ≠ [] ∧ parseJWTClaims example_config (token_of example_request) = Ok (toy_claims b#"10.0.0.7") ∧
  permitted None (toy_claims b#"10.0.0.7") b#"/v1/events" [] [].
Proof.
  apply (ServeHTTP_gate example_config None example_request GorillaTunnel true); [done|by vm_compute].
Defined.

Lemma parseJWTClaims_verified_witness :
  signed HS256 b#"k3y" b#"HS256.k3y.10.0.0.7" (toy_claims b#"10.0.0.7") ∧
  parseJWTClaims example_config b#"HS256.guess.10.0.0.7" = Err (Errorf b#"signature is invalid" []).
Proof.
  split; [|by vm_compute].
  apply (parseJWTClaims_verified example_config b#"HS256.k3y.10.0.0.7"); by vm_compute.
Defined.

(** A rule that permits reverse tunnels and no forward tunnel at all. *)
Definition reverse_only : RestrictionsRules :=
  [mkRestriction b#"reverse" [mkMatch true None None None] [mkAllow None (Some (mkAllowReverse [] [] [] [] None))]].

Lemma reverse_only_wf : rules_wf (Some reverse_only).
Proof.
  intros rules [= <-]. constructor; [|constructor]. constructor; [|constructor]. split; intros t; [done|].
  intros [= <-]. split; [done|constructor].
Qed.

Lemma restriction_bypass_by_mixed_claims_witness :
  Validate (Some reverse_only) (toy_claims b#"10.0.0.7") b#"/" [] [] = Ok false ∧
  Validate (Some reverse_only) (mkClaims [] (setTcp (mkTcp false) (setReverseTcp noProtocol)) b#"10.0.0.7" 80) b#"/" [] [] = Ok true ∧
  handleConnection (mkClaims [] (setTcp (mkTcp false) (setReverseTcp noProtocol)) b#"10.0.0.7" 80) =
    ForwardTo b#"tcp" (JoinHostPort b#"10.0.0.7" (fmt_d 80)).
Proof.
  split; [by vm_compute|].
  apply (restriction_bypass_by_mixed_claims reverse_only
    (mkRestriction b#"reverse" [mkMatch true None None None] [mkAllow None (Some (mkAllowReverse [] [] [] [] None))])
    (mkAllow None (Some (mkAllowReverse [] [] [] [] None))));
    [by left|eexists; split; [by left|done]|by left|done|apply reverse_only_wf].
Defined.

Lemma unix_path_restriction_ineffective_witness :
  let a := mkAllowReverse [] [] [] [] (Some (regexp_Compile b#"^/run/app/")) in
  let claims := mkClaims [] (setReverseUnix (mkReverseUnix b#"/run/app/x.sock") noProtocol) b#"/run/docker.sock" 0 in
  reverse_policy a claims ∧ handleConnection claims = ReverseFrom ∧ (bind_addr claims).1.1 = b#"/run/docker.sock".
Proof.
  apply (unix_path_restriction_ineffective (mkAllowReverse [] [] [] [] (Some (regexp_Compile b#"^/run/app/"))));
    [done|right|done]. eexists. split; [done|by vm_compute].
Defined.

Definition open_config : Config :=
  mkConfig [] [] [] false 0 0 false [] false [] [] b#"/etc/warpstream/rules.yaml" false [] [] [] [] [] [] 0 b#"rust".

Lemma failed_rules_fail_open_witness :
  ∃ carrier v1, ServeHTTP open_config (NewServer_rules (Err ErrIO) open_config) example_request =
    Tunnelled carrier v1 (toy_claims b#"10.0.0.7").
Proof. apply (failed_rules_fail_open open_config ErrIO); done || by vm_compute. Defined.

Section rules.
Context `{RE : RegexpEngine}.

(** The rules and the server list the same reverse protocols. *)
Lemma claims_isReverse_spec claims : claims_isReverse claims = is_reverse (Protocol claims).
Proof.
  unfold claims_isReverse, is_reverse. cbv zeta.
  destruct (nonnil (ReverseTcp _)), (nonnil (ReverseUdp _)), (nonnil (ReverseSocks5 _)), (nonnil (ReverseHttpProxy _)),
    (nonnil (ReverseUnix _)); done.
Qed.

(** C20: for claims that name only forward or only reverse protocols the rules
    judge what is served: the rules see a reverse tunnel exactly when the server
    opens one, and a forward tunnel over TCP or UDP goes to the host and port the
    rules looked at. *)
Theorem decision_matches_route claims :
  is_forward (Protocol claims) && is_reverse (Protocol claims) = false →
  (claims_isReverse claims = true ↔ handleConnection claims = ReverseFrom) ∧
  (∀ network target, handleConnection claims = ForwardTo network target →
     claims_isReverse claims = false ∧
     (network = b#"unix" ∨ target = JoinHostPort (Remote claims) (fmt_d (Port claims)))).
Proof.
  rewrite claims_isReverse_spec.
  intros H. unfold handleConnection. cbv zeta. destruct (is_forward (Protocol claims)).
  - cbn [andb] in H. rewrite H. destruct (Unix (Protocol claims)); (split; [done|]); intros network target [= <- <-]; auto.
  - split; [|by destruct (is_reverse _)]. destruct (is_reverse (Protocol claims)); done.
Qed.

(** ** The command-line restriction *)

(** Destinations as an operator writes them. *)
Definition dest_ok (d : bytes * Z) : Prop :=
  Forall (λ c, is_ascii c = true) (d.1) ∧ (x5b ∉ (d.1)) ∧ (x5d ∉ (d.1)) ∧ is_u16 d.2.
Definition dest_text (d : bytes * Z) : bytes := JoinHostPort d.1 (fmt_d d.2).

Lemma restrict_entry_dest `{!RegexpQuoteLaw RE} d : dest_ok d →
  ∃ re, restrict_entry (dest_text d) =
      [mkAllow (Some (mkAllowTunnel [] [mkPortRange d.2 d.2] (Some (Some re)) [])) None] ∧
    ∀ s, regexp_MatchString re s = bool_decide (s = d.1).
Proof.
  intros (Ha & H1 & H2 & Hp). destruct (quoted_literal d.1 Ha) as (re & Hre & Hm). exists re. split; [|done].
  unfold restrict_entry, dest_text, is_u16 in *.
  rewrite SplitHostPort_JoinHostPort by (done || (apply dec_digits_no; [done|lia])).
  rewrite ParseUint_fmt_d by lia. cbn [fst]. by rewrite u16_id, Hre.
Qed.

Lemma restrict_entries `{!RegexpQuoteLaw RE} dests a :
  a ∈ (dest_text <$> dests) ≫= restrict_entry → (∀ d, d ∈ dests → dest_ok d) →
  ∃ d, d ∈ dests ∧ ∃ re, a = mkAllow (Some (mkAllowTunnel [] [mkPortRange d.2 d.2] (Some (Some re)) [])) None ∧
    ∀ s, regexp_MatchString re s = bool_decide (s = d.1).
Proof.
  intros (x & Ha & (d & -> & Hd)%list_elem_of_fmap)%list_elem_of_bind Hok. exists d. split; [done|].
  destruct (restrict_entry_dest d (Hok d Hd)) as (re & He & Hre). rewrite He in Ha.
  apply list_elem_of_singleton in Ha as ->. by exists re.
Qed.

(** With only [--restrict-to] configured the rules permit a tunnel if and only if it is
    not a reverse one and its host and port are one of the listed pairs. *)
Lemma restrict_to_decision `{!RegexpQuoteLaw RE} config load dests claims path auth cn :
  RestrictConfig config = [] → RestrictHttpUpgradePathPrefix config = [] →
  RestrictTo config = dest_text <$> dests → dests ≠ [] → Forall dest_ok dests →
  ∃ b, Validate (NewServer_rules load config) claims path auth cn = Ok b ∧
    (b = true ↔ claims_isReverse claims = false ∧ (Remote claims, Port claims) ∈ dests).
Proof.
  intros Hc Hu Hr Hne Hok.
  assert (NewServer_rules load config = Some [mkRestriction b#"Default Restrictions" [mkMatch true None None None]
    ((dest_text <$> dests) ≫= restrict_entry)]) as ->.
  { unfold NewServer_rules, default_match, default_allow. rewrite Hc, Hu, Hr. by destruct dests. }
  rewrite list.Forall_forall in Hok.
  destruct (Validate_spec (Some [mkRestriction b#"Default Restrictions" [mkMatch true None None None]
    ((dest_text <$> dests) ≫= restrict_entry)]) claims path auth cn) as (b & -> & Hb).
  { intros rules [= <-]. constructor; [|constructor]. cbn. apply list.Forall_forall.
    intros a (d & Hd & re & -> & _)%restrict_entries; [|done]. split; intros t [= <-]. split; [done|constructor]. }
  exists b. split; [done|]. rewrite Hb. clear b Hb. split.
  - intros [[=]|[[=]|(rules & rc & [= <-] & Hrc & _ & a & Ha & Hp)]].
    apply list_elem_of_singleton in Hrc as ->. cbn in Ha.
    apply restrict_entries in Ha as (d & Hd & re & -> & Hre); [|done].
    unfold allow_policy in Hp. cbn in Hp. destruct (claims_isReverse claims); [by destruct Hp as (t & [=] & _)|].
    split; [done|]. destruct Hp as (t & [= <-] & _ & Hport & Hhost & _). cbn in *.
    destruct Hport as [[=]|(pr & ->%list_elem_of_singleton & Hport)].
    destruct Hhost as [[=]|(re' & [= <-] & Hm)]. rewrite Hre in Hm. apply bool_decide_eq_true in Hm.
    cbn in Hport. destruct d as [h p]. cbn in *. replace (Remote claims, Port claims) with (h, p); [done|].
    f_equal; [done|lia].
  - intros [Hf Hd]. right. right. eexists _, _. split_and!; [done|by left|eexists; split; [by left|by left]|].
    destruct (restrict_entry_dest _ (Hok _ Hd)) as (re & He & Hre).
    eexists. split.
    { cbn. apply list_elem_of_bind. exists (dest_text (Remote claims, Port claims)). rewrite He. split; [by left|].
      by apply list_elem_of_fmap_2. }
    unfold allow_policy. rewrite Hf. cbn. eexists. split; [done|]. unfold tunnel_policy. cbn. split_and!.
    + by left.
    + right. eexists. split; [by left|]. cbn. lia.
    + right. exists re. split; [done|]. rewrite Hre. by apply bool_decide_eq_true.
    + by left.
Qed.

(** C21: [--restrict-to host:port] permits exactly the listed destinations, for claims that
    do not name a Unix socket: with no other restriction configured a tunnel is permitted
    if and only if it is not a reverse one and its host and port are one of the listed
    pairs (compared literally); and a tunnel that is permitted makes the server dial, over
    TCP or UDP, one of the listed pairs, or nothing when its claims name no protocol the
    server forwards. *)
Theorem restrict_to_exact `{!RegexpQuoteLaw RE} config load dests claims path auth cn :
  RestrictConfig config = [] → RestrictHttpUpgradePathPrefix config = [] →
  RestrictTo config = dest_text <$> dests → dests ≠ [] → Forall dest_ok dests →
  Unix (Protocol claims) = None →
  ∃ b, Validate (NewServer_rules load config) claims path auth cn = Ok b ∧
    (b = true ↔ is_reverse (Protocol claims) = false ∧ (Remote claims, Port claims) ∈ dests) ∧
    (b = true → handleConnection claims =
       if is_forward (Protocol claims)
       then ForwardTo (if nonnil (Udp (Protocol claims)) then b#"udp" else b#"tcp") (dest_text (Remote claims, Port claims))
       else Unsupported).
Proof.
  intros Hc Hu Hr Hne Hok Hx. destruct (restrict_to_decision config load dests claims path auth cn Hc Hu Hr Hne Hok) as (b & E & Hb).
  exists b. rewrite <- claims_isReverse_spec. split_and!; [done..|]. intros Ht%Hb. destruct Ht as [Hv _].
  rewrite claims_isReverse_spec in Hv. unfold handleConnection. cbv zeta. rewrite Hv, Hx. done.
Qed.

(** C37: [--restrict-to] does not restrict tunnels to Unix sockets: claims that name any
    path of a Unix socket and, beside it, a listed host and port are permitted, and the
    server dials the path. *)
Theorem restrict_to_unix_bypass `{!RegexpQuoteLaw RE} config load dests id socket proxy host port path auth cn :
  RestrictConfig config = [] → RestrictHttpUpgradePathPrefix config = [] →
  RestrictTo config = dest_text <$> dests → Forall dest_ok dests → (host, port) ∈ dests →
  let claims := mkClaims id (setUnix (mkUnix socket proxy) noProtocol) host port in
  Validate (NewServer_rules load config) claims path auth cn = Ok true ∧
  handleConnection claims = ForwardTo b#"unix" socket.
Proof.
  intros Hc Hu Hr Hok Hin claims. split; [|done].
  assert (dests ≠ []) as Hne by (by intros ->; apply elem_of_nil in Hin).
  destruct (restrict_to_decision config load dests claims path auth cn Hc Hu Hr Hne Hok) as (b & -> & Hb).
  f_equal. by apply Hb.
Qed.

(** The effective idle period of a forward UDP tunnel is positive whatever
    timeout the client asks for, even one whose conversion to nanoseconds wraps
    around, and it is the requested one when the conversion is exact. *)
Theorem udp_idle_period claims now :
  0 < timeout (NewIdleTimeoutConn (udpTimeoutDuration claims) now) ∧
  (∀ d, Udp (Protocol claims) = Some (mkUdp (Some d)) → 0 < Secs d ≤ 9223372036 →
     timeout (NewIdleTimeoutConn (udpTimeoutDuration claims) now) = Secs d * Second).
Proof.
  split.
  - unfold NewIdleTimeoutConn, defaultTimeout. cbn. destruct (Z.leb_spec (udpTimeoutDuration claims) 0); lia.
  - intros d Hd Hs. unfold udpTimeoutDuration. rewrite Hd. rewrite (proj2 (Z.ltb_lt _ _)) by lia.
    unfold Second. rewrite (i64_id (Secs d)), i64_id by lia. unfold NewIdleTimeoutConn. cbn.
    rewrite (proj2 (Z.leb_gt _ 0)) by lia. done.
Qed.

(** The PROXY header, and nothing else, precedes the data of a forward
    tunnel: dialling a TCP target for claims that ask for it writes exactly one
    version 2 header, which decodes to the client's and the target's addresses;
    for any other network or claims nothing is written. *)
Theorem dial_proxy_header dial now claims network addr src w remote w' idle rest :
  dial network addr = Ok (w, remote) → quota w = None →
  dialTargetAndMaybeProxyHeader dial now claims network addr src = Ok (w', idle) →
  if bool_decide (network = b#"tcp") && shouldWriteProxyHeader claims
  then ∃ hdr, tx w' = tx w ++ hdr ∧ decode_v2 (hdr ++ rest) = Some (endpoints src remote, rest)
  else w' = w.
Proof.
  intros Hd Hq. unfold dialTargetAndMaybeProxyHeader. rewrite Hd. cbn [mbind go_bind].
  destruct (_ && _); [|by intros [= <- <-]].
  destruct (endpoints_spec src remote) as (hdr & Hw & Hdec). rewrite Hw. unfold Write.
  rewrite conn_write_none by done. intros [= <- <-]. by exists hdr.
Qed.
End rules.

Lemma decision_matches_route_witness :
  (claims_isReverse (toy_claims b#"10.0.0.7") = true ↔ handleConnection (toy_claims b#"10.0.0.7") = ReverseFrom) ∧
  (∀ network target, handleConnection (toy_claims b#"10.0.0.7") = ForwardTo network target →
     claims_isReverse (toy_claims b#"10.0.0.7") = false ∧
     (network = b#"unix" ∨ target = JoinHostPort b#"10.0.0.7" (fmt_d 80))).
Proof. by apply (decision_matches_route (toy_claims b#"10.0.0.7")). Defined.

Definition restricted_config : Config :=
  mkConfig [] [] [] false 0 0 false [] false [b#"10.0.0.7:80"; b#"[2001:db8::1]:443"] [] [] false [] [] [] [] [] [] 0 b#"rust".

Definition restricted_dests : list (bytes * Z) := [(b#"10.0.0.7", 80); (b#"2001:db8::1", 443)].

Lemma restricted_dests_ok : Forall dest_ok restricted_dests.
Proof.
  assert (∀ d, forallb is_ascii d.1 && bool_decide (x5b ∉ (d.1)) && bool_decide (x5d ∉ (d.1)) &&
    bool_decide (0 ≤ d.2 < 2 ^ 16) = true → dest_ok d) as Hok.
  { intros d H. bool_to_prop. split_and!; try done. apply list.Forall_forall. intros c Hc%list_elem_of_In.
    match goal with H : forallb _ _ = true |- _ => by apply forallb_forall with (x := c) in H end. }
  constructor; [|constructor; [|constructor]]; apply Hok; by vm_compute.
Qed.

Lemma restrict_to_exact_witness :
  let claims := toy_claims b#"10.0.0.7" in
  ∃ b, Validate (NewServer_rules (Err ErrIO) restricted_config) claims b#"/" [] [] = Ok b ∧
    (b = true ↔ is_reverse (Protocol claims) = false ∧ (b#"10.0.0.7", 80) ∈ restricted_dests) ∧
    (b = true → handleConnection claims =
       if is_forward (Protocol claims)
       then ForwardTo (if nonnil (Udp (Protocol claims)) then b#"udp" else b#"tcp") (dest_text (b#"10.0.0.7", 80))
       else Unsupported).
Proof.
  apply (restrict_to_exact restricted_config (Err ErrIO) restricted_dests (toy_claims b#"10.0.0.7"));
    [done..|by vm_compute|done|apply restricted_dests_ok|done].
Defined.

Lemma restrict_to_unix_bypass_witness :
  let claims := mkClaims [] (setUnix (mkUnix b#"/var/run/docker.sock" false) noProtocol) b#"10.0.0.7" 80 in
  Validate (NewServer_rules (Err ErrIO) restricted_config) claims b#"/" [] [] = Ok true ∧
  handleConnection claims = ForwardTo b#"unix" b#"/var/run/docker.sock".
Proof.
  apply (restrict_to_unix_bypass restricted_config (Err ErrIO) restricted_dests [] b#"/var/run/docker.sock" false b#"10.0.0.7" 80);
    [done..|by vm_compute|apply restricted_dests_ok|by left].
Defined.

Lemma udp_idle_period_wraps :
  udpTimeoutDuration (mkClaims [] (setUdp (mkUdp (Some (mkDuration 9223372037 0))) noProtocol) [] 53) = -9223372036709551616.
Proof. by vm_compute. Qed.

Lemma dial_proxy_header_witness :
  let claims := mkClaims [] (setTcp (mkTcp true) noProtocol) b#"10.0.0.7" 80 in
  let peer := TCPAddr (Some (mkAddr (Some (IPv4 x0a x00 x00 x07)) 80)) in
  ∃ w' idle, dialTargetAndMaybeProxyHeader (λ _ _, Ok (mkTx [] None ErrIO, peer)) 0 claims b#"tcp" b#"10.0.0.7:80"
      (OtherAddr b#"198.51.100.4:5060") = Ok (w', idle) ∧
    ∃ hdr, tx w' = [] ++ hdr ∧ decode_v2 (hdr ++ b#"GET /") = Some (endpoints (OtherAddr b#"198.51.100.4:5060") peer, b#"GET /").
Proof.
  eexists _, _. split; [reflexivity|].
  apply (dial_proxy_header (λ _ _, Ok (mkTx [] None ErrIO, TCPAddr (Some (mkAddr (Some (IPv4 x0a x00 x00 x07)) 80)))) 0
    (mkClaims [] (setTcp (mkTcp true) noProtocol) b#"10.0.0.7" 80) b#"tcp" b#"10.0.0.7:80"
    (OtherAddr b#"198.51.100.4:5060") (mkTx [] None ErrIO) _ _ None b#"GET /"); reflexivity.
Defined.
