(* ===== verification/ServerSessions.v ===== *)
(** pkg/server/server.go: [handleConnection], [handleGorillaConnection] and
    [handleHttp2Connection], what the server does with a tunnel it has accepted, over each
    carrier.

    Each handler is transcribed from its own text as the list of what it does, in order,
    with deferred calls at the end.  What these calls do to the carrier and to the
    connection to the target is taken from the components that are called: the pipes of
    [Pipe] and [PipeVariants], and the reverse tunnel manager of [ManagerSys]. *)

From S2P Require Import Prelude GoStrings GoNet GoIO Wst Pipe PipeVariants Protocol Restrictions TargetFrame Manager ManagerSys ManagerInv ManagerProps ManagerThms Server.

Inductive server_effect :=
  | SetsPingHandler
  | SendsStatusOK
  | Dials (network addr : bytes)
  | Pipes (k : carrier)
  | ClosesTarget
  | ToManager (k : carrier)
  | ClosesCarrier.

(** [defer d; body...] *)
Definition deferring (d : server_effect) (body : list server_effect) : list server_effect := body ++ [d].

Section handlers.
(** The claims of the tunnel; [dial] is whether [dialTargetAndMaybeProxyHeader] succeeds. *)
Context (claims : JwtTunnelConfig) (dial : bytes → bytes → bool).

(** [handleConnection]; its routing alone is [Server.handleConnection]. *)
Definition handleConnection_session : list server_effect :=
  let p := Protocol claims in
  deferring ClosesCarrier (
    SetsPingHandler ::
    if nonnil (Tcp p) || nonnil (Udp p) || nonnil (Socks5 p) || nonnil (Protocol.HttpProxy p) || nonnil (Unix p) then
      let '(targetAddr, network) :=
        match Unix p with
        | Some u => (Unix_Path u, b#"unix")
        | None => (JoinHostPort (Remote claims) (fmt_d (Port claims)), if nonnil (Udp p) then b#"udp" else b#"tcp")
        end in
      Dials network targetAddr ::
      if negb (dial network targetAddr) then []
      else deferring ClosesTarget [Pipes NativeTunnel]
    else if nonnil (ReverseTcp p) || nonnil (ReverseUnix p) || nonnil (ReverseSocks5 p) || nonnil (ReverseHttpProxy p) ||
            nonnil (ReverseUdp p) then [ToManager NativeTunnel]
    else []).

Definition handleGorillaConnection : list server_effect :=
  let p := Protocol claims in
  deferring ClosesCarrier (
    SetsPingHandler ::
    if nonnil (Tcp p) || nonnil (Udp p) || nonnil (Socks5 p) || nonnil (Protocol.HttpProxy p) || nonnil (Unix p) then
      let '(targetAddr, network) :=
        match Unix p with
        | Some u => (Unix_Path u, b#"unix")
        | None => (JoinHostPort (Remote claims) (fmt_d (Port claims)), if nonnil (Udp p) then b#"udp" else b#"tcp")
        end in
      Dials network targetAddr ::
      if negb (dial network targetAddr) then []
      else deferring ClosesTarget [Pipes GorillaTunnel]
    else if nonnil (ReverseTcp p) || nonnil (ReverseUnix p) || nonnil (ReverseSocks5 p) || nonnil (ReverseHttpProxy p) ||
            nonnil (ReverseUdp p) then [ToManager GorillaTunnel]
    else []).

(** No deferred close of the carrier: each branch has its own. *)
Definition handleHttp2Connection : list server_effect :=
  let p := Protocol claims in
  SendsStatusOK ::
  if nonnil (Tcp p) || nonnil (Udp p) || nonnil (Socks5 p) || nonnil (Protocol.HttpProxy p) || nonnil (Unix p) then
    let '(targetAddr, network) :=
      match Unix p with
      | Some u => (Unix_Path u, b#"unix")
      | None => (JoinHostPort (Remote claims) (fmt_d (Port claims)), if nonnil (Udp p) then b#"udp" else b#"tcp")
      end in
    Dials network targetAddr ::
    if negb (dial network targetAddr) then [ClosesCarrier]
    else deferring ClosesTarget [Pipes Http2Tunnel]
  else if nonnil (ReverseTcp p) || nonnil (ReverseUnix p) || nonnil (ReverseSocks5 p) || nonnil (ReverseHttpProxy p) ||
          nonnil (ReverseUdp p) then [ToManager Http2Tunnel]
  else [ClosesCarrier].

(** The handler of a carrier. *)
Definition server_session (k : carrier) : list server_effect :=
  match k with
  | NativeTunnel => handleConnection_session
  | GorillaTunnel => handleGorillaConnection
  | Http2Tunnel => handleHttp2Connection
  end.

(** ** What the calls do to the two ends *)

(** Whether the carrier and the target are open, and whether the manager has handed the
    carrier to an incoming connection of a reverse listener. *)
Record ends := mkEnds { carrier_open : bool; target_open : bool; taken : bool }.

Definition tx_open (t : txside) : bool := negb (bool_decide (quota t = Some O)).

Definition kind_of (k : carrier) : conn_kind :=
  match k with NativeTunnel => WsConn | GorillaTunnel => GorillaConn | Http2Tunnel => H2Conn end.

Definition wait_kind (w : nat) (σ : world) : option conn_kind :=
  x ← waits σ !! w; c_kind <$> conns σ !! w_conn x.

(** One call.  [Pipe] and [PipeGorilla] return when the goroutine that writes to the target
    has, and do not touch the carrier; [PipeBiDir] returns when both of its copies have
    ended.  The manager returns when its goroutine for this connection has ended, in
    some state it can be in, or at once when it cannot listen. *)
Inductive effect_runs : server_effect → ends → ends → Prop :=
  | run_ping s : effect_runs SetsPingHandler s s
  | run_status s : effect_runs SendsStatusOK s s
  | run_dial s n a : effect_runs (Dials n a) s (mkEnds (carrier_open s) (target_open s || dial n a) (taken s))
  | run_pipe s c t c' t' : pipe_in c t = Some (c', t') →
      effect_runs (Pipes NativeTunnel) s (mkEnds (carrier_open s) (tx_open t') (taken s))
  | run_pipe_gorilla s msgs t :
      effect_runs (Pipes GorillaTunnel) s (mkEnds (carrier_open s) (tx_open (PipeGorilla_in msgs t)) (taken s))
  | run_pipe_bidir s i1 i2 b : rtc bidir_step (PipeBiDir i1 i2) b → copying12 b = false → copying21 b = false →
      effect_runs (Pipes Http2Tunnel) s (mkEnds (negb (PipeVariants.closed b)) (negb (PipeVariants.closed b)) (taken s))
  | run_manager s k σ i w : reachable σ → threads σ !! i = Some (CDone w) → wait_kind w σ = Some (kind_of k) →
      effect_runs (ToManager k) s (mkEnds (negb (is_closed w σ)) (target_open s) (isAcquired w σ))
  | run_manager_refuses s k σ listen e σ' c :
      getOrCreateListener listen claims (set_conns (conns σ ++ [mkCconn (kind_of k) false]) σ) = (Err e, σ') →
      conns (HandleClient listen (kind_of k) claims σ) !! length (conns σ) = Some c →
      effect_runs (ToManager k) s (mkEnds (negb (c_closed c)) (target_open s) (taken s))
  | run_close_target s : effect_runs ClosesTarget s (mkEnds (carrier_open s) false (taken s))
  | run_close_carrier s : effect_runs ClosesCarrier s (mkEnds false (target_open s) (taken s)).

Inductive session_runs : list server_effect → ends → ends → Prop :=
  | runs_nil s : session_runs [] s s
  | runs_cons e l s s1 s2 : effect_runs e s s1 → session_runs l s1 s2 → session_runs (e :: l) s s2.

(** The carrier has been accepted, nothing is dialled yet. *)
Definition accepted_ends : ends := mkEnds true false false.

(** ** Laws *)

(** What a session dials and hands to the manager. *)
Definition dialled (e : server_effect) : option (bytes * bytes) := match e with Dials n a => Some (n, a) | _ => None end.
Definition handed (e : server_effect) : option carrier := match e with ToManager k => Some k | _ => None end.

(** What a session does, by the route of its claims. *)
Definition session_shape (k : carrier) (route : Server.route) : list server_effect :=
  let h2 := match k with Http2Tunnel => true | _ => false end in
  (if h2 then SendsStatusOK else SetsPingHandler) ::
  match route with
  | ForwardTo n a =>
      Dials n a :: if dial n a then [Pipes k; ClosesTarget] ++ if h2 then [] else [ClosesCarrier] else [ClosesCarrier]
  | ReverseFrom => ToManager k :: if h2 then [] else [ClosesCarrier]
  | Unsupported => [ClosesCarrier]
  end.

Lemma server_session_shape k : server_session k = session_shape k (handleConnection claims).
Proof.
  destruct k; cbn [server_session];
    unfold handleHttp2Connection, handleGorillaConnection, handleConnection_session, handleConnection, is_forward, is_reverse,
      session_shape, deferring; cbv zeta.
  all: destruct (nonnil (Tcp (Protocol claims)) || _ || _ || _ || _); [|by destruct (_ || _ || _ || _ || _)].
  all: destruct (Unix (Protocol claims)); by destruct (dial _ _).
Qed.

Lemma server_session_dials k : omap dialled (server_session k) = match handleConnection claims with ForwardTo n a => [(n, a)] | _ => [] end.
Proof.
  rewrite server_session_shape. unfold session_shape. destruct (handleConnection claims) as [n a| |]; [destruct (dial n a)|..];
    by destruct k.
Qed.

(** A pipe leaves the target closed, and over HTTP/2 the carrier. *)
Lemma pipe_ends k s s' : effect_runs (Pipes k) s s' →
  target_open s' = false ∧ (k = Http2Tunnel → carrier_open s' = false).
Proof.
  intros H. inversion H as [| | |s0 c t c' t' Hp|s0 msgs t|s0 i1 i2 b Hb H12 H21| | | |]; subst; cbn.
  - unfold tx_open. by rewrite (pipe_in_closed c t c' t' Hp).
  - unfold tx_open. destruct (PipeGorilla_in_prefix msgs t) as (_ & -> & _). done.
  - pose proof (bd_closed _ _ _ (bidir_reachable_inv _ _ _ Hb)) as ->. rewrite H12. done.
Qed.

(** The manager returns a carrier that is closed or taken. *)
Lemma manager_ends k s s' : effect_runs (ToManager k) s s' →
  target_open s' = target_open s ∧ (carrier_open s' = false ∨ taken s' = true).
Proof.
  intros H. inversion H as [| | | | | |s0 k0 σ i w Hr Hi|s0 k0 σ listen e σ' c Hl Hc| |]; subst; cbn; (split; [done|]).
  - destruct (client_done_fate σ i w Hr Hi) as [->| ->]; auto.
  - left. unfold HandleClient in Hc. rewrite Hl in Hc.
    cbn in Hc. rewrite list_lookup_alter, decide_True in Hc by done. apply fmap_Some in Hc as (c0 & _ & ->). done.
Qed.
End handlers.

(** Takes a run of a session apart, call by call; what a pipe and the manager do stays. *)
Ltac run_session H :=
  repeat match type of H with
  | session_runs _ _ (_ :: _) _ _ =>
      let e := fresh "He" in inversion H as [|? ? ? ? ? e ?]; subst; clear H; rename select (session_runs _ _ _ _ _) into H;
      lazymatch type of e with
      | effect_runs _ _ (Pipes _) _ _ => idtac
      | effect_runs _ _ (ToManager _) _ _ => idtac
      | _ => inversion e; subst; clear e
      end
  | session_runs _ _ [] _ _ => inversion H; subst; clear H
  end.

(** ** Property *)

(** C31: the three carriers serve a tunnel alike: whichever handler runs, it dials exactly
    the network and address that the claims route to and hands exactly the reverse tunnels
    to the manager; and whenever it has returned, whether the dial succeeded or not and
    however the pipe or the manager ended, the target is closed, and so is the carrier,
    except that an HTTP/2 stream of a reverse tunnel may instead have been taken by an
    incoming connection (the handlers of WebSockets close theirs even then). *)
Theorem carriers_serve_alike k claims dial :
  omap dialled (server_session claims dial k) =
    match handleConnection claims with ForwardTo n a => [(n, a)] | _ => [] end ∧
  omap handed (server_session claims dial k) = match handleConnection claims with ReverseFrom => [k] | _ => [] end ∧
  ∀ s, session_runs claims dial (server_session claims dial k) accepted_ends s →
    target_open s = false ∧
    (carrier_open s = false ∨ (k = Http2Tunnel ∧ handleConnection claims = ReverseFrom ∧ taken s = true)).
Proof.
  split; [apply server_session_dials|]. rewrite server_session_shape. unfold session_shape, accepted_ends.
  destruct (handleConnection claims) as [n a| |]; [destruct (dial n a) eqn:E|..]; (split; [by destruct k|]); intros s Hs.
  - destruct k; cbn in Hs; run_session Hs;
      match goal with H : effect_runs _ _ (Pipes _) _ _ |- _ => apply pipe_ends in H as [Ht Hc] end; cbn; auto.
  - destruct k; cbn in Hs; run_session Hs; cbn; rewrite E; auto.
  - destruct k; cbn in Hs; run_session Hs;
      match goal with H : effect_runs _ _ (ToManager _) _ _ |- _ => apply manager_ends in H as [Ht Hc] end;
      cbn in *; (split; [done|]); naive_solver.
  - destruct k; cbn in Hs; run_session Hs; cbn; auto.
Qed.

(** ** Examples *)

(** The claims of a reverse tunnel, and a manager whose HTTP/2 client has served an
    incoming connection. *)
Definition h2_served : list action :=
  Connect H2Conn tcp_claims (Ok ()) :: drop 1 tunnel_over.

Lemma carriers_serve_alike_witness :
  let fwd := mkClaims [] (setTcp (mkTcp false) noProtocol) b#"10.0.0.7" 80 in
  let up := λ _ _ : bytes, true in
  session_runs fwd up (server_session fwd up Http2Tunnel) accepted_ends (mkEnds false false false) ∧
  session_runs tcp_claims up (server_session tcp_claims up Http2Tunnel) accepted_ends (mkEnds false false true) ∧
  target_open (mkEnds false false true) = false ∧
  (carrier_open (mkEnds false false true) = false ∨
   (Http2Tunnel = Http2Tunnel ∧ handleConnection tcp_claims = ReverseFrom ∧ taken (mkEnds false false true) = true)).
Proof.
  intros fwd up.
  assert (session_runs tcp_claims up (server_session tcp_claims up Http2Tunnel) accepted_ends (mkEnds false false true)) as Hr.
  { change (server_session tcp_claims up Http2Tunnel) with [SendsStatusOK; ToManager Http2Tunnel].
    eapply runs_cons; [apply run_status|]. eapply runs_cons; [|apply runs_nil].
    apply (run_manager tcp_claims up accepted_ends Http2Tunnel (after h2_served) 2 0);
      [apply after_reachable; by vm_compute|by vm_compute..]. }
  split_and!; [|exact Hr|..].
  - change (server_session fwd up Http2Tunnel) with
      [SendsStatusOK; Dials b#"tcp" (JoinHostPort (Remote fwd) (fmt_d (Port fwd))); Pipes Http2Tunnel; ClosesTarget].
    eapply runs_cons; [apply run_status|]. eapply runs_cons; [apply run_dial|].
    eapply (runs_cons _ _ _ _ _ (mkEnds false false false));
      [|eapply runs_cons; [apply (run_close_target _ _ (mkEnds false false false))|apply runs_nil]].
    apply (run_pipe_bidir fwd up (mkEnds true true false) b#"GET" b#"OK" (mkBidir [] b#"OK" [] b#"GET" true false false)); [|done..].
    eapply rtc_l; [exists (Chunk12 3); reflexivity|]. eapply rtc_l; [exists End12; reflexivity|].
    eapply rtc_l; [exists End21; reflexivity|]. apply rtc_refl.
  - reflexivity.
  - apply (carriers_serve_alike Http2Tunnel tcp_claims up). exact Hr.
Defined.
