(* ===== verification/TunnelArg.v ===== *)
(** pkg/client/config.go: tunnel descriptions on the command line, and the
    conversion of durations of pkg/protocol/types.go.

    [url.ParseQuery] and [time.ParseDuration] are parameters.  The code walks
    over the runes of the text and rebuilds it; for text that is valid UTF-8 this
    is the walk over its bytes that is modelled, the separators being ASCII. *)

From S2P Require Import Prelude GoStrings GoNet Protocol.

(** ** Durations *)

(** [d.Seconds()] converted to an integer, for [0 <= d]: the float64 sum of the
    whole seconds and the fraction is rounded to 53 significant bits, so it is
    the next whole second when the distance to it is at most half of the spacing
    of float64 numbers around [sec] (half the spacing is [2^(log2 sec - 53)]). *)
Definition seconds_trunc (d : Z) : Z :=
  let sec := d / Second in
  let nsec := d mod Second in
  if (0 <? sec) && ((Second - nsec) * 2 ^ 53 <=? Second * 2 ^ Z.log2 sec) then sec + 1 else sec.

(** [NewDuration], for [0 <= d]. *)
Definition NewDuration (d : Z) : Duration := mkDuration (seconds_trunc d) (d mod Second).

Record LocalToRemote := mkLtr { Ltr_Protocol : LocalProtocol; Local : bytes; Ltr_Remote : bytes; Ltr_Port : Z }.

Section parse.
Context (ParseDuration : bytes → option Z) (ParseQuery : bytes → gmap bytes bytes).

(** Negative durations are outside the model: Go leaves the conversion of a
    negative float64 to uint64 open. *)
Definition parseDurationSec (s : bytes) : option Duration :=
  if bool_decide (s = []) then None
  else
    match ParseDuration (s ++ b#"s") with
    | Some d => Some (NewDuration d)
    | None =>
        match ParseUint s 64 with
        | (secs, None) => Some (mkDuration secs 0)
        | (_, Some _) => None
        end
    end.

(** The loop that splits at colons outside brackets. *)
Fixpoint fields (s : bytes) (inBrackets : bool) (curr : bytes) : list bytes :=
  match s with
  | [] => [curr]
  | r :: s' =>
      let inBrackets := if bool_decide (r = x5b) then true else if bool_decide (r = x5d) then false else inBrackets in
      if bool_decide (r = x3a) && negb inBrackets then curr :: fields s' inBrackets []
      else fields s' inBrackets (curr ++ [r])
  end.

(** [?key=value&...] after the description. *)
Definition split_options (info : bytes) : bytes * gmap bytes bytes :=
  match Cut info b#"?" with
  | Some (info', query) => (info', ParseQuery query)
  | None => (info, ∅)
  end.

Definition getTimeout (options : gmap bytes bytes) : option Duration :=
  match options !! b#"timeout_sec" with
  | Some val => parseDurationSec val
  | None => Some (mkDuration 30 0)
  end.

Definition getCredentials (options : gmap bytes bytes) : option Credentials :=
  let login := default [] (options !! b#"login") in
  let pass := default [] (options !! b#"password") in
  if negb (bool_decide (login = [])) && negb (bool_decide (pass = [])) then Some (mkCredentials login pass) else None.

Definition getProxyProtocol (options : gmap bytes bytes) : bool := nonnil (options !! b#"proxy_protocol").

(** The protocol of a listener description. *)
Definition tunnel_protocol (proto : bytes) (isReverse : bool) (o : gmap bytes bytes) : option LocalProtocol :=
  let p := noProtocol in
  if bool_decide (proto = b#"tcp") then
    Some (if isReverse then setReverseTcp p else setTcp (mkTcp (getProxyProtocol o)) p)
  else if bool_decide (proto = b#"udp") then
    Some (if isReverse then setReverseUdp (mkReverseUdp (getTimeout o)) p else setUdp (mkUdp (getTimeout o)) p)
  else if bool_decide (proto = b#"socks5") then
    Some (if isReverse then setReverseSocks5 (mkReverseSocks5 (getTimeout o) (getCredentials o)) p
          else mkLocalProtocol None None None (Some (mkSocks5 (getTimeout o) (getCredentials o))) None None None None None None None None None)
  else if bool_decide (proto = b#"http") then
    Some (if isReverse
          then mkLocalProtocol None None None None None None None None None None
                 (Some (mkReverseHttpProxy (getTimeout o) (getCredentials o))) None None
          else mkLocalProtocol None None None None None None
                 (Some (mkHttpProxy (getTimeout o) (getCredentials o) (getProxyProtocol o))) None None None None None None)
  else if bool_decide (proto = b#"tproxy+tcp") then
    Some (mkLocalProtocol None None None None (Some ()) None None None None None None None None)
  else if bool_decide (proto = b#"tproxy+udp") then
    Some (mkLocalProtocol None None None None None (Some (mkTProxyUdp (getTimeout o))) None None None None None None None)
  else None.

(** [bind:]port[:host:port] *)
Definition parse_listener (proto info : bytes) (isReverse : bool) (o : gmap bytes bytes) : go LocalToRemote :=
  r ← match fields info false [] with
      | [p] => Ok (b#"127.0.0.1", p, b#"0.0.0.0", 0)
      | [b; p] => Ok (b, p, b#"0.0.0.0", 0)
      | [p; h; rp] => Ok (b#"127.0.0.1", p, h, u16 (ParseUint rp 16).1)
      | [b; p; h; rp] => Ok (b, p, h, u16 (ParseUint rp 16).1)
      | _ => Err (Errorf b#"invalid tunnel format: %s" [])
      end;
  let '(localBind, localPort, remoteHost, remotePort) := r in
  match tunnel_protocol proto isReverse o with
  | Some p => Ok (mkLtr p (JoinHostPort (Trim localBind b#"[]") localPort) (Trim remoteHost b#"[]") remotePort)
  | None => Err (Errorf b#"unsupported protocol: %s" [])
  end.

Definition parse_stdio (info : bytes) (o : gmap bytes bytes) : go LocalToRemote :=
  match SplitHostPort info with
  | None => Err (Errorf b#"invalid stdio target: %w" [])
  | Some (host, portStr) =>
      Ok (mkLtr (mkLocalProtocol None None (Some (mkStdio (getProxyProtocol o))) None None None None None None None None None None)
            [] host (u16 (ParseUint portStr 16).1))
  end.

Definition parse_unix (info : bytes) (isReverse : bool) (o : gmap bytes bytes) : LocalToRemote :=
  let '(localPath, remotePath) := default (info, []) (Cut info b#":") in
  if isReverse then mkLtr (setReverseUnix (mkReverseUnix localPath) noProtocol) localPath remotePath 0
  else mkLtr (setUnix (mkUnix remotePath (getProxyProtocol o)) noProtocol) localPath remotePath 0.

Definition ParseTunnelArg (arg : bytes) (isReverse : bool) : go LocalToRemote :=
  match Cut arg b#"://" with
  | None => Err (Errorf b#"invalid tunnel format, missing ://" [])
  | Some (proto, info) =>
      let '(info, options) := split_options info in
      if bool_decide (proto = b#"stdio") then parse_stdio info options
      else if bool_decide (proto = b#"unix") then Ok (parse_unix info isReverse options)
      else parse_listener proto info isReverse options
  end.

(** ** Splitting *)

Definition plain (s : bytes) : Prop := (x3a ∉ s) ∧ (x5b ∉ s) ∧ (x5d ∉ s) ∧ (x3f ∉ s).

Lemma fields_skip s rest inb curr : (inb = false → x3a ∉ s) → x5b ∉ s → x5d ∉ s →
  fields (s ++ rest) inb curr = fields rest inb (curr ++ s).
Proof.
  revert curr. induction s as [|r s IH]; intros curr Hc Ho Hcl; [by rewrite app_nil_r|].
  cbn [app fields]. rewrite (bool_decide_false (r = x5b)), (bool_decide_false (r = x5d)) by set_solver.
  rewrite (proj2 (andb_false_iff _ _)).
  - rewrite IH by set_solver. by rewrite <-(assoc_L (++)).
  - destruct inb; [by right|left]. apply bool_decide_eq_false. specialize (Hc eq_refl). set_solver.
Qed.

(** A host as it is written: in brackets if it has colons. *)
Definition bracket (h : bytes) : bytes := if bool_decide (x3a ∈ h) then b#"[" ++ h ++ b#"]" else h.
Definition hostlike (h : bytes) : Prop := (x5b ∉ h) ∧ (x5d ∉ h) ∧ (x3f ∉ h).

Lemma fields_host h rest : hostlike h → fields (bracket h ++ rest) false [] = fields rest false (bracket h).
Proof.
  intros (H1 & H2 & _). unfold bracket. case_bool_decide as Hc.
  - rewrite <-!(assoc_L (++)). change (fields (h ++ x5d :: rest) true [x5b] = fields rest false (b#"[" ++ h ++ b#"]")).
    rewrite fields_skip by done. cbn [fields]. rewrite (bool_decide_false (x5d = x5b)), (bool_decide_true (x5d = x5d)) by done.
    rewrite (bool_decide_false (x5d = x3a)) by done. cbn [andb app]. by rewrite (assoc_L (++)).
  - by rewrite fields_skip.
Qed.

Lemma fields_colon rest curr : fields (x3a :: rest) false curr = curr :: fields rest false [].
Proof. done. Qed.

Lemma trim_left_none set s : (∀ c, head s = Some c → c ∉ set) → trim_left_set set s = s.
Proof. destruct s as [|c s]; intros H; [done|]. cbn. by rewrite bool_decide_false by by apply H. Qed.

Lemma Trim_none s set : (∀ c, c ∈ set → c ∉ s) → Trim s set = s.
Proof.
  intros H. unfold Trim. rewrite !trim_left_none, reverse_involutive; [done|..].
  - intros c Hc Hin. apply (H c Hin). destruct s; [done|]. injection Hc as ->. by left.
  - intros c Hc Hin. rewrite trim_left_none in Hc.
    + apply (H c Hin). apply elem_of_reverse. destruct (reverse s); [done|]. injection Hc as ->. by left.
    + intros c' Hc' Hin'. apply (H c' Hin'). destruct s; [done|]. injection Hc' as ->. by left.
Qed.

Lemma Trim_bracket h : hostlike h → Trim (bracket h) b#"[]" = h.
Proof.
  intros (H1 & H2 & _).
  assert (∀ c, c ∈ b#"[]" → c ∉ h) as Hn by (intros c [->|[->|?%elem_of_nil]%elem_of_cons]%elem_of_cons; done).
  unfold bracket. case_bool_decide as Hc; [|by apply Trim_none].
  unfold Trim. change (b#"[" ++ h ++ b#"]") with (x5b :: h ++ [x5d]). cbn [trim_left_set].
  rewrite bool_decide_true by (by left).
  assert (trim_left_set b#"[]" (h ++ [x5d]) = h ++ [x5d]) as ->.
  { apply trim_left_none. intros c Hh Hin. apply (Hn c Hin). destruct h; [by apply elem_of_nil in Hc|].
    injection Hh as ->. by left. }
  rewrite reverse_snoc. cbn [trim_left_set]. rewrite bool_decide_true by (right; by left).
  rewrite trim_left_none, reverse_involutive; [done|]. intros c Hh Hin. apply (Hn c Hin), elem_of_reverse.
  destruct (reverse h); [done|]. injection Hh as ->. by left.
Qed.

(** ** The text of a listener *)

Record listener := mkListener { l_bind : option bytes; l_port : bytes; l_target : option (bytes * Z) }.

(** [[bind:]port[:host:port]], IPv6 addresses in brackets. *)
Definition listener_text (l : listener) : bytes :=
  match l_bind l with Some b => bracket b ++ b#":" | None => [] end ++ l_port l ++
  match l_target l with Some (h, p) => b#":" ++ bracket h ++ b#":" ++ fmt_d p | None => [] end.

Definition listener_ok (l : listener) : Prop :=
  plain (l_port l) ∧ (∀ b, l_bind l = Some b → hostlike b) ∧
  (∀ h p, l_target l = Some (h, p) → hostlike h ∧ is_u16 p).

Definition listener_value (l : listener) (p : LocalProtocol) : LocalToRemote :=
  let '(h, rp) := default (b#"0.0.0.0", 0) (l_target l) in
  mkLtr p (JoinHostPort (default b#"127.0.0.1" (l_bind l)) (l_port l)) h rp.

Lemma bracket_no_query h : hostlike h → x3f ∉ bracket h.
Proof. intros (_ & _ & H). unfold bracket. case_bool_decide; [|done]. cbn [app]. set_solver. Qed.

Lemma fmt_d_plain p : 0 ≤ p → plain (fmt_d p).
Proof. intros H. repeat split; by apply dec_digits_no. Qed.

Lemma listener_text_no_query l : listener_ok l → x3f ∉ listener_text l.
Proof.
  intros ((_ & _ & _ & Hp) & Hb & Ht). unfold listener_text. rewrite !not_elem_of_app. split; [|split; [done|]].
  - destruct (l_bind l) as [b|]; [|apply not_elem_of_nil].
    rewrite not_elem_of_app. split; [by apply bracket_no_query, Hb|by apply (bool_decide_unpack (x3f ∉ b#":"))].
  - destruct (l_target l) as [[h p]|]; [|apply not_elem_of_nil]. destruct (Ht h p eq_refl) as [Hh Hr].
    rewrite !not_elem_of_app. repeat split; try by apply (bool_decide_unpack (x3f ∉ b#":")).
    + by apply bracket_no_query.
    + apply fmt_d_plain. unfold is_u16 in Hr. lia.
Qed.

Lemma fields_plain s rest : plain s → fields (s ++ rest) false [] = fields rest false s.
Proof. intros (? & ? & ? & _). by rewrite fields_skip. Qed.

(** The splitting loop finds the fields that were written. *)
Lemma fields_listener l : listener_ok l →
  fields (listener_text l) false [] =
  match l_bind l with Some b => [bracket b] | None => [] end ++ [l_port l] ++
  match l_target l with Some (h, p) => [bracket h; fmt_d p] | None => [] end.
Proof.
  intros (Hp & Hb & Ht). unfold listener_text.
  assert (fields (l_port l ++ match l_target l with Some (h, p) => b#":" ++ bracket h ++ b#":" ++ fmt_d p | None => [] end) false []
          = [l_port l] ++ match l_target l with Some (h, p) => [bracket h; fmt_d p] | None => [] end) as Hrest.
  { rewrite fields_plain by done. destruct (l_target l) as [[h p]|]; [|done].
    destruct (Ht h p eq_refl) as [Hh Hr]. change (b#":" ++ ?x) with (x3a :: x). rewrite fields_colon, fields_host by done.
    change (b#":" ++ ?x) with (x3a :: x). rewrite fields_colon.
    assert (plain (fmt_d p)) as Hf%(λ H, fields_plain _ [] H) by (apply fmt_d_plain; unfold is_u16 in Hr; lia).
    rewrite app_nil_r in Hf. by rewrite Hf. }
  destruct (l_bind l) as [b|]; [|exact Hrest].
  rewrite <-!(assoc_L (++)), fields_host by by apply Hb. change (b#":" ++ ?x) with (x3a :: x).
  by rewrite fields_colon, Hrest.
Qed.

Lemma parse_listener_text proto l rev o p : listener_ok l → tunnel_protocol proto rev o = Some p →
  parse_listener proto (listener_text l) rev o = Ok (listener_value l p).
Proof.
  intros Hok Hp. unfold parse_listener. rewrite fields_listener, Hp by done. destruct Hok as (_ & Hb & Ht).
  unfold listener_value.
  destruct (l_bind l) as [b|], (l_target l) as [[h rp]|]; cbn [app go_bind mbind default id];
    rewrite ?Trim_bracket by (try by apply Hb; try by eapply Ht); try done;
    destruct (Ht h rp eq_refl) as [Hh Hr]; rewrite ParseUint_fmt_d by (unfold is_u16 in Hr; lia); cbn [fst];
    by rewrite u16_id, ?(Trim_bracket h).
Qed.

Lemma ParseTunnelArg_listener (proto : bytes) (l : listener) (isReverse : bool) (p : LocalProtocol) :
  tunnel_protocol proto isReverse ∅ = Some p → listener_ok l →
  ParseTunnelArg (proto ++ b#"://" ++ listener_text l) isReverse = Ok (listener_value l p).
Proof.
  intros Hp Hl.
  assert ((x3a ∉ proto) ∧ proto ≠ b#"stdio" ∧ proto ≠ b#"unix") as (Hc & Hs & Hu).
  { unfold tunnel_protocol in Hp. repeat (case_bool_decide; [subst; split; [by apply (bool_decide_unpack (x3a ∉ _))|done]|]).
    done. }
  unfold ParseTunnelArg. change b#"://" with (x3a :: b#"//"). rewrite Cut_app by done.
  unfold split_options. change b#"?" with [x3f]. rewrite Cut_none by by apply listener_text_no_query.
  rewrite !bool_decide_false by done. by apply parse_listener_text.
Qed.

(** A tunnel argument [proto://[bind:]port[:host:port]] is read back as what
    it says, in all of its four forms and in both directions: the missing parts
    take their defaults, IPv6 addresses in brackets are neither cut at their
    colons nor keep the brackets, and the remote port is the number written.  The
    protocol is the one of the scheme with no options. *)
Theorem ParseTunnelArg_roundtrip (proto : bytes) (l : listener) (isReverse : bool) (p : LocalProtocol) :
  tunnel_protocol proto isReverse ∅ = Some p → listener_ok l →
  ParseTunnelArg (proto ++ b#"://" ++ listener_text l) isReverse = Ok (listener_value l p).
Proof. apply ParseTunnelArg_listener. Qed.
End parse.

Definition no_durations : bytes → option Z := λ _, None.
Definition no_query : bytes → gmap bytes bytes := λ _, ∅.

Lemma ParseTunnelArg_roundtrip_witness :
  ParseTunnelArg no_durations no_query b#"tcp://[::1]:8080:[2001:db8::7]:443" false
  = Ok (mkLtr (setTcp (mkTcp false) noProtocol) b#"[::1]:8080" b#"2001:db8::7" 443).
Proof.
  apply (ParseTunnelArg_roundtrip no_durations no_query b#"tcp" (mkListener (Some b#"::1") b#"8080" (Some (b#"2001:db8::7", 443)))
           false (setTcp (mkTcp false) noProtocol)); [reflexivity|].
  split; [|split].
  - repeat split; apply (bool_decide_unpack _); reflexivity.
  - intros b [= <-]. repeat split; apply (bool_decide_unpack _); reflexivity.
  - intros h p [= <- <-]. split; [repeat split; apply (bool_decide_unpack _); reflexivity|unfold is_u16; lia].
Defined.

(** Remote ports are read without a check: what is no number is port 0, what is
    too large is the largest port. *)
Example ParseTunnelArg_lenient_port :
  ParseTunnelArg no_durations no_query b#"tcp://80:example.com:https" false
  = Ok (mkLtr (setTcp (mkTcp false) noProtocol) b#"127.0.0.1:80" b#"example.com" 0) ∧
  ParseTunnelArg no_durations no_query b#"tcp://80:example.com:99999" false
  = Ok (mkLtr (setTcp (mkTcp false) noProtocol) b#"127.0.0.1:80" b#"example.com" 65535).
Proof. by split. Qed.

(** ** Durations *)

Lemma seconds_trunc_exact d : 0 ≤ d < 2 ^ 24 * Second → seconds_trunc d = d / Second.
Proof.
  intros Hd. unfold seconds_trunc.
  pose proof (Z.mod_pos_bound d Second ltac:(done)).
  assert (0 ≤ d / Second < 2 ^ 24) as Hs by (unfold Second in *; split; [apply Z.div_pos|apply Z.div_lt_upper_bound]; lia).
  destruct (0 <? d / Second) eqn:Hpos; [|done]. apply Z.ltb_lt in Hpos. cbn [andb].
  assert (Z.log2 (d / Second) < 24) as Hl by (apply Z.log2_lt_pow2; lia).
  assert (2 ^ Z.log2 (d / Second) ≤ 2 ^ 23) by (apply Z.pow_le_mono_r; lia).
  rewrite (proj2 (Z.leb_gt _ _)); [done|]. unfold Second in *. lia.
Qed.

(** A duration below 2^24 seconds (194 days) is split into whole seconds and
    nanoseconds without loss: the server's [ToTimeDuration] computes the duration
    the client was given.  (The float64 rounding in [d.Seconds()] does not reach
    the next whole second there; [NewDuration_rounds_up] shows that it does at
    2^24 seconds.) *)
Theorem NewDuration_roundtrip (d : Z) :
  0 ≤ d < 2 ^ 24 * Second →
  ToTimeDuration (NewDuration d) = d ∧ 0 ≤ Secs (NewDuration d) < 2 ^ 64 ∧ 0 ≤ Nanos (NewDuration d) < Second.
Proof.
  intros Hd. unfold NewDuration, ToTimeDuration. cbn [Secs Nanos]. rewrite seconds_trunc_exact by done.
  pose proof (Z.mod_pos_bound d Second ltac:(done)) as Hn. pose proof (Z.div_mod d Second ltac:(done)) as Hdm.
  assert (0 ≤ d / Second < 2 ^ 24) as Hs by (unfold Second in *; split; [apply Z.div_pos|apply Z.div_lt_upper_bound]; lia).
  split; [|split; [lia|done]]. generalize dependent (d / Second). generalize dependent (d mod Second). unfold Second in *. intros.
  rewrite (i64_id z0), (i64_id (z0 * _)), i64_id by lia. lia.
Qed.

Lemma NewDuration_roundtrip_witness :
  ToTimeDuration (NewDuration 1500000000) = 1500000000 ∧ 0 ≤ Secs (NewDuration 1500000000) < 2 ^ 64 ∧
  0 ≤ Nanos (NewDuration 1500000000) < Second.
Proof. apply (NewDuration_roundtrip 1500000000). unfold Second. lia. Defined.

(** One nanosecond below 2^24+1 seconds comes back a second later. *)
Example NewDuration_rounds_up :
  ToTimeDuration (NewDuration (2 ^ 24 * Second + 999999999)) = 2 ^ 24 * Second + 999999999 + Second.
Proof. vm_compute. reflexivity. Qed.
