(* ===== verification/Client.v ===== *)
(** pkg/client/client.go and pkg/client/transport.go: how the client asks the
    server for a tunnel, over each of the three transports.

    The URL parser, the token signer, the headers file, the order in which Go
    walks over a map and the dialling itself are parameters. *)

From S2P Require Import Prelude GoStrings GoNet GoIO GoHttp GoBase64 Wst Upgrade Protocol Restrictions ProxyProto IdleTimer Manager Server TunnelArg.

(** ** Configuration *)

Record ClientConfig := mkClientConfig {
  c_ServerURL : bytes;
  c_PathPrefix : bytes;
  c_JWTSecret : bytes;
  c_Headers : gmap bytes bytes;
  c_MaskFrame : bool;
  c_PingFrequency : Z;
  c_TlsVerifyCert : bool;
  c_TlsClientCert : bytes;
  c_TlsClientKey : bytes;
  c_TlsSniOverride : bytes;
  c_TlsSniDisable : bool;
  c_TlsEchEnable : bool;
  c_SocketSoMark : Z;
  c_ConnectionMinIdle : Z;
  c_ConnectionRetryMaxBackoff : Z;
  c_ReverseTunnelConnectionRetryMaxBackoff : Z;
  c_HttpProxy : bytes;
  c_HttpProxyLogin : bytes;
  c_HttpProxyPassword : bytes;
  c_HttpUpgradeCredentials : bytes;
  c_HttpHeadersFile : bytes;
  c_DnsResolver : list bytes;
  c_DnsResolverPreferIpv4 : bool;
  c_LocalToRemote : list bytes;
  c_RemoteToLocal : list bytes;
  c_WebsocketProtocol : bytes
}.

Definition legacyJWTSecret : bytes := b#"champignonfrais".

(** The library that signs the tokens.  The compact form of a token consists of
    base64url text and dots; what was signed is parsed back, for claims whose
    strings JSON can carry ([encodable]). *)
Class JwtSigner (J : JwtLibrary) := {
  SignedString : bytes → bytes → JwtTunnelConfig → go bytes;
  encodable : JwtTunnelConfig → Prop;
  token_text : ∀ alg key c tok, SignedString alg key c = Ok tok →
    tok ≠ [] ∧ Forall (λ b, graphic_ascii b = true ∧ b ≠ x2c) tok;
  signed_parses : ∀ alg key c tok, encodable c → SignedString alg key c = Ok tok → ParseUnverified tok = Ok (c, alg);
  signed_verifies : ∀ alg key c tok kf, encodable c → SignedString alg key c = Ok tok → kf alg = Ok key →
    ParseWithClaims tok kf = Ok (c, true)
}.

(** ** Requests *)

Definition eventsPath (prefix : bytes) : bytes :=
  let prefix := Trim prefix b#"/" in
  if bool_decide (prefix = []) then b#"/events" else b#"/" ++ prefix ++ b#"/events".

(** One line of the headers file. *)
Definition header_line (headers : gmap bytes bytes) (line : bytes) : gmap bytes bytes :=
  match SplitN line b#":" 2 with
  | [k; v] => <[TrimSpace k := TrimSpace v]> headers
  | _ => headers
  end.

(** [open] is the result of opening the file and the lines the scanner yields. *)
Definition loadHttpHeaders (c : ClientConfig) (open : go (list bytes)) : gmap bytes bytes :=
  if bool_decide (c_HttpHeadersFile c = []) then ∅
  else match open with Ok lines => foldl header_line ∅ lines | _ => ∅ end.

Definition secret_of (c : ClientConfig) : bytes :=
  if bool_decide (c_JWTSecret c = []) then legacyJWTSecret else c_JWTSecret c.

(** [if u.Port() == "" { ... }] *)
Definition with_port (u : URL) : URL :=
  mkURL (Scheme u) (u_Hostname u)
    (if bool_decide (u_Port u = []) then (if is_secure u then b#"443" else b#"80") else u_Port u) (RequestURI u).

Definition with_scheme (s : bytes) (u : URL) : URL := mkURL s (u_Hostname u) (u_Port u) (RequestURI u).
Definition with_path (p : bytes) (u : URL) : URL := mkURL (Scheme u) (u_Hostname u) (u_Port u) p.

(** The URL [connectToWarpStream] hands to its dialler: plain [ws], because the
    transport does the TLS.  The path is kept unescaped. *)
Definition native_url (c : ClientConfig) (u : URL) : URL :=
  let u := with_port u in
  let u := if is_secure u then with_scheme b#"ws" u else u in
  with_path (eventsPath (c_PathPrefix c)) u.

Definition http2_url (c : ClientConfig) (u : URL) : URL :=
  let u := with_port u in
  let u := if bool_decide (Scheme u = b#"ws") then with_scheme b#"http" u
           else if bool_decide (Scheme u = b#"wss") then with_scheme b#"https" u else u in
  with_path (eventsPath (c_PathPrefix c)) u.

Definition gorilla_url (c : ClientConfig) (u : URL) : URL :=
  let u := if bool_decide (Scheme u = b#"ws") || bool_decide (Scheme u = b#"http") then with_scheme b#"ws" u
           else if is_secure u then with_scheme b#"wss" u else u in
  with_path (eventsPath (c_PathPrefix c)) u.

Section client.
Context `{J : JwtLibrary} `{S : !JwtSigner J} (range : gmap bytes bytes → list (bytes * bytes)).

Definition generateJWT (c : ClientConfig) (requestID : bytes) (p : LocalProtocol) (remoteHost : bytes) (remotePort : Z) : go bytes :=
  SignedString HS256 (secret_of c) (mkClaims requestID p remoteHost remotePort).

(** The headers of the configuration, of the file, and the credentials. *)
Definition add_custom_headers (c : ClientConfig) (fileHeaders : gmap bytes bytes) (h : Header) : Header :=
  let h := header_SetAll (range (c_Headers c)) h in
  let h := header_SetAll (range fileHeaders) h in
  if negb (bool_decide (c_HttpUpgradeCredentials c = [])) then header_Set b#"Authorization" (c_HttpUpgradeCredentials c) h else h.

Definition ws_header (c : ClientConfig) (fileHeaders : gmap bytes bytes) (token : bytes) : Header :=
  add_custom_headers c fileHeaders (header_Set b#"Sec-WebSocket-Protocol" (b#"v1, " ++ JwtHeaderPrefix ++ token) ∅).

Definition http2_header (c : ClientConfig) (fileHeaders : gmap bytes bytes) (token : bytes) : Header :=
  add_custom_headers c fileHeaders
    (header_Set b#"Content-Type" b#"application/json" (header_Set b#"Cookie" token ∅)).

(** The three transports. *)
Inductive transport := OverHttp2 | OverGorilla | OverNative.

Definition transport_of (c : ClientConfig) (u : URL) : transport :=
  if bool_decide (Scheme u = b#"http") || bool_decide (Scheme u = b#"https") then OverHttp2
  else if bool_decide (c_WebsocketProtocol c = b#"ws") then OverGorilla
  else OverNative.

(** What is asked for: the URL, the transport's own headers in front of the others,
    and the HTTP version. *)
Record tunnel_request := mkTunnelRequest {
  tr_url : URL;
  tr_fixed : list (bytes * bytes);
  tr_header : Header;
  tr_major : Z
}.

(** The fields the WebSocket diallers write before the caller's headers. *)
Definition upgrade_fields : list (bytes * bytes) :=
  [(b#"Upgrade", b#"websocket"); (b#"Connection", b#"Upgrade")].

(** [connectToTransport] with the three functions it calls, up to the dialling. *)
Definition connectToTransport (c : ClientConfig) (parsed : go URL) (open : go (list bytes)) (requestID : bytes)
    (p : LocalProtocol) (remoteHost : bytes) (remotePort : Z) : go (transport * tunnel_request) :=
  match parsed with
  | Ok u =>
      match generateJWT c requestID p remoteHost remotePort with
      | Ok token =>
          let file := loadHttpHeaders c open in
          Ok (match transport_of c u with
              | OverHttp2 => (OverHttp2, mkTunnelRequest (http2_url c u) [] (http2_header c file token) 2)
              | OverGorilla => (OverGorilla, mkTunnelRequest (gorilla_url c u) upgrade_fields (ws_header c file token) 1)
              | OverNative => (OverNative, mkTunnelRequest (native_url c u) upgrade_fields (ws_header c file token) 1)
              end)
      | Err e => Err (Errorf b#"failed to generate JWT: %w" [])
      | Panic => Panic
      end
  | Err e => Err (Errorf b#"invalid server URL: %w" [])
  | Panic => Panic
  end.

(** The request as the server's HTTP library presents it: [Get] returns the first
    field of a name.  How the two sides come to speak HTTP/2 is up to their libraries and
    not modelled: the version is the one the transport sends. *)
Definition as_seen (r : tunnel_request) (cn : option bytes) (addr : bytes) : Request :=
  mkRequest (RequestURI (tr_url r))
    (λ k, match List.find (λ kv, bool_decide (CanonicalHeaderKey kv.1 = CanonicalHeaderKey k)) (tr_fixed r) with
          | Some kv => kv.2
          | None => header_Get (tr_header r) k
          end)
    cn (tr_major r) addr.
End client.

(** ** Dialling *)

(** The address [dialRawTransport] dials when its caller names none, and whether
    [dialTransport] wraps the connection in TLS. *)
Definition server_addr (u : URL) : bytes := dial_addr u.

(** [addr] is what the caller names, perhaps nothing. *)
Definition dialRawTransport (parsed : go URL) (dial : bytes → bytes → go netconn) (network addr : bytes) : go (netconn * URL) :=
  match parsed with
  | Ok u =>
      let addr := if bool_decide (addr = []) then server_addr u else addr in
      let network := if bool_decide (network = []) then b#"tcp" else network in
      conn ← dial network addr; Ok (conn, u)
  | Err e => Err (Errorf b#"invalid server url: %w" [])
  | Panic => Panic
  end.

(** [tls.Config] as far as it is set. *)
Record tls_config := mkTls { InsecureSkipVerify : bool; ServerName : bytes; client_cert : bool }.

(** [load] is the outcome of loading the key pair when there is no reloader. *)
Definition tlsClientConfig (c : ClientConfig) (has_reloader : bool) (load : go unit) (serverName : bytes) : go tls_config :=
  let name := if negb (bool_decide (c_TlsSniOverride c = [])) then c_TlsSniOverride c else serverName in
  if negb (bool_decide (c_TlsClientCert c = [])) && negb (bool_decide (c_TlsClientKey c = [])) then
    if has_reloader then Ok (mkTls (negb (c_TlsVerifyCert c)) name true)
    else match load with
         | Ok _ => Ok (mkTls (negb (c_TlsVerifyCert c)) name true)
         | Err e => Err (Errorf b#"failed to load client cert: %w" [])
         | Panic => Panic
         end
  else Ok (mkTls (negb (c_TlsVerifyCert c)) name false).

(** The connection and whether a connection that was opened is left open. *)
Definition dialTransport (c : ClientConfig) (has_reloader : bool) (load : go unit) (parsed : go URL)
    (dial : bytes → bytes → go netconn) (handshake : tls_config → netconn → go netconn) (network addr : bytes) :
    go netconn * bool :=
  match dialRawTransport parsed dial network addr with
  | Ok (conn, u) =>
      if is_secure u then
        match tlsClientConfig c has_reloader load (u_Hostname u) with
        | Ok cfg =>
            match handshake cfg conn with
            | Ok tlsConn => (Ok tlsConn, true)
            | Err e => (Err (Errorf b#"tls handshake failed: %w" []), false)
            | Panic => (Panic, true)
            end
        | Err e => (Err e, false)
        | Panic => (Panic, true)
        end
      else (Ok conn, true)
  | Err e => (Err e, false)
  | Panic => (Panic, false)
  end.

(** ** Listeners *)

(** The loop [StartTunnel] runs for a tunnel. *)
Inductive tunnel_loop :=
  | runStdioTunnel | runUdpTunnel | runSocks5Tunnel | runHttpProxyTunnel | runUnixTunnel | runTProxyTcpTunnel
  | runTProxyUdpTunnel | runTcpTunnel.

Definition StartTunnel (p : LocalProtocol) : tunnel_loop :=
  if nonnil (Stdio p) then runStdioTunnel
  else if nonnil (Udp p) then runUdpTunnel
  else if nonnil (Socks5 p) then runSocks5Tunnel
  else if nonnil (Protocol.HttpProxy p) then runHttpProxyTunnel
  else if nonnil (Unix p) then runUnixTunnel
  else if nonnil (TProxyTcp p) then runTProxyTcpTunnel
  else if nonnil (TProxyUdp p) then runTProxyUdpTunnel
  else runTcpTunnel.

(** What a loop asks the server for: protocol, host and port.  [target] is the
    destination a proxy client or the kernel names. *)
Definition loop_request (ltr : LocalToRemote) (target : bytes * Z) : LocalProtocol * bytes * Z :=
  let tcpProto := setTcp (mkTcp false) noProtocol in
  match StartTunnel (Ltr_Protocol ltr) with
  | runSocks5Tunnel | runHttpProxyTunnel | runTProxyTcpTunnel => (tcpProto, target.1, target.2)
  | runTProxyUdpTunnel =>
      (setUdp (mkUdp (match TProxyUdp (Ltr_Protocol ltr) with Some t => TProxyUdp_Timeout t | None => None end)) noProtocol,
       target.1, target.2)
  | runStdioTunnel | runUdpTunnel | runUnixTunnel | runTcpTunnel => (Ltr_Protocol ltr, Ltr_Remote ltr, Ltr_Port ltr)
  end.

(** [addrToHostPortParsed]; [sscanf] reads the leading number of the port text. *)
Definition addrToHostPortParsed (sscanf : bytes → Z) (addr : option bytes) : go (bytes * Z) :=
  match addr with
  | None => Ok ([], 0)
  | Some a =>
      match SplitHostPort a with
      | None => Err (Errorf b#"address error" [])
      | Some (host, portStr) => Ok (host, sscanf portStr)
      end
  end.

(** The destination of a connection accepted by the transparent proxy. *)
Definition tproxy_target (sscanf : bytes → Z) (local : option bytes) (GetOriginalDst : go (bytes * Z)) : go (bytes * Z) :=
  match addrToHostPortParsed sscanf local with
  | Ok (h, p) => if bool_decide (h = []) || (p =? 0) then GetOriginalDst else Ok (h, p)
  | Err _ => GetOriginalDst
  | Panic => Panic
  end.

(** The destination of a datagram received by the transparent proxy. *)
Definition tproxy_udp_target (ltr : LocalToRemote) (parsed GetOriginalDst : go (bytes * Z)) : bytes * Z :=
  let fallback :=
    if bool_decide (Ltr_Remote ltr = []) || bool_decide (Ltr_Remote ltr = b#"0.0.0.0") || (Ltr_Port ltr =? 0) then
      match GetOriginalDst with Ok t => t | _ => ([], 0) end
    else (Ltr_Remote ltr, Ltr_Port ltr) in
  match parsed with
  | Ok (h, p) => if bool_decide (h = []) || (p =? 0) then fallback else (h, p)
  | _ => fallback
  end.
