(* ===== verification/ReverseClient.v ===== *)
(** pkg/client/client.go: [StartReverseTunnel], the loop that keeps one reverse
    tunnel of the client alive.

    One round of the loop connects to the server, finds out which destination the
    tunnel is for, dials it and pipes.  A round is a function of what its calls
    return ([attempt]); it yields the actions it takes, in order, and the delay of
    the next failed connection.  The loop itself never ends, so theorems speak about
    any number of its rounds. *)

From S2P Require Import Prelude GoStrings GoNet GoIO Wst Upgrade Protocol TargetFrame Restrictions Manager Server TunnelArg.

Section reverse.
Context `{J : JwtLibrary}.

(** What happens in a round: the stream of [connectToTransport] with the response's
    [Set-Cookie] header, when it has a response; what [net.Dial] answers. *)
Record attempt := mkAttempt {
  at_connect : go (tunnelStream * option bytes);
  at_dial : bytes → bytes → go unit
}.

Inductive action :=
  | Connected
  | Slept (d : Z)
  | DialledLocal (network addr : bytes)
  | Piped
  | ClosedStream.

(** [c.Config.ReverseTunnelConnectionRetryMaxBackoff] with its default. *)
Definition max_delay (configured : Z) : Z := if configured =? 0 then 10 * Second else configured.

(** [delay *= 2; if delay > maxDelay { delay = maxDelay }] *)
Definition next_delay (maxDelay delay : Z) : Z :=
  let delay := i64 (delay * 2) in
  if maxDelay <? delay then maxDelay else delay.

(** The destination of the tunnel, and the protocol that goes with it. *)
Definition reverse_target (ltr : LocalToRemote) (ts : tunnelStream) (cookie : option bytes) :
    go (bytes * Z * LocalProtocol) * tunnelStream :=
  let p := Ltr_Protocol ltr in
  let fixed := (Ltr_Remote ltr, Ltr_Port ltr, p) in
  if nonnil (ReverseSocks5 p) || nonnil (ReverseHttpProxy p) then
    let '(r, ts') := readTargetFrame ts in
    ('(dynHost, dynPort) ← r; Ok (dynHost, dynPort, p), ts')
  else
    match cookie with
    | Some cookieStr =>
        if negb (bool_decide (cookieStr = [])) then
          match ParseUnverified cookieStr with
          | Ok (claims, _) =>
              (Ok (if negb (bool_decide (Remote claims = [])) then (Remote claims, Port claims, Protocol claims) else fixed), ts)
          | Err _ => (Ok fixed, ts)
          | Panic => (Panic, ts)
          end
        else (Ok fixed, ts)
    | None => (Ok fixed, ts)
    end.

(** Network and address of the local connection. *)
Definition local_destination (targetHost : bytes) (targetPort : Z) (targetProto : LocalProtocol) : bytes * bytes :=
  match Unix targetProto, ReverseUnix targetProto with
  | Some u, _ => (b#"unix", Unix_Path u)
  | None, Some u => (b#"unix", ReverseUnix_Path u)
  | None, None => (b#"tcp", JoinHostPort targetHost (fmt_d targetPort))
  end.

(** One round: its actions and the delay afterwards.  [startPipe] closes the
    stream when it returns. *)
Definition reverse_round (ltr : LocalToRemote) (maxDelay delay : Z) (a : attempt) : list action * go Z :=
  match at_connect a with
  | Err _ => ([Slept delay], Ok (next_delay maxDelay delay))
  | Panic => ([], Panic)
  | Ok (ts, cookie) =>
      match (reverse_target ltr ts cookie).1 with
      | Err _ => ([Connected; ClosedStream; Slept Second], Ok Second)
      | Panic => ([Connected], Panic)
      | Ok (targetHost, targetPort, targetProto) =>
          let '(network, addr) := local_destination targetHost targetPort targetProto in
          match at_dial a network addr with
          | Err _ => ([Connected; DialledLocal network addr; ClosedStream; Slept Second], Ok Second)
          | Panic => ([Connected; DialledLocal network addr], Panic)
          | Ok _ => ([Connected; DialledLocal network addr; Piped; ClosedStream], Ok Second)
          end
      end
  end.

(** The rounds of the loop, from a delay. *)
Fixpoint reverse_rounds (ltr : LocalToRemote) (maxDelay delay : Z) (rounds : list attempt) : list action * go Z :=
  match rounds with
  | [] => ([], Ok delay)
  | a :: rounds' =>
      match reverse_round ltr maxDelay delay a with
      | (evs, Ok delay') =>
          let '(evs', r) := reverse_rounds ltr maxDelay delay' rounds' in (evs ++ evs', r)
      | (evs, r) => (evs, r)
      end
  end.

Definition StartReverseTunnel (ltr : LocalToRemote) (configured : Z) (rounds : list attempt) : list action * go Z :=
  reverse_rounds ltr (max_delay configured) Second rounds.

(** ** Specification *)

(** The number of failed connections since the last one that succeeded. *)
Fixpoint trailing_failures (n : nat) (rounds : list attempt) : nat :=
  match rounds with
  | [] => n
  | a :: rounds' => trailing_failures (if is_ok (at_connect a) then O else S n) rounds'
  end.

(** The delay after [n] failures. *)
Definition backoff (maxDelay : Z) (n : nat) : Z := (Second * 2 ^ Z.of_nat n) `min` maxDelay.

(** Whether a stream is open after some actions, [None] when a stream was opened
    while another one was open or closed while none was. *)
Fixpoint stream_open (o : bool) (acts : list action) : option bool :=
  match acts with
  | [] => Some o
  | Connected :: acts' => if o then None else stream_open true acts'
  | ClosedStream :: acts' => if o then stream_open false acts' else None
  | _ :: acts' => stream_open o acts'
  end.

Lemma stream_open_app o acts acts' : stream_open o (acts ++ acts') = stream_open o acts ≫= λ o', stream_open o' acts'.
Proof. revert o. induction acts as [|[] acts IH]; intros []; cbn; auto. Qed.

(** ** Laws *)

Lemma next_delay_backoff maxDelay n :
  Second ≤ maxDelay < 2 ^ 62 → next_delay maxDelay (backoff maxDelay n) = backoff maxDelay (S n).
Proof.
  intros Hm. unfold next_delay, backoff.
  assert (0 < 2 ^ Z.of_nat n) by lia. set (m := 2 ^ Z.of_nat n) in *.
  rewrite Nat2Z.inj_succ, Z.pow_succ_r by lia. fold m. unfold Second in *.
  rewrite i64_id by (lia). case_match; bool_to_prop; lia.
Qed.

Lemma backoff_bounds maxDelay n : Second ≤ maxDelay → Second ≤ backoff maxDelay n ≤ maxDelay.
Proof. intros. unfold backoff, Second in *. assert (0 < 2 ^ Z.of_nat n) by lia. nia. Qed.

Lemma backoff_0 maxDelay : Second ≤ maxDelay → backoff maxDelay 0 = Second.
Proof. intros. unfold backoff. cbn. unfold Second in *. lia. Qed.

(** One round, at any delay: what it does with its stream, and how it sleeps. *)
Lemma reverse_round_stream ltr maxDelay delay a acts r :
  reverse_round ltr maxDelay delay a = (acts, r) →
  is_Some (stream_open false acts) ∧ (∀ d, r = Ok d → stream_open false acts = Some false) ∧
  (∀ t, Slept t ∈ acts → t = delay ∨ t = Second) ∧
  (∀ d, r = Ok d → d = if is_ok (at_connect a) then Second else next_delay maxDelay delay).
Proof.
  unfold reverse_round. destruct (at_connect a) as [[ts ck]|e|]; cbn [is_ok].
  - destruct (reverse_target ltr ts ck) as [[[[h q] p]|e|] ts']; cbn [fst];
      [destruct (local_destination h q p) as [net ad]; destruct (at_dial a net ad)|..]; intros [= <- <-];
      (split_and!; [by eexists|by intros d ?| |intros d Hd; by simplify_eq]); intros t Ht; decompose_list_elem_of; simplify_eq; auto.
  - intros [= <- <-]. split_and!; [by eexists|done| |by intros d [= <-]].
    intros t Ht. decompose_list_elem_of. simplify_eq. auto.
  - intros [= <- <-]. split_and!; [by eexists|done| |done]. intros t Ht. by apply elem_of_nil in Ht.
Qed.

Lemma reverse_rounds_stream ltr maxDelay rounds delay acts r :
  reverse_rounds ltr maxDelay delay rounds = (acts, r) →
  is_Some (stream_open false acts) ∧ (∀ d, r = Ok d → stream_open false acts = Some false).
Proof.
  revert delay acts r. induction rounds as [|a rounds IH]; intros delay acts r; cbn [reverse_rounds].
  { intros [= <- <-]. split; [by eexists|done]. }
  destruct (reverse_round ltr maxDelay _ a) as [evs r1] eqn:E1. apply reverse_round_stream in E1 as (H1 & H2 & _).
  destruct r1 as [d1|e|]; [|by intros [= <- <-]..].
  destruct (reverse_rounds _ _ _ rounds) as [evs2 r2] eqn:E2. intros [= <- <-]. apply IH in E2 as (H3 & H4).
  rewrite stream_open_app, (H2 d1) by done. cbn [mbind option_bind]. done.
Qed.

(** The delays of rounds that start after [n] failures. *)
Lemma reverse_rounds_delay ltr maxDelay rounds n acts r :
  Second ≤ maxDelay < 2 ^ 62 → reverse_rounds ltr maxDelay (backoff maxDelay n) rounds = (acts, r) →
  (∀ d, r = Ok d → d = backoff maxDelay (trailing_failures n rounds)) ∧ (∀ t, Slept t ∈ acts → Second ≤ t ≤ maxDelay).
Proof.
  intros Hm. revert n acts r. induction rounds as [|a rounds IH]; intros n acts r; cbn [reverse_rounds trailing_failures].
  { intros [= <- <-]. split; [by intros d [= <-]|]. intros t Ht. by apply elem_of_nil in Ht. }
  destruct (reverse_round ltr maxDelay _ a) as [evs r1] eqn:E1. apply reverse_round_stream in E1 as (_ & _ & Ht & Hd).
  assert (∀ t, Slept t ∈ evs → Second ≤ t ≤ maxDelay) as Ht1.
  { intros t [->| ->]%Ht; [by apply backoff_bounds; lia|lia]. }
  destruct r1 as [d1|e|]; [|by intros [= <- <-]..].
  assert (d1 = backoff maxDelay (if is_ok (at_connect a) then O else S n)) as ->.
  { rewrite (Hd d1 eq_refl), next_delay_backoff by done. destruct (is_ok _); [|done]. symmetry. apply backoff_0. lia. }
  destruct (reverse_rounds _ _ _ rounds) as [evs2 r2] eqn:E2. intros [= <- <-]. apply IH in E2 as (Hd2 & Ht2).
  split; [done|]. intros t [?|?]%elem_of_app; auto.
Qed.

(** ** Properties *)

(** C29: the reverse tunnel loop backs off exponentially and within its bounds: with a
    maximum between one second and 2^62 ns, after any rounds the delay before the
    next retry is one second doubled for every failed connection since the last
    successful one, cut at the maximum; every sleep is between one second and the
    maximum; and the doubling never wraps around. *)
Theorem reverse_backoff ltr configured rounds acts r :
  Second ≤ max_delay configured < 2 ^ 62 → StartReverseTunnel ltr configured rounds = (acts, r) →
  (∀ d, r = Ok d → d = backoff (max_delay configured) (trailing_failures 0 rounds)) ∧
  (∀ t, Slept t ∈ acts → Second ≤ t ≤ max_delay configured).
Proof.
  intros Hm. unfold StartReverseTunnel. rewrite <-(backoff_0 (max_delay configured)) at 1 by lia.
  by apply reverse_rounds_delay.
Qed.

(** The reverse tunnel loop leaks no stream: in every sequence of rounds, however
    their calls end, a stream is opened only when the previous one is closed, none is
    closed twice, and at the end of every round the stream is closed. *)
Theorem reverse_no_leak ltr configured rounds acts r :
  StartReverseTunnel ltr configured rounds = (acts, r) →
  is_Some (stream_open false acts) ∧ (∀ d, r = Ok d → stream_open false acts = Some false).
Proof.
  apply reverse_rounds_stream.
Qed.

(** C30: a dynamic reverse tunnel exits at the destination asked for at the server:
    when the server has accepted a proxy request for [host] and [port] and sends it in
    the target frame, a round of the client dials exactly that host and port. *)
Theorem reverse_dynamic_target ltr maxDelay delay m host port fr rest e w mk ph qh g h2 cookie dial :
  nonnil (ReverseSocks5 (Ltr_Protocol ltr)) || nonnil (ReverseHttpProxy (Ltr_Protocol ltr)) = true →
  Unix (Ltr_Protocol ltr) = None → ReverseUnix (Ltr_Protocol ltr) = None →
  is_u16 port → encodeTargetFrame host port = Ok fr → dial b#"tcp" (JoinHostPort host (fmt_d port)) = Ok () →
  reverse_round ltr maxDelay delay
    (mkAttempt (Ok (mkStream (Some (mkConn (mkRx (frame m BinaryMessage fr ++ rest) e) w mk ph qh)) g h2, cookie)) dial) =
  ([Connected; DialledLocal b#"tcp" (JoinHostPort host (fmt_d port)); Piped; ClosedStream], Ok Second).
Proof.
  intros Hd Hu Hru Hp Hf Hdial. unfold reverse_round, reverse_target. cbn [at_connect at_dial].
  rewrite Hd, (readTargetFrame_ws m host port fr) by done. cbn [mbind go_bind fst]. unfold local_destination.
  by rewrite Hu, Hru, Hdial.
Qed.
(** A round whose response names no other destination dials the tunnel's own one. *)
Lemma round_dials_fixed ltr maxDelay delay ts cookie dial :
  default [] cookie = [] → ReverseSocks5 (Ltr_Protocol ltr) = None → ReverseHttpProxy (Ltr_Protocol ltr) = None →
  let '(network, addr) := local_destination (Ltr_Remote ltr) (Ltr_Port ltr) (Ltr_Protocol ltr) in
  DialledLocal network addr ∈ (reverse_round ltr maxDelay delay (mkAttempt (Ok (ts, cookie)) dial)).1.
Proof.
  intros Hc H1 H2. destruct (local_destination _ _ _) as [network addr] eqn:E.
  assert (reverse_target ltr ts cookie = (Ok (Ltr_Remote ltr, Ltr_Port ltr, Ltr_Protocol ltr), ts)) as Ht.
  { unfold reverse_target. rewrite H1, H2. cbn [nonnil orb]. destruct cookie as [c|]; [|done]. cbn in Hc. by subst c. }
  unfold reverse_round. cbn [at_connect at_dial]. rewrite Ht. cbn [fst]. rewrite E.
  destruct (dial network addr); right; left.
Qed.

(** The claims a reverse tunnel sends. *)
Definition reverse_claims (id : bytes) (ltr : LocalToRemote) : JwtTunnelConfig :=
  mkClaims id (Ltr_Protocol ltr) (Ltr_Remote ltr) (Ltr_Port ltr).

(** A reverse Unix tunnel joins the two paths of its argument: the server is asked
    to listen on the second path, routes the claims to its reverse manager, and every
    round of the client whose response carries no cookie dials the first path. *)
Theorem reverse_unix_tunnel PD PQ lpath rpath id maxDelay delay ts cookie dial :
  (x3a ∉ lpath) → (x3f ∉ lpath) → (x3f ∉ rpath) → rpath ≠ [] → default [] cookie = [] →
  ∃ ltr, ParseTunnelArg PD PQ (b#"unix://" ++ lpath ++ b#":" ++ rpath) true = Ok ltr ∧
    handleConnection (reverse_claims id ltr) = ReverseFrom ∧
    bind_addr (reverse_claims id ltr) = (rpath, true, b#"unix") ∧
    DialledLocal b#"unix" lpath ∈ (reverse_round ltr maxDelay delay (mkAttempt (Ok (ts, cookie)) dial)).1.
Proof.
  intros H1 H2 H3 H4 Hc.
  exists (mkLtr (setReverseUnix (mkReverseUnix lpath) noProtocol) lpath rpath 0). split.
  { unfold ParseTunnelArg.
    change (b#"unix://" ++ lpath ++ b#":" ++ rpath) with (b#"unix" ++ (x3a :: b#"//") ++ (lpath ++ b#":" ++ rpath)).
    change b#"://" with (x3a :: b#"//"). rewrite Cut_app by by apply (bool_decide_unpack (x3a ∉ b#"unix")).
    unfold split_options. change b#"?" with [x3f].
    rewrite Cut_none by (rewrite !not_elem_of_app; split_and!; [done|by apply (bool_decide_unpack (x3f ∉ b#":"))|done]).
    rewrite bool_decide_false, bool_decide_true by done. unfold parse_unix. change b#":" with (x3a :: []).
    by rewrite Cut_app. }
  split; [done|]. split; [cbn; by rewrite bool_decide_false|].
  by apply (round_dials_fixed (mkLtr (setReverseUnix (mkReverseUnix lpath) noProtocol) lpath rpath 0)).
Qed.

(** C40: a reverse TCP or UDP tunnel listens where it should connect to: whatever bind
    address and port the argument names, the server listens on the host and port of
    its target (on 0.0.0.0 and a free port when there is none), and the client dials
    that same host and port, with TCP even for a UDP tunnel. *)
Theorem reverse_listens_on_target PD PQ proto l id maxDelay delay ts cookie dial :
  proto = b#"tcp" ∨ proto = b#"udp" → listener_ok l → default [] cookie = [] →
  let '(host, port) := default (b#"0.0.0.0", 0) (l_target l) in
  ∃ ltr, ParseTunnelArg PD PQ (proto ++ b#"://" ++ listener_text l) true = Ok ltr ∧
    handleConnection (reverse_claims id ltr) = ReverseFrom ∧
    bind_addr (reverse_claims id ltr) = (JoinHostPort host (fmt_d port), false, proto) ∧
    DialledLocal b#"tcp" (JoinHostPort host (fmt_d port)) ∈
      (reverse_round ltr maxDelay delay (mkAttempt (Ok (ts, cookie)) dial)).1.
Proof.
  intros Hp Hl Hc. destruct (default (b#"0.0.0.0", 0) (l_target l)) as [host port] eqn:E.
  assert (∃ p, tunnel_protocol PD proto true ∅ = Some p ∧ ReverseUnix p = None ∧ Unix p = None ∧
    ReverseSocks5 p = None ∧ ReverseHttpProxy p = None ∧ is_forward p = false ∧ is_reverse p = true ∧
    (if nonnil (ReverseUdp p) then b#"udp" else b#"tcp") = proto) as (p & Htp & Hu & Hx & Hs & Hh & Hf & Hr & Hn).
  { destruct Hp as [->| ->]; eexists; (split; [reflexivity|done]). }
  exists (listener_value l p). split; [by apply ParseTunnelArg_listener|].
  assert (listener_value l p = mkLtr p (JoinHostPort (default b#"127.0.0.1" (l_bind l)) (l_port l)) host port) as ->
    by (unfold listener_value; by rewrite E).
  unfold handleConnection, bind_addr, reverse_claims. cbn [Ltr_Protocol Ltr_Remote Ltr_Port Protocol Remote Port].
  rewrite Hf, Hr, Hu, Hn. split; [done|]. split; [done|].
  pose proof (round_dials_fixed (mkLtr p (JoinHostPort (default b#"127.0.0.1" (l_bind l)) (l_port l)) host port)
    maxDelay delay ts cookie dial Hc Hs Hh) as H.
  unfold local_destination in H. cbn [Ltr_Protocol Ltr_Remote Ltr_Port] in H. by rewrite Hx, Hu in H.
Qed.
End reverse.

(** ** Examples *)

(** A token library that parses nothing. *)
Definition NoJwt : JwtLibrary := {|
  ParseUnverified := λ _, Err (Errorf b#"token is malformed" []);
  ParseWithClaims := λ _ _, Err (Errorf b#"token is malformed" []);
  signed := λ _ _ _ _, False
|}.

Definition web_tunnel : LocalToRemote := mkLtr (setReverseTcp noProtocol) b#"127.0.0.1:8080" b#"127.0.0.1" 80.
Definition no_stream : tunnelStream := mkStream None None None.
Definition refused : attempt := mkAttempt (Err ErrIO) (λ _ _, Err ErrIO).
Definition answered : attempt := mkAttempt (Ok (no_stream, None)) (λ _ _, Ok ()).

Lemma reverse_backoff_witness :
  let acts := [Slept Second; Slept (2 * Second); Connected; DialledLocal b#"tcp" b#"127.0.0.1:80"; Piped; ClosedStream;
               Slept Second; Slept (2 * Second); Slept (3 * Second); Slept (3 * Second)] in
  StartReverseTunnel (J:=NoJwt) web_tunnel (3 * Second) [refused; refused; answered; refused; refused; refused; refused]
    = (acts, Ok (3 * Second)) ∧
  (∀ d, Ok (3 * Second) = Ok d → d = backoff (max_delay (3 * Second))
     (trailing_failures 0 [refused; refused; answered; refused; refused; refused; refused])) ∧
  (∀ t, Slept t ∈ acts → Second ≤ t ≤ max_delay (3 * Second)).
Proof.
  split; [vm_compute; reflexivity|].
  apply (reverse_backoff (J:=NoJwt) web_tunnel (3 * Second) [refused; refused; answered; refused; refused; refused; refused]).
  - split; vm_compute; congruence.
  - vm_compute. reflexivity.
Defined.

Lemma reverse_no_leak_witness :
  let acts := [Slept Second; Connected; DialledLocal b#"tcp" b#"127.0.0.1:80"; Piped; ClosedStream] in
  is_Some (stream_open false acts) ∧ (∀ d, Ok Second = Ok d → stream_open false acts = Some false).
Proof. apply (reverse_no_leak (J:=NoJwt) web_tunnel 0 [refused; answered]). vm_compute. reflexivity. Defined.

Lemma reverse_dynamic_target_witness :
  let ltr := mkLtr (setReverseSocks5 (mkReverseSocks5 None None) noProtocol) [] b#"0.0.0.0" 1080 in
  reverse_round (J:=NoJwt) ltr (10 * Second) Second
    (mkAttempt (Ok (mkStream (Some (mkConn (mkRx (frame false BinaryMessage ([x01; x04] ++ b#"host" ++ [x01; xbb]) ++ []) EOF)
       (NewWriter (mkTx [] None ErrIO)) true defaultPongHandler defaultPongHandler)) None None, None)) (λ _ _, Ok ())) =
  ([Connected; DialledLocal b#"tcp" (JoinHostPort b#"host" (fmt_d 443)); Piped; ClosedStream], Ok Second).
Proof. intros ltr. apply reverse_dynamic_target; try reflexivity. unfold is_u16. lia. Defined.

Lemma reverse_unix_tunnel_witness :
  ∃ ltr, ParseTunnelArg no_durations no_query b#"unix:///run/app.sock:/srv/app.sock" true = Ok ltr ∧
    handleConnection (reverse_claims [] ltr) = ReverseFrom ∧
    bind_addr (reverse_claims [] ltr) = (b#"/srv/app.sock", true, b#"unix") ∧
    DialledLocal b#"unix" b#"/run/app.sock" ∈ (reverse_round (J:=NoJwt) ltr (10 * Second) Second answered).1.
Proof.
  apply (reverse_unix_tunnel (J:=NoJwt) no_durations no_query b#"/run/app.sock" b#"/srv/app.sock" [] (10 * Second) Second no_stream None).
  - apply (bool_decide_unpack _). reflexivity.
  - apply (bool_decide_unpack _). reflexivity.
  - apply (bool_decide_unpack _). reflexivity.
  - discriminate.
  - reflexivity.
Defined.

Lemma reverse_listens_on_target_witness :
  ∃ ltr, ParseTunnelArg no_durations no_query b#"udp://8080:127.0.0.1:80" true = Ok ltr ∧
    handleConnection (reverse_claims [] ltr) = ReverseFrom ∧
    bind_addr (reverse_claims [] ltr) = (b#"127.0.0.1:80", false, b#"udp") ∧
    DialledLocal b#"tcp" b#"127.0.0.1:80" ∈ (reverse_round (J:=NoJwt) ltr (10 * Second) Second answered).1.
Proof.
  apply (reverse_listens_on_target (J:=NoJwt) no_durations no_query b#"udp" (mkListener None b#"8080" (Some (b#"127.0.0.1", 80))) []
    (10 * Second) Second no_stream None).
  - by right.
  - split; [|split].
    + repeat split; apply (bool_decide_unpack _); reflexivity.
    + discriminate.
    + intros h p [= <- <-]. split; [repeat split; apply (bool_decide_unpack _); reflexivity|unfold is_u16; lia].
  - reflexivity.
Defined.
