(* ===== verification/ClientThms.v ===== *)
(** What the client's requests (pkg/client/client.go, pkg/client/transport.go)
    guarantee, alone and together with the server that receives them. *)

From S2P Require Import Prelude GoStrings GoNet GoIO GoHttp GoBase64 Wst Upgrade Protocol Restrictions ProxyProto IdleTimer Manager Server ServerThms TunnelArg Client.

(** ** Properties *)

Lemma native_url_addr c u : dial_addr (native_url c u) = dial_addr u ∧ is_secure (native_url c u) = false.
Proof.
  destruct u as [sch host port uri]. unfold native_url, with_port, dial_addr, is_secure. cbn [Scheme u_Hostname u_Port].
  destruct (bool_decide (sch = b#"wss") || bool_decide (sch = b#"https")) eqn:E; cbn [with_path with_scheme Scheme u_Hostname u_Port];
    rewrite ?E; (destruct (decide (port = [])) as [->|Hn]; [done|]); by rewrite !(bool_decide_false (port = [])).
Qed.

(** The native transport reaches the configured server with exactly one layer
    of TLS: although the URL's scheme is rewritten to plain [ws], the WebSocket
    dialler dials the same address as the transport does by itself, with the default
    port of the original scheme, and adds no TLS of its own, while [dialTransport]
    adds it exactly for the secure schemes and closes the connection on every
    error. *)
Theorem native_transport_tls c reloader load u dial handshake r opened :
  dialTransport c reloader load (Ok u) dial handshake b#"tcp" (dial_addr (native_url c u)) = (r, opened) → r ≠ Panic →
  dial_addr (native_url c u) = server_addr u ∧ is_secure (native_url c u) = false ∧ opened = is_ok r ∧
  (∀ conn, r = Ok conn → ∃ raw, dial b#"tcp" (server_addr u) = Ok raw ∧
     if is_secure u then ∃ cfg, handshake cfg raw = Ok conn ∧ InsecureSkipVerify cfg = negb (c_TlsVerifyCert c)
     else conn = raw).
Proof.
  destruct (native_url_addr c u) as [Ha Hs]. change (dial_addr u) with (server_addr u) in Ha.
  rewrite Ha. intros H Hp. split; [done|]. split; [done|]. unfold dialTransport, dialRawTransport in H.
  replace (if bool_decide (server_addr u = []) then server_addr u else server_addr u) with (server_addr u) in H
    by (by destruct (bool_decide (server_addr u = []))).
  change (if bool_decide (b#"tcp" = []) then b#"tcp" else b#"tcp") with b#"tcp" in H.
  destruct (dial b#"tcp" (server_addr u)) as [raw|e|] eqn:Ed; cbn [mbind go_bind] in H;
    [|injection H as <- <-; by split|by injection H as <- <-].
  destruct (is_secure u) eqn:Es; [|injection H as <- <-; split; [done|]; intros conn [= <-]; eauto].
  destruct (tlsClientConfig c reloader load (u_Hostname u)) as [cfg|e|] eqn:Et;
    [|injection H as <- <-; by split|by injection H as <- <-].
  destruct (handshake cfg raw) as [tc|e|] eqn:Eh; [|injection H as <- <-; by split|by injection H as <- <-].
  injection H as <- <-. split; [done|]. intros conn [= <-]. exists raw. split; [done|]. exists cfg. split; [done|].
  unfold tlsClientConfig in Et. repeat case_match; by simplify_eq.
Qed.

Section served.
Context `{RE : RegexpEngine} `{J : JwtLibrary} `{S : !JwtSigner J} (range : gmap bytes bytes → list (bytes * bytes)).

(** Go walks over the entries of a map, in some order. *)
Hypothesis range_entries : ∀ m, range m ≡ₚ map_to_list m.

(** The names the transports and the server use themselves. *)
Definition reserved : list bytes := [b#"Sec-WebSocket-Protocol"; b#"Cookie"; b#"Upgrade"].
Definition not_reserved (m : gmap bytes bytes) : Prop :=
  ∀ k v, m !! k = Some v → ∀ j, j ∈ reserved → CanonicalHeaderKey k ≠ CanonicalHeaderKey j.

(** A header that no custom header replaces. *)
Lemma custom_headers_other c file h j :
  (∀ m, m = c_Headers c ∨ m = file → ∀ k v, m !! k = Some v → CanonicalHeaderKey k ≠ CanonicalHeaderKey j) →
  CanonicalHeaderKey b#"Authorization" ≠ CanonicalHeaderKey j →
  header_Get (add_custom_headers range c file h) j = header_Get h j.
Proof.
  intros Hm Ha. unfold add_custom_headers.
  assert (∀ m h, m = c_Headers c ∨ m = file → header_Get (header_SetAll (range m) h) j = header_Get h j) as Hr.
  { intros m h0 Hin. apply header_Get_SetAll. intros k v Hk. rewrite range_entries in Hk.
    apply elem_of_map_to_list in Hk. by eapply Hm. }
  destruct (negb _); [rewrite header_Get_Set, decide_False by done|]; by rewrite !Hr by auto.
Qed.

Lemma custom_headers_reserved c file h j :
  not_reserved (c_Headers c) → not_reserved file → j ∈ reserved →
  header_Get (add_custom_headers range c file h) j = header_Get h j.
Proof.
  intros H1 H2 Hj. apply custom_headers_other; [intros m [->| ->] k v Hk; by eauto|].
  repeat (apply elem_of_cons in Hj as [->|Hj]; [by vm_compute|]). by apply elem_of_nil in Hj.
Qed.

Lemma bearer_token_of tok : tok ≠ [] → Forall (λ b, graphic_ascii b = true ∧ b ≠ x2c) tok →
  bearer_token (b#"v1, " ++ JwtHeaderPrefix ++ tok) = tok.
Proof.
  intros Hn Hf. unfold bearer_token.
  assert (x2c ∉ tok) as Hc by (intros Hin; apply (proj1 (list.Forall_forall _ _) Hf) in Hin as [_ ?]; done).
  assert (x2c ∉ x20 :: JwtHeaderPrefix ++ tok) as Hc'.
  { change (x20 :: JwtHeaderPrefix ++ tok) with ((x20 :: JwtHeaderPrefix) ++ tok). rewrite not_elem_of_app. split; [|done].
    by apply (bool_decide_unpack (x2c ∉ x20 :: JwtHeaderPrefix)). }
  change (b#"v1, " ++ JwtHeaderPrefix ++ tok) with (b#"v1" ++ [x2c] ++ (x20 :: JwtHeaderPrefix ++ tok)).
  change b#"," with [x2c]. rewrite Split_two; [|by apply (bool_decide_unpack (x2c ∉ b#"v1"))|done].
  cbn [fmap list_fmap]. rewrite (TrimSpace_blank (JwtHeaderPrefix ++ tok)).
  - cbn [List.find]. change (HasPrefix (TrimSpace b#"v1") JwtHeaderPrefix) with false. cbv iota.
    rewrite HasPrefix_app. apply TrimPrefix_app.
  - done.
  - apply Forall_app. split.
    + apply list.Forall_forall. intros x Hx. revert x Hx.
      apply (list.Forall_forall (λ x, graphic_ascii x = true)). repeat constructor.
    + eapply Forall_impl; [|exact Hf]. by intros x [? _].
Qed.

Lemma offers_v1_of tok : x2c ∉ tok → existsb (λ part, bool_decide (TrimSpace part = b#"v1"))
  (Split (b#"v1, " ++ JwtHeaderPrefix ++ tok) b#",") = true.
Proof.
  intros Hc. change (b#"v1, " ++ JwtHeaderPrefix ++ tok) with (b#"v1" ++ [x2c] ++ (x20 :: JwtHeaderPrefix ++ tok)).
  change b#"," with [x2c]. rewrite Split_two; [done|by apply (bool_decide_unpack (x2c ∉ b#"v1"))|].
  change (x20 :: JwtHeaderPrefix ++ tok) with ((x20 :: JwtHeaderPrefix) ++ tok). rewrite not_elem_of_app. split; [|done].
  by apply (bool_decide_unpack (x2c ∉ x20 :: JwtHeaderPrefix)).
Qed.

(** A token signed with the right secret is accepted. *)
Lemma parseJWTClaims_signed sc secret c tok :
  encodable c → SignedString HS256 secret c = Ok tok →
  (WebsocketProtocol sc = b#"ws" → JWTSecret sc ≠ [] → JWTSecret sc = secret) → parseJWTClaims sc tok = Ok c.
Proof.
  intros He Hs Hsec. unfold parseJWTClaims, parseUnverified. rewrite (signed_parses HS256 secret c tok He Hs).
  cbn [mbind go_bind]. rewrite (bool_decide_true (HS256 = HS256)) by done. cbn [negb].
  case_bool_decide as Hw; cbn [negb]; [|done]. case_bool_decide as Hj; cbn [negb]; [done|].
  rewrite (signed_verifies HS256 secret c tok) by (done || (cbn; by rewrite Hsec)). done.
Qed.

Lemma prefix_of_eventsPath c sc :
  PathPrefix sc = [] ∨ PathPrefix sc = Trim (c_PathPrefix c) b#"/" →
  negb (bool_decide (PathPrefix sc = [])) && negb (HasPrefix (eventsPath (c_PathPrefix c)) (b#"/" ++ PathPrefix sc)) = false.
Proof.
  intros Hp. case_bool_decide as Hn; [done|]. destruct Hp as [?|Hp]; [done|]. unfold eventsPath. rewrite <-Hp.
  rewrite bool_decide_false by done. rewrite (assoc_L (++) b#"/" (PathPrefix sc)), HasPrefix_app. done.
Qed.

(** The carrier a request is served by. *)
Definition served_as (sc : Config) (t : transport) (claims : JwtTunnelConfig) : response :=
  match t with
  | OverHttp2 => Tunnelled Http2Tunnel false claims
  | _ => Tunnelled (if bool_decide (WebsocketProtocol sc = b#"ws") then GorillaTunnel else NativeTunnel) true claims
  end.

Lemma ws_seen sc r tok t k :
  tok ≠ [] → Forall (λ b, graphic_ascii b = true ∧ b ≠ x2c) tok → t ≠ OverHttp2 → ProtoMajor r = 1 →
  Header_Get r b#"Sec-WebSocket-Protocol" = b#"v1, " ++ JwtHeaderPrefix ++ tok →
  token_of r = tok ∧ serve_tunnel sc r k = served_as sc t k.
Proof.
  intros Hn Hf Ht Hm Hh.
  assert (x2c ∉ tok) as Hcomma by (intros Hin; apply (proj1 (list.Forall_forall _ _) Hf) in Hin as [_ ?]; done).
  unfold token_of, serve_tunnel, offers_v1. rewrite Hm, Hh, bearer_token_of, offers_v1_of, bool_decide_false by done.
  split; [done|]. destruct t; [done|..]; cbn; by destruct (bool_decide (WebsocketProtocol sc = _)).
Qed.

Lemma h2_seen sc r tok k :
  ProtoMajor r = 2 → Header_Get r b#"Sec-WebSocket-Protocol" = [] → Header_Get r b#"Upgrade" = [] →
  Header_Get r b#"Cookie" = tok → token_of r = tok ∧ serve_tunnel sc r k = served_as sc OverHttp2 k.
Proof. intros Hm H1 H2 H3. unfold token_of, serve_tunnel. by rewrite Hm, H1, H2, H3. Qed.

(** The headers of both kinds of request. *)
Lemma ws_header_token c file tok : not_reserved (c_Headers c) → not_reserved file →
  header_Get (ws_header range c file tok) b#"Sec-WebSocket-Protocol" = b#"v1, " ++ JwtHeaderPrefix ++ tok.
Proof.
  intros H1 H2. unfold ws_header. rewrite custom_headers_reserved by (done || by left). by rewrite header_Get_Set, decide_True.
Qed.

Lemma http2_header_token c file tok : not_reserved (c_Headers c) → not_reserved file →
  header_Get (http2_header range c file tok) b#"Sec-WebSocket-Protocol" = [] ∧
  header_Get (http2_header range c file tok) b#"Upgrade" = [] ∧ header_Get (http2_header range c file tok) b#"Cookie" = tok.
Proof.
  intros H1 H2. unfold http2_header.
  rewrite !custom_headers_reserved by (done || (by left) || (right; by left) || (right; right; by left)).
  rewrite !header_Get_Set, !decide_False by (by vm_compute). by rewrite decide_True.
Qed.

Lemma request_served c sc rules u open id p host port t req cn addr :
  let claims := mkClaims id p host port in
  let r := as_seen req cn addr in
  encodable claims →
  connectToTransport range c (Ok u) open id p host port = Ok (t, req) →
  PathPrefix sc = [] ∨ PathPrefix sc = Trim (c_PathPrefix c) b#"/" →
  (WebsocketProtocol sc = b#"ws" → JWTSecret sc ≠ [] → JWTSecret sc = secret_of c) →
  not_reserved (c_Headers c) → not_reserved (loadHttpHeaders c open) →
  (rules = None ∨ Validate rules claims (URL_Path r) (Header_Get r b#"Authorization") (default [] cn) = Ok true) →
  ServeHTTP sc rules r = served_as sc t claims.
Proof.
  intros claims r He Hc Hp Hsec Hh1 Hh2 Hrules. unfold connectToTransport in Hc.
  destruct (generateJWT c id p host port) as [tok|e|] eqn:Ej; [|done..]. unfold generateJWT in Ej.
  destruct (token_text _ _ _ _ Ej) as [Hn Hf].
  assert (URL_Path r = eventsPath (c_PathPrefix c)) as Hpath.
  { destruct (transport_of c u); injection Hc as <- <-; done. }
  assert (token_of r = tok ∧ serve_tunnel sc r claims = served_as sc t claims) as [Htok Hserve].
  { destruct (transport_of c u); injection Hc as <- <-.
    - destruct (http2_header_token c _ tok Hh1 Hh2) as (E1 & E2 & E3). by apply h2_seen.
    - by apply ws_seen; [..|apply ws_header_token].
    - by apply ws_seen; [..|apply ws_header_token]. }
  unfold ServeHTTP. rewrite Hpath, prefix_of_eventsPath, Htok, bool_decide_false by done.
  rewrite (parseJWTClaims_signed sc (secret_of c) claims tok He Ej Hsec). rewrite <-Hserve.
  destruct rules as [rl|]; [|done]. destruct Hrules as [?|Hv]; [done|]. rewrite <-Hpath.
  change (PeerCommonName r) with cn. by rewrite Hv.
Qed.

(** C6: client and server agree: the request that the client makes for a tunnel,
    over any of its transports, is accepted by a server with the same path prefix
    (or none) and, where it verifies tokens, the same secret, provided its rules
    permit the tunnel and the custom headers do not replace the ones the protocol
    uses; and the server opens the tunnel with exactly the identifier, protocol,
    host and port the client asked for. *)
Theorem client_request_served c sc rules u open id p host port t req cn addr :
  let claims := mkClaims id p host port in
  let r := as_seen req cn addr in
  encodable claims →
  connectToTransport range c (Ok u) open id p host port = Ok (t, req) →
  PathPrefix sc = [] ∨ PathPrefix sc = Trim (c_PathPrefix c) b#"/" →
  (WebsocketProtocol sc = b#"ws" → JWTSecret sc ≠ [] → JWTSecret sc = secret_of c) →
  not_reserved (c_Headers c) → not_reserved (loadHttpHeaders c open) →
  (rules = None ∨ Validate rules claims (URL_Path r) (Header_Get r b#"Authorization") (default [] cn) = Ok true) →
  ServeHTTP sc rules r = served_as sc t claims.
Proof. apply request_served. Qed.
End served.

(** ** A signer for the small token library *)

Definition token_byte (b : byte) : bool := graphic_ascii b && negb (bool_decide (b = x2c)).
Definition name_byte (b : byte) : bool := token_byte b && negb (bool_decide (b = x2e)).

Definition toy_sign (alg key : bytes) (c : JwtTunnelConfig) : go bytes :=
  if forallb name_byte alg && forallb name_byte key && forallb token_byte (Remote c)
  then Ok (alg ++ b#"." ++ key ++ b#"." ++ Remote c) else Err (Errorf b#"cannot sign" []).

Lemma forallb_Forall {A} (f : A → bool) l : forallb f l = true → Forall (λ x, f x = true) l.
Proof. induction l; cbn; intros H; constructor; bool_to_prop; auto. Qed.

Lemma toy_sign_ok alg key c tok : toy_sign alg key c = Ok tok →
  tok = alg ++ b#"." ++ key ++ b#"." ++ Remote c ∧ toy_fields tok = Some (alg, key, Remote c) ∧
  Forall (λ b, graphic_ascii b = true ∧ b ≠ x2c) tok.
Proof.
  unfold toy_sign. destruct (_ && _) eqn:E; [|done]. intros [= <-]. bool_to_prop. split; [done|].
  assert (∀ l, forallb name_byte l = true → x2e ∉ l) as Hdot.
  { intros l Hl Hin. apply forallb_Forall in Hl. apply (proj1 (list.Forall_forall _ _) Hl) in Hin. by vm_compute in Hin. }
  assert (∀ l, forallb token_byte l = true → Forall (λ b, graphic_ascii b = true ∧ b ≠ x2c) l) as Htok.
  { intros l Hl%forallb_Forall. eapply Forall_impl; [|exact Hl]. intros b Hb. unfold token_byte in Hb. by bool_to_prop. }
  assert (∀ l, forallb name_byte l = true → forallb token_byte l = true) as Hn.
  { intros l. induction l as [|b l IH]; [done|]. cbn. unfold name_byte at 1. intros. bool_to_prop. by rewrite IH, andb_true_r. }
  split.
  - unfold toy_fields. pose proof (Cut_app alg x2e [] (key ++ b#"." ++ Remote c)) as E1.
    pose proof (Cut_app key x2e [] (Remote c)) as E2. cbn in E1, E2 |- *. rewrite E1 by auto. cbn. by rewrite E2 by auto.
  - apply Forall_app. split; [by auto|]. constructor; [done|]. apply Forall_app. split; [by auto|]. constructor; [done|by auto].
Qed.

#[export] Instance ToySigner : JwtSigner ToyJwt.
Proof.
  refine {| SignedString := toy_sign; encodable c := c = toy_claims (Remote c) |}.
  - intros alg key c tok (-> & _ & Hf)%toy_sign_ok. split; [|done]. by destruct alg.
  - intros alg key c tok He (_ & Hf & _)%toy_sign_ok. cbn. by rewrite Hf, <-He.
  - intros alg key c tok kf He (_ & Hf & _)%toy_sign_ok Hk. cbn. rewrite Hf, Hk. cbn. by rewrite bool_decide_true, <-He by done.
Defined.

Definition example_client : ClientConfig :=
  mkClientConfig b#"wss://gateway.example.com" b#"/v1/" b#"k3y" {[b#"X-Team" := b#"blue"]} false 0 true [] [] [] false false 0 0 0 0
    [] [] [] [] [] [] false [] [] b#"ws".
Definition example_url : URL := mkURL b#"wss" b#"gateway.example.com" [] b#"/".

Lemma client_request_served_witness :
  match connectToTransport map_to_list example_client (Ok example_url) (Ok []) [] (setTcp (mkTcp false) noProtocol) b#"10.0.0.7" 80 with
  | Ok (t, req) =>
      t = OverGorilla ∧
      ServeHTTP (RE:=LiteralEngine) example_config None (as_seen req None b#"198.51.100.4:5060") =
        served_as example_config t (mkClaims [] (setTcp (mkTcp false) noProtocol) b#"10.0.0.7" 80)
  | _ => False
  end.
Proof.
  destruct (connectToTransport _ _ _ _ _ _ _ _) as [[t req]|e|] eqn:E; [|by vm_compute in E..].
  split; [by injection E|].
  apply (client_request_served (RE:=LiteralEngine) map_to_list (λ m, reflexivity _) example_client example_config None example_url (Ok []) []
           (setTcp (mkTcp false) noProtocol) b#"10.0.0.7" 80 t req None b#"198.51.100.4:5060").
  - reflexivity.
  - exact E.
  - right. by vm_compute.
  - intros _ _. reflexivity.
  - intros k v Hk j Hj. cbn [c_Headers example_client] in Hk. apply lookup_singleton_Some in Hk as [<- <-].
    repeat (apply elem_of_cons in Hj as [->|Hj]; [by vm_compute|]). by apply elem_of_nil in Hj.
  - intros k v Hk. change ((∅ : gmap bytes bytes) !! k = Some v) in Hk. by rewrite lookup_empty in Hk.
  - by left.
Defined.

Definition raw_conn : netconn := mkNet (mkRx b#"raw" EOF) (mkTx [] None ErrIO).
Definition tls_conn : netconn := mkNet (mkRx b#"decrypted" EOF) (mkTx [] None ErrIO).

Lemma native_transport_tls_witness :
  let dial := λ (n a : bytes), if bool_decide (a = b#"gateway.example.com:443") then Ok raw_conn else Err ErrIO in
  let handshake := λ (_ : tls_config) (_ : netconn), Ok tls_conn in
  dial_addr (native_url example_client example_url) = server_addr example_url ∧
  is_secure (native_url example_client example_url) = false ∧ true = true ∧
  (∀ conn, Ok tls_conn = Ok conn → ∃ raw, dial b#"tcp" (server_addr example_url) = Ok raw ∧
     if is_secure example_url then ∃ cfg, handshake cfg raw = Ok conn ∧ InsecureSkipVerify cfg = negb (c_TlsVerifyCert example_client)
     else conn = raw).
Proof.
  intros dial handshake.
  apply (native_transport_tls example_client false (Ok ()) example_url dial handshake (Ok tls_conn) true); [|discriminate].
  vm_compute. reflexivity.
Defined.

(** ** From the command line to the target *)

(** The network a scheme's tunnels are dialled on, and whether their destination
    is named by each connection. *)
Definition scheme_network (proto : bytes) : bytes :=
  if bool_decide (proto = b#"udp") || bool_decide (proto = b#"tproxy+udp") then b#"udp" else b#"tcp".
Definition scheme_dynamic (proto : bytes) : bool :=
  negb (bool_decide (proto = b#"tcp") || bool_decide (proto = b#"udp")).

(** C10: a forward tunnel leads where it says: for each of the six listener schemes,
    the text of a tunnel argument is parsed, dispatched to the loop of its scheme,
    and the claims that loop sends make the server dial the host and port of the
    text, or, for the proxy schemes, the destination that the proxied connection
    names, on the network of the scheme. *)
Theorem forward_tunnel_reaches_target PD PQ proto l p dyn id :
  tunnel_protocol PD proto false ∅ = Some p → listener_ok l →
  ∃ ltr, ParseTunnelArg PD PQ (proto ++ b#"://" ++ listener_text l) false = Ok ltr ∧
    let '(q, host, port) := loop_request ltr dyn in
    handleConnection (mkClaims id q host port) =
      ForwardTo (scheme_network proto)
        (let '(h, rp) := if scheme_dynamic proto then dyn else (Ltr_Remote ltr, Ltr_Port ltr) in JoinHostPort h (fmt_d rp)) ∧
    (Ltr_Remote ltr, Ltr_Port ltr) = default (b#"0.0.0.0", 0) (l_target l).
Proof.
  intros Hp Hl. exists (listener_value l p). split; [by apply ParseTunnelArg_listener|].
  unfold tunnel_protocol in Hp. destruct dyn as [dh dp]. unfold listener_value.
  destruct (default _ (l_target l)) as [h rp].
  repeat (case_bool_decide; [subst; injection Hp as <-; done|]). done.
Qed.

Lemma forward_tunnel_reaches_target_witness :
  ∃ ltr, ParseTunnelArg no_durations no_query b#"udp://5353:1.1.1.1:53" false = Ok ltr ∧
    let '(q, host, port) := loop_request ltr ([], 0) in
    handleConnection (mkClaims [] q host port) = ForwardTo b#"udp" b#"1.1.1.1:53" ∧
    (Ltr_Remote ltr, Ltr_Port ltr) = (b#"1.1.1.1", 53).
Proof.
  destruct (forward_tunnel_reaches_target no_durations no_query b#"udp" (mkListener None b#"5353" (Some (b#"1.1.1.1", 53)))
    (setUdp (mkUdp (Some (mkDuration 30 0))) noProtocol) ([], 0) []) as (ltr & E & H); [reflexivity| |].
  - split; [|split].
    + repeat split; apply (bool_decide_unpack _); reflexivity.
    + discriminate.
    + intros h p [= <- <-]. split; [repeat split; apply (bool_decide_unpack _); reflexivity|unfold is_u16; lia].
  - exists ltr. split; [exact E|]. injection E as <-. exact H.
Defined.

(** A stdio tunnel is never served: whatever its target, the claims the client
    sends for it name no protocol that the server routes. *)
Theorem stdio_not_served PD PQ info o host port dyn id :
  split_options PQ info = (JoinHostPort host (fmt_d port), o) → x5b ∉ host → x5d ∉ host → is_u16 port →
  ∃ ltr, ParseTunnelArg PD PQ (b#"stdio://" ++ info) false = Ok ltr ∧ Ltr_Remote ltr = host ∧ Ltr_Port ltr = port ∧
    let '(q, h, rp) := loop_request ltr dyn in handleConnection (mkClaims id q h rp) = Unsupported.
Proof.
  intros Ho H1 H2 Hp. unfold ParseTunnelArg.
  assert (Cut (b#"stdio://" ++ info) b#"://" = Some (b#"stdio", info)) as ->.
  { change (b#"stdio://" ++ info) with (b#"stdio" ++ (x3a :: b#"//") ++ info). change b#"://" with (x3a :: b#"//").
    apply Cut_app. by apply (bool_decide_unpack (x3a ∉ b#"stdio")). }
  rewrite Ho, bool_decide_true by done. unfold parse_stdio, is_u16 in *.
  rewrite SplitHostPort_JoinHostPort by (done || (apply dec_digits_no; [done|lia])).
  rewrite ParseUint_fmt_d by lia. eexists. split; [reflexivity|]. cbn. rewrite u16_id by done. done.
Qed.

Lemma stdio_not_served_witness :
  ∃ ltr, ParseTunnelArg no_durations no_query b#"stdio://ssh.example.com:22" false = Ok ltr ∧
    Ltr_Remote ltr = b#"ssh.example.com" ∧ Ltr_Port ltr = 22 ∧
    let '(q, h, rp) := loop_request ltr ([], 0) in handleConnection (mkClaims [] q h rp) = Unsupported.
Proof.
  apply (stdio_not_served no_durations no_query b#"ssh.example.com:22" ∅ b#"ssh.example.com" 22 ([], 0) []).
  - reflexivity.
  - apply (bool_decide_unpack _). reflexivity.
  - apply (bool_decide_unpack _). reflexivity.
  - unfold is_u16. lia.
Defined.

(** The transparent TCP proxy does not support redirected connections: the original
    destination is only asked for when the local address has no host or no port, and a
    redirected connection's local address is the listener's own. *)
Theorem tproxy_redirect_ignored sscanf a h ps original :
  SplitHostPort a = Some (h, ps) → h ≠ [] → sscanf ps ≠ 0 →
  tproxy_target sscanf (Some a) original = Ok (h, sscanf ps).
Proof.
  intros E Hh Hp. unfold tproxy_target, addrToHostPortParsed. rewrite E, bool_decide_false by done.
  by apply Z.eqb_neq in Hp as ->.
Qed.
