(* ===== verification/Tokens.v ===== *)
(** Tokens from the claims up: what a signed token has to do with the claims of
    pkg/protocol/types.go.

    The library that makes and reads tokens is third-party code.  [JwtJson] is what it
    documents about payloads: they are the JSON of the claims, and reading a token
    unmarshals its payload.  From it and from the JSON of the claims follows
    [JwtSigner], against which client and server are verified. *)

From S2P Require Import Prelude GoStrings GoNet GoIO GoHttp Protocol Json Restrictions Upgrade Manager Server ServerThms Client ClientThms.

(** ** The registered claims

    The validator of the library asks the claims for the registered ones; the
    methods of [JwtTunnelConfig] report none, whatever the payload has. *)

Definition GetExpirationTime (j : JwtTunnelConfig) : go (option Z) := Ok None.
Definition GetIssuedAt (j : JwtTunnelConfig) : go (option Z) := Ok None.
Definition GetNotBefore (j : JwtTunnelConfig) : go (option Z) := Ok None.
Definition GetIssuer (j : JwtTunnelConfig) : go bytes := Ok [].
Definition GetSubject (j : JwtTunnelConfig) : go bytes := Ok [].
Definition GetAudience (j : JwtTunnelConfig) : go (list bytes) := Ok [].

Record registered := mkRegistered {
  exp : option Z; iat : option Z; nbf : option Z; iss : bytes; sub : bytes; aud : list bytes
}.

Definition registered_of (j : JwtTunnelConfig) : go registered :=
  e ← GetExpirationTime j; i ← GetIssuedAt j; n ← GetNotBefore j;
  s ← GetIssuer j; u ← GetSubject j; a ← GetAudience j;
  Ok (mkRegistered e i n s u a).

(** ** Payloads *)

Class JwtJson (J : JwtLibrary) := {
  (** the payload of a token and the algorithm named in its header *)
  payload : bytes → option (json * bytes);
  (** whether the signature of a token is right for that algorithm and key *)
  signature_ok : bytes → bytes → bytes → bool;
  SignPayload : bytes → bytes → json → go bytes;
  (** the compact form is base64url text and dots *)
  sign_text : ∀ alg key j tok, SignPayload alg key j = Ok tok →
    tok ≠ [] ∧ Forall (λ b, graphic_ascii b = true ∧ b ≠ x2c) tok;
  sign_payload : ∀ alg key j tok, SignPayload alg key j = Ok tok → payload tok = Some (j, alg);
  sign_signature : ∀ alg key j tok, SignPayload alg key j = Ok tok → signature_ok alg key tok = true;
  (** "ParseUnverified parses the token but doesn't validate the signature." *)
  parse_unmarshals : ∀ tok j alg c, payload tok = Some (j, alg) → decode_claims j = Ok c → ParseUnverified tok = Ok (c, alg);
  (** "Parse parses, validates, verifies the signature and returns the parsed token";
      "exp", "iat" and "nbf" are validated when the claims report them *)
  parse_verifies : ∀ tok kf j alg key c r, payload tok = Some (j, alg) → decode_claims j = Ok c → kf alg = Ok key →
    signature_ok alg key tok = true → registered_of c = Ok r → exp r = None → iat r = None → nbf r = None →
    ParseWithClaims tok kf = Ok (c, true)
}.

Section tokens.
Context `{J : JwtLibrary} `{JJ : !JwtJson J}.

(** A payload that decodes to claims is accepted by its signature alone. *)
Lemma verified_by_signature tok kf j alg key c :
  payload tok = Some (j, alg) → decode_claims j = Ok c → kf alg = Ok key → signature_ok alg key tok = true →
  ParseWithClaims tok kf = Ok (c, true).
Proof. intros Hp Hc Hk Hs. by eapply parse_verifies. Qed.

(** Signing the JSON of the claims. *)
#[export] Instance SignerOfJson : JwtSigner J.
Proof.
  refine {| SignedString alg key c := SignPayload alg key (enc_claims c); encodable := claims_encodable |}.
  - intros alg key c tok. apply sign_text.
  - intros alg key c tok Hc Hs. eapply parse_unmarshals; [by eapply sign_payload|by apply decode_enc_claims_plain].
  - intros alg key c tok kf Hc Hs Hk.
    by eapply verified_by_signature; [by eapply sign_payload|by apply decode_enc_claims_plain|done|by eapply sign_signature].
Defined.

(** C11: a token carries its tunnel to the server: what [generateJWT] signs,
    [parseJWTClaims] reads back as exactly the protocol, host and port asked for: in
    [ws] mode with the server's secret, in the other mode with any. *)
Theorem token_carries_claims (c : ClientConfig) (config : Config) id p host port tok :
  claims_encodable (mkClaims id p host port) →
  (WebsocketProtocol config = b#"ws" → JWTSecret config ≠ [] → JWTSecret config = secret_of c) →
  generateJWT c id p host port = Ok tok →
  parseJWTClaims config tok = Ok (mkClaims id p host port).
Proof.
  intros Henc Hsec Hgen. unfold generateJWT in Hgen. change (encodable (mkClaims id p host port)) in Henc.
  assert (parseUnverified tok = Ok (mkClaims id p host port)) as Hun.
  { unfold parseUnverified. by rewrite (signed_parses _ _ _ _ Henc Hgen). }
  unfold parseJWTClaims. destruct (bool_decide_reflect (WebsocketProtocol config = b#"ws")) as [Hws|]; [|done]. cbn [negb].
  destruct (bool_decide_reflect (JWTSecret config = [])) as [|Hne]; [done|]. cbn [negb].
  by rewrite (signed_verifies HS256 (secret_of c) (mkClaims id p host port)) by (done || (cbn; by rewrite Hsec)).
Qed.

End tokens.

(** ** A library to run tokens with

    It signs the payloads of plain TCP tunnels to port 80, as [alg.key.host]. *)

Definition toy_payload (remote : bytes) : json :=
  JObj [(b#"p", JObj [(b#"Tcp", JObj [(b#"proxy_protocol", JBool false)])]); (b#"r", JStr remote); (b#"rp", JNum b#"80")].

Definition toy_remote (j : json) : option bytes :=
  match j with
  | JObj [(k1, JObj [(k2, JObj [(k3, JBool false)])]); (k4, JStr r); (k5, JNum n)] =>
      if bool_decide ([k1; k2; k3; k4; k5; n] = [b#"p"; b#"Tcp"; b#"proxy_protocol"; b#"r"; b#"rp"; b#"80"]) then Some r else None
  | _ => None
  end.

Lemma toy_remote_some j r : toy_remote j = Some r → j = toy_payload r.
Proof. unfold toy_remote. intros H. repeat case_match; simplify_eq. bool_to_prop. by simplify_eq. Qed.

Definition toy_payload_of (tok : bytes) : option (json * bytes) :=
  match toy_fields tok with Some (alg, _, r) => Some (toy_payload r, alg) | None => None end.
Definition toy_signature (alg key tok : bytes) : bool :=
  match toy_fields tok with Some (a, k, _) => bool_decide (a = alg) && bool_decide (k = key) | None => false end.

#[export] Instance JsonJwt : JwtLibrary := {|
  ParseUnverified tok :=
    match toy_payload_of tok with
    | Some (j, alg) => c ← decode_claims j; Ok (c, alg)
    | None => Err (Errorf b#"token is malformed" [])
    end;
  ParseWithClaims tok keyFunc :=
    match toy_payload_of tok with
    | Some (j, alg) =>
        c ← decode_claims j;
        key ← keyFunc alg;
        r ← registered_of c;
        if toy_signature alg key tok && negb (nonnil (exp r) || nonnil (iat r) || nonnil (nbf r)) then Ok (c, true)
        else Err (Errorf b#"token is invalid" [])
    | None => Err (Errorf b#"token is malformed" [])
    end;
  signed alg key tok c := ∃ j, toy_payload_of tok = Some (j, alg) ∧ toy_signature alg key tok = true ∧ decode_claims j = Ok c
|}.

#[export] Instance JsonJwt_json : JwtJson JsonJwt.
Proof.
  refine {| payload := toy_payload_of; signature_ok := toy_signature;
            SignPayload alg key j :=
              match toy_remote j with Some r => toy_sign alg key (toy_claims r) | None => Err (Errorf b#"not signed here" []) end |}.
  - intros alg key j tok. destruct (toy_remote j); [|done]. intros (-> & _ & Hf)%toy_sign_ok. split; [by destruct alg|done].
  - intros alg key j tok. destruct (toy_remote j) eqn:E; [|done]. intros (_ & Hf & _)%toy_sign_ok. unfold toy_payload_of. rewrite Hf.
    by apply toy_remote_some in E as ->.
  - intros alg key j tok. destruct (toy_remote j) eqn:E; [|done]. intros (_ & Hf & _)%toy_sign_ok. unfold toy_signature. rewrite Hf.
    by rewrite !bool_decide_true.
  - intros tok j alg c Hp Hc. cbn [ParseUnverified JsonJwt]. by rewrite Hp, Hc.
  - intros tok kf j alg key c r Hp Hc Hk Hs Hr He Hi Hn. cbn [ParseWithClaims JsonJwt]. rewrite Hp, Hc. cbn [mbind go_bind].
    rewrite Hk. cbn [mbind go_bind]. rewrite Hr. cbn [mbind go_bind]. by rewrite Hs, He, Hi, Hn.
Defined.

Lemma token_carries_claims_witness :
  parseJWTClaims (J:=JsonJwt) example_config b#"HS256.k3y.10.0.0.7" = Ok (mkClaims [] (setTcp (mkTcp false) noProtocol) b#"10.0.0.7" 80).
Proof.
  apply (token_carries_claims (J:=JsonJwt) example_client example_config).
  - split; [by vm_compute|]. split; [|split; [by vm_compute|cbn; lia]].
    repeat match goal with |- ?P => lazymatch eval hnf in P with _ ∧ _ => split end end; by intros ? [= <-].
  - by intros _ _.
  - vm_compute. reflexivity.
Defined.

(** An expired token is as good as any: the payload's "exp" is not looked at. *)
Example expired_token_accepted :
  decode_claims (JObj (claims_members (toy_claims b#"10.0.0.7") ++ [(b#"exp", JNum b#"1")])) = Ok (toy_claims b#"10.0.0.7") ∧
  registered_of (toy_claims b#"10.0.0.7") = Ok (mkRegistered None None None [] [] []).
Proof. split; vm_compute; reflexivity. Qed.
