(* ===== verification/Dialers.v ===== *)
(** How the client's three transports get their connection (pkg/client/client.go:
    [connectToWarpStream], [connectToHttp2], [connectToGorilla], [NewClient] and
    [clientCertReloader]; pkg/client/transport.go dials).

    [dial] opens a socket and [handshake] makes it a TLS connection; for the gorilla
    library, which does the TLS of the wss scheme itself with the configuration it is
    given, the handshake is the same parameter.  A connection of the pool is one that
    [dialTransport] made for the configured server. *)

From S2P Require Import Prelude GoStrings GoNet GoIO GoHttp Wst Upgrade Protocol CertReloader Server Client ClientThms.

(** ** The client and its certificate *)

Section cert.
Context (KeyPair : bytes → bytes → bool).

Definition newClientCertReloader (c k : option (bytes * Z)) (now : Z) : go reloader :=
  match c, k with
  | Some (c', _), Some (k', _) =>
      if KeyPair c' k' then Ok (mkReloader c k now (Some (c', k')) None WaitTick WaitSignal false)
      else Err (Errorf b#"client cert reload: %w" [])
  | _, _ => Err (Errorf b#"client cert reload: %w" [])
  end.

Definition getClientCertificate (σ : reloader) : go (bytes * bytes) :=
  match cert σ with Some x => Ok x | None => Err (Errorf b#"no client TLS certificate loaded" []) end.

(** One tick of [watchFiles], up to the call of [reload]. *)
Definition client_tick (σ : reloader) : reloader :=
  match certFile σ, keyFile σ with
  | Some (_, m1), Some (_, m2) =>
      match lastMods σ with
      | None => set_mods (m1, m2) false σ
      | Some (l1, l2) => if (l1 <? m1) || (l2 <? m2) then set_watcher (Reloading (m1, m2) ReadCert) σ else σ
      end
  | _, _ => σ
  end.

(** The client: the size of its pool, if it has one, and its reloader, if it could be
    made. *)
Record client := mkClient { cl_config : ClientConfig; cl_pool : option Z; cl_reloader : option reloader }.

(** [disk path] is the file at the path: contents and modification time. *)
Definition NewClient (config : ClientConfig) (disk : bytes → option (bytes * Z)) (now : Z) : client :=
  mkClient config
    (if 0 <? c_ConnectionMinIdle config then Some (c_ConnectionMinIdle config) else None)
    (if negb (bool_decide (c_TlsClientCert config = [])) && negb (bool_decide (c_TlsClientKey config = [])) then
       match newClientCertReloader (disk (c_TlsClientCert config)) (disk (c_TlsClientKey config)) now with
       | Ok r => Some r
       | _ => None
       end
     else None).
End cert.

(** ** Connections *)

Section dial.
Context (cl : client) (load : go unit) (dial : bytes → bytes → go netconn) (handshake : tls_config → netconn → go netconn).

Definition has_reloader : bool := match cl_reloader cl with Some _ => true | None => false end.

(** [c.dialTransport(ctx, network, addr)] for the configured URL. *)
Definition dial_transport (u : URL) (network addr : bytes) : go netconn :=
  (dialTransport (cl_config cl) has_reloader load (Ok u) dial handshake network addr).1.

(** [c.pool.Get(ctx)] when it delivers a connection of [maintain]. *)
Definition pooled (u : URL) : go netconn := dial_transport u [] [].

(** The WebSocket dialler of the program asks for the address of the rewritten URL and
    adds TLS for a secure scheme, which the rewritten URL never has. *)
Definition native_conn (u : URL) : go netconn :=
  let u' := native_url (cl_config cl) u in
  conn ← (if nonnil (cl_pool cl) then pooled u else dial_transport u b#"tcp" (dial_addr u'));
  if is_secure u' then handshake (mkTls false (u_Hostname u') false) conn else Ok conn.

(** The HTTP/2 transport. *)
Definition http2_conn (u : URL) : go netconn :=
  dial_transport u b#"tcp" (dial_addr (http2_url (cl_config cl) u)).

(** The gorilla dialler. *)
Definition gorilla_conn (u : URL) : go netconn :=
  let u' := gorilla_url (cl_config cl) u in
  let isTLS := bool_decide (Scheme u' = b#"wss") in
  if isTLS then
    tlsConfig ← tlsClientConfig (cl_config cl) has_reloader load (u_Hostname u');
    '(conn, _) ← dialRawTransport (Ok u) dial b#"tcp" (dial_addr u');
    handshake tlsConfig conn
  else if nonnil (cl_pool cl) then pooled u
  else '(conn, _) ← dialRawTransport (Ok u) dial b#"tcp" (dial_addr u'); Ok conn.

Definition transport_conn (u : URL) : go netconn :=
  match transport_of (cl_config cl) u with
  | OverHttp2 => http2_conn u
  | OverGorilla => gorilla_conn u
  | OverNative => native_conn u
  end.

(** ** Laws *)

Lemma with_path_addr p u : dial_addr (with_path p u) = dial_addr u.
Proof. done. Qed.

Lemma http2_url_addr c u : dial_addr (http2_url c u) = dial_addr u.
Proof.
  destruct u as [sch host port uri]. unfold http2_url. rewrite with_path_addr. unfold with_port, dial_addr, is_secure.
  cbn [Scheme u_Hostname u_Port]. case_bool_decide as H1; [|case_bool_decide as H2];
    (destruct (decide (port = [])) as [->|Hn];
      [rewrite (bool_decide_true ([] = [])) by done; subst; cbn; by repeat case_match|cbn; by rewrite !(bool_decide_false (port = []))]).
Qed.

Lemma gorilla_url_addr c u :
  dial_addr (gorilla_url c u) = dial_addr u ∧ bool_decide (Scheme (gorilla_url c u) = b#"wss") = is_secure u ∧
  u_Hostname (gorilla_url c u) = u_Hostname u.
Proof.
  destruct u as [sch host port uri]. unfold gorilla_url, dial_addr, is_secure, with_path, with_scheme. cbn [Scheme u_Hostname u_Port].
  destruct (decide (sch = b#"ws")) as [->|H1]; [done|]. destruct (decide (sch = b#"http")) as [->|H2]; [done|].
  rewrite (bool_decide_false (sch = b#"ws")), (bool_decide_false (sch = b#"http")) by done. cbn [orb].
  destruct (decide (sch = b#"wss")) as [->|H3]; [done|]. destruct (decide (sch = b#"https")) as [->|H4]; [done|].
  rewrite (bool_decide_false (sch = b#"wss")), (bool_decide_false (sch = b#"https")) by done.
  cbn [orb Scheme u_Hostname u_Port]. split_and!; [|by rewrite bool_decide_false|done].
  by rewrite (bool_decide_false (sch = b#"wss")), (bool_decide_false (sch = b#"https")).
Qed.

(** What a transport's connection is made of: one socket to the server, and one layer of
    TLS exactly when the URL is secure. *)
Definition layered (u : URL) (conn : netconn) : Prop :=
  ∃ raw, dial b#"tcp" (server_addr u) = Ok raw ∧
    if is_secure u then ∃ cfg, tlsClientConfig (cl_config cl) has_reloader load (u_Hostname u) = Ok cfg ∧ handshake cfg raw = Ok conn
    else conn = raw.

Lemma dialRaw_ok u network addr conn u' :
  network = [] ∨ network = b#"tcp" → addr = [] ∨ addr = server_addr u →
  dialRawTransport (Ok u) dial network addr = Ok (conn, u') → dial b#"tcp" (server_addr u) = Ok conn ∧ u' = u.
Proof.
  intros Hn Ha. unfold dialRawTransport.
  replace (if bool_decide (addr = []) then server_addr u else addr) with (server_addr u)
    by (destruct Ha as [->| ->]; [done|by case_bool_decide]).
  replace (if bool_decide (network = []) then b#"tcp" else network) with b#"tcp" by (by destruct Hn as [->| ->]).
  intros (conn' & E & [= -> ->])%go_bind_ok. done.
Qed.

Lemma dial_transport_layered u network addr conn :
  network = [] ∨ network = b#"tcp" → addr = [] ∨ addr = server_addr u → dial_transport u network addr = Ok conn → layered u conn.
Proof.
  intros Hn Ha. unfold dial_transport, dialTransport, layered.
  destruct (dialRawTransport (Ok u) dial network addr) as [[raw u']|e|] eqn:Er; [|done..].
  apply dialRaw_ok in Er as [Ed ->]; [|done..]. destruct (is_secure u) eqn:Es.
  - destruct (tlsClientConfig _ _ _ _) as [cfg|e|] eqn:Et; [|done..]. destruct (handshake cfg raw) as [tc|e|] eqn:Eh; [|done..].
    cbn. intros [= <-]. eauto 10.
  - cbn. intros [= <-]. eauto.
Qed.

(** ** Properties *)

(** C26: every transport reaches the configured server over exactly one socket with
    exactly one layer of TLS for the secure schemes and none for the others, with or
    without the pool, although the three rewrite the URL in different ways and do the TLS
    in different places; the TLS configuration is the configured one for the host of the
    URL, and with a client certificate configured it carries one. *)
Theorem transports_tls_once u conn :
  transport_conn u = Ok conn → layered u conn ∧
  (∀ cfg, tlsClientConfig (cl_config cl) has_reloader load (u_Hostname u) = Ok cfg →
     InsecureSkipVerify cfg = negb (c_TlsVerifyCert (cl_config cl)) ∧
     (c_TlsClientCert (cl_config cl) ≠ [] → c_TlsClientKey (cl_config cl) ≠ [] → client_cert cfg = true)).
Proof.
  intros H. split.
  - unfold transport_conn in H. destruct (transport_of (cl_config cl) u).
    + apply dial_transport_layered in H; [done|by right|]. right. apply http2_url_addr.
    + destruct (gorilla_url_addr (cl_config cl) u) as (Ea & Es & Eh). unfold gorilla_conn in H. rewrite Es, Eh, Ea in H.
      destruct (is_secure u) eqn:Esec.
      * apply go_bind_ok in H as (cfg & Et & ([raw u'] & Er & Hh)%go_bind_ok).
        apply dialRaw_ok in Er as [Ed _]; [|by right|by right]. exists raw. rewrite Esec. eauto.
      * destruct (nonnil (cl_pool cl)); [by apply dial_transport_layered in H; [|by left|by left]|].
        apply go_bind_ok in H as ([raw u'] & Er & [= <-]). apply dialRaw_ok in Er as [Ed _]; [|by right|by right].
        exists raw. rewrite Esec. eauto.
    + unfold native_conn in H. destruct (native_url_addr (cl_config cl) u) as [Ea Es]. rewrite Es, Ea in H.
      apply go_bind_ok in H as (conn' & H & [= <-]). destruct (nonnil (cl_pool cl)).
      * by apply dial_transport_layered in H; [|by left|by left].
      * by apply dial_transport_layered in H; [|by right|by right].
  - intros cfg Et. unfold tlsClientConfig in Et. split; [repeat case_match; by simplify_eq|].
    intros H1 H2. rewrite !bool_decide_false in Et by done. cbn in Et. repeat case_match; by simplify_eq.
Qed.
End dial.

(** ** The stream of an HTTP/2 tunnel *)

(** [connectToHttp2] after the URL and the headers: what it returns, and whether the
    writing end of its pipe and the body of the response are open.  [newRequest] and
    [do_] are the outcomes of [http.NewRequest] and [httpClient.Do], the latter the status. *)
Definition http2_exchange (newRequest : go unit) (do_ : go Z) : go unit * (bool * bool) :=
  match newRequest with
  | Err e => (Err (Errorf b#"failed to create request: %w" []), (false, false))
  | Panic => (Panic, (true, false))
  | Ok _ =>
      match do_ with
      | Err e => (Err (Errorf b#"failed to send request: %w" []), (false, false))
      | Panic => (Panic, (true, false))
      | Ok status =>
          if negb (status =? 200) then (Err (Errorf b#"server rejected request: %s" []), (false, false))
          else (Ok (), (true, true))
      end
  end.

(** [tunnelReadWriteCloser.Close]: both ends are closed, then the errors are looked at;
    the writing end is closed where it can be. *)
Definition tunnelReadWriteCloser_Close (closeReader : option error) (closeWriter : option (option error)) : option error :=
  let e1 := closeReader in
  let e2 := default None closeWriter in
  match e1 with Some e => Some e | None => e2 end.

(** A failed HTTP/2 tunnel leaves nothing open: unless the server answers with status
    200, the pipe and the body of the response are closed and an error is returned. *)
Theorem http2_no_leak newRequest do_ r pw body :
  http2_exchange newRequest do_ = (r, (pw, body)) → r ≠ Panic →
  (r = Ok () ↔ newRequest = Ok () ∧ do_ = Ok 200) ∧ pw = is_ok r ∧ body = is_ok r.
Proof.
  unfold http2_exchange. destruct newRequest as [[]|e|]; [destruct do_ as [st|e|]; [destruct (Z.eqb_spec st 200) as [->|Hn]|..]|..];
    cbn [negb]; intros [= <- <- <-] Hp; split; naive_solver.
Qed.

(** ** The stream of a tunnel *)

(** Which carrier [connectToTransport] made, with the error it returned. *)
Record tunnelStream := mkStream { ts_ws : option netconn; ts_gorilla : option netconn; ts_h2 : option netconn; ts_err : option error }.

Definition stream_of (t : transport) (r : go netconn) : tunnelStream :=
  let conn := match r with Ok c => Some c | _ => None end in
  let err := match r with Err e => Some e | _ => None end in
  match t with
  | OverHttp2 => mkStream None None conn err
  | OverGorilla => mkStream None conn None err
  | OverNative => mkStream conn None None err
  end.

(** [tunnelStream.Close]: the carriers it closes. *)
Definition tunnelStream_Close (ts : tunnelStream) : list netconn :=
  option_list (ts_ws ts) ++ option_list (ts_gorilla ts) ++ option_list (ts_h2 ts).

(** A stream without an error has one carrier, the one that closing it closes; a stream
    with one has none. *)
Lemma stream_of_close t r :
  r ≠ Panic → tunnelStream_Close (stream_of t r) = match r with Ok c => [c] | _ => [] end ∧
  (ts_err (stream_of t r) = None ↔ ∃ c, r = Ok c).
Proof. intros Hr. destruct t, r; naive_solver. Qed.

(** ** The client's certificate *)

Lemma newClientCertReloader_same KeyPair c k now σ :
  newClientCertReloader KeyPair c k now = Ok σ ↔ NewCertReloader KeyPair c k now = Ok σ.
Proof. unfold newClientCertReloader, NewCertReloader. destruct c as [[]|], k as [[]|]; try done. by destruct (KeyPair _ _). Qed.

(** The watcher of the client is the watcher of the server. *)
Lemma client_tick_same σ : client_tick σ = tick σ.
Proof. done. Qed.

(** A client whose reloader could be made always has a certificate to present, and
    always one whose key belongs to it, whatever is written to the files and however
    ticks and signals interleave. *)
Theorem client_cert_valid KeyPair config disk now σ0 σ :
  cl_reloader (NewClient KeyPair config disk now) = Some σ0 →
  (∀ path x m, disk path = Some (x, m) → m ≤ now) → rtc (cr_step KeyPair true) σ0 σ →
  ∃ c k, getClientCertificate σ = Ok (c, k) ∧ KeyPair c k = true.
Proof.
  unfold NewClient. cbn [cl_reloader]. destruct (_ && _); [|done].
  destruct (newClientCertReloader _ _ _ _) as [r|e|] eqn:E; [|done..]. intros [= <-] Hd Hr.
  apply newClientCertReloader_same in E.
  assert (cr_reachable KeyPair true σ) as Hreach.
  { eexists _, _, _, _. split; [|exact Hr]. split; [exact E|]. intros x m [H|H]; by eapply Hd. }
  destruct (cr_reachable_valid _ _ _ Hreach) as [(c & k & Hc & Hk) _ _]. exists c, k. unfold getClientCertificate. by rewrite Hc.
Qed.

(** ** Examples *)

Definition example_cl : client := mkClient example_client (Some 2) None.

Lemma transports_tls_once_witness :
  let dial := λ (n a : bytes), if bool_decide (a = b#"gateway.example.com:443") then Ok raw_conn else Err ErrIO in
  let handshake := λ (_ : tls_config) (_ : netconn), Ok tls_conn in
  layered example_cl (Ok ()) dial handshake example_url tls_conn ∧
  (∀ cfg, tlsClientConfig example_client false (Ok ()) b#"gateway.example.com" = Ok cfg →
     InsecureSkipVerify cfg = false ∧ (@nil byte ≠ [] → @nil byte ≠ [] → client_cert cfg = true)).
Proof.
  intros dial handshake. apply (transports_tls_once example_cl (Ok ()) dial handshake example_url tls_conn). vm_compute. reflexivity.
Defined.

Lemma http2_no_leak_witness :
  (Err (Errorf b#"server rejected request: %s" []) = Ok () ↔ @Ok unit () = Ok () ∧ Ok 403 = Ok 200) ∧
  false = is_ok (Err (Errorf b#"server rejected request: %s" []) : go unit) ∧
  false = is_ok (Err (Errorf b#"server rejected request: %s" []) : go unit).
Proof. apply (http2_no_leak (Ok ()) (Ok 403)); [reflexivity|discriminate]. Defined.

Definition cert_client : ClientConfig :=
  mkClientConfig b#"wss://gateway.example.com" [] [] ∅ false 0 true b#"c.pem" b#"k.pem" [] false false 0 0 0 0
    [] [] [] [] [] [] false [] [] [].

Lemma client_cert_valid_witness :
  ∃ σ0, cl_reloader (NewClient same_text cert_client (λ _, Some (b#"pair", 3)) 5) = Some σ0 ∧
    ∃ c k, getClientCertificate σ0 = Ok (c, k) ∧ same_text c k = true.
Proof.
  eexists. split; [vm_compute; reflexivity|].
  eapply (client_cert_valid same_text cert_client (λ _, Some (b#"pair", 3)) 5).
  - vm_compute. reflexivity.
  - intros path x m [= <- <-]. lia.
  - apply rtc_refl.
Defined.
