(* ===== verification/Sessions.v ===== *)
(** One tunnelled connection at the client: the goroutine it runs for an accepted
    connection (pkg/client/client.go: [runTcpTunnel], [runUnixTunnel],
    [runSocks5Tunnel], [runHttpProxyTunnel], [runTProxyTcpTunnel], [runStdioTunnel] and
    [startPipe]).

    A session is the list of what it does, in order, with deferred calls at the end.
    What the connections themselves do while data is piped is the subject of the
    files on pipes. *)

From S2P Require Import Prelude GoStrings GoNet GoIO GoHttp Wst Upgrade Protocol Restrictions Socks5 HttpProxy Manager Server ServerSessions TunnelArg Client.

(** ** Client *)

Inductive client_effect :=
  | Asks (p : LocalProtocol) (host : bytes) (port : Z)
  | PipesOver (t : transport) (conn : option netconn)
  | ClosesStream
  | ClosesLocal.

Section client.
Context (ReadRequest : bytes → go (http_request * nat)).

(** [connect] is the outcome of [connectToTransport]. *)
Context (connect : LocalProtocol → bytes → Z → go transport).

(** [ts := c.connectToTransport(...); if ts.err != nil { return }; c.startPipe(conn, ts)]
    with the [defer ts.Close()] of [startPipe]; no [conn] stands for stdin and stdout. *)
Definition tunnel_connection (p : LocalProtocol) (host : bytes) (port : Z) (conn : option netconn) : list client_effect :=
  Asks p host port ::
  match connect p host port with
  | Ok t => [PipesOver t conn; ClosesStream]
  | _ => []
  end.

Definition tcp_only : LocalProtocol := setTcp (mkTcp false) noProtocol.

(** The goroutine of an accepted connection, for each loop, up to the deferred close. *)
Definition runTcpTunnel_conn (ltr : LocalToRemote) (conn : netconn) : list client_effect :=
  tunnel_connection (Ltr_Protocol ltr) (Ltr_Remote ltr) (Ltr_Port ltr) (Some conn).

Definition runUnixTunnel_conn (ltr : LocalToRemote) (conn : netconn) : list client_effect :=
  tunnel_connection (Ltr_Protocol ltr) (Ltr_Remote ltr) (Ltr_Port ltr) (Some conn).

Definition runSocks5Tunnel_conn (ltr : LocalToRemote) (conn : netconn) : list client_effect :=
  match handleSocks5 (match Socks5 (Ltr_Protocol ltr) with Some s => Socks5_Credentials s | None => None end) conn with
  | (Ok (targetHost, targetPort), conn') => tunnel_connection tcp_only targetHost targetPort (Some conn')
  | _ => []
  end.

(** An HTTP request arrives in the reader's buffer together with [pulled] bytes. *)
Definition runHttpProxyTunnel_conn (ltr : LocalToRemote) (pulled : nat) (conn : netconn) : list client_effect :=
  match handleHttpProxy ReadRequest (match Protocol.HttpProxy (Ltr_Protocol ltr) with Some s => HttpProxy_Credentials s | None => None end)
          pulled conn with
  | TunnelTo targetHost targetPort conn' => tunnel_connection tcp_only targetHost targetPort (Some conn')
  | Dropped _ => []
  end.

(** [local] is the connection's local address, [original] what the operating system
    says the original destination was. *)
Definition runTProxyTcpTunnel_conn (sscanf : bytes → Z) (local : option bytes) (original : go (bytes * Z)) (conn : netconn) :
    list client_effect :=
  match tproxy_target sscanf local original with
  | Ok (targetHost, targetPort) => tunnel_connection tcp_only targetHost targetPort (Some conn)
  | _ => []
  end.

(** The goroutine with its deferred close, by the loop that accepted the connection. *)
Definition accepted_session (loop : tunnel_loop) (ltr : LocalToRemote) (sscanf : bytes → Z) (local : option bytes)
    (original : go (bytes * Z)) (pulled : nat) (conn : netconn) : list client_effect :=
  match loop with
  | runTcpTunnel => runTcpTunnel_conn ltr conn
  | runUnixTunnel => runUnixTunnel_conn ltr conn
  | runSocks5Tunnel => runSocks5Tunnel_conn ltr conn
  | runHttpProxyTunnel => runHttpProxyTunnel_conn ltr pulled conn
  | runTProxyTcpTunnel => runTProxyTcpTunnel_conn sscanf local original conn
  | runStdioTunnel | runUdpTunnel | runTProxyUdpTunnel => []
  end ++ [ClosesLocal].

(** The loop of stdin and stdout has one connection and closes nothing local. *)
Definition stdio_session (ltr : LocalToRemote) : list client_effect :=
  tunnel_connection (Ltr_Protocol ltr) (Ltr_Remote ltr) (Ltr_Port ltr) None.
End client.

(** ** Properties *)

Section client_properties.
Context (ReadRequest : bytes → go (http_request * nat)) (connect : LocalProtocol → bytes → Z → go transport).

Definition opened_stream (e : client_effect) : nat := match e with PipesOver _ _ => 1 | _ => 0 end.
Definition closed_stream (e : client_effect) : nat := match e with ClosesStream => 1 | _ => 0 end.
Definition closed_local (e : client_effect) : nat := match e with ClosesLocal => 1 | _ => 0 end.
Definition count (f : client_effect → nat) (l : list client_effect) : nat := sum_list_with f l.

Lemma tunnel_connection_count p h q c :
  let l := tunnel_connection connect p h q c in
  count opened_stream l = count closed_stream l ∧ (count opened_stream l ≤ 1)%nat ∧ count closed_local l = 0%nat.
Proof. unfold tunnel_connection. destruct (connect p h q); cbn; lia. Qed.

(** The client's sessions leave nothing open and ask for what their loop should: for
    every accepted connection, however its handshake and the connection to the server
    end, the connection is closed once, as the last step, every stream that was opened is
    closed, and a tunnel that is asked for is the one of the loop, for the argument's
    own target or for a destination named by the connection. *)
Theorem client_session_clean ltr sscanf local original pulled conn :
  let loop := StartTunnel (Ltr_Protocol ltr) in
  let s := accepted_session ReadRequest connect loop ltr sscanf local original pulled conn in
  list.last s = Some ClosesLocal ∧ count closed_local s = 1%nat ∧
  count opened_stream s = count closed_stream s ∧ (count opened_stream s ≤ 1)%nat ∧
  (∀ p h q, Asks p h q ∈ s → ∃ target, (p, h, q) = loop_request ltr target).
Proof.
  intros loop s.
  assert (∃ body, s = body ++ [ClosesLocal] ∧
    (body = [] ∨ ∃ p h q c, body = tunnel_connection connect p h q c ∧ ∃ target, (p, h, q) = loop_request ltr target))
    as (body & -> & Hb).
  { unfold s, accepted_session. eexists. split; [reflexivity|]. unfold loop_request, loop.
    destruct (StartTunnel (Ltr_Protocol ltr)); try (by left).
    - unfold runSocks5Tunnel_conn. destruct (handleSocks5 _ conn) as [[[h q]| |] conn']; [|by left..].
      right. eexists _, _, _, _. split; [reflexivity|]. by exists (h, q).
    - unfold runHttpProxyTunnel_conn. destruct (handleHttpProxy _ _ _ _) as [|h q conn']; [by left|].
      right. eexists _, _, _, _. split; [reflexivity|]. by exists (h, q).
    - right. eexists _, _, _, _. split; [reflexivity|]. by exists ([], 0).
    - unfold runTProxyTcpTunnel_conn. destruct (tproxy_target _ _ _) as [[h q]| |]; [|by left..].
      right. eexists _, _, _, _. split; [reflexivity|]. by exists (h, q).
    - right. eexists _, _, _, _. split; [reflexivity|]. by exists ([], 0). }
  rewrite last_snoc. unfold count. rewrite !sum_list_with_app. cbn [sum_list_with closed_local opened_stream closed_stream].
  destruct Hb as [->|(p & h & q & c & -> & Ht)]; [cbn; split_and!; [done..|lia|intros p h q Hin; by apply list_elem_of_singleton in Hin]|].
  destruct (tunnel_connection_count p h q c) as (E1 & E2 & E3). unfold count in *. split_and!; [done|lia..|].
  intros p' h' q' [Hin|Hin]%elem_of_app; [|by apply list_elem_of_singleton in Hin].
  unfold tunnel_connection in Hin. apply elem_of_cons in Hin as [[= -> -> ->]|Hin]; [done|].
  destruct (connect p h q); decompose_list_elem_of; done.
Qed.
End client_properties.

(** A destination asked for through the client's SOCKS5 listener is reached: when the
    handshake names a host and port and the server can be reached, the client asks for a
    TCP tunnel to them, and over each carrier the server's handler dials exactly them. *)
Theorem socks5_end_to_end ReadRequest connect ltr sscanf local original pulled conn host port conn' t k id dial :
  handleSocks5 (match Socks5 (Ltr_Protocol ltr) with Some s => Socks5_Credentials s | None => None end) conn = (Ok (host, port), conn') →
  connect tcp_only host port = Ok t →
  accepted_session ReadRequest connect runSocks5Tunnel ltr sscanf local original pulled conn =
    [Asks tcp_only host port; PipesOver t (Some conn'); ClosesStream; ClosesLocal] ∧
  omap dialled (server_session (mkClaims id tcp_only host port) dial k) = [(b#"tcp", JoinHostPort host (fmt_d port))].
Proof.
  intros Hs Hc. split.
  - unfold accepted_session, runSocks5Tunnel_conn. rewrite Hs. unfold tunnel_connection. by rewrite Hc.
  - by rewrite server_session_dials.
Qed.

(** ** Example *)

Lemma socks5_end_to_end_witness :
  let ltr := mkLtr (mkLocalProtocol None None None (Some (mkSocks5 None (Some example_cred))) None None None None None None None None None)
               b#"127.0.0.1:1080" b#"0.0.0.0" 0 in
  let conn' := mkNet (mkRx b#"tls" EOF) (mkTx (client_answers (Some example_cred)) None ErrIO) in
  accepted_session (λ _, Err ErrIO) (λ _ _ _, Ok OverNative) runSocks5Tunnel ltr (λ _, 0) None (Err ErrIO) 0 example_peer =
    [Asks tcp_only b#"10.0.0.7" 443; PipesOver OverNative (Some conn'); ClosesStream; ClosesLocal] ∧
  omap dialled (server_session (mkClaims [] tcp_only b#"10.0.0.7" 443) (λ _ _, true) Http2Tunnel) =
    [(b#"tcp", JoinHostPort b#"10.0.0.7" (fmt_d 443))].
Proof.
  intros ltr conn'.
  apply (socks5_end_to_end (λ _, Err ErrIO) (λ _ _ _, Ok OverNative) ltr (λ _, 0) None (Err ErrIO) 0 example_peer b#"10.0.0.7" 443 conn').
  - vm_compute. reflexivity.
  - reflexivity.
Defined.
