(* ===== verification/Listeners.v ===== *)
(** The listeners of the client, pkg/client/client.go: how each loop of [StartTunnel]
    opens its socket and what it does with the connections it accepts, with the socket
    options of internal/socket/socket_linux.go.

    A run of a loop is the list of what it has done after a number of [Accept] calls;
    the goroutines it starts are the sessions of [Sessions]. *)

From S2P Require Import Prelude GoStrings GoNet GoIO GoHttp Wst Upgrade Protocol Restrictions Socks5 HttpProxy Manager Server TunnelArg Client Sessions.

(** ** Socket options *)

Definition SOL_SOCKET : Z := 1.
Definition SOL_IP : Z := 0.
Definition IPPROTO_IPV6 : Z := 41.
Definition SO_MARK : Z := 36.
Definition IP_TRANSPARENT : Z := 19.
Definition ipRecvOrigDstAddr : Z := 20.
Definition ipv6RecvOrigDstAddr : Z := 74.

Section socket.
(** [syscall.SetsockoptInt] on the socket: level, option and value. *)
Context (SetsockoptInt : Z → Z → Z → go unit).

Definition SetSoMark (mark : Z) : go unit := SetsockoptInt SOL_SOCKET SO_MARK mark.
Definition SetIpTransparent : go unit := SetsockoptInt SOL_IP IP_TRANSPARENT 1.
Definition SetIpRecvOrigDstAddr : go unit :=
  let err1 := SetsockoptInt SOL_IP ipRecvOrigDstAddr 1 in
  let err2 := SetsockoptInt IPPROTO_IPV6 ipv6RecvOrigDstAddr 1 in
  match err1, err2 with
  | Err e1, Err _ => Err e1
  | _, _ => Ok ()
  end.

(** One of the two families is enough. *)
Lemma SetIpRecvOrigDstAddr_ok :
  SetsockoptInt SOL_IP ipRecvOrigDstAddr 1 = Ok () ∨ SetsockoptInt IPPROTO_IPV6 ipv6RecvOrigDstAddr 1 = Ok () →
  SetIpRecvOrigDstAddr = Ok ().
Proof. unfold SetIpRecvOrigDstAddr. intros [-> | ->]; [done|]. by destruct (SetsockoptInt SOL_IP _ _). Qed.
End socket.

(** socket_others.go: on other systems the three do nothing. *)
Definition SetSoMark_others (mark : Z) : go unit := Ok ().
Definition SetIpTransparent_others : go unit := Ok ().
Definition SetIpRecvOrigDstAddr_others : go unit := Ok ().

(** ** Loops *)

(** What [Accept] gives besides the connection: its local address, its original
    destination, and how much the HTTP reader takes at once. *)
Record accepted_conn := mkAccepted {
  ac_conn : netconn; ac_local : option bytes; ac_original : go (bytes * Z); ac_pulled : nat
}.

(** The results of [Accept]: an error or a connection. *)
Abbreviation accept_result := (error + accepted_conn)%type.

(** The options the [Control] function of a listener tries to set; their errors are
    ignored. *)
Inductive control := Transparent | RecvOrigDst.

Inductive loop_effect :=
  | RemovesPath (path : bytes)
  | ListensOn (network addr : bytes) (opts : list control)
  | Spawns (session : list client_effect).

Section loops.
Context (ReadRequest : bytes → go (http_request * nat)) (connect : LocalProtocol → bytes → Z → go transport) (sscanf : bytes → Z).
Context (ltr : LocalToRemote).

(** [for { conn, err := listener.Accept(); if err != nil { continue }; go ... }] *)
Fixpoint accept_loop (session : accepted_conn → list client_effect) (accepts : list accept_result) : list loop_effect :=
  match accepts with
  | [] => []
  | inr conn :: accepts' => Spawns (session conn) :: accept_loop session accepts'
  | inl err :: accepts' => accept_loop session accepts'
  end.

(** [listener, err := net.Listen(network, addr); if err != nil { return }] and the loop. *)
Definition listen_and_accept (listen : bytes → bytes → go unit) (network addr : bytes) (opts : list control)
    (session : accepted_conn → list client_effect) (accepts : list accept_result) : list loop_effect :=
  match listen network addr with
  | Ok _ => ListensOn network addr opts :: accept_loop session accepts
  | _ => []
  end.

Definition session_of (loop : tunnel_loop) (a : accepted_conn) : list client_effect :=
  accepted_session ReadRequest connect loop ltr sscanf (ac_local a) (ac_original a) (ac_pulled a) (ac_conn a).

Definition runTcpTunnel_loop (listen : bytes → bytes → go unit) (accepts : list accept_result) : list loop_effect :=
  listen_and_accept listen b#"tcp" (Local ltr) [] (session_of runTcpTunnel) accepts.

Definition runUnixTunnel_loop (listen : bytes → bytes → go unit) (accepts : list accept_result) : list loop_effect :=
  RemovesPath (Local ltr) :: listen_and_accept listen b#"unix" (Local ltr) [] (session_of runUnixTunnel) accepts.

Definition runSocks5Tunnel_loop (listen : bytes → bytes → go unit) (accepts : list accept_result) : list loop_effect :=
  listen_and_accept listen b#"tcp" (Local ltr) [] (session_of runSocks5Tunnel) accepts.

Definition runHttpProxyTunnel_loop (listen : bytes → bytes → go unit) (accepts : list accept_result) : list loop_effect :=
  listen_and_accept listen b#"tcp" (Local ltr) [] (session_of runHttpProxyTunnel) accepts.

Definition runTProxyTcpTunnel_loop (listen : bytes → bytes → go unit) (accepts : list accept_result) : list loop_effect :=
  listen_and_accept listen b#"tcp" (Local ltr) [Transparent] (session_of runTProxyTcpTunnel) accepts.

(** The UDP listeners up to their loops: the local address is resolved, then the
    socket is opened; [isUDP] is the type assertion on it. *)
Definition runUdpTunnel_open (resolve : bytes → go bytes) (listen : bytes → bytes → go unit) : list loop_effect :=
  match resolve (Local ltr) with
  | Ok addr => match listen b#"udp" addr with Ok _ => [ListensOn b#"udp" addr []] | _ => [] end
  | _ => []
  end.

Definition runTProxyUdpTunnel_open (resolve : bytes → go bytes) (listen : bytes → bytes → go unit) (isUDP : bool) : list loop_effect :=
  match resolve (Local ltr) with
  | Ok addr =>
      match listen b#"udp" addr with
      | Ok _ => if isUDP then [ListensOn b#"udp" addr [Transparent; RecvOrigDst]] else []
      | _ => []
      end
  | _ => []
  end.

(** The loop that [StartTunnel] runs. *)
Definition run_tunnel (resolve : bytes → go bytes) (listen : bytes → bytes → go unit) (accepts : list accept_result) : list loop_effect :=
  match StartTunnel (Ltr_Protocol ltr) with
  | runTcpTunnel => runTcpTunnel_loop listen accepts
  | runUnixTunnel => runUnixTunnel_loop listen accepts
  | runSocks5Tunnel => runSocks5Tunnel_loop listen accepts
  | runHttpProxyTunnel => runHttpProxyTunnel_loop listen accepts
  | runTProxyTcpTunnel => runTProxyTcpTunnel_loop listen accepts
  | runUdpTunnel => runUdpTunnel_open resolve listen
  | runTProxyUdpTunnel => runTProxyUdpTunnel_open resolve listen true
  | runStdioTunnel => [Spawns (stdio_session connect ltr)]
  end.

(** ** Laws *)

Definition spawned (e : loop_effect) : option (list client_effect) := match e with Spawns s => Some s | _ => None end.
Definition listening (e : loop_effect) : option (bytes * bytes) := match e with ListensOn n a _ => Some (n, a) | _ => None end.
Definition ok_of {A} (r : error + A) : option A := match r with inr a => Some a | inl _ => None end.

Lemma accept_loop_spawned session accepts : omap spawned (accept_loop session accepts) = session <$> omap ok_of accepts.
Proof. induction accepts as [|[e|a] accepts IH]; cbn; [done|exact IH|f_equal; exact IH]. Qed.

Lemma accept_loop_listening session accepts : omap listening (accept_loop session accepts) = [].
Proof. induction accepts as [|[e|a] accepts IH]; cbn; [done|exact IH..]. Qed.

Lemma accept_loop_app session l1 l2 : accept_loop session (l1 ++ l2) = accept_loop session l1 ++ accept_loop session l2.
Proof. induction l1 as [|[e|a] l1 IH]; cbn; [done|exact IH|f_equal; exact IH]. Qed.

(** The network of a loop that accepts connections. *)
Definition loop_network (loop : tunnel_loop) : option bytes :=
  match loop with
  | runTcpTunnel | runSocks5Tunnel | runHttpProxyTunnel | runTProxyTcpTunnel => Some b#"tcp"
  | runUnixTunnel => Some b#"unix"
  | runStdioTunnel | runUdpTunnel | runTProxyUdpTunnel => None
  end.

Lemma run_tunnel_shape resolve listen accepts network :
  loop_network (StartTunnel (Ltr_Protocol ltr)) = Some network →
  ∃ pre opts, Forall (λ e, spawned e = None ∧ listening e = None) pre ∧
    run_tunnel resolve listen accepts =
      pre ++ listen_and_accept listen network (Local ltr) opts (session_of (StartTunnel (Ltr_Protocol ltr))) accepts.
Proof.
  intros Hn. unfold run_tunnel. destruct (StartTunnel (Ltr_Protocol ltr)); simplify_eq/=.
  - by exists [], [].
  - by exists [], [].
  - exists [RemovesPath (Local ltr)], []. by split; [repeat constructor|].
  - by exists [], [Transparent].
  - by exists [], [].
Qed.

Lemma omap_none {A B} (f : A → option B) l : Forall (λ x, f x = None) l → omap f l = [].
Proof. induction 1 as [|x l Hx _ IH]; cbn; [done|]. by rewrite Hx. Qed.

(** C32: a listener serves every connection: when it can listen it listens once, on its
    own network and local address, and starts one session for each connection it
    accepts, in order and whatever errors [Accept] returns in between; when it cannot,
    it starts nothing. *)
Theorem listener_serves_all resolve listen accepts network :
  loop_network (StartTunnel (Ltr_Protocol ltr)) = Some network →
  let run := run_tunnel resolve listen accepts in
  match listen network (Local ltr) with
  | Ok _ => omap listening run = [(network, Local ltr)] ∧
            omap spawned run = session_of (StartTunnel (Ltr_Protocol ltr)) <$> omap ok_of accepts
  | _ => omap listening run = [] ∧ omap spawned run = []
  end.
Proof.
  intros Hn run. unfold run. destruct (run_tunnel_shape resolve listen accepts network Hn) as (pre & opts & Hpre & ->).
  rewrite !omap_app, (omap_none listening pre), (omap_none spawned pre) by (eapply list.Forall_impl; [exact Hpre|naive_solver]).
  cbn [app]. unfold listen_and_accept. destruct (listen network (Local ltr)); [|done..].
  split; [cbn; by rewrite accept_loop_listening|apply accept_loop_spawned].
Qed.

(** An error of [Accept] is retried at once and for ever: however many calls have
    failed, the loop has done nothing and goes on. *)
Theorem accept_errors_spin resolve listen accepts n e network :
  loop_network (StartTunnel (Ltr_Protocol ltr)) = Some network →
  run_tunnel resolve listen (accepts ++ replicate n (inl e)) = run_tunnel resolve listen accepts.
Proof.
  assert (∀ session, accept_loop session (accepts ++ replicate n (inl e)) = accept_loop session accepts) as Hs.
  { intros session. rewrite accept_loop_app. replace (accept_loop session (replicate n (inl e))) with (@nil loop_effect); [apply app_nil_r|].
    by induction n as [|n IH]. }
  unfold run_tunnel, runTcpTunnel_loop, runUnixTunnel_loop, runSocks5Tunnel_loop, runHttpProxyTunnel_loop, runTProxyTcpTunnel_loop, listen_and_accept.
  intros Hn. destruct (StartTunnel (Ltr_Protocol ltr)); simplify_eq/=; by rewrite Hs.
Qed.
End loops.

(** ** Example *)

Definition no_conn : accepted_conn := mkAccepted (mkNet (mkRx [] EOF) (mkTx [] None ErrIO)) None (Err ErrIO) 0.
Definition db_tunnel : LocalToRemote := mkLtr (setTcp (mkTcp false) noProtocol) b#"127.0.0.1:5432" b#"db" 5432.

Lemma listener_serves_all_witness :
  let connect := λ (_ : LocalProtocol) (_ : bytes) (_ : Z), Ok OverNative in
  let run := run_tunnel (λ _, Err ErrIO) connect (λ _, 0) db_tunnel Ok (λ _ _, Ok ()) [inr no_conn; inl ErrIO; inr no_conn] in
  omap listening run = [(b#"tcp", b#"127.0.0.1:5432")] ∧
  omap spawned run =
    session_of (λ _, Err ErrIO) connect (λ _, 0) db_tunnel runTcpTunnel <$> [no_conn; no_conn].
Proof.
  intros connect.
  apply (listener_serves_all (λ _, Err ErrIO) connect (λ _, 0) db_tunnel Ok (λ _ _, Ok ()) [inr no_conn; inl ErrIO; inr no_conn] b#"tcp").
  vm_compute. reflexivity.
Defined.
