(* ===== verification/Process.v ===== *)
(** What the command does before it runs a client or a server: the limit on open files
    (internal/rlimit) and the level of logging (cmd/warpstream/main.go). *)

From S2P Require Import Prelude GoStrings.

(** ** Open files *)

Record Rlimit := mkRlimit { Cur : Z; rl_Max : Z }.

(** The limit of the process after [RaiseFdLimit]: [get] and [set] are the two system
    calls; [setrlimit] changes the limit when it succeeds. *)
Definition RaiseFdLimit (limit : Rlimit) (get : go Rlimit) (set : Rlimit → go unit) : Rlimit :=
  match get with
  | Ok rLimit =>
      let rLimit := mkRlimit (rl_Max rLimit) (rl_Max rLimit) in
      match set rLimit with Ok _ => rLimit | _ => limit end
  | _ => limit
  end.

(** On other systems. *)
Definition RaiseFdLimit_others (limit : Rlimit) : Rlimit := limit.

(** The limit is never lowered, the hard limit never changed, and all of it is available
    when the system allows. *)
Theorem RaiseFdLimit_raises limit get set :
  Cur limit ≤ rl_Max limit → (get = Ok limit ∨ ∃ e, get = Err e) →
  let limit' := RaiseFdLimit limit get set in
  Cur limit ≤ Cur limit' ≤ rl_Max limit' ∧ rl_Max limit' = rl_Max limit ∧
  (get = Ok limit → set (mkRlimit (rl_Max limit) (rl_Max limit)) = Ok () → Cur limit' = rl_Max limit).
Proof.
  intros Hl Hg. unfold RaiseFdLimit. destruct Hg as [->|[e ->]]; [|cbn; split_and!; done || lia].
  destruct (set _) as [[]|e|] eqn:E; cbn; split_and!; try done; lia.
Qed.

(** ** Logging *)

(** The levels of log/slog. *)
Definition LevelDebug : Z := -4.
Definition LevelInfo : Z := 0.
Definition LevelWarn : Z := 4.
Definition LevelError : Z := 8.

Definition upper_byte (b : byte) : byte := if (97 <=? b2z b) && (b2z b <=? 122) then z2b (b2z b - 32) else b.

(** [strings.ToUpper s == t] for an ASCII upper-case [t]: U+0131 has upper case I and
    U+017F has upper case S. *)
Fixpoint ToUpperIs (s t : bytes) : bool :=
  match t with
  | [] => bool_decide (s = [])
  | c :: t' =>
      match s with
      | [] => false
      | d :: s' =>
          if bool_decide (upper_byte d = c) then ToUpperIs s' t'
          else if bool_decide (c = x49) && HasPrefix s [xc4; xb1] then ToUpperIs (drop 2 s) t'
          else if bool_decide (c = x53) && HasPrefix s [xc5; xbf] then ToUpperIs (drop 2 s) t'
          else false
      end
  end.

(** The level of the handler that [setupLogging] installs. *)
Definition setupLogging (level : bytes) : Z :=
  if ToUpperIs level b#"TRACE" || ToUpperIs level b#"DEBUG" then LevelDebug
  else if ToUpperIs level b#"INFO" then LevelInfo
  else if ToUpperIs level b#"WARN" then LevelWarn
  else if ToUpperIs level b#"ERROR" then LevelError
  else if ToUpperIs level b#"OFF" then LevelError + 100
  else LevelInfo.

(** A handler prints the records of its level and above. *)
Definition printed (handler record : Z) : bool := handler <=? record.

(** Each documented level prints itself and what is more severe, and OFF nothing. *)
Example setupLogging_levels :
  (λ l, printed (setupLogging l) <$> [LevelDebug; LevelInfo; LevelWarn; LevelError]) <$>
    [b#"trace"; b#"Debug"; b#"INFO"; b#"warn"; b#"error"; b#"off"; b#"verbose"; b#"info,hyper=debug"] =
  [[true; true; true; true]; [true; true; true; true]; [false; true; true; true]; [false; false; true; true];
   [false; false; false; true]; [false; false; false; false]; [false; true; true; true]; [false; true; true; true]].
Proof. vm_compute. reflexivity. Qed.

(** ** The exit status *)

(** [main]: [run] is the outcome of [app.Run]. *)
Definition exit_status (run : go unit) : Z := match run with Ok _ => 0 | Err _ => 1 | Panic => 2 end.
