(* ===== verification/Cli.v ===== *)
(** cmd/warpstream/main.go: from the command line and the configuration file to a
    running client or server.

    The flag parser is third-party code: a command reads the values of its flags
    through [flags].  Reading and decoding the configuration file is a parameter. *)

From S2P Require Import Prelude GoStrings GoIO Wst Upgrade Protocol Restrictions Manager Server ServerThms TunnelArg Client ClientThms.

(** [cli.Context] as the commands use it. *)
Record flags := mkFlags {
  IsSet : bytes → bool;
  f_String : bytes → bytes;
  f_Bool : bytes → bool;
  f_Uint : bytes → Z;
  f_Duration : bytes → Z;
  f_StringSlice : bytes → list bytes;
  Args : list bytes
}.

(** [if flagExplicitlySet(c, name) || empty { field = flag }] *)
Definition override {A} (set empty : bool) (flag file : A) : A := if set || empty then flag else file.

Definition isnil {A} (l : list A) : bool := match l with [] => true | _ => false end.

Section overrides.
Context (c : flags).

(** A field that the flag's value, perhaps its default, fills when it is empty, and
    one that only an explicit flag changes. *)
Definition string_field (name file : bytes) : bytes := override (IsSet c name) (isnil file) (f_String c name) file.
Definition slice_field (name : bytes) (file : list bytes) : list bytes :=
  override (IsSet c name) (isnil file) (f_StringSlice c name) file.
Definition duration_field (name : bytes) (file : Z) : Z := override (IsSet c name) (file =? 0) (f_Duration c name) file.
Definition bool_field (name : bytes) (file : bool) : bool := override (IsSet c name) false (f_Bool c name) file.
Definition uint32_field (name : bytes) (file : Z) : Z := override (IsSet c name) false (u32 (f_Uint c name)) file.

Definition applyClientFlagOverrides (config : ClientConfig) (serverURL : bytes) (headers : gmap bytes bytes) : ClientConfig :=
  mkClientConfig
    (if negb (bool_decide (serverURL = [])) then serverURL else c_ServerURL config)
    (string_field b#"http-upgrade-path-prefix" (c_PathPrefix config))
    (string_field b#"jwt-secret" (c_JWTSecret config))
    (override (IsSet c b#"header") (bool_decide (c_Headers config = ∅)) headers (c_Headers config))
    (bool_field b#"websocket-mask-frame" (c_MaskFrame config))
    (duration_field b#"websocket-ping-frequency" (c_PingFrequency config))
    (bool_field b#"tls-verify-certificate" (c_TlsVerifyCert config))
    (string_field b#"tls-certificate" (c_TlsClientCert config))
    (string_field b#"tls-private-key" (c_TlsClientKey config))
    (string_field b#"tls-sni-override" (c_TlsSniOverride config))
    (bool_field b#"tls-sni-disable" (c_TlsSniDisable config))
    (bool_field b#"tls-ech-enable" (c_TlsEchEnable config))
    (uint32_field b#"socket-so-mark" (c_SocketSoMark config))
    (uint32_field b#"connection-min-idle" (c_ConnectionMinIdle config))
    (duration_field b#"connection-retry-max-backoff" (c_ConnectionRetryMaxBackoff config))
    (duration_field b#"reverse-tunnel-connection-retry-max-backoff" (c_ReverseTunnelConnectionRetryMaxBackoff config))
    (string_field b#"http-proxy" (c_HttpProxy config))
    (string_field b#"http-proxy-login" (c_HttpProxyLogin config))
    (string_field b#"http-proxy-password" (c_HttpProxyPassword config))
    (string_field b#"http-upgrade-credentials" (c_HttpUpgradeCredentials config))
    (string_field b#"http-headers-file" (c_HttpHeadersFile config))
    (slice_field b#"dns-resolver" (c_DnsResolver config))
    (bool_field b#"dns-resolver-prefer-ipv4" (c_DnsResolverPreferIpv4 config))
    (slice_field b#"local-to-remote" (c_LocalToRemote config))
    (slice_field b#"remote-to-local" (c_RemoteToLocal config))
    (string_field b#"mode" (c_WebsocketProtocol config)).

Definition applyServerFlagOverrides (config : Config) (listenAddr : bytes) : Config :=
  mkConfig
    (if negb (bool_decide (listenAddr = [])) then listenAddr else ListenAddr config)
    (string_field b#"http-upgrade-path-prefix" (PathPrefix config))
    (string_field b#"jwt-secret" (JWTSecret config))
    (bool_field b#"insecure-no-jwt-validation" (InsecureNoJWTValidation config))
    (uint32_field b#"socket-so-mark" (SocketSoMark config))
    (duration_field b#"websocket-ping-frequency" (WebsocketPingFrequency config))
    (bool_field b#"websocket-mask-frame" (WebsocketMaskFrame config))
    (slice_field b#"dns-resolver" (DnsResolver config))
    (bool_field b#"dns-resolver-prefer-ipv4" (DnsResolverPreferIpv4 config))
    (slice_field b#"restrict-to" (RestrictTo config))
    (slice_field b#"restrict-http-upgrade-path-prefix" (RestrictHttpUpgradePathPrefix config))
    (string_field b#"restrict-config" (RestrictConfig config))
    (bool_field b#"tls" (Tls config))
    (string_field b#"tls-certificate" (TlsCertificate config))
    (string_field b#"tls-private-key" (TlsPrivateKey config))
    (string_field b#"tls-client-ca-certs" (TlsClientCaCerts config))
    (string_field b#"http-proxy" (HttpProxy config))
    (string_field b#"http-proxy-login" (HttpProxyLogin config))
    (string_field b#"http-proxy-password" (HttpProxyPassword config))
    (duration_field b#"remote-to-local-server-idle-timeout" (RemoteToLocalServerIdleTimeout config))
    (string_field b#"mode" (WebsocketProtocol config)).
End overrides.

(** ** Commands *)

Record FullConfig := mkFullConfig {
  fc_Mode : bytes;
  fc_Client : option ClientConfig;
  fc_Server : option Config
}.

(** [loadConfigFile]: the file's contents and the decoder. *)
Definition loadConfigFile (ReadFile : bytes → go bytes) (Unmarshal : bytes → go FullConfig) (path : bytes) : go FullConfig :=
  data ← ReadFile path; Unmarshal data.

(** The zero values [&client.Config{}] and [&server.Config{}]. *)
Definition noClientConfig : ClientConfig :=
  mkClientConfig [] [] [] ∅ false 0 false [] [] [] false false 0 0 0 0 [] [] [] [] [] [] false [] [] [].
Definition noServerConfig : Config :=
  mkConfig [] [] [] false 0 0 false [] false [] [] [] false [] [] [] [] [] [] 0 [].

(** A started tunnel. *)
Inductive launched := Launched (ltr : LocalToRemote) | LaunchedReverse (ltr : LocalToRemote).

Section commands.
Context (ParseDuration : bytes → option Z) (ParseQuery : bytes → gmap bytes bytes).

(** One of the two loops of [startClient]: the tunnels it starts, and its error. *)
Fixpoint start_tunnels (isReverse : bool) (args : list bytes) : list launched * go unit :=
  match args with
  | [] => ([], Ok ())
  | arg :: args' =>
      match ParseTunnelArg ParseDuration ParseQuery arg isReverse with
      | Ok ltr =>
          let '(started, r) := start_tunnels isReverse args' in
          ((if isReverse then LaunchedReverse ltr else Launched ltr) :: started, r)
      | Err e => ([], Err (if isReverse then Errorf b#"failed to parse remote-to-local tunnel %s: %w" []
                          else Errorf b#"failed to parse local-to-remote tunnel %s: %w" []))
      | Panic => ([], Panic)
      end
  end.

(** [Ok ()]: the command waits for ever while the tunnels run. *)
Definition startClient (config : ClientConfig) : list launched * go unit :=
  match start_tunnels false (c_LocalToRemote config) with
  | (started, Ok _) =>
      match start_tunnels true (c_RemoteToLocal config) with
      | (started', Ok _) =>
          (started ++ started',
           if isnil started && isnil started' then Err (Errorf b#"no tunnels specified. Use -L or -R or config file" []) else Ok ())
      | (started', r) => (started ++ started', r)
      end
  | (started, r) => (started, r)
  end.

(** [c.Args().Get(c.Args().Len() - 1)] *)
Definition last_arg (c : flags) : bytes := default [] (list.last (Args c)).

(** The configuration of [runClient]. *)
Definition client_config (c : flags) (load : bytes → go FullConfig) : ClientConfig :=
  let headers := foldl header_line ∅ (f_StringSlice c b#"header") in
  let config :=
    if negb (bool_decide (f_String c b#"config" = [])) then
      match load (f_String c b#"config") with
      | Ok cfg => default noClientConfig (fc_Client cfg)
      | _ => noClientConfig
      end
    else noClientConfig in
  applyClientFlagOverrides c config (last_arg c) headers.

Definition runClient (c : flags) (load : bytes → go FullConfig) : list launched * go unit :=
  let config := client_config c load in
  if bool_decide (c_ServerURL config = []) then ([], Err (Errorf b#"server URL is required" []))
  else startClient config.

(** The configuration [runServer] starts the server with. *)
Definition runServer (c : flags) (load : bytes → go FullConfig) : Config :=
  let config :=
    if negb (bool_decide (f_String c b#"config" = [])) then
      match load (f_String c b#"config") with
      | Ok cfg => default noServerConfig (fc_Server cfg)
      | _ => noServerConfig
      end
    else noServerConfig in
  let config := applyServerFlagOverrides c config (last_arg c) in
  if bool_decide (ListenAddr config = []) then
    mkConfig b#"ws://0.0.0.0:8080" (PathPrefix config) (JWTSecret config) (InsecureNoJWTValidation config)
      (SocketSoMark config) (WebsocketPingFrequency config) (WebsocketMaskFrame config) (DnsResolver config)
      (DnsResolverPreferIpv4 config) (RestrictTo config) (RestrictHttpUpgradePathPrefix config) (RestrictConfig config)
      (Tls config) (TlsCertificate config) (TlsPrivateKey config) (TlsClientCaCerts config) (HttpProxy config)
      (HttpProxyLogin config) (HttpProxyPassword config) (RemoteToLocalServerIdleTimeout config) (WebsocketProtocol config)
  else config.

(** The program without a command: the configuration file decides. *)
Inductive app_result :=
  | ShowHelp
  | RanClient (r : list launched * go unit)
  | RanServer (config : Config)
  | Failed (e : error)
  | AppPanic.

Definition app_action (c : flags) (load : bytes → go FullConfig) : app_result :=
  let configPath := f_String c b#"config" in
  if bool_decide (configPath = []) then ShowHelp
  else match load configPath with
       | Err e => Failed e
       | Panic => AppPanic
       | Ok cfg =>
           match (if bool_decide (fc_Mode cfg = b#"client") then fc_Client cfg else None),
                 (if bool_decide (fc_Mode cfg = b#"server") then fc_Server cfg else None) with
           | Some cc, _ => RanClient (startClient cc)
           | None, Some sc => RanServer sc
           | None, None => Failed (Errorf b#"invalid config file: mode and section mismatch" [])
           end
       end.
End commands.

(** ** Flags as they are declared *)

(** The kind of a flag with its default value. *)
Inductive flag_kind :=
  | StringFlag (value : bytes)
  | BoolFlag (value : bool)
  | UintFlag (value : Z)
  | DurationFlag (value : Z)
  | StringSliceFlag.

Record flag := mkFlag { fl_Name : bytes; fl_Aliases : list bytes; fl_EnvVars : list bytes; fl_Kind : flag_kind }.

Definition client_table : list flag :=
  [mkFlag b#"local-to-remote" [b#"L"] [] StringSliceFlag;
   mkFlag b#"remote-to-local" [b#"R"] [] StringSliceFlag;
   mkFlag b#"socket-so-mark" [] [] (UintFlag 0);
   mkFlag b#"connection-min-idle" [b#"c"] [] (UintFlag 0);
   mkFlag b#"connection-retry-max-backoff" [b#"connection-retry-max-backoff-sec"] [] (DurationFlag (5 * 60 * Second));
   mkFlag b#"reverse-tunnel-connection-retry-max-backoff" [b#"reverse-tunnel-connection-retry-max-backoff-sec"] [] (DurationFlag (1 * Second));
   mkFlag b#"tls-sni-override" [] [] (StringFlag []);
   mkFlag b#"tls-sni-disable" [] [] (BoolFlag false);
   mkFlag b#"tls-ech-enable" [] [] (BoolFlag false);
   mkFlag b#"tls-verify-certificate" [] [] (BoolFlag false);
   mkFlag b#"http-proxy" [b#"p"] [b#"HTTP_PROXY"] (StringFlag []);
   mkFlag b#"http-proxy-login" [] [b#"WARPSTREAM_HTTP_PROXY_LOGIN"] (StringFlag []);
   mkFlag b#"http-proxy-password" [] [b#"WARPSTREAM_HTTP_PROXY_PASSWORD"] (StringFlag []);
   mkFlag b#"mode" [] [b#"WARPSTREAM_MODE"] (StringFlag b#"rust");
   mkFlag b#"jwt-secret" [] [] (StringFlag []);
   mkFlag b#"http-upgrade-path-prefix" [b#"prefix"; b#"P"] [b#"WARPSTREAM_HTTP_UPGRADE_PATH_PREFIX"] (StringFlag b#"v1");
   mkFlag b#"http-upgrade-credentials" [] [] (StringFlag []);
   mkFlag b#"websocket-ping-frequency" [b#"websocket-ping-frequency-sec"] [] (DurationFlag (30 * Second));
   mkFlag b#"websocket-mask-frame" [] [] (BoolFlag false);
   mkFlag b#"header" [b#"H"; b#"http-headers"] [] StringSliceFlag;
   mkFlag b#"http-headers-file" [] [] (StringFlag []);
   mkFlag b#"tls-certificate" [] [] (StringFlag []);
   mkFlag b#"tls-private-key" [] [] (StringFlag []);
   mkFlag b#"dns-resolver" [] [] StringSliceFlag;
   mkFlag b#"dns-resolver-prefer-ipv4" [] [b#"WARPSTREAM_DNS_PREFER_IPV4"] (BoolFlag false)].

Definition server_table : list flag :=
  [mkFlag b#"mode" [] [b#"WARPSTREAM_MODE"] (StringFlag b#"rust");
   mkFlag b#"jwt-secret" [] [] (StringFlag []);
   mkFlag b#"insecure-no-jwt-validation" [] [] (BoolFlag false);
   mkFlag b#"http-upgrade-path-prefix" [b#"prefix"; b#"P"] [b#"WARPSTREAM_HTTP_UPGRADE_PATH_PREFIX"] (StringFlag b#"v1");
   mkFlag b#"socket-so-mark" [] [] (UintFlag 0);
   mkFlag b#"websocket-ping-frequency" [b#"websocket-ping-frequency-sec"] [] (DurationFlag (30 * Second));
   mkFlag b#"websocket-mask-frame" [] [] (BoolFlag false);
   mkFlag b#"dns-resolver" [] [] StringSliceFlag;
   mkFlag b#"dns-resolver-prefer-ipv4" [] [b#"WARPSTREAM_DNS_PREFER_IPV4"] (BoolFlag false);
   mkFlag b#"restrict-to" [] [] StringSliceFlag;
   mkFlag b#"restrict-http-upgrade-path-prefix" [b#"r"] [b#"WARPSTREAM_RESTRICT_HTTP_UPGRADE_PATH_PREFIX"] StringSliceFlag;
   mkFlag b#"restrict-config" [] [] (StringFlag []);
   mkFlag b#"tls" [] [] (BoolFlag false);
   mkFlag b#"tls-certificate" [] [] (StringFlag []);
   mkFlag b#"tls-private-key" [] [] (StringFlag []);
   mkFlag b#"tls-client-ca-certs" [] [] (StringFlag []);
   mkFlag b#"http-proxy" [b#"p"] [b#"HTTP_PROXY"] (StringFlag []);
   mkFlag b#"http-proxy-login" [] [b#"WARPSTREAM_HTTP_PROXY_LOGIN"] (StringFlag []);
   mkFlag b#"http-proxy-password" [] [b#"WARPSTREAM_HTTP_PROXY_PASSWORD"] (StringFlag []);
   mkFlag b#"remote-to-local-server-idle-timeout" [b#"remote-to-local-server-idle-timeout-sec"] [] (DurationFlag (3 * 60 * Second))].

(** The kind of the flag of this name. *)
Definition declared (table : list flag) (name : bytes) : option flag_kind :=
  fl_Kind <$> List.find (λ f, bool_decide (fl_Name f = name)) table.

(** What a command reads when no flag and no environment variable is given. *)
Definition defaults (table : list flag) (args : list bytes) : flags :=
  mkFlags (λ _, false)
    (λ name, match declared table name with Some (StringFlag v) => v | _ => [] end)
    (λ name, match declared table name with Some (BoolFlag v) => v | _ => false end)
    (λ name, match declared table name with Some (UintFlag v) => v | _ => 0 end)
    (λ name, match declared table name with Some (DurationFlag v) => v | _ => 0 end)
    (λ _, []) args.

(** The client with only [--local-to-remote] given, and the server with no flag. *)
Definition client_flags (localToRemote args : list bytes) : flags :=
  let d := defaults client_table args in
  mkFlags (λ name, bool_decide (name = b#"local-to-remote")) (f_String d) (f_Bool d) (f_Uint d) (f_Duration d)
    (λ name, if bool_decide (name = b#"local-to-remote") then localToRemote else []) args.

Definition server_flags (args : list bytes) : flags := defaults server_table args.

(** ** Laws *)

(** No name or alias stands for two flags of a command. *)
Definition flag_names (table : list flag) : list bytes := table ≫= λ f, fl_Name f :: fl_Aliases f.

Lemma flag_names_distinct : NoDup (flag_names client_table) ∧ NoDup (flag_names server_table).
Proof. split; apply (bool_decide_unpack _); vm_compute; exact I. Qed.

(** The overrides read nothing but declared flags, each as the kind it is declared with: two
    contexts that agree on the declared flags give the same configuration. *)
Definition flags_agree (table : list flag) (c c' : flags) : Prop :=
  ∀ name, match declared table name with
          | Some k => IsSet c name = IsSet c' name ∧
              match k with
              | StringFlag _ => f_String c name = f_String c' name
              | BoolFlag _ => f_Bool c name = f_Bool c' name
              | UintFlag _ => f_Uint c name = f_Uint c' name
              | DurationFlag _ => f_Duration c name = f_Duration c' name
              | StringSliceFlag => f_StringSlice c name = f_StringSlice c' name
              end
          | None => True
          end.

Section agreement.
Context (table : list flag) (c c' : flags) (H : flags_agree table c c').

Ltac agree name E := let Ha := fresh in pose proof (H name) as Ha; rewrite E in Ha; destruct Ha as [-> ->]; reflexivity.

Lemma string_field_agree name file v : declared table name = Some (StringFlag v) → string_field c name file = string_field c' name file.
Proof. unfold string_field. intros E. agree name E. Qed.
Lemma slice_field_agree name file : declared table name = Some StringSliceFlag → slice_field c name file = slice_field c' name file.
Proof. unfold slice_field. intros E. agree name E. Qed.
Lemma duration_field_agree name file v : declared table name = Some (DurationFlag v) → duration_field c name file = duration_field c' name file.
Proof. unfold duration_field. intros E. agree name E. Qed.
Lemma bool_field_agree name file v : declared table name = Some (BoolFlag v) → bool_field c name file = bool_field c' name file.
Proof. unfold bool_field. intros E. agree name E. Qed.
Lemma uint32_field_agree name file v : declared table name = Some (UintFlag v) → uint32_field c name file = uint32_field c' name file.
Proof. unfold uint32_field. intros E. agree name E. Qed.
Lemma IsSet_agree name k : declared table name = Some k → IsSet c name = IsSet c' name.
Proof. intros E. pose proof (H name) as Ha. rewrite E in Ha. by destruct Ha. Qed.
End agreement.

Ltac field_declared H :=
  first [reflexivity
    | eapply (string_field_agree _ _ _ H) | eapply (slice_field_agree _ _ _ H) | eapply (duration_field_agree _ _ _ H)
    | eapply (bool_field_agree _ _ _ H) | eapply (uint32_field_agree _ _ _ H)
    | f_equal; eapply (IsSet_agree _ _ _ H)]; vm_compute; reflexivity.

Lemma overrides_read_declared c c' cc sc url headers :
  (flags_agree client_table c c' → applyClientFlagOverrides c cc url headers = applyClientFlagOverrides c' cc url headers) ∧
  (flags_agree server_table c c' → applyServerFlagOverrides c sc url = applyServerFlagOverrides c' sc url).
Proof.
  split; intros H.
  - unfold applyClientFlagOverrides. f_equal; field_declared H.
  - unfold applyServerFlagOverrides. f_equal; field_declared H.
Qed.

(** Filling a field twice is filling it once, however emptiness is tested. *)
Lemma override_same {A} set (empty : A → bool) (flag file : A) :
  let x := override set (empty file) flag file in override set (empty x) flag x = x.
Proof. unfold override. destruct set, (empty file) eqn:E; cbn; [done..| |by rewrite E]. by destruct (empty flag). Qed.

(** The parsed arguments in order, and their longest prefix without an error. *)
Definition outcomes (PD : bytes → option Z) (PQ : bytes → gmap bytes bytes) (config : ClientConfig) : list (go launched) :=
  ((λ a, ltr ← ParseTunnelArg PD PQ a false; Ok (Launched ltr)) <$> c_LocalToRemote config) ++
  ((λ a, ltr ← ParseTunnelArg PD PQ a true; Ok (LaunchedReverse ltr)) <$> c_RemoteToLocal config).

Fixpoint ok_prefix {A} (l : list (go A)) : list A :=
  match l with Ok x :: l' => x :: ok_prefix l' | _ => [] end.

Lemma ok_prefix_app {A} (l l' : list (go A)) :
  ok_prefix (l ++ l') = if bool_decide (length (ok_prefix l) = length l) then ok_prefix l ++ ok_prefix l' else ok_prefix l.
Proof.
  induction l as [|[x|e|] l IH]; cbn [app ok_prefix length]; [done|rewrite IH|done|done].
  destruct (decide (length (ok_prefix l) = length l)) as [E|E].
  - by rewrite !bool_decide_true by congruence.
  - by rewrite !bool_decide_false by congruence.
Qed.

Lemma ok_prefix_length {A} (l : list (go A)) : (length (ok_prefix l) ≤ length l)%nat.
Proof. induction l as [|[]]; cbn; lia. Qed.

Lemma start_tunnels_prefix PD PQ rev args started r :
  start_tunnels PD PQ rev args = (started, r) →
  let l := (λ a, ltr ← ParseTunnelArg PD PQ a rev; Ok (if rev then LaunchedReverse ltr else Launched ltr)) <$> args in
  started = ok_prefix l ∧ (r = Ok () ↔ length started = length l).
Proof.
  revert started r. induction args as [|a args IH]; intros started r; cbn [start_tunnels fmap list_fmap ok_prefix].
  { by intros [= <- <-]. }
  destruct (ParseTunnelArg PD PQ a rev) as [ltr|e|]; cbn [mbind go_bind]; [|by intros [= <- <-]..].
  destruct (start_tunnels PD PQ rev args) as [st r'] eqn:E. intros [= <- <-].
  destruct (IH st r' eq_refl) as [-> Hr]. split; [done|]. rewrite Hr. cbn [length]. split; congruence.
Qed.

(** ** Properties *)

(** The client starts the tunnels it was given: those of its arguments, the local
    ones first, in order, up to the first that cannot be parsed; it stays running
    exactly when every argument could be parsed and there is at least one. *)
Theorem startClient_exact PD PQ config started r :
  startClient PD PQ config = (started, r) →
  started = ok_prefix (outcomes PD PQ config) ∧
  (r = Ok () ↔ length started = length (outcomes PD PQ config) ∧ outcomes PD PQ config ≠ []).
Proof.
  unfold startClient, outcomes. destruct (start_tunnels PD PQ false _) as [s1 r1] eqn:E1.
  apply start_tunnels_prefix in E1 as [H1 Hr1]. destruct (start_tunnels PD PQ true _) as [s2 r2] eqn:E2.
  apply start_tunnels_prefix in E2 as [H2 Hr2]. cbn [negb] in *. rewrite ok_prefix_app, length_app.
  set (l1 := _ <$> c_LocalToRemote config) in *. set (l2 := _ <$> c_RemoteToLocal config) in *.
  assert (length s1 ≤ length l1)%nat as Hl1 by (rewrite H1; apply ok_prefix_length).
  assert (length s2 ≤ length l2)%nat as Hl2 by (rewrite H2; apply ok_prefix_length).
  rewrite <-H1, <-H2. destruct r1 as [[]|e1|].
  - rewrite bool_decide_true by by apply Hr1. destruct Hr1 as [Hr1 _]. specialize (Hr1 eq_refl).
    destruct r2 as [[]|e2|]; intros [= <- <-]; (split; [done|]); rewrite length_app.
    + destruct Hr2 as [Hr2 _]. specialize (Hr2 eq_refl). destruct s1, s2; cbn [isnil andb length] in *.
      * split; [done|]. destruct l1, l2; [by intros [_ []]|done..].
      * split; [|done]. intros _. split; [lia|]. destruct l1, l2; [done|done..].
      * split; [|done]. intros _. split; [lia|]. destruct l1; [done|]. done.
      * split; [|done]. intros _. split; [lia|]. destruct l1; [done|]. done.
    + split; [done|]. intros [Hl _]. destruct Hr2 as [_ Hr2]. discriminate Hr2. lia.
    + split; [done|]. intros [Hl _]. destruct Hr2 as [_ Hr2]. discriminate Hr2. lia.
  - intros [= <- <-]. assert (length s1 ≠ length l1) by (intros E; by apply Hr1 in E).
    rewrite bool_decide_false by done. split; [done|]. split; [done|]. intros [? _]. lia.
  - intros [= <- <-]. assert (length s1 ≠ length l1) by (intros E; by apply Hr1 in E).
    rewrite bool_decide_false by done. split; [done|]. split; [done|]. intros [? _]. lia.
Qed.

(** Where a server's setting comes from: applying the flags twice changes nothing
    more; a file whose fields are all filled is left as it is when no flag is given;
    and when every flag is given nothing of the file is left. *)
Theorem server_flag_precedence c config addr :
  applyServerFlagOverrides c (applyServerFlagOverrides c config addr) addr = applyServerFlagOverrides c config addr ∧
  ((∀ name, IsSet c name = false) → addr = [] →
   (∀ l, l ∈ [PathPrefix config; JWTSecret config; RestrictConfig config; TlsCertificate config; TlsPrivateKey config;
              TlsClientCaCerts config; HttpProxy config; HttpProxyLogin config; HttpProxyPassword config;
              WebsocketProtocol config] → l ≠ []) →
   (∀ l, l ∈ [DnsResolver config; RestrictTo config; RestrictHttpUpgradePathPrefix config] → l ≠ []) →
   WebsocketPingFrequency config ≠ 0 → RemoteToLocalServerIdleTimeout config ≠ 0 →
   applyServerFlagOverrides c config addr = config) ∧
  ((∀ name, IsSet c name = true) → addr ≠ [] →
   ∀ config', applyServerFlagOverrides c config addr = applyServerFlagOverrides c config' addr).
Proof.
  split_and!.
  - unfold applyServerFlagOverrides, string_field, slice_field, duration_field, bool_field, uint32_field. cbn.
    f_equal; try apply (override_same _ isnil); try apply (override_same _ (λ d, d =? 0)); try apply (override_same _ (λ _, false)).
    by destruct (bool_decide (addr = [])).
  - intros Hset -> H1 H2 H3 H4.
    assert (∀ name l, l ∈ [PathPrefix config; JWTSecret config; RestrictConfig config; TlsCertificate config; TlsPrivateKey config;
              TlsClientCaCerts config; HttpProxy config; HttpProxyLogin config; HttpProxyPassword config;
              WebsocketProtocol config] → string_field c name l = l) as Hs.
    { intros name l Hl%H1. unfold string_field. rewrite Hset. by destruct l. }
    assert (∀ name l, l ∈ [DnsResolver config; RestrictTo config; RestrictHttpUpgradePathPrefix config] →
              slice_field c name l = l) as Hl.
    { intros name l Hl%H2. unfold slice_field. rewrite Hset. by destruct l. }
    assert (∀ name d, d ≠ 0 → duration_field c name d = d) as Hd.
    { intros name d Hn. unfold duration_field. rewrite Hset. by apply Z.eqb_neq in Hn as ->. }
    unfold applyServerFlagOverrides, bool_field, uint32_field. rewrite !Hset, !Hd, !Hs, !Hl by (done || set_solver). by destruct config.
  - intros Hset Ha config'. unfold applyServerFlagOverrides, string_field, slice_field, duration_field, bool_field, uint32_field.
    rewrite bool_decide_false by done. by rewrite !Hset.
Qed.

(** A configuration file that cannot be read or decoded is not an error for the
    server: it starts as if there were no file; so unless the restrictions are also
    given as flags, it has no rules, and no secret to verify tokens with. *)
Theorem server_config_error_ignored `{RE : RegexpEngine} c load e lr :
  load (f_String c b#"config") = Err e →
  runServer c load = runServer c (λ _, Ok (mkFullConfig [] None None)) ∧
  (f_StringSlice c b#"restrict-to" = [] → f_StringSlice c b#"restrict-http-upgrade-path-prefix" = [] →
   f_String c b#"restrict-config" = [] → f_String c b#"jwt-secret" = [] →
   NewServer_rules lr (runServer c load) = None ∧ JWTSecret (runServer c load) = []).
Proof.
  intros He.
  assert (runServer c load = runServer c (λ _, Ok (mkFullConfig [] None None))) as E by (unfold runServer; by rewrite He).
  split; [done|]. intros H1 H2 H3 H4. rewrite E. unfold runServer. cbn [fc_Server default].
  assert (∀ A (b : bool) (x : A), (if b then x else x) = x) as Hif by by intros A [].
  rewrite Hif. set (s := applyServerFlagOverrides _ _ _).
  assert (RestrictTo s = [] ∧ RestrictHttpUpgradePathPrefix s = [] ∧ RestrictConfig s = [] ∧ JWTSecret s = []) as (E1 & E2 & E3 & E4).
  { unfold s, applyServerFlagOverrides, string_field, slice_field, override.
    cbn [RestrictTo RestrictHttpUpgradePathPrefix RestrictConfig JWTSecret noServerConfig isnil].
    by rewrite H1, H2, H3, H4, !orb_true_r. }
  clearbody s. destruct (bool_decide (ListenAddr s = [])); unfold NewServer_rules;
    cbn [RestrictTo RestrictHttpUpgradePathPrefix RestrictConfig JWTSecret]; by rewrite E1, E2, E3, E4.
Qed.

(** A client and a server started with default flags work together: the server of
    [warpstream server] has no rules, and it serves the request of a client started
    with [warpstream client -L ... URL], whatever tunnel is asked for and whichever
    transport the URL chooses, with exactly the identifier, protocol, host and port
    asked for. *)
Theorem default_deployment `{RE : RegexpEngine} `{J : JwtLibrary} `{S : !JwtSigner J} range load lr tunnels saddr url u open id p host port t req cn addr :
  (∀ m, range m ≡ₚ map_to_list m) → encodable (mkClaims id p host port) →
  connectToTransport range (client_config (client_flags tunnels [url]) load) (Ok u) open id p host port = Ok (t, req) →
  let sc := runServer (server_flags saddr) load in
  NewServer_rules lr sc = None ∧
  ServeHTTP sc (NewServer_rules lr sc) (as_seen req cn addr) = served_as sc t (mkClaims id p host port) ∧
  t = if bool_decide (Scheme u = b#"http") || bool_decide (Scheme u = b#"https") then OverHttp2 else OverNative.
Proof.
  intros Hrange He Hc sc.
  assert (NewServer_rules lr sc = None) as Hr by (unfold sc, runServer; cbn; by case_match).
  rewrite Hr. split; [done|]. split.
  - eapply (request_served range Hrange (client_config (client_flags tunnels [url]) load)); [exact He|exact Hc|..].
    + right. unfold sc, runServer. cbn. by case_match.
    + unfold sc, runServer. cbn. by case_match.
    + intros k v Hk. change ((∅ : gmap bytes bytes) !! k = Some v) in Hk. by rewrite lookup_empty in Hk.
    + intros k v Hk. change ((∅ : gmap bytes bytes) !! k = Some v) in Hk. by rewrite lookup_empty in Hk.
    + by left.
  - unfold connectToTransport in Hc. destruct (generateJWT _ _ _ _ _); [|done..].
    assert (transport_of (client_config (client_flags tunnels [url]) load) u =
      if bool_decide (Scheme u = b#"http") || bool_decide (Scheme u = b#"https") then OverHttp2 else OverNative) as Et
      by (unfold transport_of; by destruct (_ || _)).
    rewrite Et in Hc. destruct (_ || _); by injection Hc.
Qed.

(** ** Examples *)

Lemma startClient_exact_witness :
  let config := client_config (client_flags [b#"tcp://8080:db:5432"; b#"oops"; b#"udp://53:ns:53"] [b#"wss://gateway"])
                  (λ _, Err ErrIO) in
  [Launched (mkLtr (setTcp (mkTcp false) noProtocol) b#"127.0.0.1:8080" b#"db" 5432)]
    = ok_prefix (outcomes no_durations no_query config) ∧
  (Err (Errorf b#"failed to parse local-to-remote tunnel %s: %w" []) = Ok () ↔
   length [Launched (mkLtr (setTcp (mkTcp false) noProtocol) b#"127.0.0.1:8080" b#"db" 5432)]
     = length (outcomes no_durations no_query config) ∧ outcomes no_durations no_query config ≠ []).
Proof. intros config. apply (startClient_exact no_durations no_query config). vm_compute. reflexivity. Defined.

Lemma server_config_error_ignored_witness :
  let c := mkFlags (λ name, bool_decide (name = b#"config")) (λ name, if bool_decide (name = b#"config") then b#"/etc/ws.yaml" else [])
             (λ _, false) (λ _, 0) (λ _, 0) (λ _, []) [] in
  let load := λ _ : bytes, Err ErrIO : go FullConfig in
  runServer c load = runServer c (λ _, Ok (mkFullConfig [] None None)) ∧
  (f_StringSlice c b#"restrict-to" = [] → f_StringSlice c b#"restrict-http-upgrade-path-prefix" = [] →
   f_String c b#"restrict-config" = [] → f_String c b#"jwt-secret" = [] →
   NewServer_rules (RE:=LiteralEngine) (Err ErrIO) (runServer c load) = None ∧ JWTSecret (runServer c load) = []).
Proof. intros c load. by apply (server_config_error_ignored (RE:=LiteralEngine) c load ErrIO (Err ErrIO)). Defined.

Definition default_client : ClientConfig := client_config (client_flags [b#"tcp://8080:10.0.0.7:80"] [b#"ws://gw"]) (λ _, Err ErrIO).

Lemma default_deployment_witness :
  match connectToTransport map_to_list default_client (Ok (mkURL b#"ws" b#"gw" [] b#"/")) (Ok []) [] (setTcp (mkTcp false) noProtocol)
          b#"10.0.0.7" 80 with
  | Ok (t, req) =>
      let sc := runServer (server_flags []) (λ _, Err ErrIO) in
      NewServer_rules (RE:=LiteralEngine) (Err ErrIO) sc = None ∧
      ServeHTTP (RE:=LiteralEngine) sc (NewServer_rules (RE:=LiteralEngine) (Err ErrIO) sc) (as_seen req None b#"198.51.100.4:5060") =
        served_as sc t (mkClaims [] (setTcp (mkTcp false) noProtocol) b#"10.0.0.7" 80) ∧
      t = OverNative
  | _ => False
  end.
Proof.
  destruct (connectToTransport _ _ _ _ _ _ _ _) as [[t req]|e|] eqn:E; [|by vm_compute in E..].
  apply (default_deployment (RE:=LiteralEngine) map_to_list (λ _, Err ErrIO) (Err ErrIO) [b#"tcp://8080:10.0.0.7:80"] [] b#"ws://gw"
    (mkURL b#"ws" b#"gw" [] b#"/") (Ok []) [] (setTcp (mkTcp false) noProtocol) b#"10.0.0.7" 80 t req None b#"198.51.100.4:5060").
  - intros m. reflexivity.
  - reflexivity.
  - exact E.
Defined.
