(* ===== verification/Deploy.v ===== *)
(** How a server is put on the network: [Server.Start] of pkg/server/server.go, and
    the handler of pkg/caddy/caddy.go that runs the same server inside another one.

    Listening, reading files, parsing URLs and making certificates are parameters. *)

From S2P Require Import Prelude GoStrings GoNet GoIO GoHttp Wst Upgrade Protocol Restrictions CertReloader Manager ManagerSys Server ServerThms TunnelArg Client ClientThms.

(** ** A server of its own *)

(** Where the certificate comes from, and the certificates clients must have, when
    they must. *)
Inductive certificate := Reloaded (r : reloader) | Ephemeral (chain : list bytes).
Record server_tls := mkServerTls { st_cert : certificate; st_clientCAs : option bytes }.
Inductive serving := ServeTLS (addr : bytes) (cfg : server_tls) | Serve (addr : bytes).

Definition listen_addr (Parse : bytes → go URL) (addr : bytes) : bytes :=
  if Contains addr b#"://" then
    match Parse addr with
    | Ok u =>
        let port := if bool_decide (u_Port u = []) then
                      (if bool_decide (Scheme u = b#"wss") || bool_decide (Scheme u = b#"https") then b#"443" else b#"80")
                    else u_Port u in
        JoinHostPort (u_Hostname u) port
    | _ => addr
    end
  else addr.

Definition wants_tls (config : Config) : bool :=
  (negb (bool_decide (TlsCertificate config = [])) && negb (bool_decide (TlsPrivateKey config = []))) ||
  Tls config || negb (bool_decide (TlsClientCaCerts config = [])).

(** The TLS configuration; [reload] is [NewCertReloader] on the configured files and
    [generate] is [generateSelfSignedCert] for further hosts. *)
Definition tls_setup (config : Config) (ReadFile : bytes → go bytes) (reload : bytes → bytes → go reloader) (generate : list bytes → go (list bytes)) :
    go server_tls :=
  cas ← (if negb (bool_decide (TlsClientCaCerts config = [])) then
           match ReadFile (TlsClientCaCerts config) with
           | Ok caCert => Ok (Some caCert)
           | Err e => Err (Errorf b#"failed to read client CA certs: %w" [])
           | Panic => Panic
           end
         else Ok None);
  if negb (bool_decide (TlsCertificate config = [])) && negb (bool_decide (TlsPrivateKey config = [])) then
    match reload (TlsCertificate config) (TlsPrivateKey config) with
    | Ok r => Ok (mkServerTls (Reloaded r) cas)
    | Err e => Err (Errorf b#"failed to load TLS certificates: %w" [])
    | Panic => Panic
    end
  else
    match generate [] with
    | Ok chain => Ok (mkServerTls (Ephemeral chain) cas)
    | Err e => Err (Errorf b#"failed to generate ephemeral self-signed certificate: %w" [])
    | Panic => Panic
    end.

Definition Start (config : Config) (Parse : bytes → go URL) (listen : bytes → go unit) (configureHttp2 : go unit)
    (ReadFile : bytes → go bytes) (reload : bytes → bytes → go reloader) (generate : list bytes → go (list bytes)) : go serving :=
  let addr := listen_addr Parse (ListenAddr config) in
  _ ← listen addr;
  _ ← match configureHttp2 with Err e => Err (Errorf b#"failed to configure HTTP/2: %w" []) | r => r end;
  if wants_tls config then cfg ← tls_setup config ReadFile reload generate; Ok (ServeTLS addr cfg)
  else Ok (Serve addr).

(** ** The server's state *)

(** [Server]; its mux only routes every path to [ServeHTTP]. *)
Record server `{RE : RegexpEngine} := mkServer {
  srv_Config : Config;
  srv_rvMgr : world;
  srv_rules : option RestrictionsRules;
  srv_reloader : option reloader
}.
Arguments mkServer {RE} _ _ _ _.

Section server_state.
Context `{RE : RegexpEngine}.

(** [load] is the result of [LoadRestrictions], [now] the time the manager starts. *)
Definition NewServer (load : go RestrictionsRules) (now : Z) (config : Config) : server :=
  mkServer config (NewReverseTunnelManager (SocketSoMark config) (RemoteToLocalServerIdleTimeout config) now)
    (NewServer_rules load config) None.

Definition SetRules (rules : option RestrictionsRules) (s : server) : server :=
  mkServer (srv_Config s) (srv_rvMgr s) rules (srv_reloader s).
Definition GetRules (s : server) : option RestrictionsRules := srv_rules s.

(** [reload] is [Reload] of the certificate reloader. *)
Definition ReloadCertificate (reload : reloader → go reloader) (s : server) : go server :=
  match srv_reloader s with
  | None => Err (Errorf b#"no certificate reloader configured on server" [])
  | Some r => r' ← reload r; Ok (mkServer (srv_Config s) (srv_rvMgr s) (srv_rules s) (Some r'))
  end.
End server_state.

(** ** Inside another server *)

(** [Provision] with the configuration and the inline restrictions of the module: the
    rules written inside the web server's configuration are appended to the server's. *)
Definition Provision `{RE : RegexpEngine} (load : go RestrictionsRules) (now : Z) (config : Config) (inline : RestrictionsRules) : server :=
  let config := if bool_decide (WebsocketProtocol config = []) then
      mkConfig (ListenAddr config) (PathPrefix config) (JWTSecret config) (InsecureNoJWTValidation config) (SocketSoMark config)
        (WebsocketPingFrequency config) (WebsocketMaskFrame config) (DnsResolver config) (DnsResolverPreferIpv4 config)
        (RestrictTo config) (RestrictHttpUpgradePathPrefix config) (RestrictConfig config) (Tls config) (TlsCertificate config)
        (TlsPrivateKey config) (TlsClientCaCerts config) (HttpProxy config) (HttpProxyLogin config) (HttpProxyPassword config)
        (RemoteToLocalServerIdleTimeout config) b#"rust"
    else config in
  let s := NewServer load now config in
  if (0 <? length inline)%nat then
    let s := if bool_decide (is_Some (GetRules s)) then s else SetRules (Some []) s in
    SetRules (Some (default [] (GetRules s) ++ inline)) s
  else s.

(** [None]: the request is passed on to the next handler. *)
Definition caddy_ServeHTTP `{RE : RegexpEngine} `{J : JwtLibrary} (config : Config) (rules : option RestrictionsRules)
    (method : bytes) (r : Request) : option response :=
  let isWebsocket := ToLowerIs (Header_Get r b#"Upgrade") b#"websocket" in
  let isH2Tunnel := (2 <=? ProtoMajor r) && bool_decide (method = b#"POST") &&
                    bool_decide (Header_Get r b#"Content-Type" = b#"application/json") in
  if negb isWebsocket && negb isH2Tunnel then None
  else if negb (bool_decide (PathPrefix config = [])) && negb (HasPrefix (URL_Path r) (b#"/" ++ PathPrefix config)) then None
  else Some (ServeHTTP config rules r).

(** ** Laws *)

Lemma tls_setup_ok config ReadFile reload generate cfg :
  tls_setup config ReadFile reload generate = Ok cfg →
  (TlsClientCaCerts config ≠ [] → ∃ ca, st_clientCAs cfg = Some ca ∧ ReadFile (TlsClientCaCerts config) = Ok ca) ∧
  (TlsCertificate config ≠ [] → TlsPrivateKey config ≠ [] → ∃ r,
     st_cert cfg = Reloaded r ∧ reload (TlsCertificate config) (TlsPrivateKey config) = Ok r) ∧
  (∀ chain, st_cert cfg = Ephemeral chain → generate [] = Ok chain ∧ (TlsCertificate config = [] ∨ TlsPrivateKey config = [])).
Proof.
  unfold tls_setup. intros (cas & Hc & H)%go_bind_ok. split_and!.
  - intros Hn. rewrite bool_decide_false in Hc by done. cbn [negb] in Hc. destruct (ReadFile _) as [ca|e|]; simplify_eq.
    exists ca. split; [|done]. by repeat case_match; simplify_eq.
  - intros H1 H2. rewrite !bool_decide_false in H by done. cbn [negb andb] in H. destruct (reload _ _); simplify_eq. eauto.
  - intros chain Hch. destruct (bool_decide_reflect (TlsCertificate config = [])), (bool_decide_reflect (TlsPrivateKey config = []));
      cbn [negb andb] in H; repeat case_match; simplify_eq/=; eauto.
Qed.

(** ** Properties *)

(** When no TLS is wanted. *)
Lemma wants_tls_spec config : wants_tls config = false ↔
  TlsClientCaCerts config = [] ∧ Tls config = false ∧ (TlsCertificate config = [] ∨ TlsPrivateKey config = []).
Proof.
  unfold wants_tls. rewrite !orb_false_iff, andb_false_iff, !negb_false_iff, !bool_decide_eq_true. tauto.
Qed.

(** C27: clients are authenticated when they should be: a server that starts with a file
    of client certificates serves TLS only, and asks every client for a certificate of
    that file; one that starts with a certificate and key serves them, one without them
    an ephemeral certificate for no further host; it serves plain HTTP exactly when there
    is no file of client certificates, no [--tls], and not both a certificate and a key,
    so also when only one of the two is given; and it listens on the address a client with
    the same URL dials. *)
Theorem start_tls_enforced config Parse listen h2 ReadFile reload generate s :
  Start config Parse listen h2 ReadFile reload generate = Ok s →
  (TlsClientCaCerts config ≠ [] → ∃ addr cert ca,
     s = ServeTLS addr (mkServerTls cert (Some ca)) ∧ ReadFile (TlsClientCaCerts config) = Ok ca) ∧
  (TlsCertificate config ≠ [] → TlsPrivateKey config ≠ [] → ∃ addr r cas,
     s = ServeTLS addr (mkServerTls (Reloaded r) cas) ∧ reload (TlsCertificate config) (TlsPrivateKey config) = Ok r) ∧
  ((∃ addr, s = Serve addr) ↔ TlsClientCaCerts config = [] ∧ Tls config = false ∧
     (TlsCertificate config = [] ∨ TlsPrivateKey config = [])) ∧
  (∀ addr chain cas, s = ServeTLS addr (mkServerTls (Ephemeral chain) cas) →
     generate [] = Ok chain ∧ (TlsCertificate config = [] ∨ TlsPrivateKey config = [])) ∧
  (∀ u, Contains (ListenAddr config) b#"://" = true → Parse (ListenAddr config) = Ok u →
     listen (server_addr u) = Ok () ∧ match s with ServeTLS a _ | Serve a => a = server_addr u end).
Proof.
  unfold Start. set (addr := listen_addr Parse (ListenAddr config)). intros ([] & El & (_ & _ & H)%go_bind_ok)%go_bind_ok.
  assert (∀ u, Contains (ListenAddr config) b#"://" = true → Parse (ListenAddr config) = Ok u → addr = server_addr u) as Ha.
  { intros u Hc Hp. unfold addr, listen_addr. by rewrite Hc, Hp. }
  destruct (wants_tls config) eqn:Ew.
  - apply go_bind_ok in H as ([cert cas] & Ht & [= <-]). apply tls_setup_ok in Ht as (H1 & H2 & H3). cbn [st_cert st_clientCAs] in H1, H2, H3. split_and!.
    + intros (ca & -> & Hr)%H1. eauto.
    + intros Hc Hk. destruct (H2 Hc Hk) as (r & -> & Hr). eauto.
    + split; [by intros [? [=]]|]. intros Hp%wants_tls_spec. congruence.
    + intros addr' chain cas' [= _ -> _]. by apply H3.
    + intros u Hc Hp. rewrite <-(Ha u) by done. done.
  - injection H as <-. pose proof (proj1 (wants_tls_spec config) Ew) as (Ew1 & Ew2 & Ew3).
    split_and!; [naive_solver..|split; [done|by eexists]|done|intros u Hc Hp; by rewrite <-(Ha u)].
Qed.

(** A half configuration is not refused: without a file of client certificates and
    without [--tls], a server that is given a certificate and no key, or a key and no
    certificate, or a listen address of the scheme wss or https, starts as soon as it can
    listen and serves plain HTTP on that address. *)
Theorem half_tls_served_plain config Parse listen ReadFile reload generate :
  TlsClientCaCerts config = [] → Tls config = false → (TlsCertificate config = [] ∨ TlsPrivateKey config = []) →
  listen (listen_addr Parse (ListenAddr config)) = Ok () →
  Start config Parse listen (Ok ()) ReadFile reload generate = Ok (Serve (listen_addr Parse (ListenAddr config))).
Proof.
  intros H1 H2 H3 Hl. assert (wants_tls config = false) as Hw by (by apply wants_tls_spec).
  unfold Start. rewrite Hl. cbn [mbind go_bind]. by rewrite Hw.
Qed.

Lemma Provision_rules `{RE : RegexpEngine} load now config inline :
  inline ≠ [] →
  GetRules (Provision load now config inline) =
    Some (default [] (NewServer_rules load (srv_Config (Provision load now config inline))) ++ inline).
Proof.
  intros Hi. unfold Provision. set (config' := if bool_decide _ then _ else config). cbv zeta. destruct inline; [done|].
  cbn [length Nat.ltb Nat.leb]. unfold GetRules, SetRules, NewServer. cbn [srv_rules srv_Config].
  destruct (NewServer_rules load config') eqn:E; [rewrite bool_decide_true by eauto | rewrite bool_decide_false by (by intros [? ?])];
    cbn [srv_rules srv_Config]; by rewrite E.
Qed.

(** The rules written inside the web server's configuration add to those of the
    restriction file: with inline rules a tunnel is permitted exactly when a rule of
    the file or an inline rule permits it; in particular a file that cannot be loaded
    does not leave the server open when there are inline rules. *)
Theorem caddy_inline_rules `{RE : RegexpEngine} load now config inline claims path auth cn :
  inline ≠ [] → let s := Provision load now config inline in
  let rules := GetRules s in
  let file := default [] (NewServer_rules load (srv_Config s)) in
  rules_wf rules →
  (Validate rules claims path auth cn = Ok true ↔
   (file ≠ [] ∧ Validate (Some file) claims path auth cn = Ok true) ∨ Validate (Some inline) claims path auth cn = Ok true).
Proof.
  intros Hi s rules file. assert (rules = Some (file ++ inline)) as ->.
  { unfold rules, file, s. apply Provision_rules, Hi. }
  intros Hwf.
  assert (rules_wf (Some file) ∧ rules_wf (Some inline)) as [Hwf1 Hwf2].
  { specialize (Hwf _ eq_refl). apply Forall_app in Hwf as [? ?]. split; by intros ? [= <-]. }
  rewrite !Validate_permitted by done. unfold permitted. split.
  - intros [?|[[= ?%app_nil]|(rl & rc & [= <-] & [Hin|Hin]%elem_of_app & H)]]; [done|naive_solver| |].
    + left. split; [by intros Hnil; rewrite Hnil in Hin; apply elem_of_nil in Hin|]. right. right. eauto 10.
    + right. right. right. eauto 10.
  - intros [[Hf [?|[?|(rl & rc & [= <-] & Hin & H)]]]|[?|[?|(rl & rc & [= <-] & Hin & H)]]]; try (done || congruence).
    + right. right. eexists _, rc. split; [done|]. split; [apply elem_of_app; by left|done].
    + right. right. eexists _, rc. split; [done|]. split; [apply elem_of_app; by right|done].
Qed.

Section caddy_client.
Context `{RE : RegexpEngine} `{J : JwtLibrary} `{S : !JwtSigner J} (range : gmap bytes bytes → list (bytes * bytes)).
Hypothesis range_entries : ∀ m, range m ≡ₚ map_to_list m.

Definition method_of (t : transport) : bytes := match t with OverHttp2 => b#"POST" | _ => b#"GET" end.

(** A client reaches its server through the web server: the request a client makes,
    over any transport, is recognised by the handler, not passed on, and answered as the
    server alone would answer it, with exactly the tunnel asked for. *)
Theorem caddy_client_request c sc rules u open id p host port t req cn addr :
  let claims := mkClaims id p host port in
  let r := as_seen req cn addr in
  encodable claims →
  connectToTransport range c (Ok u) open id p host port = Ok (t, req) →
  PathPrefix sc = [] ∨ PathPrefix sc = Trim (c_PathPrefix c) b#"/" →
  (WebsocketProtocol sc = b#"ws" → JWTSecret sc ≠ [] → JWTSecret sc = secret_of c) →
  not_reserved (c_Headers c) → not_reserved (loadHttpHeaders c open) →
  (∀ m, m = c_Headers c ∨ m = loadHttpHeaders c open → ∀ k v, m !! k = Some v →
     CanonicalHeaderKey k ≠ CanonicalHeaderKey b#"Content-Type") →
  (rules = None ∨ Validate rules claims (URL_Path r) (Header_Get r b#"Authorization") (default [] cn) = Ok true) →
  caddy_ServeHTTP sc rules (method_of t) r = Some (served_as sc t claims).
Proof.
  intros claims r He Hc Hp Hsec Hh1 Hh2 Hct Hrules.
  pose proof (request_served range range_entries c sc rules u open id p host port t req cn addr He Hc Hp Hsec Hh1 Hh2 Hrules) as Hserve.
  unfold connectToTransport in Hc. destruct (generateJWT c id p host port) as [tok|e|]; [|done..].
  assert (URL_Path r = eventsPath (c_PathPrefix c)) as Hpath by (destruct (transport_of c u); by injection Hc as <- <-).
  unfold caddy_ServeHTTP. fold r in Hserve. fold claims in Hserve. rewrite Hserve, Hpath, prefix_of_eventsPath by done.
  destruct (transport_of c u); injection Hc as <- <-; [|done..].
  assert (Header_Get r b#"Content-Type" = b#"application/json") as ->.
  { change (header_Get (http2_header range c (loadHttpHeaders c open) tok) b#"Content-Type" = b#"application/json").
    unfold http2_header. rewrite custom_headers_other by (done || by vm_compute). by rewrite header_Get_Set, decide_True. }
  change (ProtoMajor r) with 2. cbn [method_of]. rewrite !bool_decide_true by done. by rewrite andb_false_r.
Qed.
End caddy_client.

(** ** Examples *)

Definition mtls_config : Config :=
  mkConfig b#"wss://gateway.example.com" b#"v1" [] false 0 0 false [] false [] [] [] false [] [] b#"/etc/ca.pem" [] [] [] 0 b#"rust".

Lemma start_tls_enforced_witness :
  let s := ServeTLS b#"gateway.example.com:443" (mkServerTls (Ephemeral [b#"DER"]) (Some b#"CA")) in
  let ReadFile := λ f : bytes, if bool_decide (f = b#"/etc/ca.pem") then Ok b#"CA" else Err ErrIO in
  let Parse := λ _ : bytes, Ok example_url in
  let listen := λ _ : bytes, Ok () in
  let reload := λ _ _ : bytes, Err ErrIO : go reloader in
  (TlsClientCaCerts mtls_config ≠ [] → ∃ addr cert ca,
     s = ServeTLS addr (mkServerTls cert (Some ca)) ∧ ReadFile (TlsClientCaCerts mtls_config) = Ok ca) ∧
  (TlsCertificate mtls_config ≠ [] → TlsPrivateKey mtls_config ≠ [] → ∃ addr r cas,
     s = ServeTLS addr (mkServerTls (Reloaded r) cas) ∧ reload (TlsCertificate mtls_config) (TlsPrivateKey mtls_config) = Ok r) ∧
  ((∃ addr, s = Serve addr) ↔ TlsClientCaCerts mtls_config = [] ∧ Tls mtls_config = false ∧
     (TlsCertificate mtls_config = [] ∨ TlsPrivateKey mtls_config = [])) ∧
  (∀ addr chain cas, s = ServeTLS addr (mkServerTls (Ephemeral chain) cas) →
     (Ok [b#"DER"] : go (list bytes)) = Ok chain ∧ (TlsCertificate mtls_config = [] ∨ TlsPrivateKey mtls_config = [])) ∧
  (∀ u, Contains (ListenAddr mtls_config) b#"://" = true → Parse (ListenAddr mtls_config) = Ok u →
     listen (server_addr u) = Ok () ∧ match s with ServeTLS a _ | Serve a => a = server_addr u end).
Proof.
  intros s ReadFile Parse listen reload.
  apply (start_tls_enforced mtls_config Parse listen (Ok ()) ReadFile reload (λ _, Ok [b#"DER"]) s). vm_compute. reflexivity.
Defined.

(** A certificate, its key forgotten, and a wss address: plain HTTP on port 443. *)
Lemma half_tls_served_plain_witness :
  let config := mkConfig b#"wss://gateway.example.com" b#"v1" [] false 0 0 false [] false [] [] [] false
                  b#"/etc/cert.pem" [] [] [] [] [] 0 b#"rust" in
  let Parse := λ _ : bytes, Ok example_url in
  TlsCertificate config = b#"/etc/cert.pem" ∧ TlsPrivateKey config = [] ∧
  Start config Parse (λ _, Ok ()) (Ok ()) (λ _, Err ErrIO) (λ _ _, Err ErrIO) (λ _, Err ErrIO) =
    Ok (Serve (listen_addr Parse (ListenAddr config))) ∧
  listen_addr Parse (ListenAddr config) = b#"gateway.example.com:443".
Proof.
  intros config Parse. split_and!; [reflexivity..| |by vm_compute].
  apply (half_tls_served_plain config Parse (λ _, Ok ()) (λ _, Err ErrIO) (λ _ _, Err ErrIO) (λ _, Err ErrIO));
    [reflexivity..|by right|reflexivity].
Defined.

Lemma caddy_inline_rules_witness :
  let inline := [mkRestriction b#"open" [mkMatch true None None None] [mkAllow (Some (mkAllowTunnel [] [] None [])) None]] in
  let s := Provision (RE:=LiteralEngine) (Err ErrIO) 0 mtls_config inline in
  let rules := GetRules s in
  let file := default [] (NewServer_rules (RE:=LiteralEngine) (Err ErrIO) (srv_Config s)) in
  let claims := mkClaims [] (setTcp (mkTcp false) noProtocol) b#"db" 5432 in
  (Validate (RE:=LiteralEngine) rules claims b#"/v1/events" [] [] = Ok true ↔
   (file ≠ [] ∧ Validate (RE:=LiteralEngine) (Some file) claims b#"/v1/events" [] [] = Ok true) ∨
   Validate (RE:=LiteralEngine) (Some inline) claims b#"/v1/events" [] [] = Ok true).
Proof.
  intros inline.
  apply (caddy_inline_rules (RE:=LiteralEngine) (Err ErrIO) 0 mtls_config inline
    (mkClaims [] (setTcp (mkTcp false) noProtocol) b#"db" 5432) b#"/v1/events" [] []).
  - discriminate.
  - intros rules [= <-]. apply Forall_singleton, Forall_singleton. split; intros t [= <-]. by split; [discriminate|constructor].
Defined.

Lemma caddy_client_request_witness :
  match connectToTransport map_to_list example_client (Ok (with_scheme b#"https" example_url)) (Ok []) []
          (setTcp (mkTcp false) noProtocol) b#"10.0.0.7" 80 with
  | Ok (t, req) =>
      t = OverHttp2 ∧
      caddy_ServeHTTP (RE:=LiteralEngine) example_config None (method_of t) (as_seen req None b#"198.51.100.4:5060") =
        Some (served_as example_config t (mkClaims [] (setTcp (mkTcp false) noProtocol) b#"10.0.0.7" 80))
  | _ => False
  end.
Proof.
  destruct (connectToTransport _ _ _ _ _ _ _ _) as [[t req]|e|] eqn:E; [|by vm_compute in E..].
  split; [by injection E|].
  apply (caddy_client_request (RE:=LiteralEngine) map_to_list (λ m, reflexivity _) example_client example_config None
    (with_scheme b#"https" example_url) (Ok []) [] (setTcp (mkTcp false) noProtocol) b#"10.0.0.7" 80 t req None b#"198.51.100.4:5060").
  - reflexivity.
  - exact E.
  - right. by vm_compute.
  - intros _ _. reflexivity.
  - intros k v Hk j Hj. cbn [c_Headers example_client] in Hk. apply lookup_singleton_Some in Hk as [<- <-].
    repeat (apply elem_of_cons in Hj as [->|Hj]; [by vm_compute|]). by apply elem_of_nil in Hj.
  - intros k v Hk. change ((∅ : gmap bytes bytes) !! k = Some v) in Hk. by rewrite lookup_empty in Hk.
  - intros m [->| ->] k v Hk.
    + cbn [c_Headers example_client] in Hk. apply lookup_singleton_Some in Hk as [<- <-]. by vm_compute.
    + change ((∅ : gmap bytes bytes) !! k = Some v) in Hk. by rewrite lookup_empty in Hk.
  - by left.
Defined.
