(* ===== verification/Caddyfile.v ===== *)
(** pkg/caddy/caddy.go, [UnmarshalCaddyfile]: the module's block in the configuration
    file of the web server.

    The tokens come from the web server's dispenser, the class [Dispenser] with the
    documented behaviour [DispenserLaw].  The reference is [apply_line]: what a line
    of the block does to the configuration, by recursion on its words. *)

From S2P Require Import Prelude GoStrings Protocol Restrictions Manager Server.

(** ** The dispenser *)

Class Dispenser := {
  disp : Type;
  Next : disp → bool * disp;
  (** [NextBlock(0)] *)
  NextBlock : disp → bool * disp;
  Val : disp → bytes;
  NextArg : disp → bool * disp;
  RemainingArgs : disp → list bytes * disp
}.

(** The text is a list of segments, each with the lines of its block, each a list of
    words.  [at_start d segs]: the segments are still to come; [on_line d args b
    segs]: the cursor is on a word, [args] are those after it on its line, [b] the
    further lines of the block.  [NextBlock] loads the next word, on whatever line. *)
Class DispenserLaw (D : Dispenser) := {
  at_start : disp → list (list (list bytes)) → Prop;
  on_line : disp → list bytes → list (list bytes) → list (list (list bytes)) → Prop;
  next_segment : ∀ d b segs, at_start d (b :: segs) → ∃ d', Next d = (true, d') ∧ on_line d' [] b segs;
  next_none : ∀ d, at_start d [] → (Next d).1 = false;
  block_end : ∀ d segs, on_line d [] [] segs → ∃ d', NextBlock d = (false, d') ∧ at_start d' segs;
  block_line : ∀ d n args b segs, on_line d [] ((n :: args) :: b) segs →
    ∃ d', NextBlock d = (true, d') ∧ Val d' = n ∧ on_line d' args b segs;
  block_word : ∀ d a args b segs, on_line d (a :: args) b segs →
    ∃ d', NextBlock d = (true, d') ∧ Val d' = a ∧ on_line d' args b segs;
  arg_word : ∀ d a args b segs, on_line d (a :: args) b segs →
    ∃ d', NextArg d = (true, d') ∧ Val d' = a ∧ on_line d' args b segs;
  arg_none : ∀ d b segs, on_line d [] b segs → (NextArg d).1 = false;
  args_rest : ∀ d args b segs, on_line d args b segs → ∃ d', RemainingArgs d = (args, d') ∧ on_line d' [] b segs
}.

(** ** The module's options *)

Definition setWebsocketProtocol (x : bytes) (w : Config) : Config :=
  mkConfig (ListenAddr w) (PathPrefix w) (JWTSecret w) (InsecureNoJWTValidation w) (SocketSoMark w)
    (WebsocketPingFrequency w) (WebsocketMaskFrame w) (DnsResolver w) (DnsResolverPreferIpv4 w) (RestrictTo w)
    (RestrictHttpUpgradePathPrefix w) (RestrictConfig w) (Tls w) (TlsCertificate w) (TlsPrivateKey w)
    (TlsClientCaCerts w) (HttpProxy w) (HttpProxyLogin w) (HttpProxyPassword w)
    (RemoteToLocalServerIdleTimeout w) x.
Definition setPathPrefix (x : bytes) (w : Config) : Config :=
  mkConfig (ListenAddr w) x (JWTSecret w) (InsecureNoJWTValidation w) (SocketSoMark w) (WebsocketPingFrequency
    w) (WebsocketMaskFrame w) (DnsResolver w) (DnsResolverPreferIpv4 w) (RestrictTo w)
    (RestrictHttpUpgradePathPrefix w) (RestrictConfig w) (Tls w) (TlsCertificate w) (TlsPrivateKey w)
    (TlsClientCaCerts w) (HttpProxy w) (HttpProxyLogin w) (HttpProxyPassword w)
    (RemoteToLocalServerIdleTimeout w) (WebsocketProtocol w).
Definition setRestrictConfig (x : bytes) (w : Config) : Config :=
  mkConfig (ListenAddr w) (PathPrefix w) (JWTSecret w) (InsecureNoJWTValidation w) (SocketSoMark w)
    (WebsocketPingFrequency w) (WebsocketMaskFrame w) (DnsResolver w) (DnsResolverPreferIpv4 w) (RestrictTo w)
    (RestrictHttpUpgradePathPrefix w) x (Tls w) (TlsCertificate w) (TlsPrivateKey w) (TlsClientCaCerts w)
    (HttpProxy w) (HttpProxyLogin w) (HttpProxyPassword w) (RemoteToLocalServerIdleTimeout w)
    (WebsocketProtocol w).
Definition setWebsocketPingFrequency (x : Z) (w : Config) : Config :=
  mkConfig (ListenAddr w) (PathPrefix w) (JWTSecret w) (InsecureNoJWTValidation w) (SocketSoMark w) x
    (WebsocketMaskFrame w) (DnsResolver w) (DnsResolverPreferIpv4 w) (RestrictTo w)
    (RestrictHttpUpgradePathPrefix w) (RestrictConfig w) (Tls w) (TlsCertificate w) (TlsPrivateKey w)
    (TlsClientCaCerts w) (HttpProxy w) (HttpProxyLogin w) (HttpProxyPassword w)
    (RemoteToLocalServerIdleTimeout w) (WebsocketProtocol w).
Definition setRemoteToLocalServerIdleTimeout (x : Z) (w : Config) : Config :=
  mkConfig (ListenAddr w) (PathPrefix w) (JWTSecret w) (InsecureNoJWTValidation w) (SocketSoMark w)
    (WebsocketPingFrequency w) (WebsocketMaskFrame w) (DnsResolver w) (DnsResolverPreferIpv4 w) (RestrictTo w)
    (RestrictHttpUpgradePathPrefix w) (RestrictConfig w) (Tls w) (TlsCertificate w) (TlsPrivateKey w)
    (TlsClientCaCerts w) (HttpProxy w) (HttpProxyLogin w) (HttpProxyPassword w) x (WebsocketProtocol w).
Definition setWebsocketMaskFrame (x : bool) (w : Config) : Config :=
  mkConfig (ListenAddr w) (PathPrefix w) (JWTSecret w) (InsecureNoJWTValidation w) (SocketSoMark w)
    (WebsocketPingFrequency w) x (DnsResolver w) (DnsResolverPreferIpv4 w) (RestrictTo w)
    (RestrictHttpUpgradePathPrefix w) (RestrictConfig w) (Tls w) (TlsCertificate w) (TlsPrivateKey w)
    (TlsClientCaCerts w) (HttpProxy w) (HttpProxyLogin w) (HttpProxyPassword w)
    (RemoteToLocalServerIdleTimeout w) (WebsocketProtocol w).
Definition setRestrictTo (x : list bytes) (w : Config) : Config :=
  mkConfig (ListenAddr w) (PathPrefix w) (JWTSecret w) (InsecureNoJWTValidation w) (SocketSoMark w)
    (WebsocketPingFrequency w) (WebsocketMaskFrame w) (DnsResolver w) (DnsResolverPreferIpv4 w) x
    (RestrictHttpUpgradePathPrefix w) (RestrictConfig w) (Tls w) (TlsCertificate w) (TlsPrivateKey w)
    (TlsClientCaCerts w) (HttpProxy w) (HttpProxyLogin w) (HttpProxyPassword w)
    (RemoteToLocalServerIdleTimeout w) (WebsocketProtocol w).

Definition ArgErr : error := Errorf b#"wrong argument count or unexpected line ending" [].
Definition bad_ping : error := Errorf b#"invalid ping_interval: %v" [].
Definition bad_idle : error := Errorf b#"invalid idle_timeout: %v" [].
Definition unrecognized : error := Errorf b#"unrecognized subdirective '%s'" [].

Section Caddyfile.
Context `{D : Dispenser} (ParseDuration : bytes → option Z).

(** [if !d.NextArg() { return d.ArgErr() }] and then the value. *)
Definition with_arg (d : disp) (k : bytes → go Config) : go (Config * disp) :=
  let '(more, d') := NextArg d in
  if negb more then Err ArgErr else w ← k (Val d'); Ok (w, d').

Definition duration_option (set : Z → Config → Config) (e : error) (w : Config) (v : bytes) : go Config :=
  match ParseDuration v with Some dur => Ok (set dur w) | None => Err e end.

(** The body of the loops: the directive under the cursor. *)
Definition subdirective (d : disp) (w : Config) : go (Config * disp) :=
  let v := Val d in
  if bool_decide (v = b#"mode") then with_arg d (λ a, Ok (setWebsocketProtocol a w))
  else if bool_decide (v = b#"prefix") then with_arg d (λ a, Ok (setPathPrefix (TrimPrefix a b#"/") w))
  else if bool_decide (v = b#"restrict_config") then with_arg d (λ a, Ok (setRestrictConfig a w))
  else if bool_decide (v = b#"ping_interval") then with_arg d (duration_option setWebsocketPingFrequency bad_ping w)
  else if bool_decide (v = b#"idle_timeout") then with_arg d (duration_option setRemoteToLocalServerIdleTimeout bad_idle w)
  else if bool_decide (v = b#"mask_frame") then Ok (setWebsocketMaskFrame true w, d)
  else if bool_decide (v = b#"restrict_to") then
    let '(args, d') := RemainingArgs d in Ok (setRestrictTo (RestrictTo w ++ args) w, d')
  else Err unrecognized.

(** [None]: out of fuel.  One unit per round of either loop. *)
Fixpoint block_loop (fuel : nat) (d : disp) (w : Config) : option (go (Config * disp)) :=
  match fuel with
  | O => None
  | S fuel' =>
      let '(more, d') := NextBlock d in
      if negb more then Some (Ok (w, d'))
      else match subdirective d' w with
           | Ok (w', d'') => block_loop fuel' d'' w'
           | Err e => Some (Err e)
           | Panic => Some Panic
           end
  end.

Fixpoint UnmarshalCaddyfile (fuel : nat) (d : disp) (w : Config) : option (go Config) :=
  match fuel with
  | O => None
  | S fuel' =>
      let '(more, d') := Next d in
      if negb more then Some (Ok w)
      else match block_loop fuel' d' w with
           | None => None
           | Some (Ok (w', d'')) => UnmarshalCaddyfile fuel' d'' w'
           | Some (Err e) => Some (Err e)
           | Some Panic => Some Panic
           end
  end.

(** ** The reference *)

(** What the words of a line do.  An option takes one word; a further word of its line
    is taken as an option again. *)
Fixpoint apply_line (line : list bytes) (w : Config) : go Config :=
  match line with
  | [] => Ok w
  | v :: args =>
      let arg k := match args with [] => Err ArgErr | a :: rest => w' ← k a; apply_line rest w' end in
      if bool_decide (v = b#"mode") then arg (λ a, Ok (setWebsocketProtocol a w))
      else if bool_decide (v = b#"prefix") then arg (λ a, Ok (setPathPrefix (TrimPrefix a b#"/") w))
      else if bool_decide (v = b#"restrict_config") then arg (λ a, Ok (setRestrictConfig a w))
      else if bool_decide (v = b#"ping_interval") then arg (duration_option setWebsocketPingFrequency bad_ping w)
      else if bool_decide (v = b#"idle_timeout") then arg (duration_option setRemoteToLocalServerIdleTimeout bad_idle w)
      else if bool_decide (v = b#"mask_frame") then apply_line args (setWebsocketMaskFrame true w)
      else if bool_decide (v = b#"restrict_to") then Ok (setRestrictTo (RestrictTo w ++ args) w)
      else Err unrecognized
  end.

Fixpoint apply_lines (b : list (list bytes)) (w : Config) : go Config :=
  match b with [] => Ok w | l :: b' => w' ← apply_line l w; apply_lines b' w' end.

(** The words of the lines, one more for each line and each segment. *)
Definition words (b : list (list bytes)) : nat := sum_list (length <$> b).
Definition tokens (segs : list (list (list bytes))) : nat := sum_list ((λ b, 2 + words b)%nat <$> segs).

Context `{DL : !DispenserLaw D}.

Lemma words_cons l b : words (l :: b) = (length l + words b)%nat.
Proof. done. Qed.
Lemma tokens_cons b segs : tokens (b :: segs) = (2 + words b + tokens segs)%nat.
Proof. done. Qed.

Lemma apply_lines_app b1 b2 w : apply_lines (b1 ++ b2) w = w' ← apply_lines b1 w; apply_lines b2 w'.
Proof.
  revert w. induction b1 as [|l b1 IH]; intros w; [done|]. cbn [app apply_lines]. destruct (apply_line l w); cbn [mbind go_bind]; [|done..].
  apply IH.
Qed.

(** An option with its word. *)
Lemma with_arg_ok d args b segs k :
  on_line d args b segs →
  match with_arg d k with
  | Ok (w', d') => ∃ a rest, args = a :: rest ∧ k a = Ok w' ∧ on_line d' rest b segs
  | Err e => match args with [] => e = ArgErr | a :: _ => k a = Err e end
  | Panic => match args with [] => False | a :: _ => k a = Panic end
  end.
Proof.
  intros H. unfold with_arg. destruct args as [|a rest].
  - pose proof (arg_none _ _ _ H) as E. destruct (NextArg d) as [m d']. cbn [fst] in E. by subst m.
  - destruct (arg_word _ _ _ _ _ H) as (d' & -> & -> & Hd). cbn [negb]. destruct (k a) eqn:E; cbn [mbind go_bind]; [|done..]. eauto.
Qed.

(** One directive: what it leaves of the line is still to be applied. *)
Lemma subdirective_ok d args b segs w :
  on_line d args b segs →
  match subdirective d w with
  | Ok (w', d') => ∃ rest, on_line d' rest b segs ∧ (length rest ≤ length args)%nat ∧
                           apply_line (Val d :: args) w = apply_line rest w'
  | Err e => apply_line (Val d :: args) w = Err e
  | Panic => False
  end.
Proof.
  intros H. unfold subdirective. cbn [apply_line].
  repeat match goal with |- context [bool_decide (Val d = ?x)] => destruct (bool_decide (Val d = x)) end; try done.
  1-5: match goal with |- match with_arg _ ?k with _ => _ end =>
         pose proof (with_arg_ok d args b segs k H) as Hw; destruct (with_arg d k) as [[w' d']|e|] end;
       [destruct Hw as (a & rest & -> & Hk & Hd); exists rest; split; [done|]; split; [cbn; lia|]; by rewrite Hk
       |destruct args; [by subst|by rewrite Hw]
       |destruct args; [done|]; by unfold duration_option in Hw; repeat case_match].
  - exists args. split; [done|]. split; [lia|done].
  - destruct (args_rest _ _ _ _ H) as (d' & -> & Hd). exists []. split; [done|]. split; [cbn; lia|done].
Qed.

Lemma block_loop_ok fuel d args b segs w :
  on_line d args b segs → Forall (λ l, l ≠ []) b → (length args + words b < fuel)%nat →
  match w' ← apply_line args w; apply_lines b w' with
  | Ok w' => ∃ d', block_loop fuel d w = Some (Ok (w', d')) ∧ at_start d' segs
  | Err e => block_loop fuel d w = Some (Err e)
  | Panic => False
  end.
Proof.
  revert d args b w. induction fuel as [|fuel IH]; intros d args b w H Hb Hf; [lia|]. cbn [block_loop].
  assert (∀ d' args' b', on_line d' args' b' segs → Forall (λ l, l ≠ []) b' → (length args' + words b' < fuel)%nat →
    match w' ← apply_line (Val d' :: args') w; apply_lines b' w' with
    | Ok w' => ∃ d'', match subdirective d' w with
                      | Ok (w', d'') => block_loop fuel d'' w' | Err e => Some (Err e) | Panic => Some Panic
                      end = Some (Ok (w', d'')) ∧ at_start d'' segs
    | Err e => match subdirective d' w with
               | Ok (w', d'') => block_loop fuel d'' w' | Err e => Some (Err e) | Panic => Some Panic
               end = Some (Err e)
    | Panic => False
    end) as Hword.
  { intros d' args' b' H' Hb' Hf'. pose proof (subdirective_ok d' args' b' segs w H') as Hs.
    destruct (subdirective d' w) as [[w' d'']|e|]; [|by rewrite Hs|done].
    destruct Hs as (rest & Hd & Hl & ->). apply IH; [done..|lia]. }
  destruct args as [|a args].
  - destruct b as [|[|n args] b].
    + destruct (block_end _ _ H) as (d' & -> & Hd). cbn. eauto.
    + by inversion Hb.
    + destruct (block_line _ _ _ _ _ H) as (d' & -> & Hv & Hd). cbn [negb apply_line apply_lines mbind go_bind].
      rewrite <-Hv. apply Hword; [done|by inversion Hb|]. rewrite words_cons in Hf. cbn in Hf. lia.
  - destruct (block_word _ _ _ _ _ H) as (d' & -> & Hv & Hd). cbn [negb]. rewrite <-Hv. apply Hword; [done..|]. cbn in Hf. lia.
Qed.

Lemma unmarshal_lines fuel d segs w :
  at_start d segs → Forall (Forall (λ l, l ≠ [])) segs → (tokens segs < fuel)%nat →
  UnmarshalCaddyfile fuel d w = Some (apply_lines (concat segs) w).
Proof.
  revert d segs w. induction fuel as [|fuel IH]; intros d segs w H Hs Hf; [lia|]. cbn [UnmarshalCaddyfile].
  destruct segs as [|b segs].
  { pose proof (next_none _ H) as E. destruct (Next d) as [m d']. cbn [fst] in E. by subst m. }
  destruct (next_segment _ _ _ H) as (d' & -> & Hd). cbn [negb]. inversion Hs; subst.
  rewrite tokens_cons in Hf.
  pose proof (block_loop_ok fuel d' [] b segs w Hd ltac:(done) ltac:(cbn; lia)) as Hb. cbn [apply_line mbind go_bind] in Hb.
  cbn [concat]. rewrite apply_lines_app. destruct (apply_lines b w) as [w'|e|]; [|by rewrite Hb|done].
  destruct Hb as (d'' & -> & Hd''). cbn [mbind go_bind]. apply IH; [done..|]. lia.
Qed.

(** C35: the module's configuration block is read as written: with the dispenser's
    documented behaviour, and more fuel than the text has words and blocks, the
    parser ends, and what it returns, configuration or error, is what applying the
    lines one after the other gives. *)
Theorem UnmarshalCaddyfile_refines fuel d segs w :
  at_start d segs → Forall (Forall (λ l, l ≠ [])) segs → (tokens segs < fuel)%nat →
  UnmarshalCaddyfile fuel d w = Some (apply_lines (concat segs) w).
Proof. apply unmarshal_lines. Qed.
End Caddyfile.

(** ** A dispenser *)

Record cursor := mkCursor { word : bytes; rest_of_line : list bytes; block : list (list bytes); segments : list (list (list bytes)) }.

#[export] Instance LineDispenser : Dispenser := {|
  disp := cursor;
  Next d := match segments d with
            | b :: segs => (true, mkCursor b#"warpstream" [] b segs)
            | [] => (false, d)
            end;
  NextBlock d := match rest_of_line d, block d with
                 | a :: args, b => (true, mkCursor a args b (segments d))
                 | [], (n :: args) :: b => (true, mkCursor n args b (segments d))
                 | [], _ => (false, d)
                 end;
  Val := word;
  NextArg d := match rest_of_line d with
               | a :: args => (true, mkCursor a args (block d) (segments d))
               | [] => (false, d)
               end;
  RemainingArgs d := (rest_of_line d, mkCursor (word d) [] (block d) (segments d))
|}.

#[export] Instance LineDispenser_law : DispenserLaw LineDispenser.
Proof.
  refine {| at_start d segs := segments d = segs;
            on_line d args b segs := rest_of_line d = args ∧ block d = b ∧ segments d = segs |};
    intros [w l b segs]; cbn; intros; repeat match goal with H : _ ∧ _ |- _ => destruct H end; subst; eauto 10.
Defined.

Definition text (segs : list (list (list bytes))) : cursor := mkCursor [] [] [] segs.

Definition no_config : Config := mkConfig [] [] [] false 0 0 false [] false [] [] [] false [] [] [] [] [] [] 0 [].

(** Durations of the examples: seconds with the unit s. *)
Definition parse_seconds (s : bytes) : option Z :=
  '(n, _) ← Cut s b#"s"; match ParseUint n 31 with (v, None) => Some (v * 10 ^ 9) | _ => None end.

(** The block of the module's documentation. *)
Definition documented_block : list (list bytes) :=
  [[b#"mode"; b#"ws"]; [b#"prefix"; b#"/v1"]; [b#"restrict_config"; b#"/path/to/rules.yaml"]; [b#"ping_interval"; b#"30s"];
   [b#"idle_timeout"; b#"60s"]; [b#"mask_frame"]; [b#"restrict_to"; b#"db:5432"; b#"web:80"]].

Lemma UnmarshalCaddyfile_refines_witness :
  UnmarshalCaddyfile (D:=LineDispenser) parse_seconds 20 (text [documented_block]) no_config =
  Some (Ok (mkConfig [] b#"v1" [] false 0 (30 * 10 ^ 9) true [] false [b#"db:5432"; b#"web:80"] [] b#"/path/to/rules.yaml"
              false [] [] [] [] [] [] (60 * 10 ^ 9) b#"ws")).
Proof.
  rewrite (UnmarshalCaddyfile_refines (D:=LineDispenser) parse_seconds 20 (text [documented_block]) [documented_block]).
  - vm_compute. reflexivity.
  - reflexivity.
  - by repeat constructor.
  - vm_compute. lia.
Defined.

(** An option without its word, and a word too many. *)
Example caddyfile_errors :
  UnmarshalCaddyfile (D:=LineDispenser) parse_seconds 20 (text [[[b#"mode"]]]) no_config = Some (Err ArgErr) ∧
  UnmarshalCaddyfile (D:=LineDispenser) parse_seconds 20 (text [[[b#"mode"; b#"ws"; b#"rust"]]]) no_config = Some (Err unrecognized).
Proof. split; vm_compute; reflexivity. Qed.

(** ** Writing the block *)

Definition caddyfile_of (show : Z → bytes) (w : Config) : list (list bytes) :=
  [[b#"mode"; WebsocketProtocol w]; [b#"prefix"; b#"/" ++ PathPrefix w]; [b#"restrict_config"; RestrictConfig w];
   [b#"ping_interval"; show (WebsocketPingFrequency w)]; [b#"idle_timeout"; show (RemoteToLocalServerIdleTimeout w)]] ++
  (if WebsocketMaskFrame w then [[b#"mask_frame"]] else []) ++ [b#"restrict_to" :: RestrictTo w].

(** Options that the block cannot set. *)
Definition only_other_options (w : Config) : Config :=
  setWebsocketProtocol [] (setPathPrefix [] (setRestrictConfig [] (setWebsocketPingFrequency 0
    (setRemoteToLocalServerIdleTimeout 0 (setWebsocketMaskFrame false (setRestrictTo [] w)))))).

Section lines.
Context (ParseDuration : bytes → option Z) (rest : list bytes) (w : Config).

Lemma line_nil : apply_line ParseDuration [] w = Ok w.
Proof. done. Qed.
Lemma line_mode a : apply_line ParseDuration (b#"mode" :: a :: rest) w = apply_line ParseDuration rest (setWebsocketProtocol a w).
Proof. done. Qed.
Lemma line_prefix a :
  apply_line ParseDuration (b#"prefix" :: a :: rest) w = apply_line ParseDuration rest (setPathPrefix (TrimPrefix a b#"/") w).
Proof. done. Qed.
Lemma line_restrict_config a :
  apply_line ParseDuration (b#"restrict_config" :: a :: rest) w = apply_line ParseDuration rest (setRestrictConfig a w).
Proof. done. Qed.
Lemma line_ping a z : ParseDuration a = Some z →
  apply_line ParseDuration (b#"ping_interval" :: a :: rest) w = apply_line ParseDuration rest (setWebsocketPingFrequency z w).
Proof.
  intros H. transitivity (w' ← duration_option ParseDuration setWebsocketPingFrequency bad_ping w a; apply_line ParseDuration rest w'); [done|].
  unfold duration_option. by rewrite H.
Qed.
Lemma line_idle a z : ParseDuration a = Some z →
  apply_line ParseDuration (b#"idle_timeout" :: a :: rest) w = apply_line ParseDuration rest (setRemoteToLocalServerIdleTimeout z w).
Proof.
  intros H. transitivity (w' ← duration_option ParseDuration setRemoteToLocalServerIdleTimeout bad_idle w a; apply_line ParseDuration rest w'); [done|].
  unfold duration_option. by rewrite H.
Qed.
End lines.

(** Every setting of the seven options can be written as a block that is read back. *)
Theorem caddyfile_roundtrip `{DL : DispenserLaw} ParseDuration show fuel d w :
  at_start d [caddyfile_of show w] → (tokens [caddyfile_of show w] < fuel)%nat →
  ParseDuration (show (WebsocketPingFrequency w)) = Some (WebsocketPingFrequency w) →
  ParseDuration (show (RemoteToLocalServerIdleTimeout w)) = Some (RemoteToLocalServerIdleTimeout w) →
  UnmarshalCaddyfile ParseDuration fuel d (only_other_options w) = Some (Ok w).
Proof.
  intros Hd Hf Hp Hi. rewrite (unmarshal_lines ParseDuration fuel d [caddyfile_of show w]); [|done| |done].
  - f_equal. cbn [concat]. rewrite app_nil_r. unfold caddyfile_of. rewrite !apply_lines_app.
    cbn [apply_lines]. rewrite line_mode, line_nil. cbn [mbind go_bind]. rewrite line_prefix, TrimPrefix_app, line_nil.
    cbn [mbind go_bind]. rewrite line_restrict_config, line_nil. cbn [mbind go_bind].
    rewrite (line_ping _ _ _ _ _ Hp), line_nil. cbn [mbind go_bind]. rewrite (line_idle _ _ _ _ _ Hi), line_nil. cbn [mbind go_bind].
    destruct w as [? ? ? ? ? ping mask ? ? to ? rc ? ? ? ? ? ? ? idle mode].
    by destruct mask.
  - repeat constructor; try done. unfold caddyfile_of. by destruct (WebsocketMaskFrame w); repeat constructor.
Qed.
